(* ===== verification/_CoqProject ===== *)
-Q . S2P
Prelude.v
AntiReplay.v
Sealed.v
BitWindows.v
ReplayWindow.v
WgReplay.v
Reliable.v
Aggfrag.v
Routes.v
Packet.v
Shape.v
Pump.v
Offload.v
Gro.v
PumpGso.v
Pool.v
Admission.v
IkeMessage.v
IkeSA.v
IkeBodies.v
Crypto.v
IkeSuite.v
Dh.v
Eap.v
IkeCookie.v
IkeCert.v
Esp.v
IkeDataPath.v
Fragment.v
IkeSession.v
IkeIntermediate.v
Secured.v
IkeServer.v
IkeAuth.v
IkeChild.v
IkeResponder.v
IkeClient.v
IkeConnect.v
OvpnWire.v
OvpnWrap.v
OvpnControl.v
OvpnKeys.v
OvpnData.v
OvpnServer.v
WgWire.v
WgNoise.v
WgCookie.v
WgTransport.v
WgTunnel.v
WgObfs.v
WgServer.v
WgClient.v
Mschap.v
Ppp.v
PppSession.v
PppServer.v
PppLink.v
