(* ===== verification/Prelude.v ===== *)
(** * A verification of veepin

    veepin is a userspace VPN that speaks many protocols.  Its parts, and how they
    interact:

    - The data plane ([dataplane/]) owns the TUN device.  A [Pump] routes outbound
      packets through a longest-prefix-match table to a tunnel, has the tunnel
      encapsulate them, and hands inbound datagrams to the tunnel their key names.
      Around it sit path-MTU arithmetic and ICMP errors, downstream shaping, the
      address pools and the handshake admission gate.
    - Each protocol implements the tunnel interface of the pump.  IKEv2
      ([internal/ikev2/]) negotiates a suite, derives keys, runs protected
      exchanges (fragmented when large) and produces Child SAs; a Child SA becomes
      an ESP security association that encapsulates and decapsulates, plainly or
      through AGGFRAG payloads.  OpenVPN's control channel runs over its own
      reliability layer.
    - Six replay windows guard the receiving side of the protocols.

    ** Files

    - Prelude (this file): machine integers at their width ([wrap], [uint]), the
      [result] type of fallible functions, byte strings with Go's indexing, slicing
      and [encoding/binary], buffers written in place ([blit]), the rewriting
      database [wire] and the tactics [by_decision] and [solve_bytes].
    - AntiReplay: the contract of a replay window.  An abstract filter over the set
      of accepted counters, the class [AntiReplay] of windows and the class
      [AntiReplayOk] of windows that simulate the abstract filter, with the theorems
      about packet sequences proved once against the class.
    - ReplayWindow ([internal/replay/replay.go]), WgReplay
      ([internal/wireguard/transport/replay.go]) and BitWindows (the 64-bit bitmaps
      of [internal/ikev2/esp/esp.go], [internal/dtls/record.go],
      [internal/openvpn/data/data.go] and [internal/openvpn/tlswrap/tlswrap.go]):
      the six windows at their integer widths, each discharging [AntiReplayOk].
    - Reliable ([internal/openvpn/reliable/reliable.go]): sender and receiver of the
      control channel, and the step relation of the two joined by a network that
      loses, duplicates and reorders.
    - Aggfrag ([internal/ikev2/aggfrag/codec.go]): packer and reassembler of IP-TFS
      payloads.
    - Routes ([dataplane/routes.go]): the two path tries.
    - Packet ([dataplane/mtu.go], [icmp.go], [icmp6.go], and the packet inspection of
      [pump.go], [source.go] and [shape.go]): addresses, checksums, ICMP errors.
    - Shape ([dataplane/shape.go]): per-flow padding.
    - Pump ([dataplane/pump.go], [counters.go], [source.go]): the pump as programs of
      a state monad over its tables, its counters and the outside world, against the
      class [Tunnels] of tunnel implementations.
    - Pool ([dataplane/pool.go], [pool6.go]) and Admission
      ([dataplane/admission.go], its token buckets in IEEE 754 binary64).
    - IkeMessage, IkeSA, IkeBodies ([internal/ikev2/payload/]): the IKEv2 codec.
    - Crypto ([internal/cryptoutil/cipher.go], [espcrypt.go], [prf.go]): how the
      ciphers frame what they protect.  The primitives (AEAD, CBC, HMAC) are the
      class [Prims]; [PrimsOk] states their documented laws (opening undoes sealing,
      lengths), and [toy_prims] is an instance that satisfies them.
    - IkeSuite ([internal/ikev2/transform/], [internal/ikev2/ike/suite.go],
      [keymat.go], [auth.go]): negotiation and keys.
    - Fragment ([internal/ikev2/ike/sk.go], [fragment.go]) and Secured
      ([secured.go], the SA of [session.go]): protected messages, fragmentation and
      the gate in front of the exchange handlers.
    - Esp ([internal/ikev2/esp/esp.go], [internal/ikev2/ike/espbridge.go]): the ESP
      data path, built on BitWindows, Crypto and IkeSuite.

    A definition has the name of the Go function, method or type it translates;
    loops are fixpoints named after their function.  A struct is a record, a method
    that changes its receiver returns the new one, an error is a value of [result],
    and what the code reads from outside (a clock, a random IV) is an argument.

    ** What the theorems show

    - Replay: every window accepts exactly what the abstract filter of its span
      accepts, so never a counter twice and nothing lost to reordering inside the
      span.  The shared window does not return on counter 2^64-1
      ([Accept_diverges_at_max]).
    - Delivery: OpenVPN's receiver delivers at every moment a prefix of what was
      queued, and a quiescent sender has had everything delivered.  AGGFRAG payloads
      of any sizes deliver the queued packets unchanged, and enough of them flush
      the queue.  An ESP session over an arbitrary network delivers each packet at
      most once and unchanged ([esp_session]).  A fragmented IKE message reassembles
      whatever the order and the duplicates ([fragment_roundtrip]).
    - Authentication: nothing an unauthenticated datagram carries moves an address, a
      counter, a clock or a window (the pump, the ESP data path, the IKE responder),
      and no exchange reaches its handler in a state that does not allow it.
    - Routing and accounting: lookups are longest-prefix match after any updates,
      every outbound packet is accounted for exactly once, and a tunnel replaced by
      another leaves every route with its successor and the traffic totals unchanged.
    - Codecs: marshalled messages, SA payloads and payload bodies parse back
      unchanged, and parsing returns on every input, inside the buffer.
    - Negotiation: the peer resolves the same suite from the reply, and the derived
      keys are disjoint pieces of one stream with the lengths the suite needs.
    - Bounds: reassembly, flow, handshake and sequence-number state are bounded on
      every input; every datagram of a fragmented message fits 1280 octets.
    - Pools hand out the lowest free address; the IPv6 pool is stuck once it has
      reached the all-ones address ([AddrPool6_stuck_at_top]).  A repeated empty
      fragment is counted twice ([empty_fragment_counted_twice]).

    ** Fuel

    A loop whose termination is not structural takes fuel and returns [None] without
    it.  The chain and body parsers get one unit per octet of the buffer and consume
    at least one octet per turn; the AGGFRAG walk gets one per octet; the in-order
    delivery of Reliable gets one per buffered message; prf+ one per octet asked
    for; the pools' scans one more than there are addresses in use.  In each case a
    lemma of the file proves that this is enough.  [ReplayWindow.Accept] alone is stated
    for every amount of fuel, because it really can diverge.

    ** What is not modelled

    Cryptographic primitives and Diffie-Hellman (parameters), devices, sockets,
    system routes and DNS (system calls), GSO/GRO batching, goroutine scheduling
    (mutex-protected sections run one at a time), buffer reuse where it changes no
    value, logging and the command line; the exchange handlers of IKEv2 and the
    other protocols ([internal/wireguard], [openvpn], [l2tp], [ppp], [ikev1],
    [nebula], [masque], [softether] and the TLS-based ones) beyond the windows above. *)
From Stdlib Require Import ZArith Lia.
From Stdlib Require Ascii String.
From stdpp Require Import base list gmap.

Declare Scope veepin_scope.
Delimit Scope veepin_scope with veepin.
Global Open Scope Z_scope.
Global Open Scope veepin_scope.

(** ** Record update

    [r <| p := v |>] is the record [r] with [v] in the field [p].  A record gives its
    eta expansion as an instance of [Eta]; the setters are found from it. *)

Class Eta (R : Type) := eta : R -> R.
Class Setter {R T : Type} (p : R -> T) := set_field : (T -> T) -> R -> R.
Arguments set_field {R T} p {_} f r.

Ltac find_setter :=
  lazymatch goal with
  | |- @Setter ?R ?T ?p =>
      let e := constr:(_ : Eta R) in
      let f := fresh "f" in
      let r := fresh "r" in
      intros f r;
      let t := eval hnf in (e r) in
      lazymatch eval pattern (p r) in t with ?g _ => let v := eval cbv beta in (g (f (p r))) in exact v end
  end.

#[export] Hint Extern 1 (Setter _) => find_setter : typeclass_instances.

Notation "r <| p := v |>" := (set_field p (fun _ => v) r) (at level 1, p at level 0, v at level 200, format "r  <|  p  :=  v  |>") : veepin_scope.

(** ** Machine integers

    A Go [uintN] is a [Z] in [[0, 2^N)].  [wrap] is the conversion that Go's
    fixed-width arithmetic performs after every operation. *)

Definition wrap (w x : Z) : Z := x mod 2 ^ w.

Definition uint (w x : Z) : Prop := 0 <= x < 2 ^ w.

Abbreviation uint8 := (uint 8).
Abbreviation uint16 := (uint 16).
Abbreviation uint32 := (uint 32).
Abbreviation uint64 := (uint 64).

#[global] Instance uint_dec w x : Decision (uint w x).
Proof. unfold uint. apply _. Defined.

Lemma wrap_small w x : uint w x -> wrap w x = x.
Proof. unfold uint, wrap. intros. by apply Z.mod_small. Qed.

Lemma wrap_uint w x : 0 <= w -> uint w (wrap w x).
Proof. intros. unfold uint, wrap. apply Z.mod_pos_bound. by apply Z.pow_pos_nonneg. Qed.

(** [time.Time.Sub]: the difference of two instants in nanoseconds, saturated
    to the range of [time.Duration]. *)
Definition time_sub (t u : Z) : Z := Z.max (- 2 ^ 63) (Z.min (2 ^ 63 - 1) (t - u)).

(** ** Results of fallible Go functions *)

Inductive result (E A : Type) : Type :=
| Ok (a : A)
| Err (e : E).
Arguments Ok {E A} _.
Arguments Err {E A} _.

Lemma Ok_inj {E A} (a b : A) : @Ok E A a = Ok b -> a = b.
Proof. congruence. Qed.

Definition rbind {E A B} (r : result E A) (k : A -> result E B) : result E B :=
  match r with
  | Ok a => k a
  | Err e => Err e
  end.

Notation "'let*' x ':=' r 'in' k" := (rbind r (fun x => k))
  (at level 10, x pattern, r at level 100, k at level 200) : veepin_scope.

Definition is_ok {E A} (r : result E A) : bool :=
  match r with Ok _ => true | Err _ => false end.

Lemma rbind_ok {E A B} (r : result E A) (k : A -> result E B) b :
  rbind r k = Ok b -> exists a, r = Ok a /\ k a = Ok b.
Proof. destruct r; simpl; naive_solver. Qed.

(** ** Methods that mutate their receiver and may fail

    [SE E S A] is a method on an [S] returning an [A] or an error: what it wrote
    before failing stays written. *)

Definition SE (E S A : Type) : Type := S -> result E A * S.

Definition se_ret {E S A} (a : A) : SE E S A := fun s => (Ok a, s).
Definition se_fail {E S A} (e : E) : SE E S A := fun s => (Err e, s).
Definition se_gets {E S A} (f : S -> A) : SE E S A := fun s => (Ok (f s), s).
Definition se_modify {E S} (f : S -> S) : SE E S () := fun s => (Ok (), f s).
Definition se_lift {E S A} (r : result E A) : SE E S A := fun s => (r, s).
Definition se_bind {E S A B} (m : SE E S A) (k : A -> SE E S B) : SE E S B := fun s =>
  match m s with
  | (Ok a, s') => k a s'
  | (Err e, s') => (Err e, s')
  end.

Lemma se_bind_ok {E S A B} (m : SE E S A) (k : A -> SE E S B) s a s' :
  m s = (Ok a, s') -> se_bind m k s = k a s'.
Proof. unfold se_bind. by intros ->. Qed.

Lemma se_bind_err {E S A B} (m : SE E S A) (k : A -> SE E S B) s e s' :
  m s = (Err e, s') -> se_bind m k s = (Err e, s').
Proof. unfold se_bind. by intros ->. Qed.

Lemma se_bind_inv {E S A B} (m : SE E S A) (k : A -> SE E S B) s b s' :
  se_bind m k s = (Ok b, s') -> exists a s1, m s = (Ok a, s1) /\ k a s1 = (Ok b, s').
Proof. unfold se_bind. destruct (m s) as [[a|e] s1]; [|done]. by exists a, s1. Qed.

Notation "'let!' x ':=' m 'in' k" := (se_bind m (fun x => k))
  (at level 10, x pattern, m at level 100, k at level 200) : veepin_scope.
Notation "m ';;!' k" := (se_bind m (fun _ => k)) (at level 100, right associativity) : veepin_scope.

(** ** Byte strings *)

Abbreviation bytes := (list Z) (only parsing).

Definition bytes_ok (l : bytes) : Prop := Forall (fun b => 0 <= b < 256) l.

#[global] Instance bytes_ok_dec l : Decision (bytes_ok l).
Proof. unfold bytes_ok. apply _. Defined.

(** Go's [b[i]]: the models guard every access with the length test the source
    makes, so the default is never read on a path that succeeds. *)
Definition at_ (l : bytes) (i : nat) : Z := default 0 (l !! i).

(** The octets of a Go string constant. *)
Definition str (s : String.string) : bytes := (fun a => Z.of_N (Ascii.N_of_ascii a)) <$> String.list_ascii_of_string s.
Arguments str s%_string_scope.

(** Go's [b[i:j]]. *)
Definition slice (l : bytes) (i j : nat) : bytes := take (j - i) (drop i l).

(** Go's [copy(dst, src)] onto the front of [dst], cut at the shorter of the two. *)
Definition go_copy (dst src : bytes) : bytes := take (length dst) (src ++ drop (length src) dst).

(** Big-endian and little-endian fixed-width encodings ([encoding/binary]). *)
Fixpoint be_enc (n : nat) (x : Z) : bytes :=
  match n with
  | O => []
  | S n' => (x / 256 ^ Z.of_nat n') mod 256 :: be_enc n' x
  end.

Fixpoint be_dec (l : bytes) : Z :=
  match l with
  | [] => 0
  | b :: l' => b * 256 ^ Z.of_nat (length l') + be_dec l'
  end.

Fixpoint le_enc (n : nat) (x : Z) : bytes :=
  match n with
  | O => []
  | S n' => x mod 256 :: le_enc n' (x / 256)
  end.

Fixpoint le_dec (l : bytes) : Z :=
  match l with
  | [] => 0
  | b :: l' => b + 256 * le_dec l'
  end.

Lemma pow256_pos n : 0 < 256 ^ Z.of_nat n.
Proof. apply Z.pow_pos_nonneg; lia. Qed.

Lemma pow256_S n : 256 ^ Z.of_nat (S n) = 256 * 256 ^ Z.of_nat n.
Proof. rewrite Nat2Z.inj_succ, Z.pow_succ_r; lia. Qed.

Lemma pow256_2 n : 256 ^ Z.of_nat n = 2 ^ (8 * Z.of_nat n).
Proof. rewrite Z.pow_mul_r by lia. done. Qed.

Lemma length_be_enc n x : length (be_enc n x) = n.
Proof. induction n; simpl; congruence. Qed.

Lemma length_le_enc n x : length (le_enc n x) = n.
Proof. revert x; induction n; simpl; intros; f_equal; auto. Qed.

Lemma be_enc_ok n x : bytes_ok (be_enc n x).
Proof.
  induction n; simpl; constructor; auto. apply Z.mod_pos_bound; lia.
Qed.

Lemma le_enc_ok n x : bytes_ok (le_enc n x).
Proof.
  revert x; induction n; simpl; intros; constructor; auto; try apply IHn.
  apply Z.mod_pos_bound; lia.
Qed.

Lemma be_dec_range l : bytes_ok l -> 0 <= be_dec l < 256 ^ Z.of_nat (length l).
Proof.
  induction 1 as [|b l Hb _ IH]; cbn [be_dec length]; [simpl; lia|].
  rewrite pow256_S. pose proof (pow256_pos (length l)). nia.
Qed.

Lemma le_dec_range l : bytes_ok l -> 0 <= le_dec l < 256 ^ Z.of_nat (length l).
Proof.
  induction 1 as [|b l Hb _ IH]; cbn [le_dec length]; [simpl; lia|].
  rewrite pow256_S. pose proof (pow256_pos (length l)). nia.
Qed.

Lemma be_dec_enc n x : be_dec (be_enc n x) = x mod 256 ^ Z.of_nat n.
Proof.
  induction n; cbn [be_dec be_enc]; [by rewrite Z.mod_1_r|].
  rewrite length_be_enc, IHn, pow256_S. pose proof (pow256_pos n).
  rewrite (Z.mul_comm 256), Z.rem_mul_r by lia. lia.
Qed.

Lemma le_dec_enc n x : le_dec (le_enc n x) = x mod 256 ^ Z.of_nat n.
Proof.
  revert x; induction n; intros x; cbn [le_dec le_enc]; [by rewrite Z.mod_1_r|].
  rewrite IHn, pow256_S. pose proof (pow256_pos n).
  rewrite Z.rem_mul_r by lia. lia.
Qed.

Lemma be_enc_mod n x k : be_enc n (x + k * 256 ^ Z.of_nat n) = be_enc n x.
Proof.
  revert x k; induction n; intros x k; cbn [be_enc]; [done|].
  pose proof (pow256_pos n). f_equal.
  - rewrite pow256_S, Z.mul_assoc, Z.div_add by lia.
    rewrite (Z.mul_comm k), Z.mul_comm, Z.add_comm.
    rewrite Z.mul_comm, (Z.mul_comm 256), Z.add_comm. by rewrite Z_mod_plus_full.
  - rewrite pow256_S, Z.mul_assoc. apply IHn.
Qed.

Lemma be_enc_dec l : bytes_ok l -> be_enc (length l) (be_dec l) = l.
Proof.
  induction 1 as [|b l Hb Hl IH]; cbn [be_dec be_enc length]; [done|].
  pose proof (be_dec_range l Hl). f_equal.
  - rewrite Z.div_add_l, Z.div_small by lia. rewrite Z.add_0_r. by apply Z.mod_small.
  - rewrite Z.add_comm, be_enc_mod. done.
Qed.

Lemma le_enc_dec l : bytes_ok l -> le_enc (length l) (le_dec l) = l.
Proof.
  induction 1 as [|b l Hb Hl IH]; cbn [le_dec le_enc length]; [done|]. f_equal.
  - rewrite (Z.mul_comm 256), Z_mod_plus_full. by apply Z.mod_small.
  - rewrite (Z.mul_comm 256), Z.div_add, Z.div_small by lia. rewrite Z.add_0_l. done.
Qed.

Lemma be_dec_enc_small n x : uint (8 * Z.of_nat n) x -> be_dec (be_enc n x) = x.
Proof. intros H. rewrite be_dec_enc, pow256_2. by apply Z.mod_small. Qed.

Lemma uint_testbit_high w x i : 0 <= w -> uint w x -> w <= i -> Z.testbit x i = false.
Proof.
  intros Hw Hx Hi. rewrite <- (wrap_small w x Hx). unfold wrap. apply Z.mod_pow2_bits_high. lia.
Qed.

(** Two octets put together with shifts. *)
Lemma byte_pair x y : 0 <= x -> 0 <= y < 256 -> Z.lor (Z.shiftl x 8) y = x * 256 + y.
Proof.
  intros Hx Hy. rewrite <- Z.lxor_lor, <- Z.add_nocarry_lxor, Z.shiftl_mul_pow2; [done|lia|..].
  all: apply Z.bits_inj'; intros n Hn; rewrite Z.land_spec, Z.bits_0; destruct (Z.ltb_spec n 8) as [H|H];
    [by rewrite Z.shiftl_spec_low|rewrite (uint_testbit_high 8 y n), andb_false_r by (done || lia); done].
Qed.

Lemma be_dec_app a b : be_dec (a ++ b) = be_dec a * 256 ^ Z.of_nat (length b) + be_dec b.
Proof.
  induction a as [|x a IH]; cbn [be_dec app]; [lia|]. rewrite IH, length_app, Nat2Z.inj_add, Z.pow_add_r by lia. lia.
Qed.

Lemma le_dec_enc_small n x : uint (8 * Z.of_nat n) x -> le_dec (le_enc n x) = x.
Proof. intros H. rewrite le_dec_enc, pow256_2. by apply Z.mod_small. Qed.

(** ** Buffers written in place

    [blit b off src] is Go's [copy(b[off:], src)] for a source that fits; the
    marshallers below write their fields this way, so that a byte no statement
    writes keeps what the caller's buffer held. *)

Definition blit (b : bytes) (off : nat) (src : bytes) : bytes :=
  take off b ++ src ++ drop (off + length src) b.

Lemma lookup_slice l i j k :
  slice l i j !! k = if decide (k < j - i)%nat then l !! (i + k)%nat else None.
Proof.
  unfold slice. case_decide.
  - rewrite lookup_take_lt, lookup_drop by done. done.
  - apply lookup_take_ge. lia.
Qed.

Lemma lookup_blit b off src k :
  (off + length src <= length b)%nat ->
  blit b off src !! k =
    if decide (k < off)%nat then b !! k
    else if decide (k < off + length src)%nat then src !! (k - off)%nat else b !! k.
Proof.
  intros Hf. unfold blit.
  assert (Ht : length (take off b) = off) by (rewrite length_take; lia).
  repeat case_decide.
  - rewrite lookup_app_l by lia. by apply lookup_take_lt.
  - rewrite lookup_app_r, Ht, lookup_app_l by lia. done.
  - rewrite lookup_app_r, Ht, lookup_app_r, lookup_drop by lia. f_equal. lia.
Qed.

Lemma length_slice l i j : (j <= length l)%nat -> length (slice l i j) = (j - i)%nat.
Proof. intros. unfold slice. rewrite length_take, length_drop. lia. Qed.

Lemma length_blit b off src :
  (off + length src <= length b)%nat -> length (blit b off src) = length b.
Proof. intros. unfold blit. rewrite !length_app, length_take, length_drop. lia. Qed.

Lemma slice_blit_eq b off src j :
  (off + length src <= length b)%nat -> j = (off + length src)%nat ->
  slice (blit b off src) off j = src.
Proof.
  intros Hf ->. apply list_eq. intros k. rewrite lookup_slice, lookup_blit by done.
  repeat case_decide; try lia; [f_equal; lia|].
  symmetry. apply lookup_ge_None. lia.
Qed.

Lemma slice_blit_before b off src i j :
  (off + length src <= length b)%nat -> (j <= off)%nat ->
  slice (blit b off src) i j = slice b i j.
Proof.
  intros Hf Hj. apply list_eq. intros k. rewrite !lookup_slice, lookup_blit by done.
  repeat case_decide; try lia; done.
Qed.

Lemma slice_blit_after b off src i j :
  (off + length src <= length b)%nat -> (off + length src <= i)%nat ->
  slice (blit b off src) i j = slice b i j.
Proof.
  intros Hf Hj. apply list_eq. intros k. rewrite !lookup_slice, lookup_blit by done.
  repeat case_decide; try lia; done.
Qed.

Lemma at_blit_in b off src i :
  (off + length src <= length b)%nat -> (off <= i)%nat -> (i < off + length src)%nat ->
  at_ (blit b off src) i = at_ src (i - off).
Proof. intros. unfold at_. rewrite lookup_blit by done. repeat case_decide; by try lia. Qed.

Lemma at_blit_before b off src i :
  (off + length src <= length b)%nat -> (i < off)%nat ->
  at_ (blit b off src) i = at_ b i.
Proof. intros. unfold at_. rewrite lookup_blit by done. repeat case_decide; by try lia. Qed.

Lemma at_blit_after b off src i :
  (off + length src <= length b)%nat -> (off + length src <= i)%nat ->
  at_ (blit b off src) i = at_ b i.
Proof. intros. unfold at_. rewrite lookup_blit by done. repeat case_decide; by try lia. Qed.

Lemma take_as_slice l j : take j l = slice l 0 j.
Proof. unfold slice. by rewrite drop_0, Nat.sub_0_r. Qed.

Lemma drop_as_slice l i : drop i l = slice l i (length l).
Proof. unfold slice. symmetry. apply take_ge. rewrite length_drop. lia. Qed.

Lemma slice_slice l i j a b :
  (b <= j - i)%nat -> slice (slice l i j) a b = slice l (i + a) (i + b).
Proof.
  intros. apply list_eq. intros k. rewrite !lookup_slice.
  repeat case_decide; try lia; [f_equal; lia|done].
Qed.

Lemma slice_app_l (l1 l2 : bytes) i j :
  (j <= length l1)%nat -> slice (l1 ++ l2) i j = slice l1 i j.
Proof.
  intros. apply list_eq. intros k. rewrite !lookup_slice. case_decide; [|done].
  apply lookup_app_l. lia.
Qed.

Lemma slice_app_r (l1 l2 : bytes) i j :
  (length l1 <= i)%nat -> slice (l1 ++ l2) i j = slice l2 (i - length l1) (j - length l1).
Proof.
  intros. apply list_eq. intros k. rewrite !lookup_slice.
  repeat case_decide; try lia; [|done].
  rewrite lookup_app_r by lia. f_equal. lia.
Qed.

Lemma slice_all (l : bytes) j : (length l <= j)%nat -> slice l 0 j = l.
Proof. intros. unfold slice. rewrite drop_0. apply take_ge. lia. Qed.

Lemma at_app_l (l1 l2 : bytes) i : (i < length l1)%nat -> at_ (l1 ++ l2) i = at_ l1 i.
Proof. intros. unfold at_. by rewrite lookup_app_l. Qed.

Lemma at_app_r (l1 l2 : bytes) i :
  (length l1 <= i)%nat -> at_ (l1 ++ l2) i = at_ l2 (i - length l1).
Proof. intros. unfold at_. by rewrite lookup_app_r. Qed.

Lemma at_bytes_ok l i : bytes_ok l -> 0 <= at_ l i < 256.
Proof.
  intros H. unfold at_. destruct (l !! i) as [b|] eqn:E; simpl; [|lia].
  eapply Forall_lookup_1 in H; eauto.
Qed.

Lemma slice_ok l i j : bytes_ok l -> bytes_ok (slice l i j).
Proof. intros. by apply Forall_take, Forall_drop. Qed.

Lemma blit_ok b off src : bytes_ok b -> bytes_ok src -> bytes_ok (blit b off src).
Proof. intros. apply Forall_app; split; [by apply Forall_take|]. apply Forall_app; split; [done|by apply Forall_drop]. Qed.

Lemma at_slice l i j k : (k < j - i)%nat -> at_ (slice l i j) k = at_ l (i + k).
Proof. intros. unfold at_. by rewrite lookup_slice, decide_True. Qed.

Lemma slice_drop l i a b : slice l (i + a) (i + b) = slice (drop i l) a b.
Proof. unfold slice. rewrite drop_drop. f_equal. lia. Qed.

Lemma slice_0_app (l1 l2 : bytes) : slice (l1 ++ l2) 0 (length l1) = l1.
Proof. rewrite slice_app_l, slice_all by lia. done. Qed.

Lemma go_copy_full dst src : length src = length dst -> go_copy dst src = src.
Proof. intros E. unfold go_copy. rewrite drop_ge, app_nil_r, take_ge by lia. done. Qed.

Lemma length_go_copy dst src : length (go_copy dst src) = length dst.
Proof. unfold go_copy. rewrite length_take, length_app, length_drop. lia. Qed.

Lemma slice_hd n (l1 l2 : bytes) : length l1 = n -> slice (l1 ++ l2) 0 n = l1.
Proof. intros <-. apply slice_0_app. Qed.

Lemma slice_skip n (l1 l2 : bytes) i j :
  length l1 = n /\ (n <= i)%nat -> slice (l1 ++ l2) i j = slice l2 (i - n) (j - n).
Proof. intros [<- ?]. by apply slice_app_r. Qed.

Lemma blit_mid (a b c x : bytes) n :
  n = length a -> length x = length b -> blit (a ++ b ++ c) n x = a ++ x ++ c.
Proof.
  intros -> E. unfold blit. rewrite take_app_length. f_equal. f_equal.
  rewrite E, <- length_app, app_assoc, drop_app_length. done.
Qed.

Lemma blit_blit b off s1 s2 :
  length s1 = length s2 -> (off + length s1 <= length b)%nat -> blit (blit b off s1) off s2 = blit b off s2.
Proof.
  intros E H. apply list_eq. intros k. rewrite !lookup_blit by (rewrite ?length_blit; lia).
  repeat case_decide; try lia; done.
Qed.

Lemma blit_slice_id (p : bytes) off n : (off + n <= length p)%nat -> blit p off (slice p off (off + n)) = p.
Proof.
  intros H. unfold blit. rewrite length_slice by lia. replace (off + (off + n - off))%nat with (off + n)%nat by lia.
  unfold slice. replace (off + n - off)%nat with n by lia. rewrite <- (take_drop off p) at 4. f_equal.
  rewrite <- (take_drop n (drop off p)) at 2. f_equal. by rewrite drop_drop.
Qed.

Lemma replicate0_ok n : bytes_ok (replicate n 0).
Proof. apply Forall_replicate. lia. Qed.

(** The padding octets 1, 2, ..., [n] that ESP and IKE both use. *)
Definition count_pad (n : nat) : bytes := (fun i => wrap 8 (Z.of_nat i + 1)) <$> seq 0 n.

Lemma length_count_pad n : length (count_pad n) = n.
Proof. unfold count_pad. by rewrite length_fmap, length_seq. Qed.

Create HintDb veepin.
#[export] Hint Resolve replicate0_ok slice_ok blit_ok be_enc_ok le_enc_ok wrap_uint at_bytes_ok : veepin.

Create Rewrite HintDb wire.
#[export] Hint Rewrite length_be_enc length_le_enc @length_app @length_cons @length_nil @length_replicate : wire.
#[export] Hint Rewrite length_blit using (autorewrite with wire; lia) : wire.
#[export] Hint Rewrite slice_blit_eq slice_blit_before slice_blit_after
  at_blit_in at_blit_before at_blit_after using (autorewrite with wire; lia) : wire.

#[export] Hint Rewrite length_slice slice_slice at_slice using (autorewrite with wire; lia) : wire.

(** The length of a field, from the context or its encoding. *)
Ltac field_len := first [eassumption | apply length_le_enc | apply length_be_enc | cbn [length]; reflexivity].

(** Reads the fields of a message given as the concatenation of its fields. *)
Ltac cut_fields :=
  repeat first
    [ erewrite slice_hd by field_len
    | erewrite slice_skip by (split; [field_len | lia]); cbn [Nat.sub]
    | rewrite slice_all by (autorewrite with wire; lia) ].

(** Closed decidable goals, by evaluation of their decision procedure. *)
Ltac by_decision :=
  match goal with |- ?P => refine (bool_decide_unpack P _); vm_compute; exact I end.

(** Buffers put together from well-formed parts hold bytes. *)
Ltac solve_bytes :=
  repeat first
    [ assumption | apply blit_ok | apply be_enc_ok | apply le_enc_ok | apply slice_ok | apply replicate0_ok
    | apply Forall_nil_2 | apply Forall_cons_2 | apply Forall_app_2 | by_decision | progress simpl; lia ].
