(* ===== verification/AntiReplay.v ===== *)
(** * The anti-replay contract

    veepin carries six sliding-window replay filters ([internal/replay],
    [internal/wireguard/transport], [internal/ikev2/esp], [internal/dtls] and two
    in [internal/openvpn]).  This file states what every one of them promises:
    an abstract filter over the set of counters accepted so far ([hist]), the
    class [AntiReplay] of filters with an initial state and a step, and the class
    [AntiReplayOk] of filters that simulate the abstract one.  The theorems about
    whole packet sequences are proved here once, against the class, and each
    window's file discharges it. *)
From Stdlib Require Import ZArith Lia.
From stdpp Require Import base list gmap.
From S2P Require Import Prelude.

(** ** The abstract filter *)

Record hist := Hist { h_top : Z; h_seen : gset Z }.

Definition hist0 : hist := Hist 0 ∅.

Section Spec.
(** [span]: how many counters, the highest included, are still judged;
    [allowed]: the counters the protocol allows at all. *)
Context (span : Z) (allowed : Z -> bool).

Definition spec_fresh (h : hist) (c : Z) : bool :=
  allowed c && bool_decide (c ∉ h_seen h) && bool_decide (h_top h - c < span).

Definition spec_accept (h : hist) (c : Z) : bool * hist :=
  if spec_fresh h c then (true, Hist (Z.max (h_top h) c) ({[c]} ∪ h_seen h)) else (false, h).

(** The counters of a packet sequence that the filter lets through. *)
Fixpoint spec_accepted (h : hist) (cs : list Z) : list Z :=
  match cs with
  | [] => []
  | c :: cs' =>
      let '(b, h') := spec_accept h c in
      (if b then [c] else []) ++ spec_accepted h' cs'
  end.

Lemma spec_accept_seen h c x :
  x ∈ h_seen h -> x ∈ h_seen (spec_accept h c).2.
Proof. unfold spec_accept. destruct (spec_fresh h c); set_solver. Qed.

Lemma spec_accepted_not_seen h cs x :
  x ∈ spec_accepted h cs -> x ∉ h_seen h.
Proof.
  revert h. induction cs as [|c cs IH]; intros h; simpl; [by rewrite elem_of_nil|].
  destruct (spec_accept h c) as [b h'] eqn:E.
  intros [Hx|Hx]%elem_of_app.
  - destruct b; [|by apply elem_of_nil in Hx]. apply list_elem_of_singleton in Hx as ->.
    unfold spec_accept in E. destruct (spec_fresh h c) eqn:F; [|done].
    unfold spec_fresh in F. rewrite !andb_true_iff, !bool_decide_eq_true in F. tauto.
  - apply IH in Hx. intros Hin. apply Hx.
    pose proof (spec_accept_seen h c x Hin). by rewrite E in *.
Qed.

Lemma spec_accepted_NoDup h cs : NoDup (spec_accepted h cs).
Proof.
  revert h. induction cs as [|c cs IH]; intros h; simpl; [constructor|].
  destruct (spec_accept h c) as [b h'] eqn:E.
  destruct b; simpl; [|apply IH]. constructor; [|apply IH].
  intros Hx%spec_accepted_not_seen. apply Hx.
  unfold spec_accept in E. destruct (spec_fresh h c); simplify_eq. set_solver.
Qed.

(** Reordering inside the window loses nothing: a sequence of distinct
    admissible counters, none older than [span] behind the highest before it,
    is accepted whole. *)
Fixpoint in_window (top : Z) (cs : list Z) : Prop :=
  match cs with
  | [] => True
  | c :: cs' => top - c < span /\ in_window (Z.max top c) cs'
  end.

Lemma spec_accepted_all h cs :
  NoDup cs -> Forall (fun c => allowed c = true /\ c ∉ h_seen h) cs ->
  in_window (h_top h) cs -> spec_accepted h cs = cs.
Proof.
  revert h. induction cs as [|c cs IH]; intros h Hnd Hf Hw; simpl; [done|].
  apply NoDup_cons in Hnd as [Hc Hnd]. apply Forall_cons in Hf as [[Ha Hs] Hf].
  destruct Hw as [Hw1 Hw2].
  assert (F : spec_fresh h c = true).
  { unfold spec_fresh. rewrite Ha, !bool_decide_true by done. done. }
  unfold spec_accept. rewrite F. simpl. f_equal. apply IH; [done| |done].
  eapply Forall_impl; [apply Forall_and; split; [exact Hf|]|].
  - apply Forall_forall with (P := fun x => x <> c). intros x Hx ->. done.
  - simpl. set_solver.
Qed.
End Spec.

(** ** Filters and what they promise *)

Class AntiReplay (W : Type) := {
  ar_init : W;
  ar_step : W -> Z -> bool * W;
}.

Fixpoint ar_accepted {W} `{AntiReplay W} (w : W) (cs : list Z) : list Z :=
  match cs with
  | [] => []
  | c :: cs' =>
      let '(b, w') := ar_step w c in
      (if b then [c] else []) ++ ar_accepted w' cs'
  end.

Class AntiReplayOk (W : Type) `{AntiReplay W} (span : Z) (allowed : Z -> bool) (dom : Z -> Prop) := {
  ar_rel : W -> hist -> Prop;
  ar_rel_init : ar_rel ar_init hist0;
  ar_rel_step w h c :
    ar_rel w h -> dom c ->
    (ar_step w c).1 = (spec_accept span allowed h c).1 /\
    ar_rel (ar_step w c).2 (spec_accept span allowed h c).2;
}.

Section Client.
Context {W : Type} `{AR : AntiReplay W} {span allowed dom} `{!AntiReplayOk W span allowed dom}.

Lemma ar_accepted_refines_from w h cs :
  ar_rel w h -> Forall dom cs ->
  ar_accepted w cs = spec_accepted span allowed h cs.
Proof.
  revert w h. induction cs as [|c cs IH]; intros w h Hr Hd; simpl; [done|].
  apply Forall_cons in Hd as [Hc Hd].
  destruct (ar_rel_step w h c Hr Hc) as [Hb Hr'].
  destruct (ar_step w c) as [b w'], (spec_accept span allowed h c) as [b' h']; simpl in *.
  subst. f_equal. by apply IH.
Qed.

Lemma ar_accepted_refines cs :
  Forall dom cs -> ar_accepted ar_init cs = spec_accepted span allowed hist0 cs.
Proof. apply ar_accepted_refines_from. apply ar_rel_init. Qed.

Lemma ar_accepted_NoDup cs : Forall dom cs -> NoDup (ar_accepted ar_init cs).
Proof. intros. rewrite ar_accepted_refines by done. apply spec_accepted_NoDup. Qed.

Lemma ar_accepted_all cs :
  Forall dom cs -> Forall (fun c => allowed c = true) cs -> NoDup cs ->
  in_window span 0 cs -> ar_accepted ar_init cs = cs.
Proof.
  intros Hd Ha Hn Hw. rewrite ar_accepted_refines by done.
  apply spec_accepted_all; [done| |done].
  eapply Forall_impl; [exact Ha|]. simpl. intros x ?. split; [done|]. set_solver.
Qed.
End Client.

Lemma seen_le_insert (seen : gset Z) (top top' c : Z) :
  (forall x, x ∈ seen -> x <= top) -> top <= top' -> c <= top' ->
  forall x, x ∈ ({[c]} ∪ seen : gset Z) -> x <= top'.
Proof. intros Ht H1 H2 x [->%elem_of_singleton|Hx%Ht]%elem_of_union; lia. Qed.

(** ** 64-bit bitmaps

    Bit [i] of the map says whether [top - i] has been accepted. *)

Record mask_rel (mask : Z) (h : hist) : Prop := {
  mr_uint : uint64 mask;
  mr_top : forall x, x ∈ h_seen h -> x <= h_top h;
  mr_bits : forall i, 0 <= i < 64 -> Z.testbit mask i = bool_decide (h_top h - i ∈ h_seen h);
}.

Lemma uint64_bits_high x i : uint64 x -> 64 <= i -> Z.testbit x i = false.
Proof.
  intros Hx Hi. rewrite <- (wrap_small 64 x Hx). unfold wrap.
  apply Z.mod_pow2_bits_high. lia.
Qed.

Lemma uint64_of_bits x :
  0 <= x -> (forall i, 64 <= i -> Z.testbit x i = false) -> uint64 x.
Proof.
  intros H0 Hb. split; [done|]. destruct (Z.eq_dec x 0) as [->|]; [done|].
  apply Z.log2_lt_pow2; [lia|]. destruct (Z_lt_le_dec (Z.log2 x) 64) as [|Hge]; [done|].
  specialize (Hb _ Hge). rewrite Z.bit_log2 in Hb by lia. done.
Qed.

Lemma uint64_lor x y : uint64 x -> uint64 y -> uint64 (Z.lor x y).
Proof.
  intros Hx Hy. apply uint64_of_bits.
  - apply Z.lor_nonneg. unfold uint in *; lia.
  - intros. by rewrite Z.lor_spec, !uint64_bits_high.
Qed.

Lemma uint64_shiftl_1 d : 0 <= d < 64 -> uint64 (Z.shiftl 1 d).
Proof.
  intros. unfold uint. rewrite Z.shiftl_1_l. split; [apply Z.pow_nonneg; lia|].
  apply Z.pow_lt_mono_r; lia.
Qed.

Lemma mask_rel_0 : mask_rel 0 hist0.
Proof.
  split; [done|set_solver|]. intros i _. rewrite Z.testbit_0_l.
  symmetry. apply bool_decide_eq_false. set_solver.
Qed.

Lemma land_bit_zero mask d :
  0 <= d -> (Z.land mask (Z.shiftl 1 d) =? 0) = negb (Z.testbit mask d).
Proof.
  intros Hd. rewrite Z.shiftl_1_l. destruct (Z.testbit mask d) eqn:E; simpl.
  - apply Z.eqb_neq. intros H0.
    assert (Ht : Z.testbit (Z.land mask (2 ^ d)) d = true)
      by (rewrite Z.land_spec, E, Z.pow2_bits_true; done).
    by rewrite H0, Z.testbit_0_l in Ht.
  - apply Z.eqb_eq, Z.bits_inj'. intros n Hn.
    rewrite Z.land_spec, Z.pow2_bits_eqb, Z.testbit_0_l by done.
    destruct (Z.eqb_spec d n) as [->|]; [by rewrite E|apply andb_false_r].
Qed.

(** Testing a counter that is not ahead of the window. *)
Lemma mask_rel_test mask h c :
  mask_rel mask h -> c <= h_top h -> h_top h - c < 64 ->
  (Z.land mask (Z.shiftl 1 (h_top h - c)) =? 0) = bool_decide (c ∉ h_seen h).
Proof.
  intros [_ _ Hb] H1 H2. rewrite land_bit_zero, Hb by lia.
  replace (h_top h - (h_top h - c)) with c by lia.
  destruct (decide (c ∈ h_seen h)).
  - by rewrite bool_decide_true, bool_decide_false by auto.
  - by rewrite bool_decide_false, bool_decide_true by auto.
Qed.

(** Recording a counter that is not ahead of the window. *)
Lemma mask_rel_mark mask h c :
  mask_rel mask h -> c <= h_top h -> h_top h - c < 64 ->
  mask_rel (Z.lor mask (Z.shiftl 1 (h_top h - c))) (Hist (Z.max (h_top h) c) ({[c]} ∪ h_seen h)).
Proof.
  intros [Hu Ht Hb] H1 H2. rewrite Z.max_l by lia. split; simpl.
  - apply uint64_lor; [done|]. apply uint64_shiftl_1. lia.
  - set_solver.
  - intros i Hi. rewrite Z.lor_spec, Hb, Z.shiftl_1_l, Z.pow2_bits_eqb by lia.
    destruct (Z.eqb_spec (h_top h - c) i) as [<-|Hne].
    + rewrite orb_true_r. symmetry. apply bool_decide_eq_true. set_solver by lia.
    + rewrite orb_false_r. apply bool_decide_ext.
      assert (h_top h - i <> c) by lia. set_solver.
Qed.

(** Sliding the window forward to a new highest counter. *)
Definition slide (mask shift : Z) : Z :=
  Z.lor (if 64 <=? shift then 0 else wrap 64 (Z.shiftl mask shift)) 1.

Lemma mask_rel_slide mask h c :
  mask_rel mask h -> h_top h < c ->
  mask_rel (slide mask (c - h_top h)) (Hist (Z.max (h_top h) c) ({[c]} ∪ h_seen h)).
Proof.
  intros [Hu Ht Hb] Hc. rewrite Z.max_r by lia.
  assert (Hsl : uint64 (if 64 <=? c - h_top h then 0 else wrap 64 (Z.shiftl mask (c - h_top h)))).
  { case_match; [done|]. by apply wrap_uint. }
  split; simpl.
  - by apply uint64_lor.
  - eapply seen_le_insert; eauto; lia.
  - intros i Hi. unfold slide. rewrite Z.lor_spec.
    destruct (Z.eq_dec i 0) as [->|Hi0].
    { rewrite orb_true_r. symmetry. apply bool_decide_eq_true. set_solver by lia. }
    change 1 with (2 ^ 0). rewrite Z.pow2_bits_false, orb_false_r by lia.
    assert (Hne : c - i <> c) by lia.
    destruct (Z.leb_spec 64 (c - h_top h)).
    + rewrite Z.testbit_0_l. symmetry. apply bool_decide_eq_false.
      intros [?%elem_of_singleton|Hx%Ht]%elem_of_union; lia.
    + unfold wrap. rewrite Z.mod_pow2_bits_low, Z.shiftl_spec by lia.
      destruct (Z_lt_le_dec i (c - h_top h)).
      * rewrite Z.testbit_neg_r by lia. symmetry. apply bool_decide_eq_false.
        intros [?%elem_of_singleton|Hx%Ht]%elem_of_union; lia.
      * rewrite Hb by lia. replace (h_top h - (i - (c - h_top h))) with (c - i) by lia.
        apply bool_decide_ext. set_solver.
Qed.

(** What the abstract filter decides, in the three cases the windows distinguish. *)
Lemma spec_accept_reject span allowed h c :
  allowed c = false -> spec_accept span allowed h c = (false, h).
Proof. intros Ha. unfold spec_accept, spec_fresh. by rewrite Ha. Qed.

Lemma spec_accept_ahead span allowed h c :
  0 < span -> (forall x, x ∈ h_seen h -> x <= h_top h) -> allowed c = true -> h_top h < c ->
  spec_accept span allowed h c = (true, Hist (Z.max (h_top h) c) ({[c]} ∪ h_seen h)).
Proof.
  intros Hs Ht Ha Hc. unfold spec_accept, spec_fresh.
  rewrite Ha, !bool_decide_true; [done|lia|]. intros ?%Ht. lia.
Qed.

Lemma spec_accept_behind span allowed h c :
  allowed c = true ->
  spec_accept span allowed h c =
    if span <=? h_top h - c then (false, h)
    else if bool_decide (c ∉ h_seen h)
         then (true, Hist (Z.max (h_top h) c) ({[c]} ∪ h_seen h)) else (false, h).
Proof.
  intros Ha. unfold spec_accept, spec_fresh. rewrite Ha. simpl.
  destruct (Z.leb_spec span (h_top h - c)).
  - rewrite (bool_decide_false (h_top h - c < span)) by lia. by rewrite andb_false_r.
  - rewrite (bool_decide_true (h_top h - c < span)) by lia. by rewrite andb_true_r.
Qed.

Definition any (c : Z) : bool := true.
Definition nonzero (c : Z) : bool := negb (c =? 0).
