(* ===== verification/Sealed.v ===== *)
(** * Sealed datagram sessions

    Every data path of veepin has the same shape: a sender that seals each message
    under the next counter, and a receiver that opens a datagram, checks its counter
    against a replay window and hands the message over.  [Link] is the contract of
    such a pair, stated for one direction of one session: how the n-th packet looks,
    that the sender produces it, and that the receiver opens it to the message or
    refuses it as a replay, moving the window as its class says.  [sealed_session]
    concludes, once for all of them, what a session promises over a network that
    loses, duplicates, reorders and forges. *)
From Stdlib Require Import ZArith Lia.
From stdpp Require Import base list gmap.
From S2P Require Import Prelude AntiReplay.

Section Sealed.
Context {Snd Rcv X Y E W : Type}.
Context (seal : Snd -> X -> result E bytes * Snd) (open : Rcv -> bytes -> result E Y * Rcv).

Fixpoint seal_all (s : Snd) (xs : list X) : list (result E bytes) * Snd :=
  match xs with
  | [] => ([], s)
  | x :: xs => let '(p, s) := seal s x in let '(ps, s) := seal_all s xs in (p :: ps, s)
  end.

Fixpoint open_all (r : Rcv) (ds : list bytes) : list (result E Y) * Rcv :=
  match ds with
  | [] => ([], r)
  | d :: ds => let '(o, r) := open r d in let '(os, r) := open_all r ds in (o :: os, r)
  end.

(** What the network delivers: one of the packets sealed, or octets of its own. *)
Inductive delivery := Genuine (i : nat) | Forged (d : bytes).

Definition datagram (pkts : list bytes) (d : delivery) : bytes :=
  match d with Genuine i => pkts !!! i | Forged d => d end.

(** The counters of the genuine packets that were opened. *)
Fixpoint accepted (ctr : nat -> Z) (ds : list delivery) (os : list (result E Y)) : list Z :=
  match ds, os with
  | Genuine i :: ds, o :: os => (if is_ok o then [ctr i] else []) ++ accepted ctr ds os
  | Forged _ :: ds, _ :: os => accepted ctr ds os
  | _, _ => []
  end.

Fixpoint genuine_ctrs (ctr : nat -> Z) (ds : list delivery) : list Z :=
  match ds with
  | Genuine i :: ds => ctr i :: genuine_ctrs ctr ds
  | Forged _ :: ds => genuine_ctrs ctr ds
  | [] => []
  end.

(** A packet is opened to the message sealed in it or refused as a replay; octets the sender never
    sealed are refused. *)
Definition outcome (replayed : E) (payload : X -> Y) (xs : list X) (d : delivery) (o : result E Y) : Prop :=
  match d with
  | Genuine i => o = Err replayed \/ exists x, xs !! i = Some x /\ o = Ok (payload x)
  | Forged _ => is_ok o = false
  end.

Context `{AR : AntiReplay W} {span : Z} {allowed : Z -> bool} {dom : Z -> Prop} `{OK : !AntiReplayOk W span allowed dom}.

(** One direction of a session whose sender has sealed nothing yet: [lk_sender n] are the senders
    that have sealed [n] packets, [lk_receiver] the receivers of its packets. *)
Record Link (good : X -> Prop) (payload : X -> Y) (replayed : E) (ctr : nat -> Z) (cap : Z) := {
  lk_packet : nat -> X -> bytes;
  lk_sender : nat -> Snd -> Prop;
  lk_receiver : Rcv -> Prop;
  lk_window : Rcv -> W;
  lk_dom n : Z.of_nat n < cap -> dom (ctr n);
  lk_seal n s x : lk_sender n s -> good x -> Z.of_nat n < cap ->
    exists s', seal s x = (Ok (lk_packet n x), s') /\ lk_sender (S n) s';
  lk_open n r x : lk_receiver r -> good x -> Z.of_nat n < cap ->
    exists r', open r (lk_packet n x) = (if (ar_step (lk_window r) (ctr n)).1 then Ok (payload x) else Err replayed, r') /\
      lk_window r' = (ar_step (lk_window r) (ctr n)).2 /\ lk_receiver r';
}.

#[local] Arguments lk_packet {_ _ _ _ _} _.
#[local] Arguments lk_sender {_ _ _ _ _} _.
#[local] Arguments lk_receiver {_ _ _ _ _} _.
#[local] Arguments lk_window {_ _ _ _ _} _.
#[local] Arguments lk_dom {_ _ _ _ _} _.
#[local] Arguments lk_seal {_ _ _ _ _} _.
#[local] Arguments lk_open {_ _ _ _ _} _.

Section Session.
Context {good : X -> Prop} {payload : X -> Y} {replayed : E} {ctr : nat -> Z} {cap : Z}.
Context (L : Link good payload replayed ctr cap).

(** Octets no receiver of the session opens or is moved by. *)
Definition refused (d : bytes) : Prop := forall r, lk_receiver L r -> exists e, open r d = (Err e, r).

Definition deliverable (n : nat) (d : delivery) : Prop :=
  match d with Genuine i => (i < n)%nat | Forged d => refused d end.

Lemma link_seal_all_spec n s xs :
  lk_sender L n s -> Forall good xs -> Z.of_nat (n + length xs) <= cap ->
  exists s', seal_all s xs = (Ok <$> imap (fun i x => lk_packet L (n + i) x) xs, s').
Proof.
  revert n s. induction xs as [|x xs IH]; intros n s Hs Hg Hc; [by exists s|].
  apply Forall_cons in Hg as [Hx Hg]. cbn [length] in Hc.
  destruct (lk_seal L n s x Hs Hx ltac:(lia)) as (s1 & E1 & Hs1). cbn [seal_all]. rewrite E1.
  destruct (IH (S n) s1 Hs1 Hg ltac:(lia)) as (s2 & E2). rewrite E2. exists s2. cbn [imap fmap list_fmap]. rewrite Nat.add_0_r.
  do 3 f_equal. apply imap_ext. intros i y _. cbn. f_equal. lia.
Qed.

Lemma link_open_all_spec xs r ds :
  lk_receiver L r -> Forall good xs -> Z.of_nat (length xs) <= cap -> Forall (deliverable (length xs)) ds ->
  let pkts := imap (lk_packet L) xs in
  let os := (open_all r (datagram pkts <$> ds)).1 in
  Forall2 (outcome replayed payload xs) ds os /\
  accepted ctr ds os = ar_accepted (lk_window L r) (genuine_ctrs ctr ds).
Proof.
  intros Hr Hg Hc Hds pkts. revert r Hr. induction Hds as [|d ds Hd _ IH]; intros r Hr; cbn zeta; [by split; [constructor|]|].
  cbn [fmap list_fmap open_all]. destruct d as [i|d]; cbn [datagram deliverable] in *.
  - destruct (lookup_lt_is_Some_2 xs i Hd) as [x Hx].
    assert (pkts !! i = Some (lk_packet L i x)) as Hp by (subst pkts; by rewrite list_lookup_imap, Hx).
    rewrite (list_lookup_total_correct _ _ _ Hp).
    destruct (lk_open L i r x Hr (Forall_lookup_1 _ _ _ _ Hg Hx) ltac:(apply lookup_lt_Some in Hx; lia)) as (r1 & -> & Hw & Hr1).
    destruct (IH r1 Hr1) as [I1 I2]. destruct (open_all r1 _) as [os r']. cbn [fst] in *. cbn [genuine_ctrs ar_accepted accepted].
    rewrite Hw in I2. destruct (ar_step (lk_window L r) (ctr i)) as [fresh w]. cbn [fst snd] in *.
    destruct fresh; cbn [is_ok]; (split; [constructor; [|done]|by rewrite I2]); cbn; eauto.
  - destruct (Hd r Hr) as [e He]. rewrite He. destruct (IH r Hr) as [I1 I2]. destruct (open_all r _) as [os r']. cbn [fst] in *.
    split; [constructor; [done|exact I1]|exact I2].
Qed.

Lemma genuine_ctrs_dom n ds : Z.of_nat n <= cap -> Forall (deliverable n) ds -> Forall dom (genuine_ctrs ctr ds).
Proof.
  intros Hc. induction 1 as [|[i|d] ds Hd _ IH]; cbn [genuine_ctrs]; [constructor|constructor; [|done]|done].
  apply (lk_dom L). cbn in Hd. lia.
Qed.

(** A session delivers at most once, unchanged, and exactly what its abstract filter accepts. *)
Lemma sealed_session s r xs ds :
  lk_sender L 0 s -> lk_receiver L r -> lk_window L r = ar_init ->
  Z.of_nat (length xs) <= cap -> Forall good xs -> Forall (deliverable (length xs)) ds ->
  exists pkts s', seal_all s xs = (Ok <$> pkts, s') /\ length pkts = length xs /\
    let os := (open_all r (datagram pkts <$> ds)).1 in
    Forall2 (outcome replayed payload xs) ds os /\
    accepted ctr ds os = spec_accepted span allowed hist0 (genuine_ctrs ctr ds) /\ NoDup (accepted ctr ds os).
Proof.
  intros Hs Hr Hw Hc Hg Hds. destruct (link_seal_all_spec 0 s xs Hs Hg Hc) as [s' Es]. eexists _, s'. split; [exact Es|].
  split; [by rewrite length_imap|]. destruct (link_open_all_spec xs r ds Hr Hg Hc Hds) as [H1 H2]. cbv zeta in *.
  rewrite (imap_ext _ (lk_packet L)) by done. rewrite H2, Hw. pose proof (genuine_ctrs_dom _ _ Hc Hds) as Hd.
  split_and!; [exact H1|exact (ar_accepted_refines _ Hd)|exact (ar_accepted_NoDup _ Hd)].
Qed.

End Session.
End Sealed.

Arguments lk_packet {_ _ _ _ _ _ _ _ _ _ _ _ _ _ _ _} _.
Arguments lk_sender {_ _ _ _ _ _ _ _ _ _ _ _ _ _ _ _} _.
Arguments lk_receiver {_ _ _ _ _ _ _ _ _ _ _ _ _ _ _ _} _.
Arguments lk_window {_ _ _ _ _ _ _ _ _ _ _ _ _ _ _ _} _.
