(* ===== verification/BitWindows.v ===== *)
(** * The 64-bit bitmap windows

    ESP ([internal/ikev2/esp/esp.go]), DTLS ([internal/dtls/record.go]), the
    OpenVPN data channel ([internal/openvpn/data/data.go]) and OpenVPN's control
    wrapping ([internal/openvpn/tlswrap/tlswrap.go]): each state is the highest
    counter and a bitmap of the 64 counters ending there, at the widths the Go
    code uses.  Every window is shown to be an instance of the anti-replay
    contract of AntiReplay.v. *)
From Stdlib Require Import ZArith Lia.
From stdpp Require Import base list gmap.
From S2P Require Import Prelude AntiReplay.

(** ** ESP: [replayWindow.check] / [replayWindow.advance] *)

Record esp_replayWindow := EspWindow { esp_top : Z; esp_mask : Z }.

Definition esp_check (w : esp_replayWindow) (seq : Z) : bool :=
  if seq =? 0 then true
  else if esp_top w <? seq then false
  else
    let diff := wrap 32 (esp_top w - seq) in
    if 64 <=? diff then true
    else negb (Z.land (esp_mask w) (Z.shiftl 1 diff) =? 0).

Definition esp_advance (w : esp_replayWindow) (seq : Z) : esp_replayWindow :=
  if esp_top w <? seq then
    let shift := wrap 32 (seq - esp_top w) in
    let mask := if 64 <=? shift then 0 else wrap 64 (Z.shiftl (esp_mask w) shift) in
    EspWindow seq (Z.lor mask 1)
  else
    let diff := wrap 32 (esp_top w - seq) in
    if diff <? 64 then EspWindow (esp_top w) (Z.lor (esp_mask w) (Z.shiftl 1 diff)) else w.

(** The window's use by [SA.Decapsulate]: the check, and the advance once it passes. *)
Definition esp_window_step (w : esp_replayWindow) (seq : Z) : bool * esp_replayWindow :=
  if esp_check w seq then (false, w) else (true, esp_advance w seq).

#[export] Instance esp_window : AntiReplay esp_replayWindow :=
  {| ar_init := EspWindow 0 0; ar_step := esp_window_step |}.

Definition esp_rel (w : esp_replayWindow) (h : hist) : Prop :=
  esp_top w = h_top h /\ uint32 (h_top h) /\ mask_rel (esp_mask w) h.

Lemma esp_rel_step w h c :
  esp_rel w h -> uint32 c ->
  (esp_window_step w c).1 = (spec_accept 64 nonzero h c).1 /\
  esp_rel (esp_window_step w c).2 (spec_accept 64 nonzero h c).2.
Proof.
  destruct w as [top mask]. intros (Htop & Hu & Hm) Hc. simpl in Htop, Hm. subst top.
  unfold esp_window_step, esp_check, esp_advance. simpl.
  destruct (Z.eqb_spec c 0) as [->|Hn0]; [by rewrite spec_accept_reject|].
  assert (Ha : nonzero c = true) by (unfold nonzero; apply negb_true_iff, Z.eqb_neq; done).
  destruct (Z.ltb_spec (h_top h) c) as [Hlt|Hge].
  - rewrite spec_accept_ahead by (done || apply Hm). simpl.
    rewrite (wrap_small 32 (c - h_top h)) by (unfold uint in *; lia).
    split; [done|]. split; [simpl; lia|]. split; [simpl; unfold uint in *; lia|].
    by apply mask_rel_slide.
  - rewrite spec_accept_behind by done.
    rewrite (wrap_small 32 (h_top h - c)) by (unfold uint in *; lia).
    destruct (Z.leb_spec 64 (h_top h - c)) as [|Hin]; [done|].
    rewrite mask_rel_test by done. case_bool_decide; simpl; [|done].
    rewrite (proj2 (Z.ltb_lt _ _) Hin).
    split; [done|]. split; [simpl; lia|]. split; [simpl; unfold uint in *; lia|].
    by apply mask_rel_mark.
Qed.

#[export] Instance esp_window_ok : AntiReplayOk esp_replayWindow 64 nonzero uint32.
Proof.
  refine {| ar_rel := esp_rel |}; [|apply esp_rel_step].
  split; [done|]. split; [done|]. apply mask_rel_0.
Defined.

(** ** Windows with a [started] flag: DTLS and OpenVPN *)

Record bitmapWindow := BitmapWindow { bw_highest : Z; bw_bitmap : Z; bw_started : bool }.

(** DTLS [replayWindow.check]; [true] is the nil error. *)
Definition dtls_check (w : bitmapWindow) (seq : Z) : bool * bitmapWindow :=
  if negb (bw_started w) then (true, BitmapWindow seq 1 true)
  else if bw_highest w <? seq then
    let shift := wrap 64 (seq - bw_highest w) in
    let bitmap := if 64 <=? shift then 1
                  else Z.lor (wrap 64 (Z.shiftl (bw_bitmap w) shift)) 1 in
    (true, BitmapWindow seq bitmap true)
  else
    let back := wrap 64 (bw_highest w - seq) in
    if 64 <=? back then (false, w)
    else
      let mask := Z.shiftl 1 back in
      if negb (Z.land (bw_bitmap w) mask =? 0) then (false, w)
      else (true, BitmapWindow (bw_highest w) (Z.lor (bw_bitmap w) mask) true).

(** OpenVPN control wrapping, [tlswrap.replayWindow.accept]. *)
Definition tlswrap_accept (w : bitmapWindow) (id : Z) : bool * bitmapWindow :=
  if negb (bw_started w) then (true, BitmapWindow id 1 true)
  else if bw_highest w <? id then
    let shift := wrap 32 (id - bw_highest w) in
    let bitmap := if 64 <=? shift then 0 else wrap 64 (Z.shiftl (bw_bitmap w) shift) in
    (true, BitmapWindow id (Z.lor bitmap 1) true)
  else
    let offset := wrap 32 (bw_highest w - id) in
    if 64 <=? offset then (false, w)
    else
      let mask := Z.shiftl 1 offset in
      if negb (Z.land (bw_bitmap w) mask =? 0) then (false, w)
      else (true, BitmapWindow (bw_highest w) (Z.lor (bw_bitmap w) mask) true).

(** OpenVPN data channel, [data.replayWindow.accept]: packet ID 0 is never valid. *)
Definition ovpn_accept (w : bitmapWindow) (id : Z) : bool * bitmapWindow :=
  if id =? 0 then (false, w)
  else if negb (bw_started w) then (true, BitmapWindow id 1 true)
  else if bw_highest w <? id then
    let shift := wrap 32 (id - bw_highest w) in
    let bitmap := if 64 <=? shift then 0 else wrap 64 (Z.shiftl (bw_bitmap w) shift) in
    (true, BitmapWindow id (Z.lor bitmap 1) true)
  else
    let offset := wrap 32 (bw_highest w - id) in
    if 64 <=? offset then (false, w)
    else
      let mask := Z.shiftl 1 offset in
      if negb (Z.land (bw_bitmap w) mask =? 0) then (false, w)
      else (true, BitmapWindow (bw_highest w) (Z.lor (bw_bitmap w) mask) true).

Definition bw_rel (width : Z) (w : bitmapWindow) (h : hist) : Prop :=
  if bw_started w
  then bw_highest w = h_top h /\ uint width (h_top h) /\ mask_rel (bw_bitmap w) h
  else h = hist0.

Lemma bw_rel_init width : bw_rel width (BitmapWindow 0 0 false) hist0.
Proof. done. Qed.

(** The first counter of a session. *)
Lemma bw_rel_first width allowed c :
  0 <= width -> allowed c = true -> uint width c ->
  spec_accept 64 allowed hist0 c = (true, Hist c ({[c]} ∪ ∅)) /\
  bw_rel width (BitmapWindow c 1 true) (Hist c ({[c]} ∪ ∅)).
Proof.
  intros Hw Ha Hc. unfold uint in Hc.
  assert (Hmax : Z.max (h_top hist0) c = c) by (simpl; lia).
  destruct (Z.eq_dec c 0) as [->|Hn].
  - rewrite spec_accept_behind by done. split; [done|].
    split; [done|]. split; [done|]. apply (mask_rel_mark 0 hist0 0 mask_rel_0); simpl; lia.
  - rewrite spec_accept_ahead by (done || (simpl; lia) || set_solver). rewrite Hmax.
    split; [done|]. split; [done|]. split; [done|].
    pose proof (mask_rel_slide 0 hist0 c mask_rel_0 ltac:(simpl; lia)) as Hm.
    rewrite Hmax in Hm. simpl in Hm. replace (slide 0 (c - 0)) with 1 in Hm; [done|].
    unfold slide. case_match; [done|]. by rewrite Z.shiftl_0_l.
Qed.

(** The general step, shared by the three windows: [sub] is the width's subtraction. *)
Lemma bw_rel_step width allowed hi bm h c :
  0 <= width -> bw_rel width (BitmapWindow hi bm true) h -> uint width c -> allowed c = true ->
  let step :=
    if hi <? c then (true, BitmapWindow c (slide bm (wrap width (c - hi))) true)
    else if 64 <=? wrap width (hi - c) then (false, BitmapWindow hi bm true)
    else if negb (Z.land bm (Z.shiftl 1 (wrap width (hi - c))) =? 0) then (false, BitmapWindow hi bm true)
    else (true, BitmapWindow hi (Z.lor bm (Z.shiftl 1 (wrap width (hi - c)))) true) in
  step.1 = (spec_accept 64 allowed h c).1 /\ bw_rel width step.2 (spec_accept 64 allowed h c).2.
Proof.
  intros Hw (Htop & Hu & Hm) Hc Ha. simpl in Htop, Hm. subst hi. cbv zeta.
  destruct (Z.ltb_spec (h_top h) c) as [Hlt|Hge].
  - rewrite spec_accept_ahead by (done || apply Hm).
    rewrite (wrap_small width (c - h_top h)) by (unfold uint in *; lia).
    split; [done|]. split; [simpl; lia|]. split; [simpl; unfold uint in *; lia|].
    by apply mask_rel_slide.
  - rewrite spec_accept_behind by done.
    rewrite (wrap_small width (h_top h - c)) by (unfold uint in *; lia).
    destruct (Z.leb_spec 64 (h_top h - c)) as [|Hin]; [done|].
    rewrite mask_rel_test by done. case_bool_decide; simpl; [|done].
    split; [done|]. split; [simpl; lia|]. split; [simpl; unfold uint in *; lia|].
    by apply mask_rel_mark.
Qed.

Lemma dtls_rel_step w h c :
  bw_rel 64 w h -> uint64 c ->
  (dtls_check w c).1 = (spec_accept 64 any h c).1 /\
  bw_rel 64 (dtls_check w c).2 (spec_accept 64 any h c).2.
Proof.
  destruct w as [hi bm [|]]; intros Hr Hc; unfold dtls_check; simpl.
  - pose proof (bw_rel_step 64 any hi bm h c ltac:(lia) Hr Hc eq_refl) as H.
    unfold slide in H. cbv zeta in H. by destruct (64 <=? wrap 64 (c - hi)).
  - unfold bw_rel in Hr; simpl in Hr; subst h. by destruct (bw_rel_first 64 any c ltac:(lia) eq_refl Hc) as [-> ?].
Qed.

Lemma tlswrap_rel_step w h c :
  bw_rel 32 w h -> uint32 c ->
  (tlswrap_accept w c).1 = (spec_accept 64 any h c).1 /\
  bw_rel 32 (tlswrap_accept w c).2 (spec_accept 64 any h c).2.
Proof.
  destruct w as [hi bm [|]]; intros Hr Hc; unfold tlswrap_accept; simpl.
  - apply (bw_rel_step 32 any hi bm h c); done.
  - unfold bw_rel in Hr; simpl in Hr; subst h. by destruct (bw_rel_first 32 any c ltac:(lia) eq_refl Hc) as [-> ?].
Qed.

Lemma ovpn_rel_step w h c :
  bw_rel 32 w h -> uint32 c ->
  (ovpn_accept w c).1 = (spec_accept 64 nonzero h c).1 /\
  bw_rel 32 (ovpn_accept w c).2 (spec_accept 64 nonzero h c).2.
Proof.
  intros Hr Hc. unfold ovpn_accept.
  destruct (Z.eqb_spec c 0) as [->|Hn0]; [by rewrite spec_accept_reject|].
  assert (Ha : nonzero c = true) by (unfold nonzero; apply negb_true_iff, Z.eqb_neq; done).
  destruct w as [hi bm [|]]; simpl.
  - apply (bw_rel_step 32 nonzero hi bm h c); done.
  - unfold bw_rel in Hr; simpl in Hr; subst h. by destruct (bw_rel_first 32 nonzero c ltac:(lia) Ha Hc) as [-> ?].
Qed.

(** The three windows as instances; the states are kept apart by wrappers so
    that each filter has its own instance. *)
Record dtlsWindow := DtlsWindow { dtls_w : bitmapWindow }.
Record tlswrapWindow := TlswrapWindow { tlswrap_w : bitmapWindow }.
Record ovpnWindow := OvpnWindow { ovpn_w : bitmapWindow }.

#[export] Instance dtls_window : AntiReplay dtlsWindow :=
  {| ar_init := DtlsWindow (BitmapWindow 0 0 false);
     ar_step w c := let '(b, w') := dtls_check (dtls_w w) c in (b, DtlsWindow w') |}.

#[export] Instance tlswrap_window : AntiReplay tlswrapWindow :=
  {| ar_init := TlswrapWindow (BitmapWindow 0 0 false);
     ar_step w c := let '(b, w') := tlswrap_accept (tlswrap_w w) c in (b, TlswrapWindow w') |}.

#[export] Instance ovpn_window : AntiReplay ovpnWindow :=
  {| ar_init := OvpnWindow (BitmapWindow 0 0 false);
     ar_step w c := let '(b, w') := ovpn_accept (ovpn_w w) c in (b, OvpnWindow w') |}.

#[export] Instance dtls_window_ok : AntiReplayOk dtlsWindow 64 any uint64.
Proof.
  refine {| ar_rel w h := bw_rel 64 (dtls_w w) h |}; [done|].
  intros [w] h c Hr Hc. simpl. pose proof (dtls_rel_step w h c Hr Hc).
  by destruct (dtls_check w c).
Defined.

#[export] Instance tlswrap_window_ok : AntiReplayOk tlswrapWindow 64 any uint32.
Proof.
  refine {| ar_rel w h := bw_rel 32 (tlswrap_w w) h |}; [done|].
  intros [w] h c Hr Hc. simpl. pose proof (tlswrap_rel_step w h c Hr Hc).
  by destruct (tlswrap_accept w c).
Defined.

#[export] Instance ovpn_window_ok : AntiReplayOk ovpnWindow 64 nonzero uint32.
Proof.
  refine {| ar_rel w h := bw_rel 32 (ovpn_w w) h |}; [done|].
  intros [w] h c Hr Hc. simpl. pose proof (ovpn_rel_step w h c Hr Hc).
  by destruct (ovpn_accept w c).
Defined.

(** ** Properties *)

(** The ESP replay window, driven by any sequence of 32-bit sequence
    numbers, accepts exactly the packets the abstract filter of span 64 accepts
    (sequence number 0 never), so no sequence number is ever accepted twice. *)
Theorem esp_window_refines (cs : list Z) :
  Forall uint32 cs ->
  ar_accepted (EspWindow 0 0 : esp_replayWindow) cs = spec_accepted 64 nonzero hist0 cs /\
  NoDup (ar_accepted (EspWindow 0 0 : esp_replayWindow) cs).
Proof.
  intros H. split.
  - exact (ar_accepted_refines (W := esp_replayWindow) cs H).
  - exact (ar_accepted_NoDup (W := esp_replayWindow) cs H).
Qed.

Lemma esp_window_refines_witness :
  ar_accepted (EspWindow 0 0 : esp_replayWindow) [1; 3; 2; 3; 70; 4; 0; 7; 6] = [1; 3; 2; 70; 7] /\
  NoDup (ar_accepted (EspWindow 0 0 : esp_replayWindow) [1; 3; 2; 3; 70; 4; 0; 7; 6]).
Proof.
  destruct (esp_window_refines [1; 3; 2; 3; 70; 4; 0; 7; 6]) as [E H].
  - by_decision.
  - split; [rewrite E; by vm_compute|exact H].
Defined.

(** The DTLS record window, the OpenVPN data-channel window and the OpenVPN
    control-wrapping window each accept, on any sequence of counters of their
    width, exactly what the abstract filter of span 64 accepts; packet ID 0 is
    refused by the data channel only. *)
Theorem bitmap_windows_refine (cs : list Z) :
  (Forall uint64 cs ->
     ar_accepted (DtlsWindow (BitmapWindow 0 0 false) : dtlsWindow) cs = spec_accepted 64 any hist0 cs) /\
  (Forall uint32 cs ->
     ar_accepted (OvpnWindow (BitmapWindow 0 0 false) : ovpnWindow) cs = spec_accepted 64 nonzero hist0 cs) /\
  (Forall uint32 cs ->
     ar_accepted (TlswrapWindow (BitmapWindow 0 0 false) : tlswrapWindow) cs = spec_accepted 64 any hist0 cs).
Proof.
  split_and!; intros H.
  - exact (ar_accepted_refines (W := dtlsWindow) cs H).
  - exact (ar_accepted_refines (W := ovpnWindow) cs H).
  - exact (ar_accepted_refines (W := tlswrapWindow) cs H).
Qed.

Lemma bitmap_windows_refine_witness :
  ar_accepted (DtlsWindow (BitmapWindow 0 0 false)) [0; 9; 8; 9; 100; 36; 37] = [0; 9; 8; 100; 37] /\
  ar_accepted (OvpnWindow (BitmapWindow 0 0 false)) [0; 9; 8; 9; 100; 36; 37] = [9; 8; 100; 37] /\
  ar_accepted (TlswrapWindow (BitmapWindow 0 0 false)) [0; 9; 8; 9; 100; 36; 37] = [0; 9; 8; 100; 37].
Proof.
  destruct (bitmap_windows_refine [0; 9; 8; 9; 100; 36; 37]) as (H1 & H2 & H3).
  rewrite H1, H2, H3 by by_decision. by vm_compute.
Defined.
