(* ===== verification/ReplayWindow.v ===== *)
(** * The shared replay window, [internal/replay/replay.go]

    [Window] is a ring of booleans indexed by the counter modulo its length.
    The clearing loop of [Accept] runs over [uint64] values, so it is modelled
    with the wrap-around of [i++] and with fuel: [None] is a run that has not
    returned within the fuel.  The theorems show that the length of the ring is
    enough fuel for every counter below [2^64 - 1], that [Accept] then
    implements the anti-replay contract, and that for [2^64 - 1] itself no
    amount of fuel is enough. *)
From Stdlib Require Import ZArith Lia.
From stdpp Require Import base list gmap.
From S2P Require Import Prelude AntiReplay.

Definition Size : Z := 1024.

Record Window := mkWindow { highest : Z; seen : list bool }.

Definition NewSize (n : Z) : Window :=
  let n := if n <=? 0 then Size else n in
  mkWindow 0 (replicate (Z.to_nat n) false).

Definition New : Window := NewSize Size.

(** [seen[i%n] = v]. *)
Definition set_slot (s : list bool) (i : Z) (v : bool) : list bool :=
  <[Z.to_nat (i mod Z.of_nat (length s)) := v]> s.

Definition get_slot (s : list bool) (i : Z) : bool :=
  default false (s !! Z.to_nat (i mod Z.of_nat (length s))).

(** [for i := i; i <= counter; i++ { seen[i%n] = false }]. *)
Fixpoint clear_slots (fuel : nat) (s : list bool) (i counter : Z) : option (list bool) :=
  if i <=? counter then
    match fuel with
    | O => None
    | S fuel' => clear_slots fuel' (set_slot s i false) (wrap 64 (i + 1)) counter
    end
  else Some s.

Definition Accept (fuel : nat) (w : Window) (counter : Z) : option (bool * Window) :=
  let n := Z.of_nat (length (seen w)) in
  if highest w <? counter then
    let gap := wrap 64 (counter - highest w) in
    s ← (if n <=? gap then Some (replicate (length (seen w)) false)
         else clear_slots fuel (seen w) (wrap 64 (highest w + 1)) counter);
    Some (true, mkWindow counter (set_slot s counter true))
  else if n <=? wrap 64 (highest w - counter) then Some (false, w)
  else if get_slot (seen w) counter then Some (false, w)
  else Some (true, mkWindow (highest w) (set_slot (seen w) counter true)).

(** [for i := 1; i <= upTo; i++ { w.Accept(i) }]; the fuel bounds this loop and,
    separately, every clearing loop inside it. *)
Fixpoint mark_from (fuel afuel : nat) (w : Window) (i upTo : Z) : option Window :=
  if i <=? upTo then
    match fuel with
    | O => None
    | S fuel' =>
        r ← Accept afuel w i;
        mark_from fuel' afuel r.2 (wrap 64 (i + 1)) upTo
    end
  else Some w.

Definition MarkSeen (fuel afuel : nat) (w : Window) (upTo : Z) : option Window :=
  mark_from fuel afuel w 1 upTo.

(** ** The ring *)

Section Ring.
Context (s : list bool) (Hs : s <> []).

Lemma slot_lt i : (Z.to_nat (i mod Z.of_nat (length s)) < length s)%nat.
Proof.
  clear -Hs. destruct s as [|a l]; [done|].
  pose proof (Z.mod_pos_bound i (Z.of_nat (length (a :: l))) ltac:(simpl; lia)). lia.
Qed.

Lemma length_set_slot i v : length (set_slot s i v) = length s.
Proof. apply length_insert. Qed.

Lemma get_set_slot_eq i j v :
  i mod Z.of_nat (length s) = j mod Z.of_nat (length s) -> get_slot (set_slot s i v) j = v.
Proof.
  intros E. unfold get_slot. rewrite length_set_slot. unfold set_slot. rewrite E.
  rewrite list_lookup_insert_eq by apply slot_lt. done.
Qed.

Lemma get_set_slot_ne i j v :
  i mod Z.of_nat (length s) <> j mod Z.of_nat (length s) ->
  get_slot (set_slot s i v) j = get_slot s j.
Proof.
  intros E. unfold get_slot. rewrite length_set_slot. unfold set_slot.
  rewrite list_lookup_insert_ne; [done|].
  assert (0 < Z.of_nat (length s)) by (destruct s; [done|simpl; lia]).
  pose proof (Z.mod_pos_bound i (Z.of_nat (length s)) ltac:(lia)).
  pose proof (Z.mod_pos_bound j (Z.of_nat (length s)) ltac:(lia)). lia.
Qed.
End Ring.

Lemma get_slot_replicate n i : get_slot (replicate n false) i = false.
Proof.
  unfold get_slot. destruct (replicate n false !! _) eqn:E; [|done].
  by apply lookup_replicate in E as [-> _].
Qed.

Lemma mod_ne n x y : 0 < n -> 0 < y - x < n -> x mod n <> y mod n.
Proof.
  intros Hn Hxy E. assert (H0 : (y - x) mod n = 0).
  { rewrite Zminus_mod, E, Z.sub_diag. apply Z.mod_0_l. lia. }
  rewrite Z.mod_small in H0 by lia. lia.
Qed.

Lemma set_slot_nonempty s i v : s <> [] -> set_slot s i v <> [].
Proof.
  intros Hs E. apply (f_equal length) in E. rewrite length_set_slot in E. by destruct s.
Qed.

Lemma get_set_slot_false s i x :
  s <> [] -> get_slot s x = false -> get_slot (set_slot s i false) x = false.
Proof.
  intros Hs Hx. destruct (Z.eq_dec (i mod Z.of_nat (length s)) (x mod Z.of_nat (length s))).
  - by apply get_set_slot_eq.
  - by rewrite get_set_slot_ne.
Qed.

(** The clearing loop: enough fuel, and what it leaves in each slot. *)
Lemma clear_slots_spec fuel s i counter :
  s <> [] -> 0 <= i -> i <= counter + 1 -> counter < 2 ^ 64 - 1 ->
  counter + 1 - i <= Z.of_nat fuel ->
  exists s', clear_slots fuel s i counter = Some s' /\ length s' = length s /\
    (forall x, get_slot s x = false -> get_slot s' x = false) /\
    (forall j, i <= j <= counter -> get_slot s' j = false) /\
    (forall x, (forall j, i <= j <= counter ->
        x mod Z.of_nat (length s) <> j mod Z.of_nat (length s)) -> get_slot s' x = get_slot s x).
Proof.
  revert s i. induction fuel as [|fuel IH]; intros s i Hs Hi Hic Hc Hf; simpl;
    destruct (Z.leb_spec i counter) as [Hle|Hgt]; try lia;
    try (exists s; split_and!; [done..|intros; lia|done]).
  rewrite (wrap_small 64) by (unfold uint; lia).
  destruct (IH (set_slot s i false) (i + 1) (set_slot_nonempty _ _ _ Hs))
    as (s' & -> & Hlen & Hf' & Hcl & Hkeep); try lia.
  rewrite length_set_slot in Hlen, Hkeep. exists s'. split_and!; [done|done| | |].
  - intros x Hx. by apply Hf', get_set_slot_false.
  - intros j Hj. destruct (Z.eq_dec j i) as [->|]; [|apply Hcl; lia].
    by apply Hf', get_set_slot_eq.
  - intros x Hx. rewrite Hkeep by (intros; apply Hx; lia).
    apply get_set_slot_ne; [done|]. intros E. by apply (Hx i ltac:(lia)).
Qed.

(** ** The contract *)

Record win_rel (w : Window) (h : hist) : Prop := {
  wr_nonempty : seen w <> [];
  wr_highest : highest w = h_top h;
  wr_range : 0 <= h_top h < 2 ^ 64 - 1;
  wr_top : forall x, x ∈ h_seen h -> x <= h_top h;
  wr_slots : forall x, h_top h - Z.of_nat (length (seen w)) < x <= h_top h ->
    get_slot (seen w) x = bool_decide (x ∈ h_seen h);
}.

Lemma nonempty_pos {A} (s : list A) : s <> [] -> 0 < Z.of_nat (length s).
Proof. destruct s; [done|simpl; lia]. Qed.

(** The ring once the window has been moved to a new highest counter. *)
Lemma win_rel_ahead w h s c :
  win_rel w h -> h_top h < c < 2 ^ 64 - 1 -> length s = length (seen w) ->
  (forall x, c - Z.of_nat (length s) < x < c ->
     get_slot s x = bool_decide (x ∈ h_seen h)) ->
  win_rel (mkWindow c (set_slot s c true)) (Hist (Z.max (h_top h) c) ({[c]} ∪ h_seen h)).
Proof.
  intros [Hne Hhi Hr Ht Hsl] Hc Hlen Hs.
  assert (Hne' : s <> []) by (destruct s, (seen w); done).
  pose proof (nonempty_pos _ Hne').
  split; simpl; rewrite ?Z.max_r by lia; auto using set_slot_nonempty; [lia|by eapply seen_le_insert; eauto; lia|].
  intros x Hx. rewrite length_set_slot in Hx.
  destruct (Z.eq_dec x c) as [->|Hxc].
  - rewrite get_set_slot_eq by done. symmetry. apply bool_decide_eq_true. set_solver.
  - rewrite get_set_slot_ne, Hs by (lia || (try (apply not_eq_sym, mod_ne; lia)); done).
    apply bool_decide_ext. set_solver.
Qed.

Lemma win_rel_mark w h c :
  win_rel w h -> 0 <= c <= h_top h -> h_top h - c < Z.of_nat (length (seen w)) ->
  win_rel (mkWindow (highest w) (set_slot (seen w) c true))
    (Hist (Z.max (h_top h) c) ({[c]} ∪ h_seen h)).
Proof.
  intros [Hne Hhi Hr Ht Hsl] Hc Hin. pose proof (nonempty_pos _ Hne).
  split; simpl; rewrite ?Z.max_l by lia; auto using set_slot_nonempty; [eapply seen_le_insert; eauto; lia|].
  intros x Hx. rewrite length_set_slot in Hx.
  destruct (Z.eq_dec x c) as [->|Hxc].
  - rewrite get_set_slot_eq by done. symmetry. apply bool_decide_eq_true. set_solver.
  - rewrite get_set_slot_ne, Hsl by
      (lia || done || (destruct (Z_lt_le_dec x c); [apply not_eq_sym|]; apply mod_ne; lia)).
    apply bool_decide_ext. set_solver.
Qed.

(** [Accept] returns, and what it returns is what the contract says. *)
Lemma Accept_spec fuel w h c :
  win_rel w h -> 0 <= c < 2 ^ 64 - 1 -> (length (seen w) <= fuel)%nat ->
  exists b w', Accept fuel w c = Some (b, w') /\
    length (seen w') = length (seen w) /\
    b = (spec_accept (Z.of_nat (length (seen w))) any h c).1 /\
    win_rel w' (spec_accept (Z.of_nat (length (seen w))) any h c).2.
Proof.
  intros Hw Hc Hf. pose proof Hw as [Hne Hhi Hr Ht Hsl].
  pose proof (nonempty_pos _ Hne) as Hn. unfold Accept. rewrite Hhi.
  destruct (Z.ltb_spec (h_top h) c) as [Hlt|Hge].
  - rewrite spec_accept_ahead by done.
    rewrite !(wrap_small 64) by (unfold uint; lia).
    destruct (Z.leb_spec (Z.of_nat (length (seen w))) (c - h_top h)) as [Hgap|Hgap].
    + simpl. eexists _, _. split; [done|]. cbn [seen fst snd]. rewrite length_set_slot, length_replicate.
      split; [done|]. split; [done|].
      apply (win_rel_ahead w); rewrite ?length_replicate; [done|lia|done|].
      intros x Hx. rewrite get_slot_replicate. symmetry. apply bool_decide_eq_false.
      intros ?%Ht. lia.
    + destruct (clear_slots_spec fuel (seen w) (h_top h + 1) c)
        as (s' & -> & Hlen & _ & Hcl & Hkeep); try (done || lia).
      simpl. eexists _, _. split; [done|]. cbn [seen fst snd]. rewrite length_set_slot.
      split; [done|]. split; [done|].
      apply (win_rel_ahead w); [done|lia|done|].
      intros x Hx. destruct (Z_lt_le_dec (h_top h) x).
      * rewrite Hcl by lia. symmetry. apply bool_decide_eq_false. intros ?%Ht. lia.
      * rewrite Hkeep, Hsl by (lia || (intros; apply mod_ne; lia)). done.
  - rewrite spec_accept_behind, (wrap_small 64) by (done || unfold uint; lia).
    destruct (Z.leb_spec (Z.of_nat (length (seen w))) (h_top h - c)) as [Hold|Hin].
    { eexists _, _. split; [done|]. done. }
    rewrite Hsl by lia. destruct (decide (c ∈ h_seen h)).
    + rewrite bool_decide_true by done. rewrite bool_decide_false by auto.
      eexists _, _. split; [done|]. done.
    + rewrite bool_decide_false by done. rewrite bool_decide_true by auto.
      eexists _, _. split; [done|]. simpl. rewrite length_set_slot.
      split; [done|]. split; [done|]. pose proof (win_rel_mark w h c Hw) as Hm.
      rewrite Hhi in Hm. apply Hm; lia.
Qed.

(** [Accept] as a filter.  A ring of length [n] needs [n] units of fuel at most,
    by [Accept_spec], so the step always has its result on the counters of the
    domain and [default] is never taken there. *)
Definition accept_step (w : Window) (c : Z) : bool * Window :=
  default (false, w) (Accept (length (seen w)) w c).

Record sizedWindow (n : Z) := SizedWindow { sw : Window }.
Arguments SizedWindow {n} _.
Arguments sw {n} _.

#[export] Instance replay_window (n : Z) : AntiReplay (sizedWindow n) :=
  {| ar_init := SizedWindow (NewSize n);
     ar_step w c := let '(b, w') := accept_step (sw w) c in (b, SizedWindow w') |}.

Definition window_len (n : Z) : Z := if n <=? 0 then Size else n.

Lemma win_rel_new n : win_rel (NewSize n) hist0.
Proof.
  unfold NewSize. assert (0 < window_len n) as Hn.
  { unfold window_len, Size. destruct (Z.leb_spec n 0); lia. }
  fold (window_len n).
  split; simpl; [|done|lia|set_solver|].
  - destruct (Z.to_nat (window_len n)) eqn:E; [lia|done].
  - intros x _. rewrite get_slot_replicate. symmetry. apply bool_decide_eq_false. set_solver.
Qed.

Lemma length_new n : Z.of_nat (length (seen (NewSize n))) = window_len n.
Proof.
  unfold NewSize. fold (window_len n). simpl. rewrite length_replicate.
  unfold window_len, Size. destruct (Z.leb_spec n 0); lia.
Qed.

Definition below_max (c : Z) : Prop := 0 <= c < 2 ^ 64 - 1.

#[export] Instance below_max_dec c : Decision (below_max c).
Proof. unfold below_max. apply _. Defined.

#[export] Instance replay_window_ok n : AntiReplayOk (sizedWindow n) (window_len n) any below_max.
Proof.
  refine {| ar_rel w h := Z.of_nat (length (seen (sw w))) = window_len n /\ win_rel (sw w) h |}.
  - split; [apply length_new|apply win_rel_new].
  - intros [w] h c [Hl Hr] Hc. simpl in *. unfold accept_step.
    destruct (Accept_spec (length (seen w)) w h c Hr Hc ltac:(lia)) as (b & w' & -> & Hl' & Hb & Hr').
    rewrite Hl in *. simpl. rewrite Hl'. auto.
Defined.

(** The clearing loop runs for ever when the counter is the largest [uint64]. *)
Lemma clear_slots_diverges fuel s i : 0 <= i < 2 ^ 64 -> clear_slots fuel s i (2 ^ 64 - 1) = None.
Proof.
  revert s i. induction fuel as [|fuel IH]; intros s i Hi; simpl;
    rewrite (proj2 (Z.leb_le i _)) by lia; [done|].
  apply IH. apply (wrap_uint 64). lia.
Qed.

(** [MarkSeen] on a fresh window. *)
Lemma mark_from_spec fuel w h i upTo :
  win_rel w h -> h_top h = i - 1 -> 1 <= i <= upTo + 1 -> upTo < 2 ^ 64 - 1 ->
  upTo + 1 - i <= Z.of_nat fuel ->
  exists w', mark_from fuel (length (seen w)) w i upTo = Some w' /\
    length (seen w') = length (seen w) /\
    win_rel w' (Hist upTo (list_to_set (seqZ i (upTo + 1 - i)) ∪ h_seen h)).
Proof.
  revert w h i. induction fuel as [|fuel IH]; intros w h i Hw Hh Hi Hu Hf; simpl;
    destruct (Z.leb_spec i upTo) as [Hle|Hgt]; try lia.
  1, 3: exists w; split_and!; [done|done|];
    rewrite seqZ_nil by lia; simpl; replace upTo with (h_top h) by lia;
    rewrite (left_id_L ∅ (∪)); by destruct h.
  destruct (Accept_spec (length (seen w)) w h i Hw ltac:(lia) ltac:(lia))
    as (b & w' & -> & Hl & _ & Hr). simpl.
  pose proof Hw as [Hne _ _ Ht _]. pose proof (nonempty_pos _ Hne).
  rewrite spec_accept_ahead, Z.max_r in Hr by (done || lia). simpl in Hr.
  rewrite (wrap_small 64) by (unfold uint; lia). rewrite <- Hl.
  destruct (IH w' _ (i + 1) Hr) as (w'' & -> & Hl'' & Hr''); simpl; try lia.
  exists w''. split_and!; [done|congruence|].
  rewrite (seqZ_cons i) by lia. simpl.
  replace (Z.pred (upTo + 1 - i)) with (upTo + 1 - (i + 1)) by lia.
  replace (Z.succ i) with (i + 1) by lia. simpl in Hr''.
  by rewrite (assoc_L (∪)), (comm_L (∪) _ {[i]}) in Hr''.
Qed.

(** ** Properties *)

(** C23: A replay window of any requested size, driven by any sequence of
    counters below [2^64 - 1], accepts exactly what the abstract filter accepts,
    its span being the ring's length; in particular no counter twice. *)
Theorem replay_window_refines (n : Z) (cs : list Z) :
  Forall below_max cs ->
  ar_accepted (SizedWindow (n := n) (NewSize n)) cs = spec_accepted (window_len n) any hist0 cs /\
  NoDup (ar_accepted (SizedWindow (n := n) (NewSize n)) cs).
Proof.
  intros H. split.
  - exact (ar_accepted_refines (W := sizedWindow n) cs H).
  - exact (ar_accepted_NoDup (W := sizedWindow n) cs H).
Qed.

Lemma replay_window_refines_witness :
  ar_accepted (SizedWindow (n := 4) (NewSize 4)) [5; 3; 5; 7; 3; 4; 6; 100; 96; 97] = [5; 3; 7; 4; 6; 100; 97] /\
  NoDup (ar_accepted (SizedWindow (n := 4) (NewSize 4)) [5; 3; 5; 7; 3; 4; 6; 100; 96; 97]).
Proof.
  destruct (replay_window_refines 4 [5; 3; 5; 7; 3; 4; 6; 100; 96; 97]) as [E H].
  - by_decision.
  - split; [rewrite E; by vm_compute|exact H].
Defined.

(** [Accept] returns for every counter below [2^64 - 1], whatever the state
    of the ring: as many iterations as the ring has slots are enough. *)
Theorem Accept_terminates (fuel : nat) (w : Window) (c : Z) :
  seen w <> [] -> uint64 (highest w) -> 0 <= c < 2 ^ 64 - 1 ->
  (length (seen w) <= fuel)%nat ->
  exists b w', Accept fuel w c = Some (b, w') /\ length (seen w') = length (seen w).
Proof.
  intros Hne Hh Hc Hf. unfold Accept, uint in *.
  destruct (Z.ltb_spec (highest w) c) as [Hlt|Hge].
  - rewrite !(wrap_small 64) by (unfold uint; lia).
    destruct (Z.leb_spec (Z.of_nat (length (seen w))) (c - highest w)).
    + simpl. eexists _, _. split; [done|]. cbn [seen]. by rewrite length_set_slot, length_replicate.
    + destruct (clear_slots_spec fuel (seen w) (highest w + 1) c) as (s' & -> & Hl & _); try (done || lia).
      simpl. eexists _, _. split; [done|]. cbn [seen]. by rewrite length_set_slot.
  - repeat case_match; eexists _, _; (split; [done|]); cbn [seen]; by rewrite ?length_set_slot.
Qed.

Lemma Accept_terminates_witness :
  exists b w', Accept 4 (mkWindow 9 [true; true; false; true]) 12 = Some (b, w') /\
    length (seen w') = 4%nat.
Proof.
  apply (Accept_terminates 4 (mkWindow 9 [true; true; false; true]) 12); done.
Defined.

(** C29: On the largest [uint64] the clearing loop's [i <= counter] never fails,
    because [i++] wraps to zero: [Accept] does not return on [2^64 - 1] when the
    highest counter is less than a window behind it. *)
Theorem Accept_diverges_at_max (fuel : nat) (w : Window) :
  uint64 (highest w) -> highest w < 2 ^ 64 - 1 ->
  2 ^ 64 - 1 - highest w < Z.of_nat (length (seen w)) ->
  Accept fuel w (2 ^ 64 - 1) = None.
Proof.
  intros Hh Hlt Hn. unfold Accept, uint in *. rewrite (proj2 (Z.ltb_lt _ _) Hlt).
  rewrite (wrap_small 64 (2 ^ 64 - 1 - highest w)) by (unfold uint; lia).
  rewrite (proj2 (Z.leb_gt _ _)) by lia.
  rewrite clear_slots_diverges; [done|]. apply (wrap_uint 64). lia.
Qed.

(** The state is reached from a fresh window by one genuine counter. *)
Lemma Accept_diverges_at_max_witness :
  exists w, Accept 0 New (2 ^ 64 - 2) = Some (true, w) /\
    forall fuel, Accept fuel w (2 ^ 64 - 1) = None.
Proof.
  exists (mkWindow (2 ^ 64 - 2) (set_slot (replicate 1024 false) (2 ^ 64 - 2) true)).
  split; [by vm_compute|]. intros fuel.
  apply (Accept_diverges_at_max fuel); by vm_compute.
Defined.

(** [MarkSeen upTo] on a fresh window returns, leaves [upTo] as the highest
    counter, and from then on every counter up to [upTo] (from 1) is refused
    while every later one is accepted. *)
Theorem MarkSeen_seals_handshake (n upTo : Z) :
  0 <= upTo < 2 ^ 64 - 1 ->
  exists w, MarkSeen (Z.to_nat upTo) (Z.to_nat (window_len n)) (NewSize n) upTo = Some w /\
    highest w = upTo /\
    (forall c, 1 <= c <= upTo -> (accept_step w c).1 = false) /\
    (forall c, upTo < c < 2 ^ 64 - 1 -> (accept_step w c).1 = true).
Proof.
  intros Hu. pose proof (win_rel_new n) as Hnew. pose proof (length_new n) as Hlen.
  destruct (mark_from_spec (Z.to_nat upTo) (NewSize n) hist0 1 upTo) as (w & Hm & Hl & Hw);
    [done|done|lia|lia|lia|].
  exists w. unfold MarkSeen. replace (Z.to_nat (window_len n)) with (length (seen (NewSize n))) by lia.
  split; [done|]. split; [apply Hw|]. set (h := Hist _ _) in Hw.
  assert (Hstep : forall c, 0 <= c < 2 ^ 64 - 1 ->
    (accept_step w c).1 = (spec_accept (window_len n) any h c).1).
  { intros c Hc. destruct (Accept_spec (length (seen w)) w h c Hw Hc ltac:(lia)) as (b & w' & E & _ & -> & _).
    unfold accept_step. rewrite E. simpl. by rewrite Hl, Hlen. }
  split; intros c Hc; rewrite Hstep by lia.
  - rewrite spec_accept_behind by done. case_match; [done|]. rewrite bool_decide_false; [done|].
    intros Hni. apply Hni. unfold h. simpl. rewrite elem_of_union, elem_of_list_to_set, elem_of_seqZ. lia.
  - rewrite spec_accept_ahead; [done| |apply Hw|done|simpl; lia].
    rewrite <- Hlen. apply nonempty_pos, Hnew.
Qed.

Lemma MarkSeen_seals_handshake_witness :
  exists w, MarkSeen 2 1024 New 2 = Some w /\ highest w = 2 /\
    (forall c, 1 <= c <= 2 -> (accept_step w c).1 = false) /\
    (forall c, 2 < c < 2 ^ 64 - 1 -> (accept_step w c).1 = true).
Proof. apply (MarkSeen_seals_handshake 1024 2). lia. Defined.
