(* ===== verification/WgReplay.v ===== *)
(** * WireGuard's replay filter, [internal/wireguard/transport/replay.go]

    The RFC 6479 filter: a ring of 128 blocks of 64 bits.  A counter's block is
    its value shifted by six, its bit the low six bits; advancing clears only
    the blocks the window moves past, at most a whole ring of them.  The file
    shows that this block-wise bookkeeping implements the same contract as the
    bit-exact windows, with a span of 8129 counters. *)
From Stdlib Require Import ZArith Lia.
From stdpp Require Import base list gmap.
From S2P Require Import Prelude AntiReplay.

Definition replayBlockBitLog : Z := 6.
Abbreviation replayBlockBits := (Z.shiftl 1 replayBlockBitLog) (only parsing).
Abbreviation replayRingBlocks := (Z.shiftl 1 7) (only parsing).
Abbreviation replayWindowSize := ((replayRingBlocks - 1) * replayBlockBits) (only parsing).
Abbreviation replayBlockMask := (replayRingBlocks - 1) (only parsing).
Abbreviation replayBitMask := (replayBlockBits - 1) (only parsing).

Record replayFilter := mkFilter { last : Z; ring : list Z }.

Definition newFilter : replayFilter := mkFilter 0 (replicate (Z.to_nat replayRingBlocks) 0).

(** [ring[i&replayBlockMask]] *)
Definition ring_get (r : list Z) (i : Z) : Z := default 0 (r !! Z.to_nat (Z.land i replayBlockMask)).
Definition ring_set (r : list Z) (i v : Z) : list Z := <[Z.to_nat (Z.land i replayBlockMask) := v]> r.

(** [for i := current + 1; i <= current+diff; i++ { ring[i&mask] = 0 }]: [n] is
    the number of iterations left; a block number is below [2^58], so neither
    bound wraps. *)
Fixpoint clear_blocks (n : nat) (r : list Z) (i : Z) : list Z :=
  match n with
  | O => r
  | S n' => clear_blocks n' (ring_set r i 0) (wrap 64 (i + 1))
  end.

Definition validate (f : replayFilter) (counter : Z) : bool * replayFilter :=
  let indexBlock := Z.shiftr counter replayBlockBitLog in
  let record (f : replayFilter) :=
    let bit := wrap 64 (Z.shiftl 1 (Z.land counter replayBitMask)) in
    let old := ring_get (ring f) indexBlock in
    (Z.land old bit =? 0, mkFilter (last f) (ring_set (ring f) indexBlock (Z.lor old bit))) in
  if last f <? counter then
    let current := Z.shiftr (last f) replayBlockBitLog in
    let diff := Z.min (wrap 64 (indexBlock - current)) replayRingBlocks in
    record (mkFilter counter (clear_blocks (Z.to_nat diff) (ring f) (wrap 64 (current + 1))))
  else if replayWindowSize <? wrap 64 (last f - counter) then (false, f)
  else record f.

(** ** Block arithmetic *)

Lemma blockMask_mod i : Z.land i replayBlockMask = i mod 128.
Proof. change replayBlockMask with (Z.ones 7). by rewrite Z.land_ones. Qed.

Lemma bitMask_mod i : Z.land i replayBitMask = i mod 64.
Proof. change replayBitMask with (Z.ones 6). by rewrite Z.land_ones. Qed.

Lemma block_div i : Z.shiftr i replayBlockBitLog = i / 64.
Proof. unfold replayBlockBitLog. by rewrite Z.shiftr_div_pow2. Qed.

Definition block_bit (r : list Z) (x : Z) : bool := Z.testbit (ring_get r (x / 64)) (x mod 64).

Section Ring.
Context (r : list Z) (Hr : length r = 128%nat).

Lemma length_ring_set i v : length (ring_set r i v) = length r.
Proof. apply length_insert. Qed.

Lemma ring_get_set_eq i j v : i mod 128 = j mod 128 -> ring_get (ring_set r i v) j = v.
Proof.
  intros E. unfold ring_get, ring_set. rewrite !blockMask_mod, E.
  rewrite list_lookup_insert_eq; [done|].
  pose proof (Z.mod_pos_bound j 128 ltac:(lia)). lia.
Qed.

Lemma ring_get_set_ne i j v : i mod 128 <> j mod 128 -> ring_get (ring_set r i v) j = ring_get r j.
Proof.
  intros E. unfold ring_get, ring_set. rewrite !blockMask_mod.
  rewrite list_lookup_insert_ne; [done|].
  pose proof (Z.mod_pos_bound j 128 ltac:(lia)). pose proof (Z.mod_pos_bound i 128 ltac:(lia)). lia.
Qed.
End Ring.

Lemma clear_blocks_spec n r i :
  length r = 128%nat -> 0 <= i -> i + Z.of_nat n < 2 ^ 64 ->
  length (clear_blocks n r i) = 128%nat /\
  (forall b, ring_get r b = 0 -> ring_get (clear_blocks n r i) b = 0) /\
  (forall j, i <= j < i + Z.of_nat n -> ring_get (clear_blocks n r i) j = 0) /\
  (forall b, (forall j, i <= j < i + Z.of_nat n -> b mod 128 <> j mod 128) ->
     ring_get (clear_blocks n r i) b = ring_get r b).
Proof.
  revert r i. induction n as [|n IH]; intros r i Hr Hi Hm; simpl.
  { split_and!; [done|done|intros; lia|done]. }
  rewrite (wrap_small 64) by (unfold uint; lia).
  destruct (IH (ring_set r i 0) (i + 1)) as (Hl & Hz & Hc & Hk);
    [by rewrite length_ring_set|lia|lia|].
  assert (Hz0 : forall b, ring_get r b = 0 -> ring_get (ring_set r i 0) b = 0).
  { intros b Hb. destruct (Z.eq_dec (i mod 128) (b mod 128)).
    - by apply ring_get_set_eq.
    - by rewrite ring_get_set_ne. }
  split_and!; [done|auto| |].
  - intros j Hj. destruct (Z.eq_dec j i) as [->|]; [|apply Hc; lia].
    by apply Hz, ring_get_set_eq.
  - intros b Hb. rewrite Hk by (intros; apply Hb; lia).
    apply ring_get_set_ne; [done|]. apply not_eq_sym, Hb. lia.
Qed.

(** A whole ring of cleared blocks clears every block. *)
Lemma clear_blocks_all r i b :
  length r = 128%nat -> 0 <= i -> i + 128 < 2 ^ 64 -> ring_get (clear_blocks 128 r i) b = 0.
Proof.
  intros Hr Hi Hm. destruct (clear_blocks_spec 128 r i Hr Hi Hm) as (_ & _ & Hc & _).
  pose proof (Z.mod_pos_bound (b - i) 128 ltac:(lia)).
  pose proof (Hc (i + (b - i) mod 128) ltac:(lia)) as H0.
  assert (E : b mod 128 = (i + (b - i) mod 128) mod 128).
  { rewrite Zplus_mod_idemp_r. f_equal. lia. }
  unfold ring_get in *. by rewrite !blockMask_mod, E in *.
Qed.

Lemma mod128_ne x y : 0 < y - x < 128 -> x mod 128 <> y mod 128.
Proof.
  intros Hxy E. assert (H0 : (y - x) mod 128 = 0).
  { rewrite Zminus_mod, E, Z.sub_diag. done. }
  rewrite Z.mod_small in H0 by lia. lia.
Qed.

(** ** The contract *)

Record wg_rel (f : replayFilter) (h : hist) : Prop := {
  wg_len : length (ring f) = 128%nat;
  wg_last : last f = h_top h;
  wg_range : uint64 (h_top h);
  wg_top : forall x, x ∈ h_seen h -> x <= h_top h;
  wg_bits : forall x, h_top h / 64 - 127 <= x / 64 <= h_top h / 64 ->
    block_bit (ring f) x = bool_decide (x ∈ h_seen h);
}.

(** Advancing the head: the window moves, nothing is recorded yet. *)
Definition advance (f : replayFilter) (c : Z) : replayFilter :=
  mkFilter c (clear_blocks (Z.to_nat (Z.min (wrap 64 (c / 64 - last f / 64)) 128)) (ring f)
    (wrap 64 (last f / 64 + 1))).

Lemma wg_rel_advance f h c :
  wg_rel f h -> h_top h < c < 2 ^ 64 -> wg_rel (advance f c) (Hist c (h_seen h)).
Proof.
  intros [Hl Hla Hr Ht Hb] Hc. unfold uint in Hr. unfold advance. rewrite Hla.
  assert (Hb1 : 0 <= h_top h / 64 <= c / 64) by (split; [apply Z.div_pos; lia|apply Z.div_le_mono; lia]).
  assert (Hb2 : c / 64 < 2 ^ 58) by (apply Z.div_lt_upper_bound; lia).
  rewrite !(wrap_small 64) by (unfold uint; lia).
  set (n := Z.to_nat _).
  destruct (clear_blocks_spec n (ring f) (h_top h / 64 + 1)) as (Hl' & Hz & Hcl & Hk); [done|lia|lia|].
  split; cbn [last ring h_top h_seen]; [done|done|unfold uint; lia|intros x ?%Ht; lia|].
  intros x Hx. unfold block_bit.
  destruct (Z_lt_le_dec (h_top h / 64) (x / 64)) as [Hnew|Hold].
  - assert (Hzero : ring_get (clear_blocks n (ring f) (h_top h / 64 + 1)) (x / 64) = 0).
    { destruct (Z_le_gt_dec (c / 64 - h_top h / 64) 128); [apply Hcl; lia|].
      replace n with 128%nat by lia. apply clear_blocks_all; [done|lia|lia]. }
    rewrite Hzero, Z.testbit_0_l. symmetry. apply bool_decide_eq_false.
    intros Hin%Ht. assert (x / 64 <= h_top h / 64) by (apply Z.div_le_mono; lia). lia.
  - rewrite Hk by (intros j Hj; apply mod128_ne; lia). apply Hb. lia.
Qed.

(** Recording a counter inside the window. *)
Definition record (f : replayFilter) (c : Z) : bool * replayFilter :=
  (Z.land (ring_get (ring f) (c / 64)) (Z.shiftl 1 (c mod 64)) =? 0,
   mkFilter (last f) (ring_set (ring f) (c / 64)
     (Z.lor (ring_get (ring f) (c / 64)) (Z.shiftl 1 (c mod 64))))).

Lemma wg_rel_record f h c :
  wg_rel f h -> c <= h_top h -> h_top h - c <= 8128 ->
  (record f c).1 = bool_decide (c ∉ h_seen h) /\
  wg_rel (record f c).2 (Hist (h_top h) ({[c]} ∪ h_seen h)).
Proof.
  intros [Hl Hla Hr Ht Hb] Hc Hin. pose proof (Z.mod_pos_bound c 64 ltac:(lia)) as Hm.
  assert (Hcb : h_top h / 64 - 127 <= c / 64 <= h_top h / 64).
  { split; [|apply Z.div_le_mono; lia].
    replace (h_top h / 64 - 127) with ((h_top h + -127 * 64) / 64) by (rewrite Z.div_add; lia).
    apply Z.div_le_mono; lia. }
  split.
  - simpl. rewrite land_bit_zero by lia. fold (block_bit (ring f) c). rewrite Hb by done.
    destruct (decide (c ∈ h_seen h)).
    + by rewrite bool_decide_true, bool_decide_false by auto.
    + by rewrite bool_decide_false, bool_decide_true by auto.
  - split; cbn [record snd last ring h_top h_seen]; [by rewrite length_ring_set|done|done| |].
    { eapply seen_le_insert; eauto; lia. }
    intros x Hx. unfold block_bit.
    destruct (Z.eq_dec (c / 64) (x / 64)) as [E|Hne].
    + rewrite ring_get_set_eq by (done || by rewrite E). rewrite Z.lor_spec, Z.shiftl_1_l, Z.pow2_bits_eqb by lia.
      rewrite E. fold (block_bit (ring f) x). rewrite Hb by done.
      destruct (Z.eqb_spec (c mod 64) (x mod 64)) as [E'|Hne'].
      * assert (x = c) as -> by (rewrite (Z.div_mod x 64), (Z.div_mod c 64); lia).
        rewrite orb_true_r. symmetry. apply bool_decide_eq_true. set_solver.
      * rewrite orb_false_r. apply bool_decide_ext.
        assert (x <> c) by congruence. set_solver.
    + rewrite ring_get_set_ne; [|done|].
      * fold (block_bit (ring f) x). rewrite Hb by done. apply bool_decide_ext.
        assert (x <> c) by congruence. set_solver.
      * destruct (Z_lt_le_dec (c / 64) (x / 64)); [|apply not_eq_sym]; apply mod128_ne; lia.
Qed.

Lemma validate_eq f c :
  uint64 c ->
  validate f c =
    if last f <? c then record (advance f c) c
    else if 8128 <? wrap 64 (last f - c) then (false, f) else record f c.
Proof.
  intros Hc. unfold validate. rewrite !block_div, bitMask_mod.
  pose proof (Z.mod_pos_bound c 64 ltac:(lia)) as Hm.
  rewrite (wrap_small 64 (Z.shiftl 1 (c mod 64))) by (by apply uint64_shiftl_1). done.
Qed.

Lemma wg_rel_step f h c :
  wg_rel f h -> uint64 c ->
  (validate f c).1 = (spec_accept 8129 any h c).1 /\
  wg_rel (validate f c).2 (spec_accept 8129 any h c).2.
Proof.
  intros Hf Hc. pose proof Hf as [_ Hla Hr Ht _]. rewrite validate_eq, Hla by done.
  unfold uint in *. destruct (Z.ltb_spec (h_top h) c) as [Hlt|Hge].
  - rewrite spec_accept_ahead, Z.max_r by (done || lia).
    destruct (wg_rel_record (advance f c) (Hist c (h_seen h)) c) as [Hb Hrel];
      [apply wg_rel_advance; [done|lia]|simpl; lia|simpl; lia|].
    split; [|done]. rewrite Hb. apply bool_decide_eq_true. intros ?%Ht. lia.
  - rewrite spec_accept_behind, (wrap_small 64) by (done || unfold uint; lia).
    destruct (Z.leb_spec 8129 (h_top h - c)), (Z.ltb_spec 8128 (h_top h - c)); try lia; [done|].
    destruct (wg_rel_record f h c) as [Hb Hrel]; [done|lia|lia|].
    rewrite Hb, Z.max_l by lia. case_bool_decide as Hseen; [done|].
    split; [done|]. simpl. replace h with (Hist (h_top h) ({[c]} ∪ h_seen h)); [done|].
    destruct h; simpl in *. f_equal. destruct (decide (c ∈ h_seen)); [set_solver|done].
Qed.

#[export] Instance wg_filter : AntiReplay replayFilter :=
  {| ar_init := newFilter; ar_step := validate |}.

Lemma ring_get_new i : ring_get (ring newFilter) i = 0.
Proof.
  unfold ring_get, newFilter. cbn [ring]. generalize (Z.to_nat (Z.land i replayBlockMask)). intros k.
  destruct (replicate (Z.to_nat replayRingBlocks) 0 !! k) eqn:E; [|done].
  by apply lookup_replicate in E as [-> _].
Qed.

#[export] Instance wg_filter_ok : AntiReplayOk replayFilter 8129 any uint64.
Proof.
  refine {| ar_rel := wg_rel |}; [|apply wg_rel_step].
  split; [done|done|done|set_solver|]. intros x _. unfold block_bit.
  change (ar_init) with newFilter. rewrite ring_get_new, Z.testbit_0_l.
  symmetry. apply bool_decide_eq_false. set_solver.
Defined.

(** ** Properties *)

(** WireGuard's block ring accepts, on any sequence of 64-bit counters,
    exactly the packets the abstract filter of span 8129 accepts, and so never
    one counter twice. *)
Theorem wg_validate_refines (cs : list Z) :
  Forall uint64 cs ->
  ar_accepted newFilter cs = spec_accepted (replayWindowSize + 1) any hist0 cs /\
  NoDup (ar_accepted newFilter cs).
Proof.
  intros H. split.
  - exact (ar_accepted_refines (W := replayFilter) cs H).
  - exact (ar_accepted_NoDup (W := replayFilter) cs H).
Qed.

Lemma wg_validate_refines_witness :
  ar_accepted newFilter [0; 63; 64; 63; 9000; 871; 872; 872; 2 ^ 64 - 1; 5] =
    [0; 63; 64; 9000; 872; 2 ^ 64 - 1] /\
  NoDup (ar_accepted newFilter [0; 63; 64; 63; 9000; 871; 872; 872; 2 ^ 64 - 1; 5]).
Proof.
  destruct (wg_validate_refines [0; 63; 64; 63; 9000; 871; 872; 872; 2 ^ 64 - 1; 5]) as [E H].
  - by_decision.
  - split; [rewrite E; by vm_compute|exact H].
Defined.

(** Reordering inside the window loses nothing: distinct counters, none
    more than [replayWindowSize] behind the highest before it, all pass. *)
Theorem wg_reordering_accepted (cs : list Z) :
  Forall uint64 cs -> NoDup cs -> in_window (replayWindowSize + 1) 0 cs ->
  ar_accepted newFilter cs = cs.
Proof.
  intros Hd Hn Hw. refine (ar_accepted_all (W := replayFilter) cs Hd _ Hn Hw).
  by apply Forall_true.
Qed.

Lemma wg_reordering_accepted_witness :
  ar_accepted newFilter [9000; 900; 8999; 9001; 901] = [9000; 900; 8999; 9001; 901].
Proof.
  apply (wg_reordering_accepted [9000; 900; 8999; 9001; 901]).
  - by_decision.
  - by_decision.
  - by vm_compute.
Defined.
