(* ===== verification/Reliable.v ===== *)
(** * OpenVPN's reliable control channel, [internal/openvpn/reliable/reliable.go]

    [Sender] assigns ascending 32-bit message IDs inside a window, retransmits
    on a timeout and releases on acknowledgement; [Receiver] deduplicates,
    reorders and queues acknowledgements.  The second half of the file joins a
    sender and a receiver through a network that loses, duplicates and reorders
    packets in both directions, as a step relation, and proves that what the
    receiver hands to TLS is always a prefix of what was queued, and all of it
    once nothing is in flight. *)
From Stdlib Require Import ZArith Lia.
From stdpp Require Import base list gmap sorting.
From S2P Require Import Prelude.

Definition DefaultWindow : Z := 4.
Abbreviation DefaultTimeout := 1000000000 (only parsing).

Record Message := mkMessage { ID : Z; Payload : bytes }.

Record outgoing := mkOutgoing { msg : Message; lastSent : Z; everSent : bool }.

Record Sender := mkSender {
  window : Z;
  timeout : Z;
  snext : Z;
  inflight : list outgoing;
}.

Definition NewSender (window timeout : Z) : Sender :=
  let window := if window <=? 0 then DefaultWindow else window in
  let timeout := if timeout <=? 0 then DefaultTimeout else timeout in
  mkSender window timeout 0 [].

Definition InFlight (s : Sender) : Z := Z.of_nat (length (inflight s)).

Definition Ready (s : Sender) : bool := InFlight s <? window s.

Definition Queue (s : Sender) (payload : bytes) : option Z * Sender :=
  if window s <=? InFlight s then (None, s)
  else
    let id := snext s in
    (Some id,
     mkSender (window s) (timeout s) (wrap 32 (snext s + 1))
       (inflight s ++ [mkOutgoing (mkMessage id payload) 0 false])).

(** [Ack] removes the first message with the ID, if any. *)
Fixpoint remove_id (id : Z) (l : list outgoing) : list outgoing :=
  match l with
  | [] => []
  | m :: l' => if ID (msg m) =? id then l' else m :: remove_id id l'
  end.

Definition Ack (s : Sender) (id : Z) : Sender :=
  mkSender (window s) (timeout s) (snext s) (remove_id id (inflight s)).

Definition is_due (timeout now : Z) (m : outgoing) : bool :=
  negb (everSent m) || (timeout <=? time_sub now (lastSent m)).

Definition Due (s : Sender) (now : Z) : list Message * Sender :=
  (msg <$> filter (fun m => is_due (timeout s) now m = true) (inflight s),
   mkSender (window s) (timeout s) (snext s)
     ((fun m => if is_due (timeout s) now m then mkOutgoing (msg m) now true else m) <$> inflight s)).

(** The scan of [NextDue]: [None] when a message waits for its first transmission. *)
Fixpoint next_due_scan (timeout now min : Z) (l : list outgoing) : option Z :=
  match l with
  | [] => Some min
  | m :: l' =>
      if negb (everSent m) then None
      else
        let d := timeout - time_sub now (lastSent m) in
        next_due_scan timeout now (if d <? min then d else min) l'
  end.

Definition NextDue (s : Sender) (now : Z) : Z * bool :=
  match inflight s with
  | [] => (0, false)
  | l =>
      match next_due_scan (timeout s) now (timeout s) l with
      | None => (0, true)
      | Some min => (if min <? 0 then 0 else min, true)
      end
  end.

Record Receiver := mkReceiver {
  rnext : Z;
  buffered : gmap Z bytes;
  pending : list Z;
}.

Definition NewReceiver : Receiver := mkReceiver 0 ∅ [].

(** The delivery loop of [Receive]: every iteration removes a buffered message,
    so the number of buffered messages is enough fuel ([drain_total]). *)
Fixpoint drain (fuel : nat) (next : Z) (buf : gmap Z bytes) : option (list bytes * Z * gmap Z bytes) :=
  match buf !! next with
  | None => Some ([], next, buf)
  | Some p =>
      match fuel with
      | O => None
      | S fuel' =>
          '(out, next', buf') ← drain fuel' (wrap 32 (next + 1)) (delete next buf);
          Some (p :: out, next', buf')
      end
  end.

Definition Receive (r : Receiver) (id : Z) (payload : bytes) : option (list bytes * Receiver) :=
  let pend := pending r ++ [id] in
  if id <? rnext r then Some ([], mkReceiver (rnext r) (buffered r) pend)
  else
    match buffered r !! id with
    | Some _ => Some ([], mkReceiver (rnext r) (buffered r) pend)
    | None =>
        let buf := <[id := payload]> (buffered r) in
        '(out, next', buf') ← drain (size buf) (rnext r) buf;
        Some (out, mkReceiver next' buf' pend)
    end.

Definition HasACKs (r : Receiver) : bool := 0 <? Z.of_nat (length (pending r)).

Definition TakeACKs (r : Receiver) (max : Z) : list Z * Receiver :=
  if (max <=? 0) || (Z.of_nat (length (pending r)) =? 0) then ([], r)
  else
    let max := if Z.of_nat (length (pending r)) <? max then Z.of_nat (length (pending r)) else max in
    (take (Z.to_nat max) (pending r),
     mkReceiver (rnext r) (buffered r) (drop (Z.to_nat max) (pending r))).

(** ** The delivery loop *)

Lemma drain_total fuel next buf :
  (size buf <= fuel)%nat -> is_Some (drain fuel next buf).
Proof.
  revert next buf. induction fuel as [|fuel IH]; intros next buf Hs; simpl;
    destruct (buf !! next) as [p|] eqn:E; eauto.
  - assert (size buf = 0%nat) as ->%map_size_empty_inv by lia. done.
  - assert (Hd : (size (delete next buf) <= fuel)%nat).
    { rewrite map_size_delete_Some by eauto. lia. }
    destruct (IH (wrap 32 (next + 1)) _ Hd) as [[[out n'] b'] ->]. simpl. eauto.
Qed.

(** Below the wrap of the 32-bit ID, draining from [next] hands over the run of
    consecutive buffered messages that starts there. *)
Lemma drain_spec fuel next buf out next' buf' :
  drain fuel next buf = Some (out, next', buf') ->
  0 <= next -> (forall k, is_Some (buf !! k) -> k < 2 ^ 32 - 1) ->
  next' = next + Z.of_nat (length out) /\
  (forall i p, out !! i = Some p -> buf !! (next + Z.of_nat i) = Some p) /\
  (forall k, buf' !! k = if decide (next <= k < next') then None else buf !! k) /\
  buf !! next' = None.
Proof.
  revert next buf out next' buf'. induction fuel as [|fuel IH]; intros next buf out next' buf' Hd Hn Hb;
    simpl in Hd; destruct (buf !! next) as [p|] eqn:E; simplify_eq.
  1, 3: split_and!; [simpl; lia|done|intros k; case_decide; [lia|done]|done].
  assert (next < 2 ^ 32 - 1) by eauto.
  rewrite (wrap_small 32) in Hd by (unfold uint; lia).
  destruct (drain fuel (next + 1) (delete next buf)) as [[[o n] b]|] eqn:D; simplify_eq/=.
  destruct (IH _ _ _ _ _ D) as (-> & Ho & Hk & Hlast); [lia| |].
  { intros k. rewrite lookup_delete. case_decide; [by intros []|]. apply Hb. }
  split_and!.
  - lia.
  - intros [|i] q Hi; simplify_eq/=; [by rewrite Z.add_0_r|].
    apply Ho in Hi. rewrite lookup_delete in Hi. case_decide; [done|].
    rewrite <- Hi. f_equal. lia.
  - intros k. rewrite Hk, lookup_delete. repeat case_decide; try lia; subst; done.
  - rewrite lookup_delete in Hlast. case_decide; [lia|done].
Qed.

(** ** A sender and a receiver joined by a network

    [net] and [acknet] hold every message and acknowledgement ever transmitted;
    a delivery takes any of them, in any order and as often as it likes, and
    loss is a delivery that never happens. *)

Record sys := mkSys {
  snd_ : Sender;
  rcv_ : Receiver;
  sent : list bytes;
  delivered : list bytes;
  net : list Message;
  acknet : list Z;
}.

Definition sys0 (window timeout : Z) : sys := mkSys (NewSender window timeout) NewReceiver [] [] [] [].

Inductive step : sys -> sys -> Prop :=
| step_queue s r st d n a p id s' :
    Queue s p = (Some id, s') ->
    step (mkSys s r st d n a) (mkSys s' r (st ++ [p]) d n a)
| step_transmit s r st d n a now ms s' :
    Due s now = (ms, s') ->
    step (mkSys s r st d n a) (mkSys s' r st d (n ++ ms) a)
| step_receive s r st d n a m out r' :
    m ∈ n -> Receive r (ID m) (Payload m) = Some (out, r') ->
    step (mkSys s r st d n a) (mkSys s r' st (d ++ out) n a)
| step_acks s r st d n a max acks r' :
    TakeACKs r max = (acks, r') ->
    step (mkSys s r st d n a) (mkSys s r' st d n (a ++ acks))
| step_ack s r st d n a id :
    id ∈ a -> step (mkSys s r st d n a) (mkSys (Ack s id) r st d n a).

(** A message that carries what was queued under its ID. *)
Definition genuine (st : list bytes) (m : Message) : Prop :=
  0 <= ID m /\ st !! Z.to_nat (ID m) = Some (Payload m).

Definition received (r : Receiver) (id : Z) : Prop :=
  0 <= id < rnext r \/ is_Some (buffered r !! id).

Record sys_inv (y : sys) : Prop := {
  inv_next : snext (snd_ y) = Z.of_nat (length (sent y));
  inv_inflight : forall m, m ∈ msg <$> inflight (snd_ y) -> genuine (sent y) m;
  inv_net : forall m, m ∈ net y -> genuine (sent y) m;
  inv_rnext : 0 <= rnext (rcv_ y) <= Z.of_nat (length (sent y));
  inv_delivered : delivered y = take (Z.to_nat (rnext (rcv_ y))) (sent y);
  inv_buffered : forall k p, buffered (rcv_ y) !! k = Some p ->
    rnext (rcv_ y) < k /\ sent y !! Z.to_nat k = Some p;
  inv_acks : forall id, id ∈ pending (rcv_ y) ++ acknet y -> received (rcv_ y) id;
  inv_covered : forall id, 0 <= id < snext (snd_ y) ->
    id ∈ ID ∘ msg <$> inflight (snd_ y) \/ received (rcv_ y) id;
}.

Lemma genuine_app st p m : genuine st m -> genuine (st ++ [p]) m.
Proof. intros [H1 H2]. split; [done|]. by apply lookup_app_l_Some. Qed.

Lemma elem_remove_id id l m : m ∈ remove_id id l -> m ∈ l.
Proof.
  induction l as [|x l IH]; simpl; [done|]. case_match; set_solver.
Qed.

Lemma elem_remove_id_ne id l x :
  x ∈ ID ∘ msg <$> l -> x <> id -> x ∈ ID ∘ msg <$> remove_id id l.
Proof.
  induction l as [|m l IH]; simpl; [done|]. intros Hx Hne.
  destruct (Z.eqb_spec (ID (msg m)) id) as [E|]; simpl; set_solver.
Qed.

Lemma Due_msgs s now ms s' :
  Due s now = (ms, s') ->
  (forall m, m ∈ ms -> m ∈ msg <$> inflight s) /\
  msg <$> inflight s' = msg <$> inflight s /\ snext s' = snext s.
Proof.
  unfold Due. intros [= <- <-]. simpl. split_and!; [|clear; induction (inflight s); simpl; f_equal; [by case_match|done]|done].
  intros m (o & -> & Ho)%list_elem_of_fmap. apply list_elem_of_filter in Ho as [_ Ho].
  apply list_elem_of_fmap. eauto.
Qed.

Lemma fmap_ID_msg (l : list outgoing) : ID ∘ msg <$> l = ID <$> (msg <$> l).
Proof. by rewrite <- list_fmap_compose. Qed.

Lemma sys_inv_init w t : sys_inv (sys0 w t).
Proof.
  split; simpl; try done; try set_solver; intros; lia.
Qed.

Lemma inv_step_queue s r st d n a p id s' :
  sys_inv (mkSys s r st d n a) -> Queue s p = (Some id, s') ->
  Z.of_nat (length (st ++ [p])) < 2 ^ 32 -> sys_inv (mkSys s' r (st ++ [p]) d n a).
Proof.
  intros [Hn Hi Hnet Hr Hd Hb Ha Hc] HQ Hlen. unfold Queue in HQ. simpl in *.
  case_match; simplify_eq. rewrite length_app in Hlen. simpl in Hlen.
  rewrite (wrap_small 32 (snext s + 1)) in * by (unfold uint; lia).
  split; simpl; rewrite ?length_app; simpl; try done; try lia.
  - intros m. rewrite fmap_app. intros [Hm|Hm]%elem_of_app; [by apply genuine_app, Hi|].
    apply list_elem_of_singleton in Hm as ->. split; simpl; [lia|].
    rewrite Hn, Nat2Z.id. by apply list_lookup_middle.
  - intros m Hm. by apply genuine_app, Hnet.
  - rewrite take_app_le by lia. done.
  - intros k q Hk. apply Hb in Hk as [? ?]. split; [done|]. by apply lookup_app_l_Some.
  - intros id Hid. rewrite fmap_app. destruct (Z.eq_dec id (snext s)) as [->|].
    + left. set_solver.
    + destruct (Hc id) as [|]; [lia| |by right]. left. set_solver.
Qed.

Lemma take_extend (n : nat) (st out : list bytes) :
  (forall i p, out !! i = Some p -> st !! (n + i)%nat = Some p) ->
  take n st ++ out = take (n + length out) st.
Proof.
  intros H. rewrite <- take_take_drop. f_equal. apply list_eq. intros i.
  destruct (out !! i) as [p|] eqn:E.
  - pose proof (lookup_lt_Some _ _ _ E). rewrite lookup_take_lt, lookup_drop by done.
    symmetry. by apply H.
  - apply lookup_ge_None in E. rewrite lookup_take_ge by done. done.
Qed.

(** A message that is already known only queues another acknowledgement. *)
Lemma inv_receive_known s r st d n a id :
  sys_inv (mkSys s r st d n a) -> received r id ->
  sys_inv (mkSys s (mkReceiver (rnext r) (buffered r) (pending r ++ [id])) st (d ++ []) n a).
Proof.
  intros [Hn Hi Hnet Hr Hd Hb Ha Hc] Hrec. simpl in *. rewrite app_nil_r.
  split; simpl; try done. intros x. rewrite !elem_of_app, list_elem_of_singleton.
  intros [[?| ->]|?]; [|done|]; apply Ha; set_solver.
Qed.

(** A new message is buffered and the delivery loop runs. *)
Lemma inv_receive_new s r st d n a id p out nx b :
  sys_inv (mkSys s r st d n a) -> genuine st (mkMessage id p) -> rnext r <= id ->
  Z.of_nat (length st) < 2 ^ 32 ->
  drain (size (<[id := p]> (buffered r))) (rnext r) (<[id := p]> (buffered r)) = Some (out, nx, b) ->
  sys_inv (mkSys s (mkReceiver nx b (pending r ++ [id])) st (d ++ out) n a).
Proof.
  intros [Hn Hi Hnet Hr Hd Hb Ha Hc] [Hid Hp] Hge Hlen D. simpl in *.
  assert (Hbuf : forall k q, <[id := p]> (buffered r) !! k = Some q ->
    rnext r <= k /\ st !! Z.to_nat k = Some q).
  { intros k q Hk. rewrite lookup_insert in Hk. case_decide; simplify_eq; [done|].
    apply Hb in Hk as [? ?]. split; [lia|done]. }
  destruct (drain_spec _ _ _ _ _ _ D) as (-> & Hout & Hrest & Hstop); [lia| |].
  { intros k [q Hk]. apply Hbuf in Hk as [? Hk%lookup_lt_Some]. lia. }
  assert (Hext : forall i q, out !! i = Some q -> st !! (Z.to_nat (rnext r) + i)%nat = Some q).
  { intros i q Hq%Hout%Hbuf. destruct Hq as [_ Hq]. rewrite <- Hq. f_equal. lia. }
  pose proof (f_equal length (take_extend _ _ _ Hext)) as Hl.
  rewrite length_app, !length_take in Hl.
  assert (Hrec : forall x, received r x \/ x = id ->
    received (mkReceiver (rnext r + Z.of_nat (length out)) b (pending r ++ [id])) x).
  { intros x Hx. unfold received. simpl. rewrite Hrest.
    case_decide; [left; lia|]. destruct Hx as [[?|Hx]|Hx]; [left; lia| |]; right; rewrite lookup_insert;
      case_decide; subst; done. }
  split; simpl; try done; try lia.
  - rewrite Hd, take_extend by done. f_equal. lia.
  - intros k q Hk. rewrite Hrest in Hk. case_decide; [done|].
    assert (k <> rnext r + Z.of_nat (length out)) by (intros ->; congruence).
    apply Hbuf in Hk as [? ?]. split; [lia|done].
  - intros x. rewrite !elem_of_app, list_elem_of_singleton.
    intros [[?| ->]|?]; apply Hrec; auto; left; apply Ha; set_solver.
  - intros x Hx. destruct (Hc x Hx) as [?|?]; [by left|]. right. apply Hrec. by left.
Qed.

Lemma inv_step_receive s r st d n a m out r' :
  sys_inv (mkSys s r st d n a) -> m ∈ n -> Receive r (ID m) (Payload m) = Some (out, r') ->
  Z.of_nat (length st) < 2 ^ 32 -> sys_inv (mkSys s r' st (d ++ out) n a).
Proof.
  intros Hinv Hm HR Hlen. pose proof (inv_net _ Hinv m Hm) as Hg. simpl in Hg.
  unfold Receive in HR. destruct (Z.ltb_spec (ID m) (rnext r)) as [Hold|Hnew].
  { simplify_eq. apply inv_receive_known; [done|]. left. split; [apply Hg|done]. }
  destruct (buffered r !! ID m) as [q|] eqn:Eb; simplify_eq/=.
  { apply inv_receive_known; [done|]. right. by rewrite Eb. }
  destruct (drain _ _ _) as [[[o nx] b]|] eqn:D; simplify_eq/=.
  by eapply inv_receive_new; [done| | |done|exact D]; [destruct m|].
Qed.

Lemma inv_step_acks s r st d n a max acks r' :
  sys_inv (mkSys s r st d n a) -> TakeACKs r max = (acks, r') ->
  sys_inv (mkSys s r' st d n (a ++ acks)).
Proof.
  intros [Hn Hi Hnet Hr Hd Hb Ha Hc] HT. simpl in *. unfold TakeACKs in HT.
  case_match; simplify_eq.
  { split; simpl; try done. rewrite app_nil_r. done. }
  set (k := Z.to_nat _) in *. split; simpl; try done. intros id Hid. apply Ha.
  rewrite <- (take_drop k (pending r)). set_solver.
Qed.

Lemma inv_step_ack s r st d n a id :
  sys_inv (mkSys s r st d n a) -> id ∈ a -> sys_inv (mkSys (Ack s id) r st d n a).
Proof.
  intros [Hn Hi Hnet Hr Hd Hb Ha Hc] Hid. simpl in *. split; simpl; try done.
  - intros m (o & -> & Ho%elem_remove_id)%list_elem_of_fmap. apply Hi.
    apply list_elem_of_fmap. eauto.
  - intros x Hx. destruct (Z.eq_dec x id) as [->|Hne].
    + right. apply Ha. set_solver.
    + destruct (Hc x Hx) as [?|?]; [|by right]. left. by apply elem_remove_id_ne.
Qed.

Lemma inv_step_transmit s r st d n a now ms s' :
  sys_inv (mkSys s r st d n a) -> Due s now = (ms, s') ->
  sys_inv (mkSys s' r st d (n ++ ms) a).
Proof.
  intros [Hn Hi Hnet Hr Hd Hb Ha Hc] (Hms & Hfl & Hnx)%Due_msgs. simpl in *.
  split; simpl; try done; try congruence.
  - rewrite Hfl. done.
  - intros m [?|?]%elem_of_app; auto.
  - intros x Hx. rewrite fmap_ID_msg, Hfl, <- fmap_ID_msg. apply Hc. by rewrite <- Hnx.
Qed.

Lemma step_sent_grows x y : step x y -> (length (sent x) <= length (sent y))%nat.
Proof. destruct 1; simpl; rewrite ?length_app; lia. Qed.

Lemma sys_inv_step x y :
  sys_inv x -> step x y -> Z.of_nat (length (sent y)) < 2 ^ 32 -> sys_inv y.
Proof.
  intros Hx Hs. destruct Hs; simpl; intros Hlen; eauto using inv_step_queue, inv_step_transmit,
    inv_step_receive, inv_step_acks, inv_step_ack.
Qed.

Lemma sys_inv_reachable w t y :
  rtc step (sys0 w t) y -> Z.of_nat (length (sent y)) < 2 ^ 32 -> sys_inv y.
Proof.
  revert y. refine (rtc_ind_r _ _ _ _); [intros; apply sys_inv_init|].
  intros x y _ Hs IH Hlen. pose proof (step_sent_grows x y Hs).
  eapply sys_inv_step; [apply IH; lia|done|done].
Qed.

(** Once nothing is in flight, everything queued has been received. *)
Lemma inv_quiescent y : sys_inv y -> inflight (snd_ y) = [] -> delivered y = sent y.
Proof.
  intros [Hn Hi Hnet Hr Hd Hb Ha Hc] Hq. rewrite Hd. apply take_ge.
  destruct (decide (rnext (rcv_ y) < Z.of_nat (length (sent y)))) as [Hlt|]; [|lia].
  destruct (Hc (rnext (rcv_ y))) as [Hin|[?|[p Hp]]]; [lia| |lia|].
  - by rewrite Hq in Hin; apply elem_of_nil in Hin.
  - apply Hb in Hp. lia.
Qed.

(** ** The sender's window *)

Record sender_inv (s : Sender) : Prop := {
  si_window : 0 < window s;
  si_bound : InFlight s <= window s;
  si_sorted : StronglySorted Z.lt (ID ∘ msg <$> inflight s);
  si_below : Forall (fun id => 0 <= id < snext s) (ID ∘ msg <$> inflight s);
}.

Lemma remove_id_sublist id l : sublist (remove_id id l) l.
Proof. induction l; simpl; [done|]. case_match; by constructor. Qed.

Lemma StronglySorted_sublist {A} (R : relation A) (l k : list A) :
  sublist k l -> StronglySorted R l -> StronglySorted R k.
Proof.
  induction 1 as [|x l k Hs IH|x l k Hs IH]; [done| |]; intros Hl;
    apply StronglySorted_inv in Hl as [Hl Hf]; auto.
  constructor; [auto|]. rewrite Forall_forall in *. intros y Hy. apply Hf. by eapply sublist_subseteq.
Qed.

Lemma StronglySorted_snoc (l : list Z) x :
  StronglySorted Z.lt l -> Forall (fun y => y < x) l -> StronglySorted Z.lt (l ++ [x]).
Proof.
  induction 1 as [|y l Hl IH Hf]; simpl; intros Hx; [repeat constructor|].
  apply Forall_cons in Hx as [? ?]. constructor; [auto|]. apply Forall_app. split; [done|]. by constructor.
Qed.

Lemma sender_inv_Ack s id : sender_inv s -> sender_inv (Ack s id).
Proof.
  intros [Hw Hb Hs Hf]. pose proof (remove_id_sublist id (inflight s)) as Hsub.
  pose proof (sublist_length _ _ Hsub). pose proof (fmap_sublist (ID ∘ msg) _ _ Hsub) as Hsub'.
  unfold InFlight in *. split; simpl; [done|unfold InFlight; simpl; lia| |].
  - by eapply StronglySorted_sublist.
  - rewrite Forall_forall in *. intros x Hx. apply Hf. by eapply sublist_subseteq.
Qed.

Lemma sender_inv_Queue s p id s' :
  sender_inv s -> 0 <= snext s < 2 ^ 32 - 1 -> Queue s p = (Some id, s') -> sender_inv s'.
Proof.
  intros [Hw Hb Hs Hf] Hn HQ. unfold Queue in HQ. case_match eqn:E; simplify_eq.
  apply Z.leb_gt in E. rewrite (wrap_small 32) by (unfold uint; lia). unfold InFlight in *.
  split; simpl; [done|unfold InFlight; simpl; rewrite length_app; simpl; lia| |]; rewrite fmap_app; simpl.
  - apply StronglySorted_snoc; [done|]. eapply Forall_impl; [exact Hf|]. simpl. lia.
  - apply Forall_app. split; [eapply Forall_impl; [exact Hf|]; simpl; lia|]. repeat constructor; lia.
Qed.

Lemma sender_inv_Due s now ms s' : sender_inv s -> Due s now = (ms, s') -> sender_inv s'.
Proof.
  intros [Hw Hb Hs Hf] HD. pose proof (Due_msgs _ _ _ _ HD) as (_ & Hm & Hn).
  assert (Hl : length (inflight s') = length (inflight s)).
  { apply (f_equal length) in Hm. by rewrite !length_fmap in Hm. }
  unfold Due in HD. injection HD as <- <-. unfold InFlight in *. cbn [inflight snext window] in *.
  split; cbn [inflight snext window]; [done|unfold InFlight; cbn [inflight]; lia| |];
    rewrite fmap_ID_msg, Hm, <- fmap_ID_msg; done.
Qed.

Lemma sender_inv_reachable w t y :
  rtc step (sys0 w t) y -> Z.of_nat (length (sent y)) < 2 ^ 32 -> sender_inv (snd_ y).
Proof.
  revert y. refine (rtc_ind_r _ _ _ _).
  - intros _. unfold sys0, NewSender, DefaultWindow. simpl.
    destruct (Z.leb_spec w 0); split; unfold InFlight; simpl; try lia; constructor.
  - intros x y Hr Hs IH Hlen. pose proof (step_sent_grows x y Hs).
    specialize (IH ltac:(lia)).
    pose proof (sys_inv_reachable w t x Hr ltac:(lia)) as [Hnx _ _ _ _ _ _ _].
    destruct Hs; simpl in *; eauto using sender_inv_Ack, sender_inv_Due.
    eapply sender_inv_Queue; [done| |done]. rewrite length_app in Hlen. simpl in Hlen. lia.
Qed.

(** ** Retransmission scheduling *)

Lemma next_due_scan_some timeout now m0 l w :
  next_due_scan timeout now m0 l = Some w ->
  Forall (fun m => everSent m = true) l /\
  (forall d, w <= d <-> m0 <= d \/ Exists (fun m => timeout - time_sub now (lastSent m) <= d) l).
Proof.
  revert m0. induction l as [|m l IH]; simpl; intros m0 H; simplify_eq.
  { split; [done|]. intros d. rewrite Exists_nil. tauto. }
  destruct (everSent m) eqn:E; simpl in H; [|done].
  apply IH in H as [Hf Hd]. split; [by constructor|]. intros d. rewrite Hd, Exists_cons.
  destruct (Z.ltb_spec (timeout - time_sub now (lastSent m)) m0); intuition lia.
Qed.

Lemma filter_due_nonempty timeout now (l : list outgoing) :
  filter (fun m => is_due timeout now m = true) l <> [] <->
  Exists (fun m => is_due timeout now m = true) l.
Proof.
  induction l as [|m l IH]; [rewrite Exists_nil; naive_solver|].
  rewrite filter_cons, Exists_cons. case_decide; naive_solver.
Qed.

(** ** Properties *)

(** Whatever the network loses, duplicates or reorders, the payloads the
    receiver hands to TLS are a prefix of the payloads queued at the sender, in
    order and without a gap or a repetition (below the 32-bit ID space). *)
Theorem delivered_prefix (w t : Z) (y : sys) :
  rtc step (sys0 w t) y -> Z.of_nat (length (sent y)) < 2 ^ 32 ->
  delivered y `prefix_of` sent y.
Proof.
  intros Hr Hl. destruct (sys_inv_reachable w t y Hr Hl) as [_ _ _ _ Hd _ _ _].
  rewrite Hd. eexists. symmetry. apply take_drop.
Qed.

(** A sender with nothing in flight has had everything delivered: an
    acknowledgement releases a message only after the receiver has it. *)
Theorem quiescent_all_delivered (w t : Z) (y : sys) :
  rtc step (sys0 w t) y -> Z.of_nat (length (sent y)) < 2 ^ 32 ->
  inflight (snd_ y) = [] -> delivered y = sent y.
Proof. intros Hr Hl. by apply inv_quiescent, (sys_inv_reachable w t). Qed.

(** In every reachable state the sender has at most [window] messages in
    flight, in strictly ascending order of ID. *)
Theorem sender_window_ordered (w t : Z) (y : sys) :
  rtc step (sys0 w t) y -> Z.of_nat (length (sent y)) < 2 ^ 32 ->
  InFlight (snd_ y) <= window (snd_ y) /\
  StronglySorted Z.lt (ID ∘ msg <$> inflight (snd_ y)).
Proof. intros Hr Hl. by destruct (sender_inv_reachable w t y Hr Hl). Qed.

(** A run that crosses the wires: two messages, delivered in reverse, acknowledged. *)
Definition sample_run : { y : sys | rtc step (sys0 4 0) y /\ sent y = [[1]; [2; 2]] /\ inflight (snd_ y) = [] }.
Proof.
  eexists. split; [|split].
  - eapply rtc_l; [eapply (step_queue _ _ _ _ _ _ [1]); vm_compute; reflexivity|].
    eapply rtc_l; [eapply (step_queue _ _ _ _ _ _ [2; 2]); vm_compute; reflexivity|].
    eapply rtc_l; [eapply (step_transmit _ _ _ _ _ _ 5); vm_compute; reflexivity|].
    eapply rtc_l; [eapply (step_receive _ _ _ _ _ _ (mkMessage 1 [2; 2]));
      [right; left|vm_compute; reflexivity]|].
    eapply rtc_l; [eapply (step_receive _ _ _ _ _ _ (mkMessage 0 [1]));
      [left|vm_compute; reflexivity]|].
    eapply rtc_l; [eapply (step_acks _ _ _ _ _ _ 8); vm_compute; reflexivity|].
    eapply rtc_l; [eapply (step_ack _ _ _ _ _ _ 1); left|].
    eapply rtc_l; [eapply (step_ack _ _ _ _ _ _ 0); right; left|].
    apply rtc_refl.
  - reflexivity.
  - reflexivity.
Defined.

Lemma delivered_prefix_witness : delivered (`sample_run) `prefix_of` [[1]; [2; 2]].
Proof. apply (delivered_prefix 4 0 (`sample_run)); [apply (proj2_sig sample_run)|done]. Defined.

Lemma quiescent_all_delivered_witness : delivered (`sample_run) = [[1]; [2; 2]].
Proof.
  apply (quiescent_all_delivered 4 0 (`sample_run)); [apply (proj2_sig sample_run)|done|done].
Defined.

Lemma sender_window_ordered_witness :
  InFlight (snd_ (`sample_run)) <= 4 /\
  StronglySorted Z.lt (ID ∘ msg <$> inflight (snd_ (`sample_run))).
Proof. apply (sender_window_ordered 4 0 (`sample_run)); [apply (proj2_sig sample_run)|done]. Defined.

(** [Receive] returns on every state and input: the delivery loop stops
    after at most as many iterations as messages are buffered. *)
Theorem Receive_total (r : Receiver) (id : Z) (payload : bytes) :
  exists out r', Receive r id payload = Some (out, r') /\ pending r' = pending r ++ [id].
Proof.
  unfold Receive. case_match; [eauto|]. case_match; [eauto|].
  destruct (drain_total (size (<[id := payload]> (buffered r))) (rnext r) (<[id := payload]> (buffered r)))
    as [[[out nx] b] ->]; [lia|]. simpl. eauto.
Qed.

(** The wait [NextDue] reports is exact: transmitting [d] later has a
    message to send if and only if [d] is at least the reported wait (clock
    differences inside the range of a Duration). *)
Theorem NextDue_exact (s : Sender) (now wait d : Z) :
  0 < timeout s < 2 ^ 62 -> 0 <= d < 2 ^ 62 ->
  Forall (fun m => 0 <= now - lastSent m < 2 ^ 62) (inflight s) ->
  NextDue s now = (wait, true) ->
  ((Due s (now + d)).1 <> [] <-> wait <= d).
Proof.
  intros Ht Hd Hl HN.
  assert (Hdue : (Due s (now + d)).1 <> [] <->
    Exists (fun m => is_due (timeout s) (now + d) m = true) (inflight s)).
  { unfold Due. cbn [fst]. rewrite <- filter_due_nonempty. by destruct (filter _ _). }
  rewrite Hdue. unfold NextDue in HN. destruct (inflight s) as [|m0 l0] eqn:El; [done|].
  rewrite <- El in *. destruct (next_due_scan _ _ _ _) as [w|] eqn:Es.
  - apply next_due_scan_some in Es as [Hes Hw].
    assert (Hwd : wait <= d <-> w <= d) by (case_match eqn:E; simplify_eq; apply Z.ltb_lt in E || apply Z.ltb_ge in E; lia).
    rewrite Hwd, Hw, !Exists_exists. rewrite Forall_forall in Hes, Hl. unfold is_due, time_sub in *.
    split.
    + intros (m & Hm & E). right. exists m. split; [done|]. specialize (Hl m Hm).
      rewrite (Hes m Hm) in E. simpl in E. apply Z.leb_le in E. lia.
    + intros [Hto|(m & Hm & E)].
      * exists m0. assert (m0 ∈ inflight s) as Hm by (rewrite El; left). split; [done|].
        specialize (Hl m0 Hm). rewrite (Hes m0 Hm). simpl. apply Z.leb_le. lia.
      * exists m. split; [done|]. specialize (Hl m Hm). rewrite (Hes m Hm). simpl. apply Z.leb_le. lia.
  - simplify_eq. split; [lia|]. intros _. clear -Es. revert Es. generalize (timeout s) at 2.
    induction (inflight s) as [|m l IH]; simpl; intros t Es; [done|].
    destruct (everSent m) eqn:E; simpl in Es; [apply Exists_cons; right; eauto|].
    apply Exists_cons. left. unfold is_due. by rewrite E.
Qed.

Lemma NextDue_exact_witness :
  let s := mkSender 4 1000 2 [mkOutgoing (mkMessage 0 [1]) 100 true; mkOutgoing (mkMessage 1 [2]) 400 true] in
  NextDue s 500 = (600, true) /\ ((Due s (500 + 600)).1 <> [] <-> 600 <= 600).
Proof.
  split; [reflexivity|].
  apply (NextDue_exact (mkSender 4 1000 2
    [mkOutgoing (mkMessage 0 [1]) 100 true; mkOutgoing (mkMessage 1 [2]) 400 true]) 500 600 600).
  - simpl; lia.
  - lia.
  - repeat constructor; simpl; lia.
  - reflexivity.
Defined.
