(* ===== verification/Aggfrag.v ===== *)
(** * AGGFRAG payloads (RFC 9347), [internal/ikev2/aggfrag/codec.go]

    [Packer.Pack] fills payloads of a fixed size from a queue of inner packets,
    splitting a packet over as many payloads as it needs; [Reassembler.Feed]
    turns the payloads back into packets, reading every block's length from its
    own IP header.  The file models both with their carried state, and shows
    that they are inverse on any queue and any sequence of payload sizes, that
    every payload has exactly the requested size, and that a finite number of
    payloads flushes the queue. *)
From Stdlib Require Import ZArith Lia.
From stdpp Require Import base list.
From S2P Require Import Prelude.

Definition HeaderLen : nat := 4.
Abbreviation SubTypeNonCongestionControlled := 0 (only parsing).
Abbreviation BlockTypePad := 0 (only parsing).
Abbreviation BlockTypeIPv4 := 4 (only parsing).
Abbreviation BlockTypeIPv6 := 6 (only parsing).

Inductive aggfrag_error := ErrShort | ErrSubType | ErrBlockOffset | ErrBlockType.

Record Header := mkHeader { BlockOffset : Z }.

Definition AppendHeader (dst : bytes) (blockOffset : Z) : bytes :=
  dst ++ [SubTypeNonCongestionControlled; 0] ++ be_enc 2 blockOffset.

Definition ParseHeader (pkt : bytes) : result aggfrag_error Header :=
  if (length pkt <? HeaderLen)%nat then Err ErrShort
  else if negb (at_ pkt 0 =? SubTypeNonCongestionControlled) then Err ErrSubType
  else Ok (mkHeader (be_dec (slice pkt 2 4))).

(** A block's length, from the inner IP header it begins with; 0 when there are
    too few octets to tell. *)
Definition innerLen (b : bytes) : Z :=
  if (length b <? 1)%nat then 0
  else if Z.shiftr (at_ b 0) 4 =? 4 then
    if (length b <? 20)%nat then 0
    else
      let n := be_dec (slice b 2 4) in
      if n <? 20 then 0 else n
  else if Z.shiftr (at_ b 0) 4 =? 6 then
    if (length b <? 40)%nat then 0
    else be_dec (slice b 4 6) + 40
  else 0.

Definition takeComplete (b : bytes) : option bytes :=
  let n := innerLen b in
  if (n =? 0) || (Z.of_nat (length b) <? n) then None
  else Some (take (Z.to_nat n) b).

(** ** The packer *)

(** [pending] is the unsent tail of a split packet; the reuse buffers of the Go
    struct hold no state of their own. *)
Record Packer := mkPacker { pending : bytes }.

Definition NewPacker : Packer := mkPacker [].

Definition Pending (p : Packer) : bool := (0 <? length (pending p))%nat.

(** The block loop of [Pack]: what it appends, the room left, the tail it has
    to carry over, and the packets it did not consume. *)
Fixpoint pack_blocks (room : nat) (pkts : list bytes) : bytes * nat * bytes * list bytes :=
  match pkts with
  | [] => ([], room, [], [])
  | pkt :: pkts' =>
      if (room =? 0)%nat then ([], room, [], pkts)
      else if (length pkt <=? room)%nat then
        let '(body, room', pend, rest) := pack_blocks (room - length pkt) pkts' in
        (pkt ++ body, room', pend, rest)
      else (take room pkt, 0%nat, drop room pkt, pkts')
  end.

Definition Pack (p : Packer) (pkts : list bytes) (size : Z) : option bytes * list bytes * Packer :=
  if size <? Z.of_nat HeaderLen + 1 then (None, pkts, p)
  else
    let room := Z.to_nat (size - Z.of_nat HeaderLen) in
    let blockOffset := if (0 <? length (pending p))%nat then Nat.min (length (pending p)) room else 0%nat in
    let buf := AppendHeader [] (wrap 16 (Z.of_nat blockOffset)) ++ take blockOffset (pending p) in
    let pend := drop blockOffset (pending p) in
    let room := (room - blockOffset)%nat in
    let '(body, room', pend', rest) :=
      if (length pend =? 0)%nat then pack_blocks room pkts else ([], room, pend, pkts) in
    (Some (buf ++ body ++ replicate room' 0), rest, mkPacker pend').

(** ** The reassembler *)

(** [partial] is nil ([None]) or the octets of a block whose rest has not arrived. *)
Record Reassembler := mkReassembler { partial : option bytes }.

Definition NewReassembler : Reassembler := mkReassembler None.

(** The block loop of [Feed]: the packets completed, the error, and the head
    kept for the next payload.  Every iteration consumes at least 20 octets, so
    the number of octets is enough fuel ([feed_blocks_total]). *)
Fixpoint feed_blocks (fuel : nat) (data : bytes) (out : list bytes)
    : option (list bytes * option aggfrag_error * option bytes) :=
  if (length data =? 0)%nat then Some (out, None, None)
  else
    let ty := Z.shiftr (at_ data 0) 4 in
    if ty =? BlockTypePad then Some (out, None, None)
    else if (ty =? BlockTypeIPv4) || (ty =? BlockTypeIPv6) then
      let n := innerLen data in
      if (n =? 0) || (Z.of_nat (length data) <? n) then Some (out, None, Some data)
      else
        match fuel with
        | O => None
        | S fuel' =>
            feed_blocks fuel' (drop (Z.to_nat n) data) (out ++ [take (Z.to_nat n) data])
        end
    else Some (out, Some ErrBlockType, None).

Definition Feed (r : Reassembler) (payload : bytes)
    : option (list bytes * option aggfrag_error * Reassembler) :=
  match ParseHeader payload with
  | Err e => Some ([], Some e, r)
  | Ok hdr =>
      let data := drop HeaderLen payload in
      let off := BlockOffset hdr in
      if Z.of_nat (length data) <? off then Some ([], Some ErrBlockOffset, r)
      else
        let blocks out data :=
          '(out, e, part) ← feed_blocks (length data) data out;
          Some (out, e, mkReassembler part) in
        if 0 <? off then
          match partial r with
          | None => blocks [] (drop (Z.to_nat off) data)
          | Some head =>
              let head := head ++ take (Z.to_nat off) data in
              match takeComplete head with
              | None => Some ([], None, mkReassembler (Some head))
              | Some pkt => blocks [pkt] (drop (Z.to_nat off) data)
              end
          end
        else blocks [] data
  end.

(** ** Notify flags *)

Abbreviation FlagDontFragment := (Z.shiftl 1 0) (only parsing).
Abbreviation FlagCongestionControl := (Z.shiftl 1 1) (only parsing).
Abbreviation flagsReserved := 252 (only parsing).
Abbreviation OurFlags := 0 (only parsing).

Definition NotifyData (f : Z) : bytes := [f].

Definition ParseFlags (data : bytes) : result nat Z :=
  if negb (length data =? 1)%nat then Err (length data) else Ok (at_ data 0).

Definition Unsupported (f : Z) : bool :=
  negb (Z.land f (Z.lor FlagCongestionControl flagsReserved) =? 0).

Definition MustNotFragment (f : Z) : bool := negb (Z.land f FlagDontFragment =? 0).

(** ** Block lengths *)

(** A packet whose IP header declares exactly its length. *)
Definition wf_pkt (p : bytes) : Prop := p <> [] /\ innerLen p = Z.of_nat (length p).

#[export] Instance wf_pkt_dec p : Decision (wf_pkt p).
Proof. unfold wf_pkt. apply _. Defined.

Lemma innerLen_app p q : innerLen p <> 0 -> innerLen (p ++ q) = innerLen p.
Proof.
  unfold innerLen. rewrite length_app. intros H.
  destruct (Nat.ltb_spec (length p) 1); [done|].
  rewrite (at_app_l p q) by lia. destruct (Nat.ltb_spec (length p + length q) 1); [lia|].
  destruct (Z.shiftr (at_ p 0) 4 =? 4).
  - destruct (Nat.ltb_spec (length p) 20); [done|].
    rewrite slice_app_l by lia. destruct (Nat.ltb_spec (length p + length q) 20); [lia|done].
  - destruct (Z.shiftr (at_ p 0) 4 =? 6); [|done].
    destruct (Nat.ltb_spec (length p) 40); [done|].
    rewrite slice_app_l by lia. destruct (Nat.ltb_spec (length p + length q) 40); [lia|done].
Qed.

Lemma innerLen_version p :
  innerLen p <> 0 -> Z.shiftr (at_ p 0) 4 = 4 \/ Z.shiftr (at_ p 0) 4 = 6.
Proof.
  unfold innerLen. case_match; [done|]. destruct (Z.eqb_spec (Z.shiftr (at_ p 0) 4) 4); [auto|].
  destruct (Z.eqb_spec (Z.shiftr (at_ p 0) 4) 6); [auto|done].
Qed.

Lemma wf_pkt_len p : wf_pkt p -> innerLen p <> 0 /\ (0 < length p)%nat.
Proof. intros [Hn Hl]. destruct p; [done|]. simpl in *. lia. Qed.

(** The head of a packet still being sent is never mistaken for a packet. *)
Lemma head_incomplete h t :
  wf_pkt (h ++ t) -> t <> [] -> innerLen h = 0 \/ Z.of_nat (length h) < innerLen h.
Proof.
  intros Hwf Ht. destruct (decide (innerLen h = 0)); [by left|]. right.
  rewrite <- (innerLen_app h t) by done. destruct Hwf as [_ ->].
  rewrite length_app. destruct t; [done|]. simpl. lia.
Qed.

Lemma takeComplete_head h t : wf_pkt (h ++ t) -> t <> [] -> takeComplete h = None.
Proof.
  intros Hwf Ht. unfold takeComplete. destruct (head_incomplete h t Hwf Ht) as [->|Hlt]; [done|].
  rewrite (proj2 (Z.ltb_lt _ _) Hlt). by rewrite orb_true_r.
Qed.

Lemma takeComplete_whole p : wf_pkt p -> takeComplete p = Some p.
Proof.
  intros Hp. destruct (wf_pkt_len p Hp) as [Hn _]. unfold takeComplete.
  rewrite (proj2 (Z.eqb_neq _ _) Hn). destruct Hp as [_ ->]. rewrite Z.ltb_irrefl. simpl.
  by rewrite Nat2Z.id, take_ge.
Qed.

(** ** What the receiver's block loop does on what the packer emits *)

Lemma feed_blocks_packet f p rest out :
  wf_pkt p -> feed_blocks (S f) (p ++ rest) out = feed_blocks f rest (out ++ [p]).
Proof.
  intros Hp. destruct (wf_pkt_len p Hp) as [Hn Hl]. simpl.
  rewrite length_app, (at_app_l p rest) by lia. rewrite innerLen_app by done.
  destruct (Nat.eqb_spec (length p + length rest) 0); [lia|].
  assert (Hv : (Z.shiftr (at_ p 0) 4 =? BlockTypePad) = false /\
    (Z.shiftr (at_ p 0) 4 =? BlockTypeIPv4) || (Z.shiftr (at_ p 0) 4 =? BlockTypeIPv6) = true).
  { by destruct (innerLen_version p Hn) as [-> | ->]. }
  destruct Hv as [-> ->]. rewrite (proj2 (Z.eqb_neq _ _) Hn). destruct Hp as [_ ->].
  rewrite (proj2 (Z.ltb_ge _ _)) by lia. simpl.
  by rewrite Nat2Z.id, drop_app_length, take_app_length.
Qed.

Lemma feed_blocks_concat f ps tail out :
  Forall wf_pkt ps ->
  feed_blocks (length ps + f) (concat ps ++ tail) out = feed_blocks f tail (out ++ ps).
Proof.
  revert out. induction ps as [|p ps IH]; intros out Hps; simpl.
  { by rewrite app_nil_r. }
  apply Forall_cons in Hps as [Hp Hps]. rewrite <- (app_assoc p).
  change (feed_blocks (S (length ps + f)) (p ++ concat ps ++ tail) out = feed_blocks f tail (out ++ p :: ps)).
  rewrite feed_blocks_packet, IH by done. by rewrite <- app_assoc.
Qed.

Lemma feed_blocks_pad f k out : feed_blocks f (replicate k 0) out = Some (out, None, None).
Proof. destruct f, k; done. Qed.

Lemma feed_blocks_head f h t out :
  wf_pkt (h ++ t) -> h <> [] -> t <> [] -> feed_blocks f h out = Some (out, None, Some h).
Proof.
  intros Hwf Hh Ht. pose proof (head_incomplete h t Hwf Ht) as Hi.
  destruct (wf_pkt_len _ Hwf) as [Hn _]. apply innerLen_version in Hn.
  assert (0 < length h)%nat by (destruct h; [done|simpl; lia]).
  rewrite at_app_l in Hn by done.
  assert (Hc : (innerLen h =? 0) || (Z.of_nat (length h) <? innerLen h) = true).
  { destruct Hi as [->|Hlt]; [done|]. rewrite (proj2 (Z.ltb_lt _ _) Hlt). apply orb_true_r. }
  destruct f; simpl; rewrite Hc; (destruct (Nat.eqb_spec (length h) 0); [lia|]);
    by destruct Hn as [-> | ->].
Qed.

Lemma length_concat_wf ps : Forall wf_pkt ps -> (length ps <= length (concat ps))%nat.
Proof.
  induction 1 as [|p ps Hp Hps IH]; simpl; [done|]. rewrite length_app.
  pose proof (proj2 (wf_pkt_len p Hp)). lia.
Qed.

(** The tail the packer leaves after whole packets: padding, or the head of a
    packet whose rest is carried over. *)
Inductive tail_ok : bytes -> bytes -> Prop :=
| tail_pad k : tail_ok (replicate k 0) []
| tail_head h t : h <> [] -> t <> [] -> wf_pkt (h ++ t) -> tail_ok h t.

Definition head_of (tail pend : bytes) : option bytes := if pend then None else Some tail.

Lemma feed_blocks_all ps tail pend out :
  Forall wf_pkt ps -> tail_ok tail pend ->
  feed_blocks (length (concat ps ++ tail)) (concat ps ++ tail) out =
    Some (out ++ ps, None, head_of tail pend).
Proof.
  intros Hps Ht. pose proof (length_concat_wf ps Hps).
  replace (length (concat ps ++ tail)) with (length ps + (length (concat ps ++ tail) - length ps))%nat
    by (rewrite length_app; lia).
  rewrite feed_blocks_concat by done. destruct Ht as [k|h t Hh Hnt Hw].
  - apply feed_blocks_pad.
  - rewrite (feed_blocks_head _ h t) by done. by destruct t.
Qed.

(** ** What the packer emits *)

Definition carried (tail pend : bytes) : list bytes := if pend then [] else [tail ++ pend].

Lemma pack_blocks_spec room pkts body room' pend rest :
  Forall wf_pkt pkts -> pack_blocks room pkts = (body, room', pend, rest) ->
  exists ps tail, body ++ replicate room' 0 = concat ps ++ tail /\ Forall wf_pkt ps /\
    tail_ok tail pend /\ pkts = ps ++ carried tail pend ++ rest.
Proof.
  revert room body room' pend rest.
  induction pkts as [|p pkts IH]; intros room body room' pend rest Hwf E; simpl in E; simplify_eq.
  { exists [], (replicate room' 0). split_and!; [done|done|apply tail_pad|done]. }
  apply Forall_cons in Hwf as [Hp Hwf]. destruct (Nat.eqb_spec room 0) as [->|Hr]; simplify_eq.
  { exists [], (replicate 0 0). split_and!; [done|done|apply (tail_pad 0)|done]. }
  destruct (Nat.leb_spec (length p) room) as [Hle|Hgt].
  - destruct (pack_blocks (room - length p) pkts) as [[[b r] q] k] eqn:E'; simplify_eq.
    destruct (IH _ _ _ _ _ Hwf E') as (ps & tail & Hb & Hps & Ht & ->).
    exists (p :: ps), tail. rewrite <- app_assoc, Hb. simpl. rewrite <- app_assoc.
    split_and!; [done|by constructor|done|done].
  - simplify_eq. exists [], (take room p). simpl. rewrite app_nil_r.
    assert (drop room p <> []) as Hd.
    { intros E%(f_equal length). rewrite length_drop in E. simpl in E. lia. }
    split_and!; [done|done| |].
    + apply tail_head; [|done|by rewrite take_drop].
      intros E%(f_equal length). rewrite length_take in E. simpl in E. lia.
    + unfold carried. destruct (drop room p) eqn:Ed; [done|]. rewrite <- Ed, take_drop. done.
Qed.

Lemma pack_blocks_length room pkts body room' pend rest :
  pack_blocks room pkts = (body, room', pend, rest) -> length (body ++ replicate room' 0) = room.
Proof.
  revert room body room' pend rest.
  induction pkts as [|p pkts IH]; intros room body room' pend rest E; simpl in E; simplify_eq/=.
  { apply length_replicate. }
  destruct (Nat.eqb_spec room 0) as [->|Hr]; simplify_eq/=; [done|].
  destruct (Nat.leb_spec (length p) room) as [Hle|Hgt].
  - destruct (pack_blocks (room - length p) pkts) as [[[b r] q] k] eqn:E'; simplify_eq.
    apply IH in E'. rewrite <- app_assoc, length_app. lia.
  - simplify_eq/=. rewrite app_nil_r, length_take. lia.
Qed.

(** Octets not yet sent. *)
Definition unsent (p : Packer) (pkts : list bytes) : nat := (length (pending p) + length (concat pkts))%nat.

Lemma pack_blocks_unsent room pkts body room' pend rest :
  pack_blocks room pkts = (body, room', pend, rest) ->
  (length pend + length (concat rest) = length (concat pkts) - room)%nat.
Proof.
  revert room body room' pend rest.
  induction pkts as [|p pkts IH]; intros room body room' pend rest E; simpl in E; simplify_eq; [done|].
  destruct (Nat.eqb_spec room 0) as [->|Hr]; simplify_eq; [simpl; lia|].
  destruct (Nat.leb_spec (length p) room) as [Hle|Hgt].
  - destruct (pack_blocks (room - length p) pkts) as [[[b r] q] k] eqn:E'; simplify_eq.
    rewrite (IH _ _ _ _ _ E'). simpl. rewrite length_app. lia.
  - simplify_eq. simpl. rewrite length_drop, length_app. lia.
Qed.

(** ** The two ends in step

    [link p r cur]: the packer and the reassembler agree on the packet [cur]
    that is split between them, if any. *)
Inductive link : Packer -> Reassembler -> list bytes -> Prop :=
| link_idle : link (mkPacker []) (mkReassembler None) []
| link_split h t : h <> [] -> t <> [] -> wf_pkt (h ++ t) ->
    link (mkPacker t) (mkReassembler (Some h)) [h ++ t].

Lemma link_tail tail pend :
  tail_ok tail pend -> link (mkPacker pend) (mkReassembler (head_of tail pend)) (carried tail pend).
Proof. destruct 1 as [k|h t Hh Ht Hw]; [constructor|]. destruct t; [done|]. by constructor. Qed.

Lemma ParseHeader_AppendHeader off x :
  uint16 off -> ParseHeader (AppendHeader [] off ++ x) = Ok (mkHeader off).
Proof.
  intros Ho. unfold ParseHeader. rewrite (proj2 (Nat.ltb_ge _ _)).
  2: { rewrite length_app. change (length (AppendHeader [] off)) with HeaderLen. lia. }
  change (at_ (AppendHeader [] off ++ x) 0 =? SubTypeNonCongestionControlled) with true.
  change (slice (AppendHeader [] off ++ x) 2 4) with (be_enc 2 off).
  cbn [negb]. by rewrite be_dec_enc_small.
Qed.

Lemma drop_AppendHeader off x : drop HeaderLen (AppendHeader [] off ++ x) = x.
Proof. done. Qed.

Lemma length_AppendHeader off : length (AppendHeader [] off) = HeaderLen.
Proof. done. Qed.

(** [Feed] on a payload with a header: the continuation and the blocks after it. *)
Lemma Feed_idle blocks :
  Feed (mkReassembler None) (AppendHeader [] 0 ++ blocks) =
    ('(out, e, part) ← feed_blocks (length blocks) blocks []; Some (out, e, mkReassembler part)).
Proof.
  unfold Feed. rewrite ParseHeader_AppendHeader by done. rewrite drop_AppendHeader. simpl.
  rewrite (proj2 (Z.ltb_ge _ _)) by lia. done.
Qed.

Lemma Feed_split h c blocks :
  c <> [] -> Z.of_nat (length c) < 2 ^ 16 ->
  Feed (mkReassembler (Some h)) (AppendHeader [] (Z.of_nat (length c)) ++ c ++ blocks) =
    match takeComplete (h ++ c) with
    | None => Some ([], None, mkReassembler (Some (h ++ c)))
    | Some pkt => '(out, e, part) ← feed_blocks (length blocks) blocks [pkt]; Some (out, e, mkReassembler part)
    end.
Proof.
  intros Hc Hl. assert (0 < length c)%nat by (destruct c; [done|simpl; lia]).
  unfold Feed. rewrite ParseHeader_AppendHeader by (unfold uint; lia). rewrite drop_AppendHeader. simpl.
  rewrite (proj2 (Z.ltb_ge _ _)) by (rewrite length_app; lia).
  rewrite (proj2 (Z.ltb_lt _ _)) by lia.
  rewrite Nat2Z.id, take_app_length, drop_app_length. done.
Qed.

(** [Pack] in its three situations: nothing pending, a tail that fits, a tail
    that fills the payload. *)
Lemma Pack_idle pkts size room :
  5 <= size -> room = Z.to_nat (size - 4) ->
  Pack (mkPacker []) pkts size =
    let '(body, room', pend, rest) := pack_blocks room pkts in
    (Some (AppendHeader [] 0 ++ body ++ replicate room' 0), rest, mkPacker pend).
Proof.
  intros Hs ->. unfold Pack, HeaderLen. rewrite (proj2 (Z.ltb_ge _ _)) by lia.
  change (Z.of_nat 4) with 4. cbn [pending length Nat.ltb Nat.leb take drop Nat.eqb].
  rewrite Nat.sub_0_r, app_nil_r. done.
Qed.

Lemma Pack_finish t pkts size room :
  5 <= size <= 65539 -> room = Z.to_nat (size - 4) -> (0 < length t <= room)%nat ->
  Pack (mkPacker t) pkts size =
    let '(body, room', pend, rest) := pack_blocks (room - length t) pkts in
    (Some (AppendHeader [] (Z.of_nat (length t)) ++ t ++ body ++ replicate room' 0), rest, mkPacker pend).
Proof.
  intros Hs -> Ht. unfold Pack, HeaderLen. rewrite (proj2 (Z.ltb_ge _ _)) by lia.
  change (Z.of_nat 4) with 4. cbn [pending].
  rewrite (proj2 (Nat.ltb_lt _ _)) by lia. rewrite Nat.min_l by lia.
  rewrite (wrap_small 16) by (unfold uint; lia). rewrite take_ge, drop_ge by lia.
  cbn [length Nat.eqb]. destruct (pack_blocks _ _) as [[[body room'] pend] rest].
  by rewrite <- app_assoc.
Qed.

Lemma Pack_continue t pkts size room :
  5 <= size <= 65539 -> room = Z.to_nat (size - 4) -> (room < length t)%nat ->
  Pack (mkPacker t) pkts size =
    (Some (AppendHeader [] (Z.of_nat room) ++ take room t ++ []), pkts, mkPacker (drop room t)).
Proof.
  intros Hs -> Ht. unfold Pack, HeaderLen. rewrite (proj2 (Z.ltb_ge _ _)) by lia.
  change (Z.of_nat 4) with 4. cbn [pending].
  rewrite (proj2 (Nat.ltb_lt _ _)) by lia. rewrite Nat.min_r by lia.
  rewrite (wrap_small 16) by (unfold uint; lia).
  rewrite (proj2 (Nat.eqb_neq _ _)) by (rewrite length_drop; lia).
  rewrite Nat.sub_diag. cbn [replicate]. by rewrite <- app_assoc.
Qed.

(** One payload of any admissible size, packed and fed. *)
Definition step_ok (p : Packer) (r : Reassembler) (cur pkts : list bytes) (size : Z) : Prop :=
  exists payload rest p' out r' cur',
    Pack p pkts size = (Some payload, rest, p') /\ Z.of_nat (length payload) = size /\
    Feed r payload = Some (out, None, r') /\ link p' r' cur' /\
    cur ++ pkts = out ++ cur' ++ rest /\
    unsent p' rest = (unsent p pkts - Z.to_nat (size - 4))%nat.

Lemma step_idle pkts size :
  Forall wf_pkt pkts -> 5 <= size <= 65539 -> step_ok (mkPacker []) (mkReassembler None) [] pkts size.
Proof.
  intros Hwf Hs. unfold step_ok. erewrite Pack_idle by (lia || done).
  destruct (pack_blocks _ pkts) as [[[body room'] pend] rest] eqn:E.
  pose proof (pack_blocks_unsent _ _ _ _ _ _ E) as Hu. pose proof (pack_blocks_length _ _ _ _ _ _ E) as Hl.
  destruct (pack_blocks_spec _ _ _ _ _ _ Hwf E) as (ps & tail & Hb & Hps & Htl & ->).
  eexists _, rest, (mkPacker pend), ps, _, (carried tail pend). split; [done|].
  rewrite length_app, Hl, Hb, Feed_idle, (feed_blocks_all _ _ pend) by done.
  split_and!; [rewrite length_AppendHeader; unfold HeaderLen; lia|done|by apply link_tail|done|].
  unfold unsent. cbn [pending length]. lia.
Qed.

Lemma step_finish h t pkts size :
  h <> [] -> t <> [] -> wf_pkt (h ++ t) -> Forall wf_pkt pkts -> 5 <= size <= 65539 ->
  (length t <= Z.to_nat (size - 4))%nat ->
  step_ok (mkPacker t) (mkReassembler (Some h)) [h ++ t] pkts size.
Proof.
  intros Hh Ht Hpk Hwf Hs Hle. assert (0 < length t)%nat by (destruct t; [done|simpl; lia]).
  unfold step_ok. erewrite Pack_finish by (lia || done).
  destruct (pack_blocks _ pkts) as [[[body room'] pend] rest] eqn:E.
  pose proof (pack_blocks_unsent _ _ _ _ _ _ E) as Hu. pose proof (pack_blocks_length _ _ _ _ _ _ E) as Hl.
  destruct (pack_blocks_spec _ _ _ _ _ _ Hwf E) as (ps & tail & Hb & Hps & Htl & ->).
  eexists _, rest, (mkPacker pend), ([h ++ t] ++ ps), _, (carried tail pend). split; [done|].
  rewrite length_app, (length_app t), Hl, Hb, Feed_split by (done || lia).
  rewrite takeComplete_whole, (feed_blocks_all _ _ pend) by done.
  split_and!; [rewrite length_AppendHeader; unfold HeaderLen; lia|done|by apply link_tail|done|].
  unfold unsent. cbn [pending]. lia.
Qed.

Lemma step_continue h t pkts size :
  h <> [] -> wf_pkt (h ++ t) -> 5 <= size <= 65539 -> (Z.to_nat (size - 4) < length t)%nat ->
  step_ok (mkPacker t) (mkReassembler (Some h)) [h ++ t] pkts size.
Proof.
  intros Hh Hpk Hs Hgt. unfold step_ok. erewrite Pack_continue by (lia || done).
  set (room := Z.to_nat (size - 4)) in *.
  assert (Hsplit : wf_pkt ((h ++ take room t) ++ drop room t)) by (by rewrite <- app_assoc, take_drop).
  assert (Hd : drop room t <> []).
  { intros E%(f_equal length). rewrite length_drop in E. simpl in E. lia. }
  assert (Hlt : length (take room t) = room) by (rewrite length_take; lia).
  assert (Htk : take room t <> []).
  { intros E%(f_equal length). rewrite Hlt in E. simpl in E. lia. }
  eexists _, pkts, (mkPacker (drop room t)), [], _, [(h ++ take room t) ++ drop room t].
  split; [done|]. rewrite <- Hlt at 3. rewrite Feed_split by (done || lia).
  rewrite (takeComplete_head _ (drop room t)) by done.
  split_and!; [|done| | |].
  - rewrite !length_app, length_AppendHeader, Hlt. unfold HeaderLen. simpl. lia.
  - constructor; [by destruct h|done|done].
  - by rewrite <- app_assoc, take_drop.
  - unfold unsent. cbn [pending]. rewrite length_drop. lia.
Qed.

Lemma pack_feed_step p r cur pkts size :
  link p r cur -> Forall wf_pkt pkts -> 5 <= size <= 65539 -> step_ok p r cur pkts size.
Proof.
  intros [|h t Hh Ht Hpk] Hwf Hs; [by apply step_idle|].
  destruct (Nat.le_gt_cases (length t) (Z.to_nat (size - 4))).
  - by apply step_finish.
  - by apply step_continue.
Qed.

(** A sequence of payloads of the given sizes, each packed and fed in turn. *)
Fixpoint session (sizes : list Z) (p : Packer) (r : Reassembler) (pkts : list bytes)
    : option (list bytes * list bytes * Packer * Reassembler * list bytes) :=
  match sizes with
  | [] => Some ([], [], p, r, pkts)
  | size :: sizes' =>
      match Pack p pkts size with
      | (Some payload, rest, p') =>
          match Feed r payload with
          | Some (out, None, r') =>
              '(payloads, outs, p'', r'', rest') ← session sizes' p' r' rest;
              Some (payload :: payloads, out ++ outs, p'', r'', rest')
          | _ => None
          end
      | _ => None
      end
  end.

Definition capacity (sizes : list Z) : nat := sum_list ((fun s => Z.to_nat (s - 4)) <$> sizes).

Lemma session_spec sizes p r cur pkts :
  link p r cur -> Forall wf_pkt pkts -> Forall (fun s => 5 <= s <= 65539) sizes ->
  exists payloads outs p' r' rest cur',
    session sizes p r pkts = Some (payloads, outs, p', r', rest) /\
    (fun x => Z.of_nat (length x)) <$> payloads = sizes /\
    link p' r' cur' /\ cur ++ pkts = outs ++ cur' ++ rest /\
    unsent p' rest = (unsent p pkts - capacity sizes)%nat.
Proof.
  revert p r cur pkts. induction sizes as [|size sizes IH]; intros p r cur pkts Hl Hwf Hs.
  { exists [], [], p, r, pkts, cur. split_and!; try done. unfold capacity. simpl. lia. }
  apply Forall_cons in Hs as [Hs1 Hs]. simpl.
  destruct (pack_feed_step p r cur pkts size Hl Hwf Hs1)
    as (payload & rest & p' & out & r' & cur' & -> & Hlen & -> & Hl' & Heq & Hu).
  assert (Hwf' : Forall wf_pkt rest).
  { assert (Forall wf_pkt (cur ++ pkts)) as Hall.
    { apply Forall_app. split; [|done]. inversion Hl; subst; auto. }
    rewrite Heq, !Forall_app in Hall. tauto. }
  destruct (IH p' r' cur' rest Hl' Hwf' Hs)
    as (payloads & outs & p'' & r'' & rest' & cur'' & -> & Hlens & Hl'' & Heq' & Hu'). simpl.
  eexists _, _, p'', r'', rest', cur''. split; [done|]. simpl.
  split_and!; [by f_equal|done|by rewrite Heq, Heq', <- app_assoc|].
  change (capacity (size :: sizes)) with (Z.to_nat (size - 4) + capacity sizes)%nat. lia.
Qed.

(** ** Robustness of [Feed] on arbitrary payloads *)

Lemma innerLen_cases b :
  bytes_ok b -> innerLen b <> 0 ->
  (Z.shiftr (at_ b 0) 4 = 4 /\ innerLen b = be_dec (slice b 2 4) /\ 20 <= innerLen b) \/
  (Z.shiftr (at_ b 0) 4 = 6 /\ innerLen b = be_dec (slice b 4 6) + 40 /\ 40 <= innerLen b).
Proof.
  intros Hb Hn. pose proof (be_dec_range (slice b 4 6) (slice_ok b 4 6 Hb)).
  unfold innerLen in *. case_match; [done|].
  destruct (Z.eqb_spec (Z.shiftr (at_ b 0) 4) 4) as [E4|].
  - left. case_match; [done|]. destruct (Z.ltb_spec (be_dec (slice b 2 4)) 20); done.
  - destruct (Z.eqb_spec (Z.shiftr (at_ b 0) 4) 6) as [E6|]; [|done].
    right. case_match; [done|]. split_and!; [done|done|lia].
Qed.

(** A block cut to the length its header declares is a well-formed packet. *)
Lemma innerLen_take b :
  bytes_ok b -> innerLen b <> 0 -> innerLen b <= Z.of_nat (length b) ->
  wf_pkt (take (Z.to_nat (innerLen b)) b).
Proof.
  intros Hb Hn Hl. set (k := Z.to_nat (innerLen b)).
  assert (Hk : length (take k b) = k).
  { rewrite length_take. unfold k. lia. }
  assert (Hpos : 20 <= innerLen b) by (destruct (innerLen_cases b Hb Hn); lia).
  assert (Hkz : Z.of_nat k = innerLen b) by (unfold k; lia). clearbody k.
  split; [intros E%(f_equal length); rewrite Hk in E; simpl in E; lia|].
  assert (Hat : at_ (take k b) 0 = at_ b 0).
  { rewrite <- (take_drop k b) at 2. by rewrite at_app_l by lia. }
  assert (Hsl : forall i j, (j <= k)%nat -> slice (take k b) i j = slice b i j).
  { intros i j Hj. rewrite <- (take_drop k b) at 2. by rewrite slice_app_l by lia. }
  unfold innerLen. rewrite Hk, Hat. rewrite (proj2 (Nat.ltb_ge _ _)) by lia.
  destruct (innerLen_cases b Hb Hn) as [(-> & E & ?)|(-> & E & ?)].
  - change (4 =? 4) with true. cbn iota. rewrite (proj2 (Nat.ltb_ge k 20)) by lia.
    rewrite Hsl, <- E by lia. rewrite (proj2 (Z.ltb_ge _ _)) by lia. lia.
  - change (6 =? 4) with false. change (6 =? 6) with true. cbn iota.
    rewrite (proj2 (Nat.ltb_ge k 40)) by lia. rewrite Hsl, <- E by lia. lia.
Qed.

(** The octets kept between payloads are octets. *)
Definition head_ok (part : option bytes) : Prop := forall h, part = Some h -> bytes_ok h.

Lemma feed_blocks_total fuel data out :
  bytes_ok data -> (length data <= fuel)%nat -> Forall wf_pkt out ->
  exists out' e part, feed_blocks fuel data out = Some (out', e, part) /\ Forall wf_pkt out' /\
    head_ok part /\ (e = None \/ e = Some ErrBlockType).
Proof.
  revert data out. induction fuel as [|fuel IH]; intros data out Hd Hl Ho; cbn [feed_blocks];
    (destruct (Nat.eqb_spec (length data) 0); [by eexists _, _, _; split_and!; [done..|left]|]); [lia|].
  destruct (_ =? BlockTypePad); [by eexists _, _, _; split_and!; [done..|left]|].
  destruct (_ || _); [|by eexists _, _, _; split_and!; [done..|right]].
  destruct (_ || _) eqn:E; [by eexists _, _, _; split_and!; [done|done|intros ? [= <-]|left]|].
  apply orb_false_iff in E as [E1%Z.eqb_neq E2%Z.ltb_ge].
  assert (0 < innerLen data) by (destruct (innerLen_cases data Hd E1); lia).
  apply IH; [by apply Forall_drop|rewrite length_drop; lia|].
  apply Forall_app. split; [done|]. constructor; [by apply innerLen_take|done].
Qed.

Lemma takeComplete_wf h p : bytes_ok h -> takeComplete h = Some p -> wf_pkt p.
Proof.
  intros Hh. unfold takeComplete. destruct (_ || _) eqn:E; [done|].
  apply orb_false_iff in E as [E1%Z.eqb_neq E2%Z.ltb_ge]. intros [= <-]. by apply innerLen_take.
Qed.

(** What [Feed] guarantees of its results, whatever it is fed. *)
Definition feed_ok (r : Reassembler) (res : option (list bytes * option aggfrag_error * Reassembler)) : Prop :=
  exists out e r', res = Some (out, e, r') /\ Forall wf_pkt out /\ head_ok (partial r') /\
    (e = None \/ e = Some ErrBlockType \/ (out = [] /\ r' = r)).

Lemma feed_ok_blocks r data out :
  bytes_ok data -> Forall wf_pkt out ->
  feed_ok r ('(o, e, part) ← feed_blocks (length data) data out; Some (o, e, mkReassembler part)).
Proof.
  intros Hd Ho. destruct (feed_blocks_total (length data) data out Hd ltac:(lia) Ho)
    as (o & e & part & -> & ? & ? & ?). simpl. eexists _, _, _. split_and!; [done..|]. tauto.
Qed.

Lemma Feed_ok (r : Reassembler) (payload : bytes) :
  bytes_ok payload -> head_ok (partial r) -> feed_ok r (Feed r payload).
Proof.
  intros Hp Hr. unfold Feed. destruct (ParseHeader payload) as [hdr|err].
  2: { eexists _, _, _. split_and!; [done..|]. auto. }
  case_match; [eexists _, _, _; split_and!; [done..|]; auto|].
  assert (Hd : bytes_ok (drop HeaderLen payload)) by (by apply Forall_drop).
  case_match; [|by apply feed_ok_blocks]. destruct (partial r) as [h|] eqn:Eh.
  2: { apply feed_ok_blocks; [by apply Forall_drop|done]. }
  assert (Hh : bytes_ok (h ++ take (Z.to_nat (BlockOffset hdr)) (drop HeaderLen payload))).
  { apply Forall_app. split; [by apply Hr|by apply Forall_take]. }
  destruct (takeComplete _) as [p|] eqn:Et.
  - apply feed_ok_blocks; [by apply Forall_drop|]. constructor; [|done]. by eapply takeComplete_wf.
  - eexists _, _, _. split_and!; [done|done|by intros ? [= <-]|by left].
Qed.

(** ** Properties *)

(** C19: Packing a queue of IP packets into payloads of any sequence of sizes and
    feeding the payloads to a reassembler gives back the packets in order: what
    came out, the one packet split between the two ends, and what is still
    queued are together exactly what was queued. *)
Theorem aggfrag_roundtrip (sizes : list Z) (pkts : list bytes) :
  Forall wf_pkt pkts -> Forall (fun s => 5 <= s <= 65539) sizes ->
  exists payloads outs p r rest cur,
    session sizes NewPacker NewReassembler pkts = Some (payloads, outs, p, r, rest) /\
    (fun x => Z.of_nat (length x)) <$> payloads = sizes /\
    link p r cur /\ pkts = outs ++ cur ++ rest.
Proof.
  intros Hp Hs. destruct (session_spec sizes _ _ _ pkts link_idle Hp Hs)
    as (payloads & outs & p & r & rest & cur & H & Hl & Hk & He & _).
  exists payloads, outs, p, r, rest, cur. split_and!; auto.
Qed.

(** A finite number of payloads flushes the queue: once their capacity
    reaches the octets queued, every packet has come out at the far end, whole
    and in order, and nothing is pending. *)
Theorem aggfrag_flush (sizes : list Z) (pkts : list bytes) :
  Forall wf_pkt pkts -> Forall (fun s => 5 <= s <= 65539) sizes ->
  (length (concat pkts) <= capacity sizes)%nat ->
  exists payloads p r,
    session sizes NewPacker NewReassembler pkts = Some (payloads, pkts, p, r, []) /\ Pending p = false.
Proof.
  intros Hp Hs Hc. destruct (session_spec sizes _ _ _ pkts link_idle Hp Hs)
    as (payloads & outs & p & r & rest & cur & H & _ & Hk & He & Hu).
  unfold unsent in Hu. cbn [pending length] in Hu.
  assert (Hrest : Forall wf_pkt rest) by (rewrite app_nil_l in He; rewrite He, !Forall_app in Hp; tauto).
  pose proof (length_concat_wf rest Hrest).
  assert (rest = []) as -> by (apply nil_length_inv; lia).
  destruct Hk as [|h t Hh Ht _]; [|destruct t; [done|simpl in Hu; lia]].
  rewrite !app_nil_r in He. simpl in He. subst outs. eauto.
Qed.

(** An IPv4 packet of 24 octets and an IPv6 packet of 44. *)
Definition sample4 : bytes := [69; 0; 0; 24] ++ replicate 20 7.
Definition sample6 : bytes := [96; 0; 0; 0; 0; 4] ++ replicate 38 9.

Lemma aggfrag_roundtrip_witness :
  exists payloads outs p r rest cur,
    session [20; 5; 9] NewPacker NewReassembler [sample4; sample6] = Some (payloads, outs, p, r, rest) /\
    (fun x => Z.of_nat (length x)) <$> payloads = [20; 5; 9] /\
    link p r cur /\ [sample4; sample6] = outs ++ cur ++ rest.
Proof. apply (aggfrag_roundtrip [20; 5; 9] [sample4; sample6]); by_decision. Defined.

Lemma aggfrag_flush_witness :
  exists payloads p r,
    session [30; 30; 30] NewPacker NewReassembler [sample4; sample6] =
      Some (payloads, [sample4; sample6], p, r, []) /\ Pending p = false.
Proof. apply (aggfrag_flush [30; 30; 30] [sample4; sample6]); by_decision. Defined.

(** [Feed] returns on every payload; every packet it hands over has exactly
    the length its own IP header declares; and an error other than an unknown
    block type leaves the reassembler as it was. *)
Theorem Feed_safe (r : Reassembler) (payload : bytes) :
  bytes_ok payload -> head_ok (partial r) ->
  exists out e r', Feed r payload = Some (out, e, r') /\ Forall wf_pkt out /\ head_ok (partial r') /\
    (e = None \/ e = Some ErrBlockType \/ (out = [] /\ r' = r)).
Proof. apply Feed_ok. Qed.

Lemma Feed_safe_witness :
  exists out e r', Feed NewReassembler ([0; 0; 0; 0] ++ sample4 ++ [81; 1; 2]) = Some (out, e, r') /\
    Forall wf_pkt out /\ head_ok (partial r') /\
    (e = None \/ e = Some ErrBlockType \/ (out = [] /\ r' = NewReassembler)).
Proof.
  apply (Feed_safe NewReassembler ([0; 0; 0; 0] ++ sample4 ++ [81; 1; 2])); [by_decision|done].
Defined.

(** [Pack] emits payloads of exactly the requested size whatever the
    traffic offered: any queue, any pending tail. *)
Theorem Pack_constant_size (p : Packer) (pkts : list bytes) (size : Z) :
  5 <= size ->
  exists payload rest p',
    Pack p pkts size = (Some payload, rest, p') /\ Z.of_nat (length payload) = size.
Proof.
  intros Hs. unfold Pack. rewrite (proj2 (Z.ltb_ge _ _)) by (unfold HeaderLen; lia).
  set (room := Z.to_nat _). assert (Hrm : Z.of_nat room = size - 4) by (unfold room, HeaderLen; lia).
  clearbody room. set (off := if (0 <? length (pending p))%nat then Nat.min (length (pending p)) room else 0%nat).
  assert (Hoff : (off <= room)%nat /\ (off <= length (pending p))%nat).
  { unfold off. case_match; lia. }
  assert (Hl : forall k body, length body = k -> Z.of_nat k + Z.of_nat off = Z.of_nat room ->
    Z.of_nat (length ((AppendHeader [] (wrap 16 (Z.of_nat off)) ++ take off (pending p)) ++ body)) = size).
  { intros k body Hb Hk. rewrite !length_app, length_AppendHeader, length_take.
    unfold HeaderLen. lia. }
  clearbody off. destruct (Nat.eqb_spec (length (drop off (pending p))) 0).
  - destruct (pack_blocks (room - off) pkts) as [[[body room'] pend] rest] eqn:EP.
    eexists _, _, _. split; [done|]. eapply Hl; [eapply pack_blocks_length; exact EP|lia].
  - eexists _, _, _. split; [done|]. eapply Hl; [apply length_replicate|lia].
Qed.

Lemma Pack_constant_size_witness :
  exists payload rest p',
    Pack (mkPacker [1; 2; 3]) [[]; [4; 5]; replicate 30 6] 16 = (Some payload, rest, p') /\
    Z.of_nat (length payload) = 16.
Proof. apply (Pack_constant_size (mkPacker [1; 2; 3]) [[]; [4; 5]; replicate 30 6] 16). lia. Defined.
