(* ===== verification/Routes.v ===== *)
(** * The route table, [dataplane/routes.go]

    [routeTable] holds an uncompressed binary trie per address family; a prefix
    is a path from the root and a lookup walks the address's bits and keeps the
    last entry it passes.  The tries are persistent in the source, so they are
    plain values here.  The file relates the tries to the set of installed
    prefixes ([installed]) and shows that insertion, removal and removal by owner
    act on that set as on a finite map, and that lookup is longest-prefix match. *)
From Stdlib Require Import ZArith Lia.
From stdpp Require Import base list.
From S2P Require Import Prelude.

(** ** Addresses and prefixes ([net/netip]) *)

Inductive Addr := IPv4 (x : Z) | IPv6 (x : Z).

#[export] Instance Addr_eq_dec : EqDecision Addr.
Proof. solve_decision. Defined.

Definition Is4 (a : Addr) : bool := match a with IPv4 _ => true | IPv6 _ => false end.
Definition BitLen (a : Addr) : nat := match a with IPv4 _ => 32%nat | IPv6 _ => 128%nat end.
Definition addr_val (a : Addr) : Z := match a with IPv4 x | IPv6 x => x end.
Definition with_val (a : Addr) (x : Z) : Addr := match a with IPv4 _ => IPv4 x | IPv6 _ => IPv6 x end.
Definition addr_ok (a : Addr) : Prop := uint (Z.of_nat (BitLen a)) (addr_val a).

Record Prefix := mkPrefix { pAddr : Addr; pBits : nat }.

#[export] Instance Prefix_eq_dec : EqDecision Prefix.
Proof. solve_decision. Defined.

(** [netip.Prefix.Masked]: the bits below the prefix length cleared. *)
Definition mask_addr (a : Addr) (n : nat) : Addr :=
  let k := Z.of_nat (BitLen a - n) in with_val a (Z.shiftl (Z.shiftr (addr_val a) k) k).

Definition Masked (p : Prefix) : Prefix := mkPrefix (mask_addr (pAddr p) (pBits p)) (pBits p).

Definition prefix_ok (p : Prefix) : Prop := addr_ok (pAddr p) /\ (pBits p <= BitLen (pAddr p))%nat.

(** [netip.Prefix.Contains] for an address of the prefix's family. *)
Definition Contains (p : Prefix) (a : Addr) : Prop :=
  Is4 (pAddr p) = Is4 a /\ mask_addr a (pBits p) = pAddr (Masked p).

#[export] Instance Contains_dec p a : Decision (Contains p a).
Proof. unfold Contains. apply _. Defined.

(** ** [addrBits] *)

Record addrBits := mkBits { hi : Z; lo : Z }.

Definition bitsOf (a : Addr) : addrBits :=
  match a with
  | IPv4 x => mkBits (wrap 64 (Z.shiftl x 32)) 0
  | IPv6 x => mkBits (Z.shiftr x 64) (wrap 64 x)
  end.

Definition bit (b : addrBits) (i : nat) : bool :=
  if (i <? 64)%nat then Z.testbit (hi b) (63 - Z.of_nat i) else Z.testbit (lo b) (127 - Z.of_nat i).

(** ** Paths and masks *)

(** Bit [j] of an address, counted from the most significant. *)
Lemma bit_bitsOf a j :
  addr_ok a -> (j < BitLen a)%nat ->
  bit (bitsOf a) j = Z.testbit (addr_val a) (Z.of_nat (BitLen a) - 1 - Z.of_nat j).
Proof.
  intros Ha Hj. unfold bit, bitsOf. destruct a as [x|x]; simpl in *; unfold wrap.
  - rewrite (proj2 (Nat.ltb_lt _ _)) by lia.
    rewrite Z.mod_pow2_bits_low, Z.shiftl_spec by lia. f_equal. lia.
  - destruct (Nat.ltb_spec j 64).
    + rewrite Z.shiftr_spec by lia. f_equal; lia.
    + rewrite Z.mod_pow2_bits_low by lia. f_equal; lia.
Qed.

Lemma testbit_mask x k i : 0 <= k -> 0 <= i ->
  Z.testbit (Z.shiftl (Z.shiftr x k) k) i = (k <=? i) && Z.testbit x i.
Proof.
  intros Hk Hi. rewrite Z.shiftl_spec by done. destruct (Z.leb_spec k i).
  - rewrite Z.shiftr_spec by lia. simpl. f_equal; lia.
  - rewrite Z.testbit_neg_r by lia. done.
Qed.

Lemma BitLen_same a b : Is4 a = Is4 b -> BitLen a = BitLen b.
Proof. by destruct a, b. Qed.

Lemma with_val_inj a b x y : Is4 a = Is4 b -> with_val a x = with_val b y <-> x = y.
Proof. destruct a, b; simpl; intros; split; congruence. Qed.

(** Two addresses agree on their first [n] bits exactly when they mask alike. *)
Lemma agree_mask a b n :
  addr_ok a -> addr_ok b -> Is4 a = Is4 b -> (n <= BitLen a)%nat ->
  (forall j, (j < n)%nat -> bit (bitsOf a) j = bit (bitsOf b) j) <-> mask_addr a n = mask_addr b n.
Proof.
  intros Ha Hb Hf Hn. pose proof (BitLen_same a b Hf) as HL. unfold mask_addr.
  rewrite with_val_inj by done. rewrite <- HL. split.
  - intros Hag. apply Z.bits_inj'. intros m Hm. rewrite !testbit_mask by lia.
    destruct (Z.leb_spec (Z.of_nat (BitLen a - n)) m); [|done]. simpl.
    destruct (Z_lt_le_dec m (Z.of_nat (BitLen a))) as [Hlt|Hge].
    + specialize (Hag (Z.to_nat (Z.of_nat (BitLen a) - 1 - m)) ltac:(lia)).
      rewrite !bit_bitsOf, <- HL in Hag by (done || lia).
      by replace (Z.of_nat (BitLen a) - 1 - Z.of_nat (Z.to_nat (Z.of_nat (BitLen a) - 1 - m))) with m in Hag by lia.
    + unfold addr_ok in *. rewrite <- HL in Hb.
      rewrite !(uint_testbit_high (Z.of_nat (BitLen a))) by (done || lia). done.
  - intros E j Hj. rewrite !bit_bitsOf, <- HL by (done || lia).
    apply (f_equal (fun z => Z.testbit z (Z.of_nat (BitLen a) - 1 - Z.of_nat j))) in E.
    rewrite !testbit_mask in E by lia. by rewrite (proj2 (Z.leb_le _ _)) in E by lia.
Qed.

Lemma Is4_mask a n : Is4 (mask_addr a n) = Is4 a.
Proof. by destruct a. Qed.

Lemma BitLen_mask a n : BitLen (mask_addr a n) = BitLen a.
Proof. by destruct a. Qed.

Lemma mask_ok a n : addr_ok a -> addr_ok (mask_addr a n).
Proof.
  intros Ha. assert (0 <= Z.shiftl (Z.shiftr (addr_val a) (Z.of_nat (BitLen a - n))) (Z.of_nat (BitLen a - n))
      <= addr_val a) as Hle.
  { destruct Ha as [H0 _]. rewrite Z.shiftl_mul_pow2, Z.shiftr_div_pow2 by lia.
    pose proof (Z.pow_pos_nonneg 2 (Z.of_nat (BitLen a - n)) ltac:(lia) ltac:(lia)).
    split; [apply Z.mul_nonneg_nonneg; [by apply Z.div_pos|lia]|].
    rewrite Z.mul_comm. by apply Z.mul_div_le. }
  unfold addr_ok in *. rewrite BitLen_mask.
  destruct a; simpl in *; unfold uint in *; lia.
Qed.

Lemma mask_mask a n : addr_ok a -> mask_addr (mask_addr a n) n = mask_addr a n.
Proof.
  intros Ha. destruct a as [x|x]; unfold mask_addr; cbn [with_val BitLen addr_val]; f_equal;
    apply Z.bits_inj'; intros m Hm; rewrite !testbit_mask by lia; by destruct (_ <=? m).
Qed.

Section Table.
Context {V T : Type} (zero : V) (owner : V -> T) `{EqDecision T}.

(** ** The tries *)

(** [Nil] is the nil pointer. *)
Inductive routeNode :=
| Nil
| Node (c0 c1 : routeNode) (val : V) (set : bool).

Record routeTable := mkTable { root4 : routeNode; root6 : routeNode }.

Definition emptyTable : routeTable := mkTable Nil Nil.

Definition rootFor (t : routeTable) (a : Addr) : routeNode := if Is4 a then root4 t else root6 t.

Definition setRoot (t : routeTable) (a : Addr) (n : routeNode) : routeTable :=
  if Is4 a then mkTable n (root6 t) else mkTable (root4 t) n.

(** [n.child[b]] of a node. *)
Definition child (n : routeNode) (b : bool) : routeNode :=
  match n with Nil => Nil | Node c0 c1 _ _ => if b then c1 else c0 end.

(** [withEntry]; [k] is [bits - depth], the levels still to go. *)
Fixpoint withEntry (k : nat) (n : routeNode) (a : addrBits) (depth : nat) (v : V) (set : bool) : routeNode :=
  let '(c0, c1, val, s) := match n with Nil => (Nil, Nil, zero, false) | Node c0 c1 val s => (c0, c1, val, s) end in
  match k with
  | O => Node c0 c1 (if set then v else zero) set
  | S k' =>
      if bit a depth
      then Node c0 (withEntry k' c1 a (S depth) v set) val s
      else Node (withEntry k' c0 a (S depth) v set) c1 val s
  end.

Definition insert (t : routeTable) (p : Prefix) (v : V) : routeTable :=
  let p := Masked p in
  setRoot t (pAddr p) (withEntry (pBits p) (rootFor t (pAddr p)) (bitsOf (pAddr p)) 0 v true).

(** The walk of [node]: [k] levels down from depth [i]. *)
Fixpoint walk (k : nat) (n : routeNode) (a : addrBits) (i : nat) : routeNode :=
  match n, k with
  | Nil, _ => Nil
  | _, O => n
  | _, S k' => walk k' (child n (bit a i)) a (S i)
  end.

Definition node (t : routeTable) (p : Prefix) : routeNode :=
  walk (pBits p) (rootFor t (pAddr p)) (bitsOf (pAddr p)) 0.

Definition clear_entry (t : routeTable) (p : Prefix) : routeTable :=
  setRoot t (pAddr p) (withEntry (pBits p) (rootFor t (pAddr p)) (bitsOf (pAddr p)) 0 zero false).

Definition remove (t : routeTable) (p : Prefix) : routeTable :=
  let p := Masked p in
  match node t p with
  | Node _ _ _ true => clear_entry t p
  | _ => t
  end.

Definition removeOwned (t : routeTable) (p : Prefix) (o : T) : routeTable :=
  let p := Masked p in
  match node t p with
  | Node _ _ val true => if decide (owner val = o) then clear_entry t p else t
  | _ => t
  end.

(** The walk of [lookup]: [k] is the number of address bits left. *)
Fixpoint lookup_walk (k : nat) (n : routeNode) (a : addrBits) (i : nat) (best : V) : V :=
  match n with
  | Nil => best
  | Node c0 c1 val set =>
      let best := if set then val else best in
      match k with
      | O => best
      | S k' => lookup_walk k' (if bit a i then c1 else c0) a (S i) best
      end
  end.

Definition lookup (t : routeTable) (a : Addr) : V :=
  lookup_walk (BitLen a) (rootFor t a) (bitsOf a) 0 zero.

Definition empty (t : routeTable) : bool :=
  match root4 t, root6 t with Nil, Nil => true | _, _ => false end.

(** ** The installed prefixes *)

Definition entry (n : routeNode) : option V :=
  match n with Node _ _ val true => Some val | _ => None end.

(** What the table holds for exactly this prefix. *)
Definition installed (t : routeTable) (p : Prefix) : option V := entry (node t (Masked p)).

Lemma walk_Nil k a i : walk k Nil a i = Nil.
Proof. by destruct k. Qed.

(** Entries along a path of bits, counted from depth [i]. *)
Definition agree (a b : addrBits) (i k : nat) : Prop :=
  forall j, (i <= j < i + k)%nat -> bit a j = bit b j.

Lemma agree_S a b i k : bit a i = bit b i -> agree a b (S i) k -> agree a b i (S k).
Proof. intros H1 H2 j Hj. destruct (decide (j = i)) as [->|]; [done|]. apply H2. lia. Qed.

Lemma agree_inv a b i k : agree a b i (S k) -> bit a i = bit b i /\ agree a b (S i) k.
Proof. intros H. split; [apply H; lia|]. intros j Hj. apply H. lia. Qed.

(** Writing at one path and reading at another. *)
Lemma withEntry_same n a b k i v set :
  agree a b i k ->
  entry (walk k (withEntry k n a i v set) b i) = if set then Some v else None.
Proof.
  revert n i. induction k as [|k IH]; intros n i Hag.
  - simpl. destruct n; simpl; by destruct set.
  - apply agree_inv in Hag as [Hb Hag]. simpl.
    destruct n as [|c0 c1 val s]; destruct (bit a i) eqn:E; simpl; rewrite <- Hb; by apply IH.
Qed.

Lemma walk_withEntry_short n a b k m i v set :
  (m < k)%nat -> entry (walk m (withEntry k n a i v set) b i) = entry (walk m n b i).
Proof.
  revert n i k. induction m as [|m IH]; intros n i [|k] Hlt; try lia.
  - simpl. destruct n as [|c0 c1 val s], (bit a i); done.
  - simpl. destruct n as [|c0 c1 val s], (bit a i) eqn:E; simpl; destruct (bit b i); simpl;
      rewrite ?IH, ?walk_Nil by lia; done.
Qed.

Lemma walk_withEntry_long n a b k m i v set :
  (k < m)%nat -> entry (walk m (withEntry k n a i v set) b i) = entry (walk m n b i).
Proof.
  revert n i m. induction k as [|k IH]; intros n i [|m] Hlt; try lia; simpl.
  - destruct n as [|c0 c1 val s]; simpl; destruct (bit b i); by rewrite ?walk_Nil.
  - destruct n as [|c0 c1 val s], (bit a i) eqn:E; simpl; destruct (bit b i); simpl;
      rewrite ?IH, ?walk_Nil by lia; done.
Qed.

Lemma withEntry_diverge n a b k i v set :
  ~ agree a b i k -> entry (walk k (withEntry k n a i v set) b i) = entry (walk k n b i).
Proof.
  revert n i. induction k as [|k IH]; intros n i Hag.
  { exfalso. apply Hag. intros j. lia. }
  simpl. destruct (decide (bit a i = bit b i)) as [Hb|Hb].
  - assert (~ agree a b (S i) k) as Hag' by (intros ?; by apply Hag, agree_S).
    destruct n as [|c0 c1 val s], (bit a i) eqn:E; simpl; rewrite <- Hb;
      rewrite IH, ?walk_Nil by done; done.
  - destruct n as [|c0 c1 val s], (bit a i), (bit b i); simpl; by rewrite ?walk_Nil.
Qed.

(** ** Operations on the installed prefixes *)

Lemma rootFor_setRoot t a b n : rootFor (setRoot t a n) b = if decide (Is4 a = Is4 b) then n else rootFor t b.
Proof. unfold rootFor, setRoot. by destruct (Is4 a), (Is4 b). Qed.

(** Paths of masked prefixes of one length and family agree exactly when the prefixes are equal. *)
Lemma agree_prefix p q :
  prefix_ok p -> prefix_ok q -> Is4 (pAddr p) = Is4 (pAddr q) -> pBits p = pBits q ->
  agree (bitsOf (pAddr (Masked p))) (bitsOf (pAddr (Masked q))) 0 (pBits p) <-> Masked p = Masked q.
Proof.
  intros [Hp Hpb] [Hq Hqb] Hf Hn. unfold Masked, agree. simpl.
  pose proof (agree_mask (mask_addr (pAddr p) (pBits p)) (mask_addr (pAddr q) (pBits q)) (pBits p)
    (mask_ok _ _ Hp) (mask_ok _ _ Hq) ltac:(by rewrite !Is4_mask) ltac:(by rewrite BitLen_mask)) as H.
  rewrite mask_mask in H by done. rewrite <- Hn in *. rewrite mask_mask in H by done.
  split.
  - intros Hag. f_equal. apply H. intros j Hj. apply Hag. lia.
  - intros E j Hj. injection E as E. apply H; [done|lia].
Qed.

(** Setting or clearing one masked prefix changes what is installed there and nothing else. *)
Lemma installed_write t p q v set :
  prefix_ok p -> prefix_ok q ->
  installed (setRoot t (pAddr (Masked p))
    (withEntry (pBits p) (rootFor t (pAddr (Masked p))) (bitsOf (pAddr (Masked p))) 0 v set)) q =
  if decide (Masked p = Masked q) then (if set then Some v else None) else installed t q.
Proof.
  intros Hp Hq. unfold installed, node. change (pBits (Masked q)) with (pBits q).
  rewrite rootFor_setRoot. destruct (decide (Is4 (pAddr (Masked p)) = Is4 (pAddr (Masked q)))) as [Hf|Hf].
  2: { rewrite decide_False; [done|]. intros E. by rewrite E in Hf. }
  assert (Hroot : rootFor t (pAddr (Masked p)) = rootFor t (pAddr (Masked q)))
    by (unfold rootFor; by rewrite Hf).
  rewrite Hroot. destruct (decide (Masked p = Masked q)) as [E|E].
  - assert (pBits p = pBits q) as Hn by (by injection E).
    rewrite <- Hn. apply withEntry_same. rewrite E. by intros j.
  - destruct (lt_eq_lt_dec (pBits q) (pBits p)) as [[Hlt|Heq]|Hgt].
    + by apply walk_withEntry_short.
    + rewrite Heq. apply withEntry_diverge. intros Hag. apply E, agree_prefix; try done.
      by rewrite <- (Is4_mask (pAddr p) (pBits p)), <- (Is4_mask (pAddr q) (pBits q)).
    + by apply walk_withEntry_long.
Qed.

Lemma node_entry t p : entry (node t (Masked p)) = installed t p.
Proof. done. Qed.

Lemma installed_insert t p q v :
  prefix_ok p -> prefix_ok q ->
  installed (insert t p v) q = if decide (Masked p = Masked q) then Some v else installed t q.
Proof. intros. by apply (installed_write t p q v true). Qed.

Lemma installed_clear t p q :
  prefix_ok p -> prefix_ok q ->
  installed (clear_entry t (Masked p)) q = if decide (Masked p = Masked q) then None else installed t q.
Proof. intros. by apply (installed_write t p q zero false). Qed.

Lemma installed_remove t p q :
  prefix_ok p -> prefix_ok q ->
  installed (remove t p) q = if decide (Masked p = Masked q) then None else installed t q.
Proof.
  intros Hp Hq. unfold remove. pose proof (node_entry t p) as En.
  destruct (node t (Masked p)) as [|c0 c1 val [|]] eqn:E; simpl in En.
  2: { by apply installed_clear. }
  all: case_decide as D; [|done]; unfold installed in *; by rewrite D in En.
Qed.

Lemma installed_removeOwned t p q o :
  prefix_ok p -> prefix_ok q ->
  installed (removeOwned t p o) q =
    if decide (Masked p = Masked q /\ owner <$> installed t p = Some o) then None else installed t q.
Proof.
  intros Hp Hq. unfold removeOwned. pose proof (node_entry t p) as En.
  destruct (node t (Masked p)) as [|c0 c1 val [|]] eqn:E; simpl in En; rewrite <- En; simpl.
  2: { destruct (decide (owner val = o)) as [Ho|Ho].
       - rewrite installed_clear by done.
         destruct (decide (Masked p = Masked q)); [by rewrite decide_True by (split; congruence)|].
         by rewrite decide_False by naive_solver.
       - rewrite decide_False by naive_solver. done. }
  all: rewrite decide_False by naive_solver; done.
Qed.

(** ** Lookup is longest-prefix match *)

(** The entries met on the way down, against the walk to a given depth. *)
Lemma lookup_walk_spec k n a i best :
  let r := lookup_walk k n a i best in
  (r = best /\ forall m, (m <= k)%nat -> entry (walk m n a i) = None) \/
  (exists m, (m <= k)%nat /\ entry (walk m n a i) = Some r /\
     forall m', (m < m' <= k)%nat -> entry (walk m' n a i) = None).
Proof.
  revert n i best. induction k as [|k IH]; intros n i best; destruct n as [|c0 c1 val set].
  1, 3: left; split; [done|]; intros; by rewrite walk_Nil.
  - simpl. destruct set.
    + right. exists 0%nat. split_and!; [done|done|intros; lia].
    + left. split; [done|]. intros [|m] Hm; [done|lia].
  - cbn [lookup_walk]. set (best' := if set then val else best).
    destruct (IH (if bit a i then c1 else c0) (S i) best') as [[-> Hno]|(m & Hm & Hr & Hno)].
    + destruct set; [right|left].
      * exists 0%nat. split_and!; [lia|done|]. intros [|m'] Hm'; [lia|]. simpl.
        apply Hno. lia.
      * split; [done|]. intros [|m] Hm; [done|]. simpl. apply Hno. lia.
    + right. exists (S m). split_and!; [lia|done|]. intros [|m'] Hm'; [lia|]. simpl. apply Hno. lia.
Qed.

(** The walk along an address reads the prefixes that contain it. *)
Lemma walk_installed t a m :
  addr_ok a -> (m <= BitLen a)%nat ->
  entry (walk m (rootFor t a) (bitsOf a) 0) = installed t (mkPrefix a m).
Proof.
  intros Ha Hm. unfold installed, node, Masked. simpl.
  assert (rootFor t (mask_addr a m) = rootFor t a) as -> by (unfold rootFor; by rewrite Is4_mask).
  assert (Hag : forall j, (j < m)%nat -> bit (bitsOf a) j = bit (bitsOf (mask_addr a m)) j).
  { apply agree_mask; [done|by apply mask_ok|by rewrite Is4_mask|done|by rewrite mask_mask]. }
  assert (forall n i k, (i + k <= m)%nat -> walk k n (bitsOf a) i = walk k n (bitsOf (mask_addr a m)) i) as Hw.
  { intros n i k. revert n i. induction k as [|k IH]; intros n i Hik; destruct n; simpl; try done.
    rewrite Hag by lia. apply IH. lia. }
  by rewrite Hw by lia.
Qed.

Lemma Contains_masked p a : prefix_ok p -> addr_ok a -> Contains p a -> Masked p = Masked (mkPrefix a (pBits p)).
Proof. intros Hp Ha [Hf E]. unfold Masked in *. simpl in *. by rewrite E. Qed.

Lemma installed_Masked t p q : Masked p = Masked q -> installed t p = installed t q.
Proof. unfold installed. by intros ->. Qed.

Lemma lookup_lpm t a :
  addr_ok a ->
  (lookup t a = zero /\ forall p, prefix_ok p -> Contains p a -> installed t p = None) \/
  (exists p, prefix_ok p /\ Contains p a /\ installed t p = Some (lookup t a) /\
     forall q, prefix_ok q -> Contains q a -> (pBits p < pBits q)%nat -> installed t q = None).
Proof.
  intros Ha. assert (Hany : forall q, prefix_ok q -> Contains q a ->
    (pBits q <= BitLen a)%nat /\ installed t q = entry (walk (pBits q) (rootFor t a) (bitsOf a) 0)).
  { intros q Hq Hc. destruct Hc as [Hf E]. assert (pBits q <= BitLen a)%nat as Hl.
    { rewrite <- (BitLen_same _ _ Hf). apply Hq. }
    split; [done|]. rewrite walk_installed by done. apply installed_Masked, Contains_masked; try done. }
  unfold lookup. destruct (lookup_walk_spec (BitLen a) (rootFor t a) (bitsOf a) 0 zero)
    as [[-> Hno]|(m & Hm & Hr & Hno)].
  - left. split; [done|]. intros p Hp Hc. destruct (Hany p Hp Hc) as [Hl ->]. by apply Hno.
  - right. exists (mkPrefix a m). split_and!; [done|done| |].
    + by rewrite <- walk_installed, Hr.
    + intros q Hq Hc Hlt. destruct (Hany q Hq Hc) as [Hl ->]. apply Hno. simpl in Hlt. lia.
Qed.

(** ** The table as a finite map

    The abstract table is a partial function on masked prefixes; the operations
    on it are the obvious ones, and [best_match] is the longest-prefix rule. *)

Inductive route_op :=
| OpInsert (p : Prefix) (v : V)
| OpRemove (p : Prefix)
| OpRemoveOwned (p : Prefix) (o : T).

Definition op_prefix (c : route_op) : Prefix :=
  match c with OpInsert p _ | OpRemove p | OpRemoveOwned p _ => p end.

Definition run_op (t : routeTable) (c : route_op) : routeTable :=
  match c with
  | OpInsert p v => insert t p v
  | OpRemove p => remove t p
  | OpRemoveOwned p o => removeOwned t p o
  end.

Definition upd (m : Prefix -> option V) (p : Prefix) (x : option V) : Prefix -> option V :=
  fun q => if decide (p = q) then x else m q.

Definition spec_op (m : Prefix -> option V) (c : route_op) : Prefix -> option V :=
  match c with
  | OpInsert p v => upd m (Masked p) (Some v)
  | OpRemove p => upd m (Masked p) None
  | OpRemoveOwned p o => if decide (owner <$> m (Masked p) = Some o) then upd m (Masked p) None else m
  end.

(** [r] is the entry of the longest prefix in [m] that contains [a], or [zero] when none does. *)
Definition best_match (m : Prefix -> option V) (a : Addr) (r : V) : Prop :=
  (r = zero /\ forall p, prefix_ok p -> Contains p a -> m (Masked p) = None) \/
  (exists p, prefix_ok p /\ Contains p a /\ m (Masked p) = Some r /\
     forall q, prefix_ok q -> Contains q a -> (pBits p < pBits q)%nat -> m (Masked q) = None).

Lemma run_op_refines t m c :
  prefix_ok (op_prefix c) ->
  (forall q, prefix_ok q -> installed t q = m (Masked q)) ->
  forall q, prefix_ok q -> installed (run_op t c) q = spec_op m c (Masked q).
Proof.
  intros Hp Hm q Hq. destruct c as [p v|p|p o]; simpl in *; unfold upd.
  - rewrite installed_insert by done. case_decide; auto.
  - rewrite installed_remove by done. case_decide; auto.
  - rewrite installed_removeOwned, Hm by done.
    destruct (decide (owner <$> m (Masked p) = Some o)); [destruct (decide (Masked p = Masked q))|];
      [rewrite decide_True by done|rewrite decide_False by naive_solver|rewrite decide_False by naive_solver];
      auto.
Qed.

Lemma run_ops_refine cs t m :
  Forall (fun c => prefix_ok (op_prefix c)) cs ->
  (forall q, prefix_ok q -> installed t q = m (Masked q)) ->
  forall q, prefix_ok q -> installed (fold_left run_op cs t) q = fold_left spec_op cs m (Masked q).
Proof.
  intros Hcs. revert t m. induction Hcs as [|c cs Hc _ IH]; intros t m Hm; [done|].
  simpl. apply IH. by apply run_op_refines.
Qed.

Lemma installed_empty q : installed emptyTable q = None.
Proof. unfold installed, node, rootFor. simpl. destruct (Is4 _); by rewrite walk_Nil. Qed.

(** C15: the route table implements longest-prefix match over the routes it was
    given: after any sequence of insertions, removals and removals by owner, a
    lookup returns the entry of the longest prefix the abstract finite map holds
    for the address, and the zero entry when it holds none. *)
Theorem routes_longest_prefix_match cs a :
  Forall (fun c => prefix_ok (op_prefix c)) cs -> addr_ok a ->
  best_match (fold_left spec_op cs (fun _ => None)) a (lookup (fold_left run_op cs emptyTable) a).
Proof.
  intros Hcs Ha.
  pose proof (run_ops_refine cs emptyTable (fun _ => None) Hcs (fun q _ => installed_empty q)) as Hm.
  destruct (lookup_lpm (fold_left run_op cs emptyTable) a Ha) as [[-> H]|(p & Hp & Hc & Hi & Hno)].
  - left. split; [done|]. intros p Hp Hc. rewrite <- Hm by done. auto.
  - right. exists p. rewrite Hm in Hi by done. split_and!; try done.
    intros q Hq Hqc Hlt. rewrite <- Hm by done. auto.
Qed.

(** A removed route leaves no trace in lookups, but [empty] keeps reporting a
    non-empty table, because interior nodes are never pruned. *)
Theorem empty_false_after_remove p v :
  prefix_ok p ->
  let t := remove (insert emptyTable p v) p in
  (forall a, addr_ok a -> lookup t a = zero) /\ empty t = false.
Proof.
  intros Hp t. split.
  - intros a Ha. destruct (lookup_lpm t a Ha) as [[-> _]|(q & Hq & _ & Hi & _)]; [done|].
    exfalso. unfold t in Hi. rewrite installed_remove in Hi by done. case_decide; [done|].
    rewrite installed_insert, decide_False in Hi by done.
    by rewrite installed_empty in Hi.
  - unfold t, remove. set (t1 := insert emptyTable p v).
    assert (H1 : forall n b k d x f, @withEntry k n b d x f <> Nil)
      by (intros n b [|k] d x f; destruct n; simpl; try destruct (bit _ _); done).
    assert (H2 : empty t1 = false) by (subst t1; unfold insert, setRoot, empty; destruct (Is4 _); simpl;
      destruct (withEntry _ _ _ _ _ _) eqn:E; try done; by apply H1 in E).
    destruct (node t1 (Masked p)) as [|? ? ? []]; try done.
    unfold clear_entry, setRoot, empty in *. destruct (Is4 _); simpl;
      destruct (withEntry _ _ _ _ _ _) eqn:E; try (by apply H1 in E); by destruct (root4 t1).
Qed.
End Table.

Arguments routeNode : clear implicits.
Arguments routeTable : clear implicits.
Arguments emptyTable {V}.
Arguments OpInsert {V T} _ _.
Arguments OpRemove {V T} _.
Arguments OpRemoveOwned {V T} _ _.

(** 10.0.0.0/8 goes to 1 and 10.1.0.0/16 to 2; the owner 7 of neither removes nothing. *)
Definition demo_ops : list (@route_op nat nat) :=
  [OpInsert (mkPrefix (IPv4 0x0a000000) 8) 1%nat; OpInsert (mkPrefix (IPv4 0x0a010000) 16) 2%nat;
   OpRemoveOwned (mkPrefix (IPv4 0x0a010000) 16) 7%nat].

Lemma routes_longest_prefix_match_witness :
  lookup 0%nat (fold_left (run_op 0%nat (fun x => x)) demo_ops emptyTable) (IPv4 0x0a010203) = 2%nat /\
  lookup 0%nat (fold_left (run_op 0%nat (fun x => x)) demo_ops emptyTable) (IPv4 0x0a020203) = 1%nat /\
  best_match 0%nat (fold_left (spec_op (fun x => x)) demo_ops (fun _ => None)) (IPv4 0x0a010203)
    (lookup 0%nat (fold_left (run_op 0%nat (fun x => x)) demo_ops emptyTable) (IPv4 0x0a010203)).
Proof.
  split; [vm_compute; reflexivity|]. split; [vm_compute; reflexivity|].
  apply (routes_longest_prefix_match 0%nat (fun x => x) demo_ops (IPv4 0x0a010203)).
  - repeat constructor; simpl; try lia; by_decision.
  - by_decision.
Defined.

Lemma empty_false_after_remove_witness :
  empty (remove 0%nat (insert 0%nat emptyTable (mkPrefix (IPv6 1) 128) 5%nat) (mkPrefix (IPv6 1) 128)) = false.
Proof.
  apply (empty_false_after_remove 0%nat (mkPrefix (IPv6 1) 128) 5%nat).
  split; [by_decision|simpl; lia].
Defined.
