(* ===== verification/Packet.v ===== *)
(** * Inner IP packets, [dataplane/{source,shape,mtu,icmp,icmp6,pump}.go]

    The functions of the data path that read or build an inner IP packet: its
    source and destination, the source check, the trim to the length its own
    header declares, the inner MTU, and the ICMP errors that report it.  The
    theorems show that trimming undoes padding, that every ICMP reply carries
    valid checksums (RFC 1071), is addressed back to the sender, and that the
    MTU in it is the one the parser reads. *)
From Stdlib Require Import ZArith Lia.
From stdpp Require Import base list.
From S2P Require Import Prelude Routes.

(** ** Sizes, [mtu.go] *)

Abbreviation DefaultPathMTU := 1500 (only parsing).
Abbreviation IPv4HeaderLen := 20 (only parsing).
Abbreviation IPv6HeaderLen := 40%nat (only parsing).
Abbreviation UDPHeaderLen := 8 (only parsing).
Abbreviation MinInnerMTU := 576 (only parsing).
Definition MinIPv6MTU : Z := 1280.
Abbreviation OuterUDP4 := (IPv4HeaderLen + UDPHeaderLen) (only parsing).
Abbreviation OuterUDP6 := (Z.of_nat IPv6HeaderLen + UDPHeaderLen) (only parsing).

Definition InnerMTU (pathMTU overhead : Z) : Z :=
  let inner := pathMTU - overhead in
  if inner <? MinInnerMTU then MinInnerMTU else inner.

(** ** Addresses of a packet, [source.go] and [pump.go] *)

Definition version (pkt : bytes) : Z := Z.shiftr (at_ pkt 0) 4.

(** [netip.AddrFrom4] and [netip.AddrFrom16] of a slice of the packet. *)
Definition AddrFrom4 (b : bytes) : Addr := IPv4 (be_dec b).
Definition AddrFrom16 (b : bytes) : Addr := IPv6 (be_dec b).

Definition innerDest (pkt : bytes) : option Addr :=
  if (length pkt <? 1)%nat then None
  else if version pkt =? 4 then
    if (length pkt <? 20)%nat then None else Some (AddrFrom4 (slice pkt 16 20))
  else if version pkt =? 6 then
    if (length pkt <? 40)%nat then None else Some (AddrFrom16 (slice pkt 24 40))
  else None.

Definition InnerSource (pkt : bytes) : option Addr :=
  if (length pkt <? 1)%nat then None
  else if version pkt =? 4 then
    if (length pkt <? 20)%nat then None else Some (AddrFrom4 (slice pkt 12 16))
  else if version pkt =? 6 then
    if (length pkt <? 40)%nat then None else Some (AddrFrom16 (slice pkt 8 24))
  else None.

Definition SourceWithin (pkt : bytes) (prefixes : list Prefix) : bool :=
  match InnerSource pkt with
  | None => false
  | Some src => existsb (fun p => bool_decide (Contains p src)) prefixes
  end.

(** [netip.Addr.Unmap]. *)
Definition Unmap (a : Addr) : Addr :=
  match a with
  | IPv6 x => if Z.shiftr x 32 =? 0xffff then IPv4 (wrap 32 x) else a
  | IPv4 _ => a
  end.

(** [want] is [None] when the address is the invalid zero one. *)
Definition SourceIs (pkt : bytes) (want : option Addr) : bool :=
  match InnerSource pkt, want with
  | Some src, Some w => bool_decide (src = Unmap w)
  | _, _ => false
  end.

(** ** Trimming, [shape.go] *)

Definition TrimToIP (plain : bytes) : option bytes :=
  if (length plain =? 0)%nat then None
  else if version plain =? 4 then
    if (length plain <? 20)%nat then None
    else let total := Z.to_nat (be_dec (slice plain 2 4)) in
         if ((total <? 20) || (length plain <? total))%nat then None else Some (slice plain 0 total)
  else if version plain =? 6 then
    if (length plain <? 40)%nat then None
    else let total := (40 + Z.to_nat (be_dec (slice plain 4 6)))%nat in
         if (length plain <? total)%nat then None else Some (slice plain 0 total)
  else None.

(** ** Checksums, [icmp.go] *)

(** The loop over 16-bit words; [sum] is a [uint32]. *)
Fixpoint checksumAccumulate (sum : Z) (b : bytes) : Z :=
  match b with
  | x :: y :: b' => checksumAccumulate (wrap 32 (sum + (x * 256 + y))) b'
  | [x] => wrap 32 (sum + Z.shiftl x 8)
  | [] => sum
  end.

(** One evaluation of the loop body of [checksumFold] per unit of fuel; two are
    enough for every [uint32] ([fold_done]). *)
Fixpoint fold_loop (fuel : nat) (sum : Z) : Z :=
  match fuel with
  | O => sum
  | S fuel => if Z.shiftr sum 16 =? 0 then sum
              else fold_loop fuel (wrap 32 (Z.land sum 0xffff + Z.shiftr sum 16))
  end.

Definition checksumFold (sum : Z) : Z := Z.lxor (wrap 16 (fold_loop 3 sum)) 0xffff.

Definition onesComplement (b : bytes) : Z := checksumFold (checksumAccumulate 0 b).

Definition putIPv4Checksum (hdr : bytes) : bytes :=
  let hdr := blit hdr 10 [0; 0] in blit hdr 10 (be_enc 2 (onesComplement hdr)).

Definition putICMPChecksum (icmp : bytes) : bytes :=
  let icmp := blit icmp 2 [0; 0] in blit icmp 2 (be_enc 2 (onesComplement icmp)).

(** The pseudo-header of [putICMPv6Checksum]. *)
Definition pseudo6 (src dst icmp : bytes) : bytes :=
  let p := replicate 40 0 in
  let p := blit p 0 src in
  let p := blit p 16 dst in
  let p := blit p 32 (be_enc 4 (Z.of_nat (length icmp))) in
  blit p 39 [58].

Definition putICMPv6Checksum (src dst icmp : bytes) : bytes :=
  let icmp := blit icmp 2 [0; 0] in
  let sum := checksumAccumulate 0 (pseudo6 src dst icmp) in
  let sum := checksumAccumulate sum icmp in
  blit icmp 2 (be_enc 2 (checksumFold sum)).

(** ** ICMP errors, [icmp.go] and [icmp6.go] *)

Abbreviation icmpTypeDestUnreachable := 3 (only parsing).
Abbreviation icmpCodeFragNeeded := 4 (only parsing).
Definition ipv4HeaderMin : nat := 20.
Abbreviation ipv4FlagDF := 64 (only parsing).
Abbreviation protoICMP := 1 (only parsing).
Abbreviation icmp6TypePacketTooBig := 2 (only parsing).
Abbreviation protoICMPv6 := 58 (only parsing).

Definition NeedsFragmentation (pkt : bytes) (mtu : Z) : bool :=
  if (Z.of_nat (length pkt) <=? mtu) || (length pkt <? 1)%nat then false
  else if version pkt =? 4 then
    (ipv4HeaderMin <=? length pkt)%nat && negb (Z.land (at_ pkt 6) ipv4FlagDF =? 0)
  else if version pkt =? 6 then (IPv6HeaderLen <=? length pkt)%nat
  else false.

Definition fragNeededV6 (pkt : bytes) (mtu : Z) : option bytes :=
  if (length pkt <? IPv6HeaderLen)%nat || negb (version pkt =? 6) then None
  else
    let mtu := if mtu <? MinIPv6MTU then MinIPv6MTU else mtu in
    let q := (Z.to_nat MinIPv6MTU - IPv6HeaderLen - 8)%nat in
    let quote := if (q <? length pkt)%nat then q else length pkt in
    let src := slice pkt 8 24 in
    let dst := slice pkt 24 40 in
    let icmpLen := (8 + quote)%nat in
    let out := replicate (IPv6HeaderLen + icmpLen) 0 in
    let out := blit out 0 [0x60] in
    let out := blit out 4 (be_enc 2 (wrap 16 (Z.of_nat icmpLen))) in
    let out := blit out 6 [protoICMPv6] in
    let out := blit out 7 [64] in
    let out := blit out 8 dst in
    let out := blit out 24 src in
    let icmp := slice out IPv6HeaderLen (IPv6HeaderLen + icmpLen) in
    let icmp := blit icmp 0 [icmp6TypePacketTooBig] in
    let icmp := blit icmp 1 [0] in
    let icmp := blit icmp 4 (be_enc 4 (wrap 32 mtu)) in
    let icmp := blit icmp 8 (slice pkt 0 quote) in
    let icmp := putICMPv6Checksum (slice out 8 24) (slice out 24 40) icmp in
    Some (blit out IPv6HeaderLen icmp).

Definition ihl_of (pkt : bytes) : nat := (Z.to_nat (Z.land (at_ pkt 0) 15) * 4)%nat.

Definition FragNeeded (pkt : bytes) (mtu : Z) : option bytes :=
  if (1 <=? length pkt)%nat && (version pkt =? 6) then fragNeededV6 pkt mtu
  else if (length pkt <? ipv4HeaderMin)%nat || negb (version pkt =? 4) then None
  else
    let ihl := ihl_of pkt in
    if ((ihl <? ipv4HeaderMin) || (length pkt <? ihl))%nat then None
    else
      let quote := Nat.min (ihl + 8) (length pkt) in
      let src := AddrFrom4 (slice pkt 12 16) in
      let dst := AddrFrom4 (slice pkt 16 20) in
      let icmpLen := (8 + quote)%nat in
      let out := replicate (ipv4HeaderMin + icmpLen) 0 in
      let out := blit out 0 [0x45] in
      let out := blit out 2 (be_enc 2 (wrap 16 (Z.of_nat (ipv4HeaderMin + icmpLen)))) in
      let out := blit out 8 [64] in
      let out := blit out 9 [protoICMP] in
      let out := blit out 12 (be_enc 4 (addr_val dst)) in
      let out := blit out 16 (be_enc 4 (addr_val src)) in
      let out := blit out 0 (putIPv4Checksum (slice out 0 ipv4HeaderMin)) in
      let icmp := slice out ipv4HeaderMin (ipv4HeaderMin + icmpLen) in
      let icmp := blit icmp 0 [icmpTypeDestUnreachable] in
      let icmp := blit icmp 1 [icmpCodeFragNeeded] in
      let icmp := blit icmp 6 (be_enc 2 (wrap 16 mtu)) in
      let icmp := blit icmp 8 (slice pkt 0 quote) in
      let icmp := putICMPChecksum icmp in
      Some (blit out ipv4HeaderMin icmp).

Definition ParseFragNeeded (pkt : bytes) : option Z :=
  if (length pkt <? ipv4HeaderMin)%nat || negb (version pkt =? 4) || negb (at_ pkt 9 =? protoICMP) then None
  else
    let ihl := ihl_of pkt in
    if ((ihl <? ipv4HeaderMin) || (length pkt <? ihl + 8))%nat then None
    else
      let icmp := drop ihl pkt in
      if negb (at_ icmp 0 =? icmpTypeDestUnreachable) || negb (at_ icmp 1 =? icmpCodeFragNeeded) then None
      else
        let next := be_dec (slice icmp 6 8) in
        if next =? 0 then None else Some next.

(** ** The internet checksum *)

Lemma pairs_ind (P : bytes -> Prop) :
  P [] -> (forall x, P [x]) -> (forall x y b, P b -> P (x :: y :: b)) -> forall b, P b.
Proof.
  intros H0 H1 H2. fix IH 1. intros [|x [|y b]]; [done|done|]. apply H2, IH.
Qed.

(** The sum of the 16-bit words, without a width. *)
Fixpoint wsum (b : bytes) : Z :=
  match b with
  | x :: y :: b' => x * 256 + y + wsum b'
  | [x] => x * 256
  | [] => 0
  end.

Lemma wsum_half b : bytes_ok b -> 0 <= 2 * wsum b <= 65535 * (Z.of_nat (length b) + 1).
Proof.
  induction b as [|x|x y b IH] using pairs_ind; intros H; simpl wsum; [simpl; lia| |].
  - inversion H; subst. simpl length. lia.
  - inversion H as [|? ? Hx H']; inversion H' as [|? ? Hy Hb]; subst.
    specialize (IH Hb). cbn [length]. lia.
Qed.

Lemma wsum_range b : bytes_ok b -> 0 <= wsum b <= 65535 * Z.of_nat (length b).
Proof. intros H%wsum_half. destruct b; cbn [length wsum] in *; lia. Qed.

Lemma checksumAccumulate_wsum b s :
  bytes_ok b -> 0 <= s -> s + wsum b < 2 ^ 32 -> checksumAccumulate s b = s + wsum b.
Proof.
  revert s. induction b as [|x|x y b IH] using pairs_ind; intros s H Hs Hlt; simpl in *; [lia| |].
  - inversion H; subst. rewrite Z.shiftl_mul_pow2 by lia. apply wrap_small. unfold uint. lia.
  - inversion H as [|? ? Hx H']; inversion H' as [|? ? Hy Hb]; subst.
    pose proof (wsum_range b Hb). rewrite wrap_small by (unfold uint; lia).
    rewrite IH; [lia|done|lia|lia].
Qed.

Lemma wsum_app b1 b2 : Nat.Even (length b1) -> wsum (b1 ++ b2) = wsum b1 + wsum b2.
Proof.
  induction b1 as [|x|x y b IH] using pairs_ind; intros [k Hk]; cbn [length app wsum] in *; [done|lia|].
  rewrite IH; [lia|]. exists (k - 1)%nat. lia.
Qed.

Lemma wsum_blit b off x y :
  Nat.Even off -> (off + 2 <= length b)%nat ->
  wsum (blit b off [x; y]) = wsum (blit b off [0; 0]) + (x * 256 + y).
Proof.
  intros He Hl. unfold blit. simpl length.
  assert (Nat.Even (length (take off b))) by (rewrite length_take; by replace (off `min` length b)%nat with off by lia).
  rewrite !(wsum_app (take off b)) by done. cbn [wsum app]. lia.
Qed.

Lemma wsum_store b off c :
  Nat.Even off -> (off + 2 <= length b)%nat -> uint16 c -> wsum (blit b off (be_enc 2 c)) = wsum (blit b off [0; 0]) + c.
Proof.
  intros He Hl Hc. assert (be_enc 2 c = [c / 256; c mod 256]) as ->.
  { unfold uint in Hc. simpl. rewrite Z.div_1_r, (Z.mod_small (c / 256)); [done|].
    split; [apply Z.div_pos; lia|apply Z.div_lt_upper_bound; lia]. }
  rewrite wsum_blit by done. pose proof (Z.div_mod c 256 ltac:(lia)). lia.
Qed.

(** [checksumFold]: two rounds reach 16 bits, keep the residue modulo 65535 and
    never turn a non-zero sum into zero. *)
Lemma fold_step s : 0 <= s ->
  Z.land s 0xffff + Z.shiftr s 16 = s - 65535 * (s / 65536) /\ 0 <= s / 65536.
Proof.
  intros Hs. change (Z.land s 0xffff) with (Z.land s (Z.ones 16)). rewrite Z.land_ones, Z.shiftr_div_pow2 by lia.
  change (2 ^ 16) with 65536. pose proof (Z.div_mod s 65536 ltac:(lia)).
  pose proof (Z.div_pos s 65536 Hs ltac:(lia)). lia.
Qed.

Lemma fold_loop_spec k s :
  uint32 s -> (fold_loop k s - s) mod 65535 = 0 /\ uint32 (fold_loop k s) /\ (fold_loop k s = 0 <-> s = 0).
Proof.
  revert s. induction k as [|k IH]; intros s Hs; cbn [fold_loop].
  { rewrite Z.sub_diag. done. }
  destruct (Z.eqb_spec (Z.shiftr s 16) 0) as [E|E].
  { rewrite Z.sub_diag. done. }
  pose proof Hs as [Hs0 Hs1]. destruct (fold_step s Hs0) as [-> Hq].
  pose proof (Z.div_mod s 65536 ltac:(lia)). pose proof (Z.mod_pos_bound s 65536 ltac:(lia)).
  rewrite wrap_small by (unfold uint; lia).
  destruct (IH (s - 65535 * (s / 65536))) as (H1 & H2 & H3); [unfold uint; lia|].
  split_and!; [|done|lia].
  replace (fold_loop k (s - 65535 * (s / 65536)) - s)
    with (fold_loop k (s - 65535 * (s / 65536)) - (s - 65535 * (s / 65536)) + (- (s / 65536)) * 65535) by lia.
  by rewrite Z.mod_add by lia.
Qed.

Lemma fold_done s : uint32 s -> uint16 (fold_loop 3 s).
Proof.
  intros [H0 H1]. assert (Hr : forall s k, 0 <= s < 65536 -> fold_loop k s = s).
  { intros t [|k] Ht; cbn [fold_loop]; [done|]. by rewrite Z.shiftr_div_pow2, Z.div_small by lia. }
  assert (Hs : forall s k, 65536 <= s < 2 ^ 32 -> fold_loop (S k) s = fold_loop k (s - 65535 * (s / 65536))).
  { intros t k Ht. cbn [fold_loop]. destruct (fold_step t ltac:(lia)) as [-> Hq].
    pose proof (Z.div_mod t 65536 ltac:(lia)). pose proof (Z.mod_pos_bound t 65536 ltac:(lia)).
    rewrite wrap_small by (unfold uint; lia). rewrite Z.shiftr_div_pow2 by lia.
    change (2 ^ 16) with 65536.
    destruct (Z.eqb_spec (t / 65536) 0); [|done]. lia. }
  unfold uint. destruct (Z_lt_le_dec s 65536); [rewrite Hr; lia|].
  rewrite Hs by lia. set (t := s - _).
  assert (Ht : 0 <= t < 131071).
  { subst t. pose proof (Z.div_mod s 65536 ltac:(lia)). pose proof (Z.mod_pos_bound s 65536 ltac:(lia)). lia. }
  destruct (Z_lt_le_dec t 65536); [rewrite Hr; lia|].
  rewrite Hs by lia. assert (t / 65536 = 1) as E.
  { symmetry. apply (Z.div_unique_pos _ _ _ (t - 65536)); lia. }
  rewrite E, Hr; lia.
Qed.

Lemma lxor_ffff x : uint16 x -> Z.lxor x 0xffff = 65535 - x.
Proof.
  intros Hx. enough (x + Z.lxor x 0xffff = 0xffff) by lia.
  rewrite Z.add_nocarry_lxor; [by rewrite <- Z.lxor_assoc, Z.lxor_nilpotent|].
  apply Z.bits_inj'. intros n Hn. rewrite Z.land_spec, Z.lxor_spec, Z.bits_0.
  change 0xffff with (Z.ones 16). rewrite Z.testbit_ones_nonneg by lia.
  destruct (Z.ltb_spec n 16); [by destruct (Z.testbit x n)|].
  by rewrite (uint_testbit_high 16 x n) by (done || lia).
Qed.

Lemma checksumFold_eq s : uint32 s -> checksumFold s = 65535 - fold_loop 3 s.
Proof.
  intros Hs. unfold checksumFold. pose proof (fold_done s Hs) as Hd.
  by rewrite (wrap_small 16), lxor_ffff.
Qed.

Lemma checksumFold_range s : uint32 s -> uint16 (checksumFold s).
Proof. intros Hs. rewrite checksumFold_eq by done. pose proof (fold_done s Hs). unfold uint in *. lia. Qed.

(** Adding the checksum of a sum to the sum makes it verify. *)
Lemma checksumFold_verifies s : uint32 s -> uint32 (s + checksumFold s) -> checksumFold (s + checksumFold s) = 0.
Proof.
  intros Hs. rewrite checksumFold_eq by done. intros Hs'. rewrite checksumFold_eq by done.
  destruct (fold_loop_spec 3 s Hs) as (H1 & _ & H2).
  destruct (fold_loop_spec 3 _ Hs') as (H3 & _ & H4).
  pose proof (fold_done s Hs) as Hd. pose proof (fold_done _ Hs') as Hd'. unfold uint in *.
  set (f := fold_loop 3 s) in *. set (f' := fold_loop 3 (s + (65535 - f))) in *.
  apply Z.mod_divide in H1 as [a Ha]; [|done]. apply Z.mod_divide in H3 as [b Hb]; [|done].
  assert (f' = 65535 * (b - a + 1)) by lia. assert (f' <> 0) by lia. lia.
Qed.

(** Storing a checksum over a zeroed field makes the whole verify; [s] is what
    a pseudo-header contributed. *)
Lemma store_checksum_verifies s b off :
  bytes_ok b -> Nat.Even off -> (off + 2 <= length b)%nat -> Z.of_nat (length b) <= 100000 -> 0 <= s < 2 ^ 24 ->
  let b0 := blit b off [0; 0] in
  checksumFold (checksumAccumulate s (blit b0 off (be_enc 2 (checksumFold (checksumAccumulate s b0))))) = 0.
Proof.
  intros Hb He Hl Hmax Hs b0.
  assert (Hb0 : bytes_ok b0) by (apply blit_ok; [done|repeat constructor; lia]).
  assert (length b0 = length b) as El by (apply length_blit; simpl; lia).
  pose proof (wsum_half b0 Hb0) as Hw.
  rewrite (checksumAccumulate_wsum b0) by (done || lia).
  assert (Hu : uint32 (s + wsum b0)) by (unfold uint; lia).
  pose proof (checksumFold_range _ Hu) as Hc. set (c := checksumFold (s + wsum b0)) in *.
  assert (Ew : wsum (blit b0 off (be_enc 2 c)) = wsum b0 + c)
    by (rewrite wsum_store by (done || lia); subst b0; by rewrite blit_blit by (simpl; lia)).
  unfold uint in Hc. rewrite checksumAccumulate_wsum, Ew, Z.add_assoc;
    [apply checksumFold_verifies; [done|unfold uint; fold c; lia]|apply blit_ok; [done|apply be_enc_ok]|lia|lia].
Qed.

(** ** The ICMP errors *)

Lemma putIPv4Checksum_verifies h :
  bytes_ok h -> length h = 20%nat -> onesComplement (putIPv4Checksum h) = 0.
Proof.
  intros Hh Hl. unfold onesComplement, putIPv4Checksum.
  apply (store_checksum_verifies 0 h 10); [done|by exists 5%nat|lia|lia|lia].
Qed.

Lemma putICMPChecksum_verifies b :
  bytes_ok b -> (8 <= length b)%nat -> Z.of_nat (length b) <= 2000 -> onesComplement (putICMPChecksum b) = 0.
Proof.
  intros Hb Hl Hm. unfold onesComplement, putICMPChecksum.
  apply (store_checksum_verifies 0 b 2); [done|by exists 1%nat|lia|lia|lia].
Qed.

Lemma length_putIPv4Checksum h : length h = 20%nat -> length (putIPv4Checksum h) = 20%nat.
Proof. intros. unfold putIPv4Checksum. by autorewrite with wire. Qed.

Lemma length_putICMPChecksum b : (8 <= length b)%nat -> length (putICMPChecksum b) = length b.
Proof. intros. unfold putICMPChecksum. by autorewrite with wire. Qed.

(** A well-formed IPv4 header: what [FragNeeded] requires before it answers. *)
Definition ipv4_wf (pkt : bytes) : Prop :=
  bytes_ok pkt /\ version pkt = 4 /\ (20 <= ihl_of pkt <= length pkt)%nat.

Lemma ihl_small pkt : bytes_ok pkt -> (ihl_of pkt <= 60)%nat.
Proof.
  intros H. unfold ihl_of. pose proof (at_bytes_ok pkt 0 H).
  change 15 with (Z.ones 4). rewrite Z.land_ones by lia.
  pose proof (Z.mod_pos_bound (at_ pkt 0) (2 ^ 4) ltac:(lia)). lia.
Qed.

Lemma be_enc_S n x : be_enc (S n) x = (x / 256 ^ Z.of_nat n) mod 256 :: be_enc n x.
Proof. done. Qed.

(** The reply as its two parts. *)
Definition frag_header (pkt : bytes) (n : nat) : bytes :=
  [0x45; 0] ++ be_enc 2 (Z.of_nat (28 + n)) ++ [0; 0; 0; 0; 64; 1; 0; 0] ++ slice pkt 16 20 ++ slice pkt 12 16.

Definition frag_icmp (pkt : bytes) (n : nat) (mtu : Z) : bytes :=
  [3; 4; 0; 0; 0; 0] ++ be_enc 2 mtu ++ slice pkt 0 n.

Lemma be_slice (pkt : bytes) i j n :
  bytes_ok pkt -> (j <= length pkt)%nat -> n = (j - i)%nat -> be_enc n (be_dec (slice pkt i j)) = slice pkt i j.
Proof.
  intros Hok Hj ->. rewrite <- (length_slice pkt i j Hj) at 1. by apply be_enc_dec, slice_ok.
Qed.

Lemma list4 (l : bytes) : length l = 4%nat -> exists a b c d, l = [a; b; c; d].
Proof. destruct l as [|a [|b [|c [|d [|]]]]]; intros; try done. eauto. Qed.

Lemma FragNeeded_parts pkt mtu :
  ipv4_wf pkt -> uint16 mtu ->
  let n := Nat.min (ihl_of pkt + 8) (length pkt) in
  FragNeeded pkt mtu = Some (putIPv4Checksum (frag_header pkt n) ++ putICMPChecksum (frag_icmp pkt n mtu)).
Proof.
  intros (Hok & Hv & Hl & Hle) Hm n. pose proof (ihl_small pkt Hok) as H60.
  unfold FragNeeded. rewrite Hv, andb_false_r. unfold ipv4HeaderMin.
  rewrite !(proj2 (Nat.ltb_ge _ _)) by lia. cbn [orb negb Z.eqb Pos.eqb]. fold n.
  assert (n <= 68 /\ n <= length pkt)%nat as [Hn Hn'] by lia. clearbody n.
  cbn [addr_val AddrFrom4]. rewrite !be_slice by (done || lia).
  rewrite (wrap_small 16 mtu) by done. rewrite (wrap_small 16) by (unfold uint; lia).
  unfold frag_header, frag_icmp. change (20 + (8 + n))%nat with (28 + n)%nat.
  destruct (list4 (slice pkt 16 20)) as (d0 & d1 & d2 & d3 & ->); [apply length_slice; lia|].
  destruct (list4 (slice pkt 12 16)) as (s0 & s1 & s2 & s3 & ->); [apply length_slice; lia|].
  assert (length (slice pkt 0 n) = n) as Hq by (rewrite length_slice; lia).
  set (q := slice pkt 0 n) in *. clearbody q. subst n.
  cbn [be_enc]. generalize (Z.of_nat (28 + length q)). intros tot.
  set (h0 := (tot / _) mod 256). set (h1 := (tot / _) mod 256).
  set (m0 := (mtu / _) mod 256). set (m1 := (mtu / _) mod 256). clearbody h0 h1 m0 m1.
  set (H := [69; 0] ++ _) at 1.
  match goal with |- context [blit ?o 0 (putIPv4Checksum (slice ?o 0 20))] =>
    assert (o = H ++ replicate (8 + length q) 0) as -> by reflexivity end.
  assert (length H = 20%nat) as HH by done.
  rewrite slice_app_l, slice_all by lia. pose proof (length_putIPv4Checksum H HH) as HC.
  assert (blit (H ++ replicate (8 + length q) 0) 0 (putIPv4Checksum H)
    = putIPv4Checksum H ++ replicate (8 + length q) 0) as ->.
  { unfold blit. rewrite HC, <- HH. cbn [take Nat.add app]. by rewrite drop_app_length. }
  rewrite slice_app_r, HC, Nat.sub_diag by lia. rewrite slice_all by (rewrite length_replicate; lia).
  set (I := [3; 4; 0; 0; 0; 0] ++ _) at 1.
  match goal with |- context [putICMPChecksum ?o] => assert (o = I) as -> end.
  { subst I. unfold blit. cbn [replicate Nat.add take drop app length].
    rewrite !drop_0, take_0, (drop_ge (replicate _ _)), app_nil_r by (rewrite length_replicate; lia). done. }
  f_equal. unfold blit. rewrite <- HC at 1. rewrite take_app_length. f_equal.
  rewrite drop_ge, app_nil_r; [done|]. rewrite length_app, length_replicate, length_putICMPChecksum, HC by (simpl; lia).
  simpl. lia.
Qed.

Lemma frag_header_ok pkt n : bytes_ok pkt -> (20 <= length pkt)%nat ->
  bytes_ok (frag_header pkt n) /\ length (frag_header pkt n) = 20%nat.
Proof.
  intros Hok Hl. unfold frag_header. split.
  - repeat (apply Forall_app; split); auto with veepin; try (by apply be_enc_ok); try (by apply slice_ok);
      repeat constructor; lia.
  - by rewrite !length_app, !length_slice by lia.
Qed.

Lemma frag_icmp_ok pkt n mtu : bytes_ok pkt -> (n <= length pkt)%nat ->
  bytes_ok (frag_icmp pkt n mtu) /\ length (frag_icmp pkt n mtu) = (8 + n)%nat.
Proof.
  intros Hok Hl. unfold frag_icmp. split.
  - repeat (apply Forall_app; split); try (by apply be_enc_ok); try (by apply slice_ok);
      repeat constructor; lia.
  - rewrite !length_app, !length_slice, length_be_enc by lia. simpl. lia.
Qed.

(** What the reply's fields hold. *)
Lemma frag_header_fields pkt n : bytes_ok pkt -> (20 <= length pkt)%nat ->
  let h := putIPv4Checksum (frag_header pkt n) in
  at_ h 0 = 0x45 /\ slice h 2 4 = be_enc 2 (Z.of_nat (28 + n)) /\ at_ h 9 = 1 /\
  slice h 12 16 = slice pkt 16 20 /\ slice h 16 20 = slice pkt 12 16.
Proof.
  intros Hok Hl h. destruct (frag_header_ok pkt n Hok Hl) as [_ HL].
  subst h. unfold putIPv4Checksum. autorewrite with wire. unfold frag_header.
  destruct (list4 (slice pkt 16 20)) as (d0 & d1 & d2 & d3 & ->); [apply length_slice; lia|].
  by destruct (list4 (slice pkt 12 16)) as (s0 & s1 & s2 & s3 & ->); [apply length_slice; lia|].
Qed.

Lemma frag_icmp_fields pkt n mtu : bytes_ok pkt -> (n <= length pkt)%nat ->
  let b := putICMPChecksum (frag_icmp pkt n mtu) in
  at_ b 0 = 3 /\ at_ b 1 = 4 /\ slice b 6 8 = be_enc 2 mtu /\ drop 8 b = take n pkt.
Proof.
  intros Hok Hl b. destruct (frag_icmp_ok pkt n mtu Hok Hl) as [_ HL].
  rewrite drop_as_slice. subst b. unfold putICMPChecksum. autorewrite with wire.
  split_and!; [done|done|done|]. rewrite HL, take_as_slice. unfold frag_icmp.
  rewrite app_assoc, slice_app_r by done. rewrite Nat.sub_diag, slice_all; [done|].
  rewrite length_slice by lia. simpl. lia.
Qed.

(** For every IPv4 packet with a well-formed header [FragNeeded] builds a
    reply whose header and ICMP checksums verify, that goes from the packet's
    destination to its source, quotes the header and eight octets of payload,
    and in which [ParseFragNeeded] finds the MTU that was reported. *)
Theorem FragNeeded_reply pkt mtu :
  ipv4_wf pkt -> uint16 mtu -> mtu <> 0 ->
  exists out, FragNeeded pkt mtu = Some out /\
    onesComplement (slice out 0 20) = 0 /\ onesComplement (drop 20 out) = 0 /\
    InnerSource out = innerDest pkt /\ innerDest out = InnerSource pkt /\
    be_dec (slice out 2 4) = Z.of_nat (length out) /\
    drop 28 out = take (ihl_of pkt + 8) pkt /\
    ParseFragNeeded out = Some mtu.
Proof.
  intros Hwf Hm Hm0. pose proof Hwf as (Hok & Hv & Hl & Hle). pose proof (ihl_small pkt Hok).
  rewrite FragNeeded_parts by done. set (n := Nat.min _ _).
  destruct (frag_header_ok pkt n Hok ltac:(lia)) as [Hh HhL].
  destruct (frag_icmp_ok pkt n mtu Hok ltac:(lia)) as [Hi HiL].
  pose proof (length_putIPv4Checksum _ HhL) as HL1. pose proof (length_putICMPChecksum (frag_icmp pkt n mtu) ltac:(lia)) as HL2.
  eexists. split; [reflexivity|].
  rewrite slice_app_l, slice_all by lia. rewrite <- HL1 at 1. rewrite drop_app_length.
  split; [by apply putIPv4Checksum_verifies|]. split; [apply putICMPChecksum_verifies; [done|lia|lia]|].
  destruct (frag_header_fields pkt n Hok ltac:(lia)) as (F0 & F2 & F9 & F12 & F16).
  destruct (frag_icmp_fields pkt n mtu Hok ltac:(lia)) as (G0 & G1 & G6 & G8).
  set (h := putIPv4Checksum _) in *. set (b := putICMPChecksum _) in *. clearbody h b.
  assert (length (h ++ b) = (28 + n)%nat) as HL by (rewrite length_app; lia).
  assert (version (h ++ b) = 4) as Hv' by (unfold version; by rewrite at_app_l, F0 by lia).
  unfold InnerSource, innerDest. rewrite Hv, Hv', HL.
  rewrite !(proj2 (Nat.ltb_ge _ _)) by lia. cbn [Z.eqb Pos.eqb].
  rewrite !slice_app_l, F12, F16, F2, be_dec_enc_small by (unfold uint; lia).
  assert (ihl_of (h ++ b) = 20%nat) as Hi' by (unfold ihl_of; by rewrite at_app_l, F0 by lia).
  assert (drop 20 (h ++ b) = b) as Hd by (rewrite <- HL1; apply drop_app_length).
  split_and!; try done.
  - change 28%nat with (20 + 8)%nat. rewrite <- drop_drop, Hd, G8. subst n.
    destruct (Nat.min_spec (ihl_of pkt + 8) (length pkt)) as [[_ ->]|[? ->]]; [done|].
    rewrite !take_ge by lia. done.
  - unfold ParseFragNeeded, ipv4HeaderMin. rewrite Hv', Hi', HL, at_app_l, F9, Hd, G0, G1, G6, be_dec_enc_small by (done || lia).
    rewrite !(proj2 (Nat.ltb_ge _ _)) by lia. simpl. by rewrite (proj2 (Z.eqb_neq _ _) Hm0).
Qed.

(** A 1500-octet TCP segment with DF set, over an inner MTU of 1400. *)
Definition demo_pkt : bytes :=
  [0x45; 0; 5; 220; 0; 0; 64; 0; 64; 6; 0; 0; 10; 0; 0; 1; 10; 0; 0; 2] ++ replicate 1480 7.

Lemma FragNeeded_reply_witness :
  NeedsFragmentation demo_pkt 1400 = true /\
  exists out, FragNeeded demo_pkt 1400 = Some out /\
    onesComplement (slice out 0 20) = 0 /\ onesComplement (drop 20 out) = 0 /\
    InnerSource out = innerDest demo_pkt /\ innerDest out = InnerSource demo_pkt /\
    be_dec (slice out 2 4) = Z.of_nat (length out) /\
    drop 28 out = take (ihl_of demo_pkt + 8) demo_pkt /\
    ParseFragNeeded out = Some 1400.
Proof.
  split; [vm_compute; reflexivity|].
  apply (FragNeeded_reply demo_pkt 1400); [|by_decision|done].
  split; [by_decision|]. split; [vm_compute; reflexivity|]. vm_compute. lia.
Defined.

(** *** ICMPv6 *)

Lemma length_pseudo6 src dst icmp :
  length src = 16%nat -> length dst = 16%nat -> length (pseudo6 src dst icmp) = 40%nat.
Proof. intros. unfold pseudo6. by autorewrite with wire. Qed.

Lemma pseudo6_sum src dst icmp :
  bytes_ok src -> bytes_ok dst -> length src = 16%nat -> length dst = 16%nat ->
  0 <= checksumAccumulate 0 (pseudo6 src dst icmp) < 2 ^ 24.
Proof.
  intros Hs Hd Ls Ld. assert (bytes_ok (pseudo6 src dst icmp)) as Hp.
  { unfold pseudo6. repeat apply blit_ok; auto using replicate0_ok, be_enc_ok. repeat constructor; lia. }
  pose proof (wsum_range _ Hp) as Hw. rewrite length_pseudo6 in Hw by done.
  rewrite checksumAccumulate_wsum by (done || lia). lia.
Qed.

Lemma pseudo6_length_only src dst a b : length a = length b -> pseudo6 src dst a = pseudo6 src dst b.
Proof. unfold pseudo6. by intros ->. Qed.

Lemma putICMPv6Checksum_verifies src dst b :
  bytes_ok src -> bytes_ok dst -> length src = 16%nat -> length dst = 16%nat ->
  bytes_ok b -> (8 <= length b)%nat -> Z.of_nat (length b) <= 2000 ->
  let b' := putICMPv6Checksum src dst b in
  checksumFold (checksumAccumulate (checksumAccumulate 0 (pseudo6 src dst b')) b') = 0.
Proof.
  intros Hs Hd Ls Ld Hb Hl Hm b'. subst b'. unfold putICMPv6Checksum.
  set (b0 := blit b 2 [0; 0]). rewrite (pseudo6_length_only _ _ (blit b0 2 _) b0)
    by (subst b0; by autorewrite with wire).
  apply (store_checksum_verifies _ b 2); [done|by exists 1%nat|lia|lia|by apply pseudo6_sum].
Qed.

(** The two parts of the reply before the checksum is stored. *)
Definition ptb_header (pkt : bytes) (n : nat) : bytes :=
  blit (blit (blit (blit (blit (blit (replicate (40 + (8 + n)) 0) 0 [0x60])
    4 (be_enc 2 (wrap 16 (Z.of_nat (8 + n))))) 6 [protoICMPv6]) 7 [64]) 8 (slice pkt 24 40)) 24 (slice pkt 8 24).

Definition ptb_icmp (out pkt : bytes) (n : nat) (mtu : Z) : bytes :=
  blit (blit (blit (blit (slice out 40 (40 + (8 + n))) 0 [icmp6TypePacketTooBig]) 1 [0])
    4 (be_enc 4 (wrap 32 mtu))) 8 (slice pkt 0 n).

Lemma ptb_header_fields pkt n : bytes_ok pkt -> (40 <= length pkt)%nat ->
  let out := ptb_header pkt n in
  length out = (48 + n)%nat /\ bytes_ok out /\ at_ out 0 = 0x60 /\
  slice out 8 24 = slice pkt 24 40 /\ slice out 24 40 = slice pkt 8 24.
Proof.
  intros Hok Hl out. subst out. unfold ptb_header.
  assert (length (slice pkt 24 40) = 16%nat) by (by rewrite length_slice by lia).
  assert (length (slice pkt 8 24) = 16%nat) by (by rewrite length_slice by lia).
  split_and!; [autorewrite with wire; lia|solve_bytes|by autorewrite with wire..].
Qed.

Lemma ptb_icmp_fields out pkt n mtu :
  bytes_ok out -> bytes_ok pkt -> length out = (48 + n)%nat -> (n <= length pkt)%nat ->
  let icmp := ptb_icmp out pkt n mtu in
  length icmp = (8 + n)%nat /\ bytes_ok icmp /\
  slice icmp 4 8 = be_enc 4 (wrap 32 mtu) /\ slice icmp 8 (8 + n) = slice pkt 0 n.
Proof.
  intros Ho Hp HL Hn icmp. subst icmp. unfold ptb_icmp.
  assert (length (slice pkt 0 n) = n) by (rewrite length_slice; lia).
  split_and!; [autorewrite with wire; lia|solve_bytes|by autorewrite with wire..].
Qed.

(** Storing the checksum leaves the other fields alone. *)
Lemma putICMPv6Checksum_fields src dst b n :
  length b = (8 + n)%nat ->
  let b' := putICMPv6Checksum src dst b in
  length b' = (8 + n)%nat /\ slice b' 4 8 = slice b 4 8 /\ slice b' 8 (8 + n) = slice b 8 (8 + n).
Proof. intros HL b'. subst b'. unfold putICMPv6Checksum. by autorewrite with wire. Qed.

Lemma slice_blit_end (b s : bytes) off : (off + length s = length b)%nat -> blit b off s = slice b 0 off ++ s.
Proof. intros H. unfold blit. rewrite drop_ge, app_nil_r, take_as_slice by lia. done. Qed.

(** For every IPv6 packet the Packet Too Big reply fits the IPv6 minimum MTU,
    goes from the packet's destination to its source, has a valid ICMPv6
    checksum over the pseudo-header, never reports less than 1280 octets and
    quotes as much of the packet as fits. *)
Theorem PacketTooBig_reply pkt mtu :
  bytes_ok pkt -> version pkt = 6 -> (40 <= length pkt)%nat -> uint32 mtu ->
  exists out, FragNeeded pkt mtu = Some out /\ Z.of_nat (length out) <= MinIPv6MTU /\
    InnerSource out = innerDest pkt /\ innerDest out = InnerSource pkt /\
    (let icmp := drop 40 out in
     checksumFold (checksumAccumulate (checksumAccumulate 0
       (pseudo6 (slice out 8 24) (slice out 24 40) icmp)) icmp) = 0) /\
    be_dec (slice out 44 48) = Z.max mtu MinIPv6MTU /\
    drop 48 out = take 1232 pkt.
Proof.
  intros Hok Hv Hl Hm. unfold FragNeeded. rewrite (proj2 (Nat.leb_le _ _)), Hv by lia. cbn [andb Z.eqb Pos.eqb].
  unfold fragNeededV6, MinIPv6MTU. rewrite Hv, (proj2 (Nat.ltb_ge _ _)) by lia.
  cbn [orb negb Z.eqb Pos.eqb]. change (Z.to_nat 1280 - 40 - 8)%nat with 1232%nat.
  set (n := if (1232 <? length pkt)%nat then 1232%nat else length pkt).
  assert (n <= 1232 /\ n <= length pkt /\ take n pkt = take 1232 pkt)%nat as (Hn & Hn' & Hq).
  { subst n. destruct (Nat.ltb_spec 1232 (length pkt)); split_and!; try lia; [done|].
    by rewrite !take_ge by lia. }
  clearbody n. set (m := if mtu <? 1280 then 1280 else mtu).
  assert (m = Z.max mtu 1280) as Em by (subst m; destruct (Z.ltb_spec mtu 1280); lia). clearbody m.
  fold (ptb_header pkt n). fold (ptb_icmp (ptb_header pkt n) pkt n m).
  destruct (ptb_header_fields pkt n Hok Hl) as (HL & Ho & F0 & F8 & F24). set (out := ptb_header pkt n) in *.
  destruct (ptb_icmp_fields out pkt n m Ho Hok HL Hn') as (HI & Hicmp & G4 & G8).
  set (icmp := ptb_icmp out pkt n m) in *. clearbody out icmp. rewrite F8, F24.
  assert (L1 : length (slice pkt 24 40) = 16%nat) by (by rewrite length_slice by lia).
  assert (L2 : length (slice pkt 8 24) = 16%nat) by (by rewrite length_slice by lia).
  pose proof (putICMPv6Checksum_verifies (slice pkt 24 40) (slice pkt 8 24) icmp
    (slice_ok _ _ _ Hok) (slice_ok _ _ _ Hok) L1 L2 Hicmp ltac:(lia) ltac:(lia)) as HV. cbn zeta in HV.
  destruct (putICMPv6Checksum_fields (slice pkt 24 40) (slice pkt 8 24) icmp n HI) as (KL & K4 & K8).
  rewrite G4 in K4. rewrite G8 in K8. set (b := putICMPv6Checksum _ _ icmp) in *. clearbody b.
  rewrite slice_blit_end by lia. assert (LO : length (slice out 0 40) = 40%nat) by (rewrite length_slice; lia).
  assert (version (slice out 0 40 ++ b) = 6) as Hv'
    by (unfold version; rewrite at_app_l, at_slice by lia; cbn [Nat.add]; by rewrite F0).
  assert (drop 40 (slice out 0 40 ++ b) = b) as Hd by (rewrite <- LO at 1; apply drop_app_length).
  eexists. split; [reflexivity|]. unfold InnerSource, innerDest. rewrite Hv, Hv', !length_app, LO, KL.
  rewrite !(proj2 (Nat.ltb_ge _ _)) by lia. cbn [Z.eqb Pos.eqb]. rewrite !slice_app_l, !slice_slice, Hd by lia.
  cbn [Nat.add]. rewrite F8, F24. split_and!; [lia|done|done|done| |].
  - rewrite slice_app_r, LO by lia. cbn [Nat.sub]. rewrite K4, wrap_small, be_dec_enc_small by (unfold uint in *; lia). done.
  - change 48%nat with (40 + 8)%nat. rewrite <- drop_drop, Hd, drop_as_slice, KL, K8, <- take_as_slice. done.
Qed.

Definition demo_pkt6 : bytes := [0x60; 0; 0; 0; 5; 180; 6; 64] ++ replicate 32 1 ++ replicate 1460 7.

Lemma PacketTooBig_reply_witness :
  exists out, FragNeeded demo_pkt6 1000 = Some out /\ Z.of_nat (length out) <= MinIPv6MTU /\
    InnerSource out = innerDest demo_pkt6 /\ innerDest out = InnerSource demo_pkt6 /\
    (let icmp := drop 40 out in
     checksumFold (checksumAccumulate (checksumAccumulate 0
       (pseudo6 (slice out 8 24) (slice out 24 40) icmp)) icmp) = 0) /\
    be_dec (slice out 44 48) = Z.max 1000 MinIPv6MTU /\
    drop 48 out = take 1232 demo_pkt6.
Proof. apply (PacketTooBig_reply demo_pkt6 1000); [by_decision|by_decision|vm_compute; lia|by_decision]. Defined.

(** ** Trimming undoes padding *)

Lemma TrimToIP_inv plain q :
  TrimToIP plain = Some q -> (20 <= length q <= length plain)%nat /\ q = slice plain 0 (length q).
Proof.
  unfold TrimToIP. intros H. repeat (case_match; try done); simplify_eq;
    repeat match goal with
    | E : (_ || _) = false |- _ => apply orb_false_iff in E as [? ?]
    | E : (_ <? _)%nat = false |- _ => apply Nat.ltb_ge in E
    end; rewrite length_slice, Nat.sub_0_r by lia; (split; [lia|done]).
Qed.

(** Two buffers that share the octets of a header and hold the whole packet trim alike. *)
Lemma TrimToIP_ext l1 l2 q :
  TrimToIP l1 = Some q -> (length q <= length l2)%nat -> slice l2 0 (length q) = q -> TrimToIP l2 = Some q.
Proof.
  intros H Hl Hs. pose proof (TrimToIP_inv _ _ H) as [Hq Eq].
  assert (Hat : forall i, (i < length q)%nat -> at_ l2 i = at_ l1 i).
  { intros i Hi. pose proof (at_slice l2 0 (length q) i ltac:(lia)) as E2.
    pose proof (at_slice l1 0 (length q) i ltac:(lia)) as E1. rewrite <- Eq in E1. rewrite Hs in E2.
    simpl in *. congruence. }
  assert (Hsl : forall i j, (j <= length q)%nat -> slice l2 i j = slice l1 i j).
  { intros i j Hj. assert (slice (slice l2 0 (length q)) i j = slice (slice l1 0 (length q)) i j) as E by (by rewrite Hs, <- Eq).
    by rewrite !slice_slice in E by lia. }
  revert H. unfold TrimToIP, version. rewrite Hat by lia.
  rewrite (Hsl 2%nat 4%nat), (Hsl 4%nat 6%nat) by lia.
  repeat (case_match; try done); intros; simplify_eq;
    repeat match goal with
    | E : (_ || _) = false |- _ => apply orb_false_iff in E as [? ?]
    | E : (_ || _) = true |- _ => apply orb_true_iff in E as [?|?]
    | E : (_ <? _)%nat = false |- _ => apply Nat.ltb_ge in E
    | E : (_ <? _)%nat = true |- _ => apply Nat.ltb_lt in E
    | E : (_ =? _)%nat = true |- _ => apply Nat.eqb_eq in E
    end; rewrite length_slice in * by lia; try lia; f_equal; apply Hsl; lia.
Qed.

(** Trimming is the inverse of padding: a packet whose header declares its
    own length survives any filler appended to it, and whatever trimming hands
    over is a non-empty prefix that declares exactly its own length. *)
Theorem TrimToIP_undoes_padding plain q filler :
  TrimToIP plain = Some q ->
  TrimToIP (q ++ filler) = Some q /\ (exists rest, plain = q ++ rest) /\ q <> [].
Proof.
  intros H. pose proof (TrimToIP_inv _ _ H) as [Hq Eq]. split_and!.
  - apply (TrimToIP_ext plain); [done|rewrite length_app; lia|].
    rewrite slice_app_l by lia. by apply slice_all.
  - exists (drop (length q) plain). rewrite Eq at 1. by rewrite <- take_as_slice, take_drop.
  - intros ->. simpl in Hq. lia.
Qed.

Lemma TrimToIP_undoes_padding_witness :
  TrimToIP (demo_pkt ++ [0; 0; 0]) = Some demo_pkt /\ TrimToIP (demo_pkt ++ [9; 9]) = Some demo_pkt.
Proof.
  assert (H : TrimToIP (demo_pkt ++ [0; 0; 0]) = Some demo_pkt) by (vm_compute; reflexivity).
  split; [exact H|]. apply (TrimToIP_undoes_padding (demo_pkt ++ [0; 0; 0]) demo_pkt [9; 9] H).
Defined.
