(* ===== verification/Shape.v ===== *)
(** * Downstream flow shaping, [dataplane/shape.go]

    The [Shaper] decides how far each outbound packet is padded: every inner flow
    has a budget of padded output, re-armed after an idle interval, in a table of
    bounded size.  The clock reading is an argument.  The theorems bound the
    table, show that padding never exceeds the MTU, and give the exact packets of
    a flow that are padded. *)
From Stdlib Require Import ZArith Lia.
From stdpp Require Import base list gmap fin_maps.
From S2P Require Import Prelude Routes Packet.

Abbreviation DefaultShapeBytes := 16384 (only parsing).
Abbreviation DefaultShapeIdle := 30000000000 (only parsing).
Abbreviation DefaultShapeMaxFlows := 4096 (only parsing).
Abbreviation sweepEvery := 1024 (only parsing).

(** [int64] subtraction of two [UnixNano] readings. *)
Definition sub64 (a b : Z) : Z := wrap 64 (a - b + 2 ^ 63) - 2 ^ 63.

Record ShapeConfig := mkShapeConfig { cfgBytes : Z; cfgIdle : Z; cfgMaxFlows : Z }.

Definition shape_withDefaults (c : ShapeConfig) : ShapeConfig :=
  mkShapeConfig (cfgBytes c)
    (if cfgIdle c <=? 0 then DefaultShapeIdle else cfgIdle c)
    (if cfgMaxFlows c <=? 0 then DefaultShapeMaxFlows else cfgMaxFlows c).

Record flowKey := mkFlowKey { fsrc : Addr; fdst : Addr; sport : Z; dport : Z; proto : Z }.

#[export] Instance Addr_countable : Countable Addr.
Proof.
  refine (inj_countable' (fun a => (Is4 a, addr_val a)) (fun '(b, x) => if (b : bool) then IPv4 x else IPv6 x) _).
  by intros [x|x].
Defined.

#[export] Instance flowKey_eq_dec : EqDecision flowKey.
Proof. solve_decision. Defined.

#[export] Instance flowKey_countable : Countable flowKey.
Proof.
  refine (inj_countable' (fun k => (fsrc k, fdst k, sport k, dport k, proto k))
    (fun '(a, b, c, d, e) => mkFlowKey a b c d e) _). by intros [].
Defined.

Record flowState := mkFlowState { remaining : Z; lastSeen : Z }.

Record Shaper := mkShaper { cfg : ShapeConfig; flows : gmap flowKey flowState; since : Z }.

Definition NewShaper (c : ShapeConfig) : Shaper := mkShaper (shape_withDefaults c) ∅ 0.

(** ** Flows *)

Definition portsOf (proto : Z) (rest : bytes) : Z * Z :=
  if (proto =? 6) || (proto =? 17) || (proto =? 132) then
    if (length rest <? 4)%nat then (0, 0) else (be_dec (slice rest 0 2), be_dec (slice rest 2 4))
  else (0, 0).

Definition flowKeyOf (pkt : bytes) : option flowKey :=
  if (length pkt <? 1)%nat then None
  else if version pkt =? 4 then
    if (length pkt <? 20)%nat then None
    else
      let ihl := ihl_of pkt in
      if ((ihl <? 20) || (length pkt <? ihl))%nat then None
      else
        let proto := at_ pkt 9 in
        let '(sp, dp) :=
          if Z.land (be_dec (slice pkt 6 8)) 0x1fff =? 0 then portsOf proto (drop ihl pkt) else (0, 0) in
        Some (mkFlowKey (AddrFrom4 (slice pkt 12 16)) (AddrFrom4 (slice pkt 16 20)) sp dp proto)
  else if version pkt =? 6 then
    if (length pkt <? 40)%nat then None
    else
      let proto := at_ pkt 6 in
      let '(sp, dp) := portsOf proto (drop 40 pkt) in
      Some (mkFlowKey (AddrFrom16 (slice pkt 8 24)) (AddrFrom16 (slice pkt 24 40)) sp dp proto)
  else None.

(** ** The table *)

Definition sweep (s : Shaper) (now : Z) : Shaper :=
  mkShaper (cfg s)
    (filter (fun kv : flowKey * flowState => ~ (cfgIdle (cfg s) <= sub64 now (lastSeen kv.2))) (flows s)) (since s).

Definition store (s : Shaper) (key : flowKey) (st : flowState) : Shaper :=
  let fl := if decide (flows s !! key = None /\ cfgMaxFlows (cfg s) <= Z.of_nat (size (flows s))) then ∅ else flows s in
  let s := mkShaper (cfg s) (<[key := st]> fl) (since s + 1) in
  if sweepEvery <=? since s then sweep (mkShaper (cfg s) (flows s) 0) (lastSeen st) else s.

(** [Target]; [now] is the clock reading the call makes. *)
Definition Target (s : Shaper) (pkt : bytes) (mtu now : Z) : Z * Shaper :=
  if (cfgBytes (cfg s) <=? 0) || (mtu <=? 0) then (0, s)
  else
    match flowKeyOf pkt with
    | None => (0, s)
    | Some key =>
        let rem :=
          match flows s !! key with
          | None => cfgBytes (cfg s)
          | Some st => if cfgIdle (cfg s) <=? sub64 now (lastSeen st) then cfgBytes (cfg s) else remaining st
          end in
        let len := Z.of_nat (length pkt) in
        let shape := 0 <? rem in
        let rem := if shape then rem - Z.max len mtu else rem in
        let s := store s key (mkFlowState rem now) in
        (if negb shape || (mtu <=? len) then 0 else mtu, s)
    end.

(** The method on a nil [*Shaper]. *)
Definition Target_ptr (s : option Shaper) (pkt : bytes) (mtu now : Z) : Z * option Shaper :=
  match s with
  | None => (0, None)
  | Some s => let '(t, s) := Target s pkt mtu now in (t, Some s)
  end.

(** ** Ethernet frames *)

Abbreviation ethHeaderLen := 14%nat (only parsing).
Abbreviation ethTypeIPv4 := 0x0800 (only parsing).
Abbreviation ethTypeIPv6 := 0x86dd (only parsing).
Abbreviation ethTypeOffset := 12%nat (only parsing).

Definition ShapeableFrame (frame : bytes) : bool :=
  if (length frame <? ethHeaderLen)%nat then false
  else let ty := be_dec (slice frame ethTypeOffset (ethTypeOffset + 2)) in
       (ty =? ethTypeIPv4) || (ty =? ethTypeIPv6).

Definition TargetFrame (s : option Shaper) (frame : bytes) (mtu now : Z) : Z * option Shaper :=
  match s with
  | None => (0, None)
  | Some s =>
      if negb (ShapeableFrame frame) then (0, Some s)
      else
        let '(inner, s) := Target s (drop ethHeaderLen frame) (mtu - Z.of_nat ethHeaderLen) now in
        if inner <=? 0 then (0, Some s) else (inner + Z.of_nat ethHeaderLen, Some s)
  end.

(** ** The table stays bounded *)

(** What every reachable shaper satisfies: the configuration carries its
    defaults, the table is bounded and the sweep counter is below its period. *)
Record shaper_inv (s : Shaper) : Prop := {
  inv_idle : 0 < cfgIdle (cfg s);
  inv_max : 0 < cfgMaxFlows (cfg s);
  inv_size : Z.of_nat (size (flows s)) <= cfgMaxFlows (cfg s);
  inv_since : 0 <= since s < sweepEvery;
}.

Lemma NewShaper_inv c : shaper_inv (NewShaper c).
Proof.
  split; cbn [NewShaper cfg flows since shape_withDefaults cfgIdle cfgMaxFlows].
  - case_match; [done|by apply Z.leb_gt].
  - case_match; [done|by apply Z.leb_gt].
  - rewrite map_size_empty. destruct (Z.leb_spec (cfgMaxFlows c) 0); [done|lia].
  - done.
Qed.

Lemma sweep_inv s now : shaper_inv s -> shaper_inv (sweep s now).
Proof.
  intros [? ? ? ?]. split; simpl; try done.
  pose proof (map_size_filter (fun kv : flowKey * flowState => ~ (cfgIdle (cfg s) <= sub64 now (lastSeen kv.2))) (flows s)).
  lia.
Qed.

Lemma store_inv s key st : shaper_inv s -> shaper_inv (store s key st).
Proof.
  intros [Hi Hm Hs Hc]. unfold store.
  set (fl := if decide _ then ∅ else flows s).
  assert (Z.of_nat (size (<[key:=st]> fl)) <= cfgMaxFlows (cfg s)) as Hsz.
  { subst fl. case_decide as D.
    - rewrite map_size_insert_None, map_size_empty by done. lia.
    - destruct (flows s !! key) as [x|] eqn:E.
      + erewrite map_size_insert_Some by done. done.
      + rewrite map_size_insert_None by done. assert (~ (cfgMaxFlows (cfg s) <= Z.of_nat (size (flows s)))) by tauto. lia. }
  cbn [cfg flows since].
  destruct (Z.leb_spec 1024 (since s + 1)); [apply sweep_inv|]; split; simpl; try done; lia.
Qed.

Lemma Target_inv s pkt mtu now : shaper_inv s -> shaper_inv (Target s pkt mtu now).2.
Proof.
  intros H. unfold Target. case_match; [done|]. case_match; [|done]. by apply store_inv.
Qed.

(** ** Runs of calls *)

Fixpoint run_targets (s : Shaper) (calls : list (bytes * Z * Z)) : list Z * Shaper :=
  match calls with
  | [] => ([], s)
  | (pkt, mtu, now) :: calls =>
      let '(t, s) := Target s pkt mtu now in
      let '(ts, s) := run_targets s calls in (t :: ts, s)
  end.

Lemma Target_result s pkt mtu now :
  let t := (Target s pkt mtu now).1 in t = 0 \/ t = mtu /\ 0 < mtu /\ Z.of_nat (length pkt) < mtu.
Proof.
  unfold Target. destruct (Z.leb_spec mtu 0); [rewrite orb_true_r; by left|].
  rewrite orb_false_r. destruct (cfgBytes (cfg s) <=? 0); [by left|]. destruct (flowKeyOf pkt) as [key|]; [|by left].
  cbn [fst]. match goal with |- context [negb (0 <? ?r)] => destruct (0 <? r) end; [|by left]. destruct (Z.leb_spec mtu (Z.of_nat (length pkt))); [by left|].
  right. simpl. lia.
Qed.

Lemma run_targets_inv s calls : shaper_inv s -> shaper_inv (run_targets s calls).2.
Proof.
  revert s. induction calls as [|[[pkt mtu] now] calls IH]; intros s H; [done|]. simpl.
  pose proof (Target_inv s pkt mtu now H) as H1. destruct (Target s pkt mtu now) as [t s1].
  specialize (IH s1 H1). by destruct (run_targets s1 calls).
Qed.

Lemma run_targets_results s calls :
  Forall2 (fun c t => t = 0 \/ t = c.1.2 /\ 0 < c.1.2 /\ Z.of_nat (length c.1.1) < c.1.2) calls (run_targets s calls).1.
Proof.
  revert s. induction calls as [|[[pkt mtu] now] calls IH]; intros s; [constructor|]. simpl.
  pose proof (Target_result s pkt mtu now) as H1. destruct (Target s pkt mtu now) as [t s1].
  specialize (IH s1). destruct (run_targets s1 calls). by constructor.
Qed.

(** Whatever packets, MTUs and clock readings a shaper sees, its flow table
    never holds more than [MaxFlows] entries, and each answer is either 0 or the
    MTU itself for a packet shorter than it: padding never makes a packet
    oversized. *)
Theorem shaper_bounded (c : ShapeConfig) (calls : list (bytes * Z * Z)) :
  let '(ts, s) := run_targets (NewShaper c) calls in
  Z.of_nat (size (flows s)) <= cfgMaxFlows (shape_withDefaults c) /\
  Forall2 (fun c t => t = 0 \/ t = c.1.2 /\ 0 < c.1.2 /\ Z.of_nat (length c.1.1) < c.1.2) calls ts.
Proof.
  pose proof (run_targets_inv _ calls (NewShaper_inv c)) as Hi.
  pose proof (run_targets_results (NewShaper c) calls) as Hr.
  assert (Hcfg : forall l s, cfg (run_targets s l).2 = cfg s).
  { induction l as [|[[pkt mtu] now] l IH]; intros s; [done|]. simpl.
    assert (cfg (Target s pkt mtu now).2 = cfg s) as E.
    { unfold Target, store. repeat (case_match; try done). }
    destruct (Target s pkt mtu now) as [t s1]. specialize (IH s1). destruct (run_targets s1 l). simpl in *. congruence. }
  specialize (Hcfg calls (NewShaper c)). destruct (run_targets _ _) as [ts s]. cbn [fst snd] in *.
  split; [|done]. change (shape_withDefaults c) with (cfg (NewShaper c)). rewrite <- Hcfg. apply Hi.
Qed.

(** ** One flow *)

Lemma sub64_small a b : - 2 ^ 63 <= a - b < 2 ^ 63 -> sub64 a b = a - b.
Proof. intros H. unfold sub64. rewrite wrap_small; [lia|]. unfold uint. lia. Qed.

Lemma store_lookup s key st : 0 < cfgIdle (cfg s) -> flows (store s key st) !! key = Some st.
Proof.
  intros Hi. unfold store. cbn [cfg flows since]. destruct (sweepEvery <=? since s + 1).
  - unfold sweep. cbn [cfg flows]. apply map_lookup_filter_Some. split; [by rewrite lookup_insert_eq|].
    simpl. rewrite sub64_small by lia. lia.
  - simpl. by rewrite lookup_insert_eq.
Qed.

Lemma store_cfg s key st : cfg (store s key st) = cfg s.
Proof. unfold store. cbn [cfg flows since]. by destruct (sweepEvery <=? since s + 1). Qed.

(** Packets of flow [k], none longer than the MTU, with no pause of [idle] or more. *)
Fixpoint steady (k : flowKey) (mtu idle last : Z) (l : list (bytes * Z)) : Prop :=
  match l with
  | [] => True
  | (pkt, now) :: l =>
      flowKeyOf pkt = Some k /\ Z.of_nat (length pkt) <= mtu /\ 0 <= now - last < idle /\ steady k mtu idle now l
  end.

Definition with_mtu (mtu : Z) (l : list (bytes * Z)) : list (bytes * Z * Z) :=
  (fun '(pkt, now) => (pkt, mtu, now)) <$> l.

(** What packet [i] of the flow is padded to. *)
Definition padded (budget mtu : Z) (i : nat) (pkt : bytes) : Z :=
  if (Z.of_nat i * mtu <? budget) && (Z.of_nat (length pkt) <? mtu) then mtu else 0.

(** The budget before packet [j]. *)
Definition spent (budget mtu rem : Z) (j : nat) : Prop :=
  rem = budget - Z.of_nat j * mtu \/ rem <= 0 /\ budget <= Z.of_nat j * mtu.

Lemma Target_step s k pkt mtu now last rem j :
  0 < cfgBytes (cfg s) -> 0 < mtu -> 0 < cfgIdle (cfg s) < 2 ^ 63 ->
  flowKeyOf pkt = Some k -> Z.of_nat (length pkt) <= mtu ->
  (flows s !! k = None /\ rem = cfgBytes (cfg s) \/
   flows s !! k = Some (mkFlowState rem last) /\ 0 <= now - last < cfgIdle (cfg s)) ->
  spent (cfgBytes (cfg s)) mtu rem j ->
  exists rem', (Target s pkt mtu now).1 = padded (cfgBytes (cfg s)) mtu j pkt /\
    flows (Target s pkt mtu now).2 !! k = Some (mkFlowState rem' now) /\
    cfg (Target s pkt mtu now).2 = cfg s /\ spent (cfgBytes (cfg s)) mtu rem' (S j).
Proof.
  intros Hb Hm Hi Hk Hl Hst Hsp. unfold Target.
  rewrite !(proj2 (Z.leb_gt _ _)) by lia. cbn [orb]. rewrite Hk.
  assert (match flows s !! k with
    | None => cfgBytes (cfg s)
    | Some st => if cfgIdle (cfg s) <=? sub64 now (lastSeen st) then cfgBytes (cfg s) else remaining st
    end = rem) as ->.
  { destruct Hst as [[-> ->]|[-> Hg]]; [done|]. simpl. rewrite sub64_small by lia.
    by rewrite (proj2 (Z.leb_gt _ _)) by lia. }
  rewrite Z.max_r by done. cbn [fst snd].
  eexists. rewrite store_lookup, store_cfg by lia. split_and!; [|done|done|].
  - unfold padded. unfold spent in Hsp.
    destruct (Z.ltb_spec 0 rem), (Z.ltb_spec (Z.of_nat j * mtu) (cfgBytes (cfg s))); try lia; [|done].
    simpl. destruct (Z.leb_spec mtu (Z.of_nat (length pkt))), (Z.ltb_spec (Z.of_nat (length pkt)) mtu); lia.
  - unfold spent in *. destruct (Z.ltb_spec 0 rem); lia.
Qed.

Lemma run_targets_flow k mtu l s last rem j :
  0 < cfgBytes (cfg s) -> 0 < mtu -> 0 < cfgIdle (cfg s) < 2 ^ 63 ->
  flows s !! k = Some (mkFlowState rem last) -> spent (cfgBytes (cfg s)) mtu rem j ->
  steady k mtu (cfgIdle (cfg s)) last l ->
  (run_targets s (with_mtu mtu l)).1 = imap (fun i '(pkt, _) => padded (cfgBytes (cfg s)) mtu (j + i) pkt) l.
Proof.
  intros Hb Hm Hi. revert s last rem j Hb Hi. induction l as [|[pkt now] l IH]; intros s last rem j Hb Hi Hf Hsp Hst; [done|].
  destruct Hst as (Hk & Hl & Hg & Hst).
  destruct (Target_step s k pkt mtu now last rem j) as (rem' & Hr & Hf' & Hc & Hsp'); try done; [by right|].
  simpl. destruct (Target s pkt mtu now) as [t s1]. simpl in *.
  specialize (IH s1 now rem' (S j)). rewrite Hc in IH. specialize (IH Hb Hi Hf' Hsp' Hst).
  change ((fun '(pkt, now) => (pkt, mtu, now)) <$> l) with (with_mtu mtu l).
  destruct (run_targets s1 (with_mtu mtu l)) as [ts s2]. simpl in *. rewrite Hr, Nat.add_0_r. f_equal.
  rewrite IH. apply imap_ext. intros i [p n] _. simpl. f_equal. lia.
Qed.

(** A flow's padding is exactly its budget: of the packets of one flow sent
    without an idle pause, number [i] is padded to the MTU when it is shorter
    than that and [i * mtu < Bytes], and is sent as it is otherwise, whatever
    sizes the packets have. *)
Theorem flow_padding_exact (c : ShapeConfig) (k : flowKey) (mtu now : Z) (pkt : bytes) (l : list (bytes * Z)) :
  0 < cfgBytes c -> 0 < mtu -> cfgIdle c < 2 ^ 63 ->
  flowKeyOf pkt = Some k -> Z.of_nat (length pkt) <= mtu ->
  steady k mtu (cfgIdle (shape_withDefaults c)) now l ->
  (run_targets (NewShaper c) (with_mtu mtu ((pkt, now) :: l))).1 =
    imap (fun i '(p, _) => padded (cfgBytes c) mtu i p) ((pkt, now) :: l).
Proof.
  intros Hb Hm Hi Hk Hl Hst.
  assert (0 < cfgIdle (cfg (NewShaper c)) < 2 ^ 63) as Hi'.
  { split; [apply NewShaper_inv|]. simpl. case_match; [done|lia]. }
  destruct (Target_step (NewShaper c) k pkt mtu now 0 (cfgBytes c) 0) as (rem' & Hr & Hf' & Hc & Hsp');
    [done|done|done|done|done|left; done|left; simpl; lia|].
  change (with_mtu mtu ((pkt, now) :: l)) with ((pkt, mtu, now) :: with_mtu mtu l). cbn [run_targets].
  destruct (Target (NewShaper c) pkt mtu now) as [t s1]. simpl fst in *. simpl snd in *.
  pose proof (run_targets_flow k mtu l s1 now rem' 1) as H. rewrite Hc in H.
  specialize (H Hb Hm Hi' Hf' Hsp' Hst).
  destruct (run_targets s1 (with_mtu mtu l)) as [ts s2]. cbn [fst] in *. by rewrite Hr, H.
Qed.

(** A UDP packet of one flow, and a 100-octet budget over an MTU of 40. *)
Definition shape_pkt : bytes :=
  [0x45; 0; 0; 28; 0; 0; 0; 0; 64; 17; 0; 0; 10; 0; 0; 1; 10; 0; 0; 2; 0; 53; 1; 2; 0; 8; 0; 0].

Lemma flow_padding_exact_witness :
  (run_targets (NewShaper (mkShapeConfig 100 0 0))
     (with_mtu 40 [(shape_pkt, 5); (shape_pkt, 6); (shape_pkt, 7); (shape_pkt, 8)])).1 = [40; 40; 40; 0].
Proof.
  rewrite (flow_padding_exact (mkShapeConfig 100 0 0) (mkFlowKey (IPv4 0x0a000001) (IPv4 0x0a000002) 53 258 17)
    40 5 shape_pkt [(shape_pkt, 6); (shape_pkt, 7); (shape_pkt, 8)]);
    [reflexivity|simpl; lia|lia|simpl; lia|reflexivity|simpl; lia|].
  simpl. split_and!; (reflexivity || lia || exact I).
Defined.
