(* ===== verification/Pump.v ===== *)
(** * The packet pump, [dataplane/{pump,counters,source}.go]

    The pump joins a TUN device to a set of tunnels: an inbound demux table, the
    outbound route table, per-tunnel counters and drop counters.  The tunnels, the
    sockets and the TUN device are the interface [Tunnels]: one type of tunnel
    handles, one type of outside states, and the methods of [Tunnel] and of its
    optional capabilities as functions on that state.  A pump operation is a
    function on [Pump] in a state monad; what it does to the outside world is
    also recorded in [log], so that theorems can speak of it.

    Here [vnet] only selects how a packet is written; the batched paths of a GSO
    device are in [Gro] and [PumpGso].  The snapshot discipline of [view] is the value semantics
    of the two tables. *)
From Stdlib Require Import ZArith Lia.
From stdpp Require Import base list gmap fin_maps.
From S2P Require Import Prelude Routes Packet Shape.

(** ** Counters, [counters.go] *)

Record TunnelCounters := mkCounters {
  rxPackets : Z; rxBytes : Z; txPackets : Z; txBytes : Z; lastSeenC : Z }.

Definition zeroCounters : TunnelCounters := mkCounters 0 0 0 0 0.

Definition countRx (c : TunnelCounters) (n : nat) (now : Z) : TunnelCounters :=
  mkCounters (wrap 64 (rxPackets c + 1)) (wrap 64 (rxBytes c + Z.of_nat n)) (txPackets c) (txBytes c) now.

Definition countTx (c : TunnelCounters) (n : nat) : TunnelCounters :=
  mkCounters (rxPackets c) (rxBytes c) (wrap 64 (txPackets c + 1)) (wrap 64 (txBytes c + Z.of_nat n)) (lastSeenC c).

(** [LastSeen] is [None] for the zero time. *)
Record TunnelStats := mkStats {
  RxPackets : Z; RxBytes : Z; TxPackets : Z; TxBytes : Z; LastSeen : option Z }.

Definition zeroStats : TunnelStats := mkStats 0 0 0 0 None.

Definition Snapshot (c : TunnelCounters) : TunnelStats :=
  mkStats (rxPackets c) (rxBytes c) (txPackets c) (txBytes c)
    (if lastSeenC c =? 0 then None else Some (lastSeenC c)).

(** [time.Time.After], the zero time being before every [UnixNano] time. *)
Definition After (a b : option Z) : bool :=
  match a, b with
  | Some x, Some y => y <? x
  | Some _, None => true
  | None, _ => false
  end.

Definition add_stats (s o : TunnelStats) : TunnelStats :=
  mkStats (wrap 64 (RxPackets s + RxPackets o)) (wrap 64 (RxBytes s + RxBytes o))
    (wrap 64 (TxPackets s + TxPackets o)) (wrap 64 (TxBytes s + TxBytes o))
    (if After (LastSeen o) (LastSeen s) then LastSeen o else LastSeen s).

Inductive DropReason :=
| DropNoKey | DropUnknownKey | DropDecapFailed | DropNotIP | DropNoRoute
| DropTooBig | DropEncapFailed | DropTUNWrite | DropPacerFull | DropSpoofedSource.

#[export] Instance DropReason_eq_dec : EqDecision DropReason.
Proof. solve_decision. Defined.

(** [net.UDPAddr], the endpoints of the datagram protocols. *)
Record UDPAddr := mkUDPAddr { udpIP : option Addr; udpPort : Z }.

(** What [UDPAddr.String] tells apart. *)
Definition addr_key (a : UDPAddr) : option Addr * Z := (Unmap <$> udpIP a, udpPort a).

(** ** Tunnels *)

Class Tunnels (Tid W Endpoint : Type) := {
  (** the methods of [Tunnel] *)
  InboundKey : Tid -> W -> Z;
  TRoutes : Tid -> W -> list Prefix;
  PeerAddr : Tid -> W -> Endpoint;
  Encapsulate : Tid -> W -> bytes -> option bytes * W;
  Decapsulate : Tid -> W -> bytes -> option bytes * W;
  (** which optional interfaces a tunnel's dynamic type satisfies, and their methods *)
  isMulti : Tid -> bool;
  DecapsulateMulti : Tid -> W -> bytes -> option (list bytes) * W;
  isPaced : Tid -> bool;
  Enqueue : Tid -> W -> bytes -> bool * W;
  StartPacing : Tid -> W -> W;
  StopPacing : Tid -> W -> W;
  isRoamer : Tid -> bool;
  SetPeerAddr : Tid -> W -> Endpoint -> W;
  isPadding : Tid -> bool;
  EncapsulatePadded : Tid -> W -> bytes -> Z -> option bytes * W;
  isAppend : Tid -> bool;
  AppendEncapsulated : Tid -> W -> bytes -> Z -> option bytes * W;
  (** [SourceCheckedTunnel] and the answer of [VerifyInboundSource] *)
  isSourceChecked : Tid -> bool;
  VerifyInboundSource : Tid -> W -> bool;
  (** the TUN device (true: no error) and the transport *)
  tunWrite : W -> bytes -> bool * W;
  vnetWrite : W -> bytes -> bool * W;
  vnetWriteGSO : W -> bytes -> bytes -> bool * W;
  sendTo : W -> bytes -> Endpoint -> W;
}.

(** [SPIDemux]. *)
Definition SPIDemux (pkt : bytes) : option Z :=
  if (length pkt <? 4)%nat then None else Some (be_dec (slice pkt 0 4)).

Section Pump.
Context {Tid W Endpoint : Type} {ED : EqDecision Tid} {CT : Countable Tid} {TI : Tunnels Tid W Endpoint}.

(** [bound]; the counters are a pointer into the heap of counter blocks.  The
    zero [bound], whose tunnel is nil, is [None] where the tables hold one. *)
Record bound := mkBound {
  bt : Tid; bc : nat;
  multi : bool; paced : bool; roams : bool; pads : bool; appender : bool;
  srcRoutes : option (list Prefix) }.

Inductive event :=
| EvTun (pkt : bytes) (ok : bool)
| EvGSO (hdr frame : bytes) (ok : bool)
| EvSend (pkt : bytes) (to : Endpoint)
| EvQueued (t : Tid) (pkt : bytes)
| EvRoam (t : Tid) (from : Endpoint).

Record Pump := mkPump {
  demux : bytes -> option Z;
  vnet : bool;
  shaper : option Shaper;
  lastInbound : Z;
  drops : DropReason -> Z;
  retired : TunnelStats;
  byKey : gmap Z bound;
  routes : routeTable (option bound);
  stats : gmap Tid nat;
  heap : gmap nat TunnelCounters;
  mtu : Z;
  closing : bool;
  world : W;
  log : list event }.

(** ** The state monad of pump operations *)

Definition M (A : Type) : Type := Pump -> A * Pump.

#[global] Instance M_ret : MRet M := fun A a p => (a, p).
#[global] Instance M_bind : MBind M := fun A B f m p => let '(a, p') := m p in f a p'.

Definition get : M Pump := fun p => (p, p).
Definition put (p : Pump) : M unit := fun _ => ((), p).

Definition upd_world (w : W) (p : Pump) : Pump :=
  mkPump (demux p) (vnet p) (shaper p) (lastInbound p) (drops p) (retired p) (byKey p) (routes p)
    (stats p) (heap p) (mtu p) (closing p) w (log p).
Definition upd_log (e : event) (p : Pump) : Pump :=
  mkPump (demux p) (vnet p) (shaper p) (lastInbound p) (drops p) (retired p) (byKey p) (routes p)
    (stats p) (heap p) (mtu p) (closing p) (world p) (log p ++ [e]).
Definition upd_drops (r : DropReason) (p : Pump) : Pump :=
  mkPump (demux p) (vnet p) (shaper p) (lastInbound p)
    (fun r' => if decide (r' = r) then wrap 64 (drops p r' + 1) else drops p r')
    (retired p) (byKey p) (routes p) (stats p) (heap p) (mtu p) (closing p) (world p) (log p).
Definition upd_shaper (s : option Shaper) (p : Pump) : Pump :=
  mkPump (demux p) (vnet p) s (lastInbound p) (drops p) (retired p) (byKey p) (routes p)
    (stats p) (heap p) (mtu p) (closing p) (world p) (log p).
Definition upd_last (now : Z) (p : Pump) : Pump :=
  mkPump (demux p) (vnet p) (shaper p) now (drops p) (retired p) (byKey p) (routes p)
    (stats p) (heap p) (mtu p) (closing p) (world p) (log p).
Definition upd_heap (h : gmap nat TunnelCounters) (p : Pump) : Pump :=
  mkPump (demux p) (vnet p) (shaper p) (lastInbound p) (drops p) (retired p) (byKey p) (routes p)
    (stats p) h (mtu p) (closing p) (world p) (log p).
Definition upd_stats (s : gmap Tid nat) (r : TunnelStats) (p : Pump) : Pump :=
  mkPump (demux p) (vnet p) (shaper p) (lastInbound p) (drops p) r (byKey p) (routes p)
    s (heap p) (mtu p) (closing p) (world p) (log p).
Definition publish (k : gmap Z bound) (rt : routeTable (option bound)) (p : Pump) : Pump :=
  mkPump (demux p) (vnet p) (shaper p) (lastInbound p) (drops p) (retired p) k rt
    (stats p) (heap p) (mtu p) (closing p) (world p) (log p).
Definition SetInnerMTU (n : Z) (p : Pump) : Pump :=
  mkPump (demux p) (vnet p) (shaper p) (lastInbound p) (drops p) (retired p) (byKey p) (routes p)
    (stats p) (heap p) n (closing p) (world p) (log p).
Definition Close (p : Pump) : Pump :=
  mkPump (demux p) (vnet p) (shaper p) (lastInbound p) (drops p) (retired p) (byKey p) (routes p)
    (stats p) (heap p) (mtu p) true (world p) (log p).

Definition modify (f : Pump -> Pump) : M unit := fun p => ((), f p).

(** An outside call. *)
Definition outside {A} (f : W -> A * W) : M A :=
  fun p => let '(a, w) := f (world p) in (a, upd_world w p).

Definition drop_as (r : DropReason) : M unit := modify (upd_drops r).
Definition emit (e : event) : M unit := modify (upd_log e).

Definition countAt (c : nat) (f : TunnelCounters -> TunnelCounters) : M unit :=
  modify (fun p => upd_heap (alter f c (heap p)) p).

(** Runs the monadic plumbing of a goal. *)
Ltac msimpl :=
  unfold mbind, mret, M_bind, M_ret, get, modify, outside, drop_as, emit, countAt; cbn.

(** ** Registration *)

Definition NewPump (dm : option (bytes -> option Z)) (isGSO : bool) (now : Z) (w : W) : Pump :=
  mkPump (default SPIDemux dm) isGSO None now (fun _ => 0) zeroStats ∅ emptyTable ∅ ∅ 0 false w [].

Definition SetShaper (s : option Shaper) : M unit := modify (upd_shaper s).

(** [counters]: the tunnel's counter block, allocated on first registration. *)
Definition counters (t : Tid) : M nat :=
  p ← get;
  match stats p !! t with
  | Some c => mret c
  | None =>
      let c := fresh (dom (heap p)) in
      modify (fun p => upd_stats (<[t := c]> (stats p)) (retired p) (upd_heap (<[c := zeroCounters]> (heap p)) p));;
      mret c
  end.

Definition bind (t : Tid) (c : nat) (w : W) : bound :=
  mkBound t c (isMulti t) (isPaced t) (isRoamer t) (isPadding t) (isAppend t)
    (if isSourceChecked t && VerifyInboundSource t w then Some (TRoutes t w) else None).

Definition owner (b : option bound) : option Tid := bt <$> b.

Definition AddTunnel (t : Tid) : M unit :=
  c ← counters t;
  p ← get;
  let b := bind t c (world p) in
  let k := <[InboundKey t (world p) := b]> (byKey p) in
  let rt := fold_left (fun rt r => insert None rt r (Some b)) (TRoutes t (world p)) (routes p) in
  modify (publish k rt);;
  if isPaced t then outside (fun w => ((), StartPacing t w)) else mret ().

Definition RemoveTunnel (t : Tid) : M unit :=
  p ← get;
  let k := filter (fun kv : Z * bound => bt kv.2 <> t) (byKey p) in
  let rt := fold_left (fun rt r => removeOwned None owner rt r (Some t)) (TRoutes t (world p)) (routes p) in
  modify (publish k rt);;
  match stats p !! t with
  | Some c =>
      modify (upd_stats (delete t (stats p)) (add_stats (retired p) (Snapshot (default zeroCounters (heap p !! c)))))
  | None => mret ()
  end;;
  if isPaced t then outside (fun w => ((), StopPacing t w)) else mret ().

Definition AddInboundKey (key : Z) (t : Tid) : M unit :=
  c ← counters t;
  p ← get;
  modify (publish (<[key := bind t c (world p)]> (byKey p)) (routes p)).

Definition RemoveInboundKey (key : Z) : M unit :=
  p ← get;
  modify (publish (delete key (byKey p)) (routes p)).

(** ** Inbound *)

Definition writeTUN (pkt : bytes) : M bool :=
  p ← get;
  ok ← outside (fun w => if vnet p then vnetWrite w pkt else tunWrite w pkt);
  emit (EvTun pkt ok);;
  mret ok.

(** [v] is the demux half of the snapshot the caller loaded. *)
Definition lookupInbound (v : gmap Z bound) (pkt : bytes) : M (option (bound * Z)) :=
  p ← get;
  match demux p pkt with
  | None => drop_as DropNoKey;; mret None
  | Some key =>
      match v !! key with
      | None => drop_as DropUnknownKey;; mret None
      | Some b => mret (Some (b, key))
      end
  end.

(** A nil source is [None]. *)
Definition roam (b : bound) (from : option Endpoint) : M unit :=
  match from with
  | Some a =>
      if roams b
      then outside (fun w => ((), SetPeerAddr (bt b) w a));; emit (EvRoam (bt b) a)
      else mret ()
  | None => mret ()
  end.

Definition sourceOK (b : bound) (inner : bytes) : M bool :=
  match srcRoutes b with
  | None => mret true
  | Some rs => if SourceWithin inner rs then mret true else drop_as DropSpoofedSource;; mret false
  end.

Definition decapInbound (b : bound) (pkt : bytes) (from : option Endpoint) (now : Z) : M (option bytes) :=
  r ← outside (fun w => Decapsulate (bt b) w pkt);
  match r with
  | None => drop_as DropDecapFailed;; mret None
  | Some inner =>
      roam b from;;
      modify (upd_last now);;
      if (length inner =? 0)%nat then countAt (bc b) (fun c => countRx c 0 now);; mret None
      else
        ok ← sourceOK b inner;
        mret (if ok : bool then Some inner else None)
  end.

Definition decapMulti (b : bound) (pkt : bytes) (from : option Endpoint) (now : Z) : M (option (list bytes)) :=
  r ← outside (fun w => DecapsulateMulti (bt b) w pkt);
  match r with
  | None => drop_as DropDecapFailed;; mret None
  | Some inners => roam b from;; modify (upd_last now);; mret (Some inners)
  end.

Fixpoint deliver_multi (b : bound) (inners : list bytes) (now : Z) : M unit :=
  match inners with
  | [] => mret ()
  | inner :: inners =>
      if (length inner =? 0)%nat then deliver_multi b inners now
      else
        ok ← sourceOK b inner;
        if ok : bool then
          countAt (bc b) (fun c => countRx c (length inner) now);;
          ok ← writeTUN inner;
          if ok : bool then deliver_multi b inners now else drop_as DropTUNWrite
        else deliver_multi b inners now
  end.

Definition handleInboundMulti (b : bound) (pkt : bytes) (from : option Endpoint) (now : Z) : M unit :=
  r ← decapMulti b pkt from now;
  match r with
  | None => mret ()
  | Some inners => deliver_multi b inners now
  end.

Definition handleInbound (v : gmap Z bound) (pkt : bytes) (from : option Endpoint) (now : Z) : M unit :=
  r ← lookupInbound v pkt;
  match r with
  | None => mret ()
  | Some (b, _) =>
      if multi b then handleInboundMulti b pkt from now
      else
        r ← decapInbound b pkt from now;
        match r with
        | None => mret ()
        | Some inner =>
            countAt (bc b) (fun c => countRx c (length inner) now);;
            ok ← writeTUN inner;
            if ok : bool then mret () else drop_as DropTUNWrite
        end
  end.

Definition HandleInbound (pkt : bytes) (from : option Endpoint) (now : Z) : M unit :=
  p ← get;
  handleInbound (byKey p) pkt from now.

Fixpoint inbound_batch (v : gmap Z bound) (pkts : list (bytes * option Endpoint)) (now : Z) : M unit :=
  match pkts with
  | [] => mret ()
  | (pkt, from) :: pkts => handleInbound v pkt from now;; inbound_batch v pkts now
  end.

(** ** Outbound *)

Definition encap (b : bound) (pkt : bytes) (m now : Z) : M (option bytes) :=
  p ← get;
  let '(target, s) := Target_ptr (shaper p) pkt m now in
  modify (upd_shaper s);;
  if appender b then outside (fun w => AppendEncapsulated (bt b) w pkt target)
  else if (0 <? target) && pads b then outside (fun w => EncapsulatePadded (bt b) w pkt target)
  else outside (fun w => Encapsulate (bt b) w pkt).

Definition routeOutbound (pkt : bytes) (now : Z) : M unit :=
  match innerDest pkt with
  | None => drop_as DropNotIP
  | Some dst =>
      p ← get;
      match lookup None (routes p) dst with
      | None => drop_as DropNoRoute
      | Some b =>
          let m := mtu p in
          if (0 <? m) && NeedsFragmentation pkt m then
            drop_as DropTooBig;;
            match FragNeeded pkt m with
            | Some reply => writeTUN reply;; mret ()
            | None => mret ()
            end
          else if paced b then
            ok ← outside (fun w => Enqueue (bt b) w pkt);
            if ok : bool then
              emit (EvQueued (bt b) pkt);; countAt (bc b) (fun c => countTx c (length pkt))
            else drop_as DropPacerFull
          else
            r ← encap b pkt m now;
            match r with
            | None => drop_as DropEncapFailed
            | Some out =>
                countAt (bc b) (fun c => countTx c (length pkt));;
                p ← get;
                let to := PeerAddr (bt b) (world p) in
                outside (fun w => ((), sendTo w out to));;
                emit (EvSend out to)
            end
      end
  end.

(** ** Statistics *)

Definition stats_of (p : Pump) (c : nat) : TunnelStats := Snapshot (default zeroCounters (heap p !! c)).

Definition Total (p : Pump) : TunnelStats :=
  map_fold (fun _ c acc => add_stats acc (stats_of p c)) (retired p) (stats p).

Definition Stats (p : Pump) : TunnelStats * nat * (DropReason -> Z) := (Total p, size (stats p), drops p).

Definition TunnelStatsOf (p : Pump) (t : Tid) : option TunnelStats := stats_of p <$> stats p !! t.

(** [time.Since], which saturates. *)
Definition IdleFor (p : Pump) (now : Z) : Z := time_sub now (lastInbound p).

(** ** Outbound: every packet is accounted for *)

(** The packet was dropped for reason [r]: that counter alone moved, and nothing
    was sent or queued. *)
Definition dropped (r : DropReason) (p p' : Pump) : Prop :=
  drops p' = drops (upd_drops r p) /\ heap p' = heap p /\
  exists es, log p' = log p ++ es /\ Forall (fun e => match e with EvTun _ _ => True | _ => False end) es.

(** The packet left through [b]: one datagram sent or one packet queued, and
    [b]'s transmit counters moved by one packet and its length. *)
Definition carried (b : bound) (pkt : bytes) (p p' : Pump) : Prop :=
  drops p' = drops p /\ heap p' = alter (fun c => countTx c (length pkt)) (bc b) (heap p) /\
  exists e, log p' = log p ++ [e] /\
    (paced b = true /\ e = EvQueued (bt b) pkt \/ paced b = false /\ exists out to, e = EvSend out to).

Definition tables_kept (p p' : Pump) : Prop :=
  byKey p' = byKey p /\ routes p' = routes p /\ stats p' = stats p /\ retired p' = retired p.

Lemma encap_frame b pkt m now p :
  let p' := (encap b pkt m now p).2 in
  drops p' = drops p /\ heap p' = heap p /\ log p' = log p /\ tables_kept p p'.
Proof.
  unfold encap, tables_kept. msimpl. destruct (Target_ptr (shaper p) pkt m now) as [target s]. cbn.
  destruct (appender b); [|destruct ((0 <? target) && pads b)]; cbn; by case_match.
Qed.

Lemma dropped_quietly r p : dropped r p (upd_drops r p).
Proof. split_and!; [done|done|]. exists []. by rewrite app_nil_r. Qed.

(** Every outbound packet is accounted for exactly once.  A packet with no
    destination or no route is dropped under that reason; otherwise it goes to
    the tunnel whose route matches its destination most specifically and is
    either carried, with that tunnel's transmit counters moved, or dropped as too
    big, refused by the pacer or failed to encapsulate.  The tables never move. *)
Theorem routeOutbound_accounts (pkt : bytes) (now : Z) (p : Pump) :
  let p' := (routeOutbound pkt now p).2 in
  tables_kept p p' /\
  match innerDest pkt with
  | None => dropped DropNotIP p p'
  | Some dst =>
      match lookup None (routes p) dst with
      | None => dropped DropNoRoute p p'
      | Some b =>
          if (0 <? mtu p) && NeedsFragmentation pkt (mtu p) then dropped DropTooBig p p'
          else carried b pkt p p' \/ dropped (if paced b then DropPacerFull else DropEncapFailed) p p'
      end
  end.
Proof.
  unfold routeOutbound. destruct (innerDest pkt) as [dst|]; [|split; [done|apply dropped_quietly]].
  msimpl. destruct (lookup None (routes p) dst) as [b|]; [|split; [done|apply dropped_quietly]].
  destruct ((0 <? mtu p) && NeedsFragmentation pkt (mtu p)).
  - destruct (FragNeeded pkt (mtu p)) as [reply|]; [|split; [done|apply dropped_quietly]].
    unfold writeTUN. msimpl. destruct (if vnet p then vnetWrite (world p) reply else tunWrite (world p) reply) as [ok w].
    cbn. split; [done|]. split_and!; [done|done|]. exists [EvTun reply ok]. split; [done|]. by repeat constructor.
  - destruct (paced b) eqn:Ep.
    + destruct (Enqueue (bt b) (world p) pkt) as [[] w]; cbn; (split; [done|]).
      * left. split_and!; [done|done|]. eexists. split; [done|]. by left.
      * right. split_and!; [done|done|]. exists []. by rewrite app_nil_r.
    + pose proof (encap_frame b pkt (mtu p) now p) as (Hd & Hh & Hl & Ht). cbn zeta in *.
      destruct (encap b pkt (mtu p) now p) as [[out|] p1]; cbn in *; (split; [done|]).
      * left. unfold carried. cbn. rewrite Hd, Hh, Hl. split_and!; [done|done|].
        eexists. split; [done|]. right. eauto.
      * right. unfold dropped. cbn. rewrite Hd, Hh, Hl. split_and!; [done|done|].
        exists []. by rewrite app_nil_r.
Qed.

(** ** Inbound: only authenticated datagrams act *)

(** The datagram's key names [b] in the snapshot. *)
Definition resolves (v : gmap Z bound) (p : Pump) (pkt : bytes) (b : bound) : Prop :=
  exists key, demux p pkt = Some key /\ v !! key = Some b.

(** [b]'s keys opened the datagram, yielding these inner packets. *)
Definition opened (b : bound) (w : W) (pkt : bytes) (inners : list bytes) : Prop :=
  if multi b then (DecapsulateMulti (bt b) w pkt).1 = Some inners
  else exists inner, (Decapsulate (bt b) w pkt).1 = Some inner /\ inners = [inner].

(** The source address of [inner] lies in a route of [b], when [b] asked for the check. *)
Definition source_allowed (b : bound) (inner : bytes) : Prop :=
  forall rs, srcRoutes b = Some rs ->
    exists src r, InnerSource inner = Some src /\ r ∈ rs /\ Contains r src.

(** What an outside effect of an inbound datagram may be. *)
Definition inbound_effect (b : bound) (inners : list bytes) (from : option Endpoint) (e : event) : Prop :=
  match e with
  | EvRoam t a => t = bt b /\ roams b = true /\ from = Some a
  | EvTun inner _ => inner ∈ inners /\ inner <> [] /\ source_allowed b inner
  | _ => False
  end.

Lemma SourceWithin_spec pkt rs :
  SourceWithin pkt rs = true -> exists src r, InnerSource pkt = Some src /\ r ∈ rs /\ Contains r src.
Proof.
  unfold SourceWithin. destruct (InnerSource pkt) as [src|]; [|done]. intros H.
  apply existsb_exists in H as (r & Hr & Hc). apply bool_decide_eq_true in Hc.
  exists src, r. split_and!; [done|by apply list_elem_of_In|done].
Qed.

(** [p'] differs from [p] by allowed effects only. *)
Definition inbound_ok (b : bound) (inners : list bytes) (from : option Endpoint) (p p' : Pump) : Prop :=
  tables_kept p p' /\ lastInbound p' = lastInbound p /\
  exists es, log p' = log p ++ es /\ Forall (inbound_effect b inners from) es.

Lemma inbound_ok_refl b inners from p : inbound_ok b inners from p p.
Proof. split_and!; [done|done|]. exists []. by rewrite app_nil_r. Qed.

Lemma inbound_ok_trans b inners from p1 p2 p3 :
  inbound_ok b inners from p1 p2 -> inbound_ok b inners from p2 p3 -> inbound_ok b inners from p1 p3.
Proof.
  intros [(? & ? & ? & ?) (? & e1 & L1 & F1)] [(? & ? & ? & ?) (? & e2 & L2 & F2)].
  split; [split_and!; congruence|]. split; [congruence|]. exists (e1 ++ e2). rewrite L2, L1, app_assoc. split; [done|]. by apply Forall_app.
Qed.

(** A step that logs nothing and keeps the tables. *)
Lemma inbound_ok_silent b inners from p p' :
  tables_kept p p' -> lastInbound p' = lastInbound p -> log p' = log p -> inbound_ok b inners from p p'.
Proof. intros Ht Hi Hl. split_and!; [done|done|]. exists []. by rewrite app_nil_r. Qed.

Lemma inbound_ok_last b inners from now p p' :
  inbound_ok b inners from p p' -> inbound_ok b inners from (upd_last now p) (upd_last now p').
Proof. intros (Ht & _ & He). by split_and!. Qed.

Lemma writeTUN_ok b inners from inner p :
  inner ∈ inners -> inner <> [] -> source_allowed b inner -> inbound_ok b inners from p (writeTUN inner p).2.
Proof.
  intros. unfold writeTUN. msimpl.
  destruct (if vnet p then vnetWrite (world p) inner else tunWrite (world p) inner) as [ok w]. cbn.
  split_and!; [done|done|]. exists [EvTun inner ok]. split; [done|]. by repeat constructor.
Qed.

Lemma roam_ok b inners from p : inbound_ok b inners from p (roam b from p).2.
Proof.
  unfold roam. destruct from as [a|]; [|apply inbound_ok_refl].
  destruct (roams b) eqn:E; [|apply inbound_ok_refl]. msimpl.
  split_and!; [done|done|]. exists [EvRoam (bt b) a]. split; [done|]. by repeat constructor.
Qed.

Lemma sourceOK_ok b inners from inner p :
  inbound_ok b inners from p (sourceOK b inner p).2 /\
  ((sourceOK b inner p).1 = true -> source_allowed b inner).
Proof.
  unfold sourceOK, source_allowed. destruct (srcRoutes b) as [rs|].
  - destruct (SourceWithin inner rs) eqn:E; msimpl.
    + split; [apply inbound_ok_refl|]. intros _ ? [= <-]. by apply SourceWithin_spec.
    + split; [by apply inbound_ok_silent|done].
  - msimpl. split; [apply inbound_ok_refl|]. by intros.
Qed.

Lemma deliver_multi_ok b from all inners now p :
  (forall x, x ∈ inners -> x ∈ all) -> inbound_ok b all from p (deliver_multi b inners now p).2.
Proof.
  revert p. induction inners as [|inner inners IH]; intros p Hin; [apply inbound_ok_refl|]. cbn [deliver_multi].
  destruct (length inner =? 0)%nat eqn:El; [apply IH; set_solver|]. apply Nat.eqb_neq in El.
  pose proof (sourceOK_ok b all from inner p) as [H1 H2]. msimpl.
  destruct (sourceOK b inner p) as [[] p1]; cbn in *; [|eapply inbound_ok_trans; [done|]; apply IH; set_solver].
  set (p2 := upd_heap _ p1). assert (inbound_ok b all from p1 p2) as H12 by (by apply inbound_ok_silent).
  pose proof (writeTUN_ok b all from inner p2) as H3. destruct (writeTUN inner p2) as [[] p3]; cbn in *.
  all: specialize (H3 ltac:(set_solver) ltac:(by destruct inner) (H2 eq_refl)).
  all: apply (inbound_ok_trans _ _ _ _ _ _ H1), (inbound_ok_trans _ _ _ _ _ _ H12), (inbound_ok_trans _ _ _ _ _ _ H3).
  - apply IH. set_solver.
  - by apply inbound_ok_silent.
Qed.

(** What follows a successful opening, up to the clock being set. *)
Lemma opened_ok b inners from now w p :
  inbound_ok b inners from (upd_last now p) (upd_last now (roam b from (upd_world w p)).2).
Proof.
  apply (inbound_ok_trans _ _ _ _ (upd_last now (upd_world w p))); [by apply inbound_ok_silent|].
  apply inbound_ok_last, roam_ok.
Qed.

Lemma handleInboundMulti_ok b pkt from now p inners w :
  DecapsulateMulti (bt b) (world p) pkt = (Some inners, w) ->
  inbound_ok b inners from (upd_last now p) (handleInboundMulti b pkt from now p).2.
Proof.
  intros E. unfold handleInboundMulti, decapMulti. msimpl. rewrite E. pose proof (opened_ok b inners from now w p) as H.
  destruct (roam b from (upd_world w p)) as [[] p1]. cbn in *.
  apply (inbound_ok_trans _ _ _ _ _ _ H). by apply deliver_multi_ok.
Qed.

(** The rest of [handleInbound] for a tunnel with one packet per datagram. *)
Definition handleSingle (b : bound) (pkt : bytes) (from : option Endpoint) (now : Z) : M unit :=
  r ← decapInbound b pkt from now;
  match r with
  | None => mret ()
  | Some inner =>
      countAt (bc b) (fun c => countRx c (length inner) now);;
      ok ← writeTUN inner;
      if ok : bool then mret () else drop_as DropTUNWrite
  end.

Lemma handleSingle_ok b pkt from now p inner w :
  Decapsulate (bt b) (world p) pkt = (Some inner, w) ->
  inbound_ok b [inner] from (upd_last now p) (handleSingle b pkt from now p).2.
Proof.
  intros E. unfold handleSingle, decapInbound. msimpl. rewrite E. pose proof (opened_ok b [inner] from now w p) as H.
  destruct (roam b from (upd_world w p)) as [[] p1]. cbn in *.
  destruct (length inner =? 0)%nat eqn:El.
  { cbn. apply (inbound_ok_trans _ _ _ _ _ _ H). by apply inbound_ok_silent. }
  apply Nat.eqb_neq in El. cbn.
  pose proof (sourceOK_ok b [inner] from inner (upd_last now p1)) as [H1 H2].
  destruct (sourceOK b inner (upd_last now p1)) as [[] p2]; cbn in *;
    apply (inbound_ok_trans _ _ _ _ _ _ H); [|done]. apply (inbound_ok_trans _ _ _ _ _ _ H1).
  set (p3 := upd_heap _ p2). assert (inbound_ok b [inner] from p2 p3) as H23 by (by apply inbound_ok_silent).
  apply (inbound_ok_trans _ _ _ _ _ _ H23).
  pose proof (writeTUN_ok b [inner] from inner p3 ltac:(set_solver) ltac:(by destruct inner) (H2 eq_refl)) as H3.
  destruct (writeTUN inner p3) as [[] p4]; cbn in *; [done|].
  apply (inbound_ok_trans _ _ _ _ _ _ H3). by apply inbound_ok_silent.
Qed.

(** C20: an inbound datagram acts only once it has authenticated.  Either nothing
    reaches the TUN, no return address, liveness clock or counter moves, and
    exactly one drop counter rises; or the key names a registered tunnel whose
    keys opened the datagram, and then the clock is set, the return address can
    only move to the datagram's own source, and every packet written to the TUN
    is a non-empty packet the tunnel produced, whose source address is one of the
    tunnel's own when the tunnel asked for that check. *)
Theorem handleInbound_authenticated (v : gmap Z bound) (pkt : bytes) (from : option Endpoint) (now : Z) (p : Pump) :
  let p' := (handleInbound v pkt from now p).2 in
  (log p' = log p /\ lastInbound p' = lastInbound p /\ heap p' = heap p /\ tables_kept p p' /\
   exists r, r ∈ [DropNoKey; DropUnknownKey; DropDecapFailed] /\ drops p' = drops (upd_drops r p)) \/
  (exists b inners, resolves v p pkt b /\ opened b (world p) pkt inners /\
     inbound_ok b inners from (upd_last now p) p').
Proof.
  cbn zeta. unfold handleInbound, lookupInbound. msimpl. destruct (demux p pkt) as [key|] eqn:Ek.
  2: { left. split_and!; try done. exists DropNoKey. split; [set_solver|done]. }
  destruct (v !! key) as [b|] eqn:Eb.
  2: { left. split_and!; try done. exists DropUnknownKey. split; [set_solver|done]. }
  cbn. assert (Hr : resolves v p pkt b) by (by exists key). destruct (multi b) eqn:Em.
  - destruct (DecapsulateMulti (bt b) (world p) pkt) as [[inners|] w] eqn:Ed.
    + right. exists b, inners. unfold opened. rewrite Em, Ed. split_and!; [done|done|].
      by eapply handleInboundMulti_ok.
    + left. unfold handleInboundMulti, decapMulti. msimpl. rewrite Ed. cbn. split_and!; try done.
      exists DropDecapFailed. split; [set_solver|done].
  - change (let '(a, p') := decapInbound b pkt from now p in _) with (handleSingle b pkt from now p).
    destruct (Decapsulate (bt b) (world p) pkt) as [[inner|] w] eqn:Ed.
    + right. exists b, [inner]. unfold opened. rewrite Em, Ed. split_and!; [done|by exists inner|].
      by eapply handleSingle_ok.
    + left. unfold handleSingle, decapInbound. msimpl. rewrite Ed. cbn. split_and!; try done.
      exists DropDecapFailed. split; [set_solver|done].
Qed.

(** ** Registration: make before break *)

Abbreviation table := (routeTable (option bound)).

Lemma installed_fold_insert (rs : list Prefix) (v : option bound) (t : table) q :
  Forall prefix_ok rs -> prefix_ok q ->
  installed (fold_left (fun t r => insert None t r v) rs t) q =
    if decide (Exists (fun r => Masked r = Masked q) rs) then Some v else installed t q.
Proof.
  intros Hrs Hq. revert t. induction Hrs as [|r rs Hr Hrs IH]; intros t; cbn [fold_left].
  { rewrite decide_False; [done|]. intros E. by apply Exists_nil in E. }
  rewrite IH, installed_insert by done.
  repeat case_decide; try done; exfalso; rewrite Exists_cons in *; tauto.
Qed.

Lemma installed_fold_removeOwned (rs : list Prefix) (o : option Tid) (t : table) q :
  Forall prefix_ok rs -> prefix_ok q ->
  installed (fold_left (fun t r => removeOwned None owner t r o) rs t) q =
    if decide (Exists (fun r => Masked r = Masked q) rs /\ owner <$> installed t q = Some o) then None
    else installed t q.
Proof.
  intros Hrs Hq. revert t. induction Hrs as [|r rs Hr Hrs IH]; intros t; cbn [fold_left].
  { rewrite decide_False; [done|]. intros [E _]. by apply Exists_nil in E. }
  rewrite IH, !installed_removeOwned by done.
  assert (Masked r = Masked q -> installed t r = installed t q) as Hrq by apply installed_Masked.
  destruct (decide (Masked r = Masked q)) as [E|E].
  - rewrite Hrq by done.
    repeat case_decide; try done; exfalso; rewrite Exists_cons in *; simpl in *; intuition congruence.
  - rewrite (decide_False (P := Masked r = Masked q /\ _)) by tauto.
    repeat case_decide; try done; exfalso; rewrite Exists_cons in *; tauto.
Qed.

(** The registration operations. *)
Inductive reg_op :=
| RegAdd (t : Tid)
| RegRemove (t : Tid)
| RegKey (key : Z) (t : Tid)
| RegDropKey (key : Z).

Definition run_reg (p : Pump) (o : reg_op) : Pump :=
  (match o with
   | RegAdd t => AddTunnel t
   | RegRemove t => RemoveTunnel t
   | RegKey key t => AddInboundKey key t
   | RegDropKey key => RemoveInboundKey key
   end p).2.

(** The tables an operation leaves behind. *)
Lemma AddTunnel_tables t p :
  let p' := (AddTunnel t p).2 in
  exists c, byKey p' = <[InboundKey t (world p) := bind t c (world p)]> (byKey p) /\
    routes p' = fold_left (fun rt r => insert None rt r (Some (bind t c (world p)))) (TRoutes t (world p)) (routes p).
Proof.
  unfold AddTunnel, counters. msimpl.
  destruct (stats p !! t) as [c|]; [exists c|eexists]; cbn; by destruct (isPaced t).
Qed.

Lemma RemoveTunnel_tables t p :
  let p' := (RemoveTunnel t p).2 in
  byKey p' = filter (fun kv : Z * bound => bt kv.2 <> t) (byKey p) /\
  routes p' = fold_left (fun rt r => removeOwned None owner rt r (Some t)) (TRoutes t (world p)) (routes p).
Proof. unfold RemoveTunnel. msimpl. destruct (stats p !! t), (isPaced t); done. Qed.

Lemma key_tables key t p :
  routes (AddInboundKey key t p).2 = routes p /\ routes (RemoveInboundKey key p).2 = routes p.
Proof. unfold AddInboundKey, RemoveInboundKey, counters. msimpl. by destruct (stats p !! t). Qed.

Section Stable.
(** A tunnel's routes are well-formed and do not change while it is registered. *)
Context (Routes : Tid -> list Prefix) (Hroutes : forall t w, TRoutes t w = Routes t)
  (Hok : forall t, Forall prefix_ok (Routes t)).

(** Every installed route was claimed by the tunnel it points at. *)
Definition routes_claimed (p : Pump) : Prop :=
  forall q b, prefix_ok q -> installed (routes p) q = Some (Some b) ->
    Exists (fun r => Masked r = Masked q) (Routes (bt b)).

Lemma run_reg_claimed p o : routes_claimed p -> routes_claimed (run_reg p o).
Proof.
  intros Hc q b Hq. destruct o as [t|t|key t|key]; unfold run_reg.
  - destruct (AddTunnel_tables t p) as (c & _ & ->). rewrite Hroutes, installed_fold_insert by done.
    case_decide as D; [|by apply Hc]. intros [= <-]. done.
  - destruct (RemoveTunnel_tables t p) as [_ ->]. rewrite Hroutes, installed_fold_removeOwned by done.
    case_decide; [done|by apply Hc].
  - rewrite (proj1 (key_tables key t p)). by apply Hc.
  - rewrite (proj2 (key_tables key (bt b) p)). by apply Hc.
Qed.

Lemma reachable_claimed os dm g now w : routes_claimed (fold_left run_reg os (NewPump dm g now w)).
Proof.
  assert (forall p, routes_claimed p -> routes_claimed (fold_left run_reg os p)) as H.
  { induction os as [|o os IH]; intros p Hp; [done|]. simpl. by apply IH, run_reg_claimed. }
  apply H. intros q b _. cbn. by rewrite installed_empty.
Qed.

(** Make before break.  In any state the registration operations reach,
    registering a replacement tunnel and then retiring the old one leaves every
    route of the replacement pointing at it; no inbound key and no destination
    leads to the retired tunnel any more, and the keys of other tunnels stay. *)
Theorem make_before_break os dm g now w (old new : Tid) :
  old <> new ->
  let p := fold_left run_reg os (NewPump dm g now w) in
  let p1 := (AddTunnel new p).2 in
  let p2 := (RemoveTunnel old p1).2 in
  (forall r, r ∈ Routes new -> exists b, installed (routes p2) r = Some (Some b) /\ bt b = new) /\
  (forall a b, addr_ok a -> lookup None (routes p2) a = Some b -> bt b <> old) /\
  (forall key b, byKey p2 !! key = Some b <-> byKey p1 !! key = Some b /\ bt b <> old).
Proof.
  intros Hne p p1 p2. pose proof (reachable_claimed os dm g now w) as Hc. fold p in Hc.
  assert (routes_claimed p1) as Hc1 by (apply (run_reg_claimed p (RegAdd new) Hc)).
  destruct (RemoveTunnel_tables old p1) as [Ek Er]. fold p2 in Ek, Er. rewrite Hroutes in Er. split_and!.
  - intros r Hr. assert (prefix_ok r) as Hrok by (eapply Forall_forall in Hr; [|apply (Hok new)]; done).
    destruct (AddTunnel_tables new p) as (c & _ & E1). fold p1 in E1.
    assert (installed (routes p1) r = Some (Some (bind new c (world p)))) as Hi.
    { rewrite E1, Hroutes, installed_fold_insert, decide_True by (try done; apply Exists_exists; eauto). done. }
    exists (bind new c (world p)). split; [|done]. rewrite Er, installed_fold_removeOwned by done.
    rewrite decide_False; [done|]. rewrite Hi. cbn. intros [_ [= ?]]. congruence.
  - intros a b Ha Hl Hb. destruct (lookup_lpm None (routes p2) a Ha) as [[E _]|(q & Hq & _ & Hi & _)]; [congruence|].
    rewrite Hl in Hi. rewrite Er, installed_fold_removeOwned in Hi by done. case_decide as D; [done|].
    apply D. split; [|by rewrite Hi; cbn; rewrite Hb]. rewrite <- Hb. by apply Hc1.
  - intros key b. rewrite Ek, map_lookup_filter_Some. done.
Qed.
End Stable.

(** ** Totals never go down when a tunnel leaves *)

Lemma wrap_add_comm3 a x y : wrap 64 (wrap 64 (a + x) + y) = wrap 64 (wrap 64 (a + y) + x).
Proof. unfold wrap. rewrite !Zplus_mod_idemp_l. f_equal. lia. Qed.

Lemma add_stats_comm a x y : add_stats (add_stats a x) y = add_stats (add_stats a y) x.
Proof.
  unfold add_stats. cbn. f_equal; try apply wrap_add_comm3.
  destruct (LastSeen a) as [la|], (LastSeen x) as [lx|], (LastSeen y) as [ly|]; cbn; try done;
    repeat match goal with |- context [?u <? ?v] => destruct (Z.ltb_spec u v); cbn; try done end;
    try (exfalso; lia); f_equal; lia.
Qed.

(** Retiring a tunnel keeps the pump-wide totals: its counts move from the
    live counters to the retired total, whatever else is registered. *)
Theorem RemoveTunnel_keeps_total (t : Tid) (p : Pump) : Total (RemoveTunnel t p).2 = Total p.
Proof.
  unfold RemoveTunnel. msimpl. destruct (stats p !! t) as [c|] eqn:E; [|by destruct (isPaced t)].
  assert (forall q, heap q = heap p ->
    stats q = delete t (stats p) -> retired q = add_stats (retired p) (stats_of p c) -> Total q = Total p) as H.
  { intros q Hh Hs Hr. unfold Total, stats_of. rewrite Hh, Hs, Hr. fold (stats_of p c).
    rewrite (map_fold_delete_L _ _ t c (stats p)) by (done || intros; apply add_stats_comm).
    apply (map_fold_comm_acc _ (fun acc => add_stats acc (stats_of p c))). intros. apply add_stats_comm. }
  destruct (isPaced t); by apply H.
Qed.
End Pump.

(** ** An instance

    Tunnels are numbers; tunnel [t] carries 10.0.0.0/8 and its inbound key is its
    number.  Decapsulation drops a four-octet key. *)

Definition demo_routes (t : nat) : list Prefix := [mkPrefix (IPv4 0x0a000000) 8].

#[export] Instance demo_tunnels : Tunnels nat unit nat := {|
  InboundKey := fun t _ => Z.of_nat t;
  TRoutes := fun t _ => demo_routes t;
  PeerAddr := fun t _ => t;
  Encapsulate := fun _ w pkt => (Some pkt, w);
  Decapsulate := fun _ w pkt => (Some (drop 4 pkt), w);
  isMulti := fun _ => false;
  DecapsulateMulti := fun _ w _ => (None, w);
  isPaced := fun _ => false;
  Enqueue := fun _ w _ => (true, w);
  StartPacing := fun _ w => w;
  StopPacing := fun _ w => w;
  isRoamer := fun _ => true;
  SetPeerAddr := fun _ w _ => w;
  isPadding := fun _ => false;
  EncapsulatePadded := fun _ w pkt _ => (Some pkt, w);
  isAppend := fun _ => false;
  AppendEncapsulated := fun _ w pkt _ => (Some pkt, w);
  isSourceChecked := fun _ => true;
  VerifyInboundSource := fun _ _ => true;
  tunWrite := fun w _ => (true, w);
  vnetWrite := fun w _ => (true, w);
  vnetWriteGSO := fun w _ _ => (true, w);
  sendTo := fun w _ _ => w;
|}.

Lemma make_before_break_witness :
  let p := fold_left run_reg [RegAdd 1%nat] (NewPump None false 0 ()) in
  let p2 := (RemoveTunnel 1%nat (AddTunnel 2%nat p).2).2 in
  (exists b, installed (routes p2) (mkPrefix (IPv4 0x0a000000) 8) = Some (Some b) /\ bt b = 2%nat) /\
  (forall key b, byKey p2 !! key = Some b <-> byKey (AddTunnel 2%nat p).2 !! key = Some b /\ bt b <> 1%nat).
Proof.
  assert (Hok : forall t, Forall prefix_ok (demo_routes t)).
  { intros t. apply Forall_singleton. split; [by_decision|simpl; lia]. }
  destruct (make_before_break (TI := demo_tunnels) demo_routes (fun t (w : unit) => eq_refl) Hok
    [RegAdd 1%nat] None false 0 () 1%nat 2%nat) as (H1 & _ & H3); [lia|].
  split; [apply H1; left|exact H3].
Defined.

(** A datagram for tunnel 1 whose inner packet comes from 10.0.0.1 is delivered
    and moves the return address; one from 192.168.0.1 is counted as spoofed. *)
Definition demo_datagram (a b : Z) : bytes :=
  [0; 0; 0; 1] ++ [0x45; 0; 0; 20; 0; 0; 0; 0; 64; 17; 0; 0; a; b; 0; 1; 10; 0; 0; 2].

Lemma demo_inbound :
  let p := (AddTunnel 1%nat (NewPump None false 0 ())).2 in
  log (HandleInbound (demo_datagram 10 0) (Some 7%nat) 5 p).2 = [EvRoam 1%nat 7%nat; EvTun (drop 4 (demo_datagram 10 0)) true] /\
  drops (HandleInbound (demo_datagram 192 168) (Some 7%nat) 5 p).2 DropSpoofedSource = 1 /\
  log (HandleInbound (demo_datagram 192 168) (Some 7%nat) 5 p).2 = [EvRoam 1%nat 7%nat] /\
  drops (HandleInbound [0; 0; 0; 9] (Some 7%nat) 5 p).2 DropUnknownKey = 1.
Proof. vm_compute. done. Qed.
