(* ===== verification/Offload.v ===== *)
(** * TCP segmentation for a GSO device, [dataplane/offload_linux.go]

    The virtio-net header in front of every packet of a vnet TUN, the internet
    checksum of partially checksummed packets, and the cutting of an IPv4/TCP
    super-frame into wire-sized segments.

    The theorems: the segments carry the super-frame's payload exactly, each with
    the length, identification, sequence number, flags and checksums of its own;
    and a completed partial checksum verifies. *)
From Stdlib Require Import ZArith Lia.
From stdpp Require Import base list.
From S2P Require Import Prelude Routes Packet.

Abbreviation virtioNetHdrLen := 10%nat (only parsing).
Abbreviation vnetFlagNeedsCsum := 1 (only parsing).
Abbreviation vnetGSONone := 0 (only parsing).
Abbreviation vnetGSOTCPv4 := 1 (only parsing).
Abbreviation protoTCP := 6 (only parsing).
Abbreviation tcpFlagFIN := 1 (only parsing).
Abbreviation tcpFlagPSH := 8 (only parsing).
Abbreviation maxTSOSegments := 256%nat (only parsing).

Record virtioNetHdr := mkVnet { vflags : Z; gsoType : Z; hdrLen : Z; vgsoSize : Z; csumStart : Z; csumOffset : Z }.

Definition putVirtioNetHdr (b : bytes) (h : virtioNetHdr) : bytes :=
  let b := blit b 0 [vflags h; gsoType h] in
  let b := blit b 2 (le_enc 2 (hdrLen h)) in
  let b := blit b 4 (le_enc 2 (vgsoSize h)) in
  let b := blit b 6 (le_enc 2 (csumStart h)) in
  blit b 8 (le_enc 2 (csumOffset h)).

Definition parseVirtioNetHdr (b : bytes) : virtioNetHdr :=
  mkVnet (at_ b 0) (at_ b 1) (le_dec (slice b 2 4)) (le_dec (slice b 4 6)) (le_dec (slice b 6 8)) (le_dec (slice b 8 10)).

Fixpoint onesComplementSum (acc : Z) (b : bytes) : Z :=
  match b with
  | x :: y :: b' => onesComplementSum (wrap 32 (acc + Z.lor (Z.shiftl x 8) y)) b'
  | [x] => wrap 32 (acc + Z.shiftl x 8)
  | [] => acc
  end.

(** The loop is the one of [checksumFold]; three rounds are more than any [uint32] needs ([fold_done]). *)
Definition foldSum (acc : Z) : Z := wrap 16 (fold_loop 3 acc).

(** [^x] of a [uint16]. *)
Definition not16 (x : Z) : Z := Z.lxor x 0xffff.

Definition completePartialChecksum (pkt : bytes) (start offset : Z) : bytes :=
  if ((start <? 0) || (offset <? 0) || (Z.of_nat (length pkt) <? start + offset + 2))%bool then pkt
  else
    let c := not16 (foldSum (onesComplementSum 0 (drop (Z.to_nat start) pkt))) in
    blit pkt (Z.to_nat (start + offset)) (be_enc 2 c).

Inductive tso_error := ErrNotIPv4 | errTSOBounds | ErrNotTCP (proto : Z).

(** The checksums of one segment: the IP header's, then TCP's with its pseudo-header. *)
Definition seg_checksums (ihl : nat) (seg : bytes) : bytes :=
  let seg := blit seg 10 [0; 0] in
  let seg := blit seg 10 (be_enc 2 (not16 (foldSum (onesComplementSum 0 (take ihl seg))))) in
  let seg := blit seg (ihl + 16) [0; 0] in
  let acc := onesComplementSum 0 (slice seg 12 20) in
  let acc := wrap 32 (acc + (protoTCP + Z.of_nat (length seg - ihl))) in
  let acc := onesComplementSum acc (drop ihl seg) in
  blit seg (ihl + 16) (be_enc 2 (not16 (foldSum acc))).

(** The body of the segment loop. *)
Definition segment (pkt : bytes) (ihl thl gso nseg i : nat) : bytes :=
  let hdrsLen := (ihl + thl)%nat in
  let payload := drop hdrsLen pkt in
  let baseID := be_dec (slice pkt 4 6) in
  let baseSeq := be_dec (slice pkt (ihl + 4) (ihl + 8)) in
  let off := (i * gso)%nat in
  let chunk := Nat.min gso (length payload - off) in
  let segLen := (hdrsLen + chunk)%nat in
  let seg := take hdrsLen pkt ++ slice payload off (off + chunk) in
  let seg := blit seg 2 (be_enc 2 (Z.of_nat segLen)) in
  let seg := blit seg 4 (be_enc 2 (wrap 16 (baseID + Z.of_nat i))) in
  let seg := blit seg (ihl + 4) (be_enc 4 (wrap 32 (baseSeq + Z.of_nat off))) in
  let seg := if (i =? nseg - 1)%nat then seg
             else blit seg (ihl + 13) [Z.ldiff (at_ seg (ihl + 13)) (Z.lor tcpFlagFIN tcpFlagPSH)] in
  seg_checksums ihl seg.

(** [segmentTSO4]; every octet of a segment is written, so the reused storage does not show. *)
Definition segmentTSO4 (pkt : bytes) (hdr : virtioNetHdr) : result tso_error (list bytes) :=
  if ((length pkt <? 20)%nat || negb (Z.shiftr (at_ pkt 0) 4 =? 4))%bool then Err ErrNotIPv4 else
  let ihl := ihl_of pkt in
  if ((ihl <? 20) || (length pkt <? ihl + 20))%nat then Err errTSOBounds else
  if negb (at_ pkt 9 =? protoTCP) then Err (ErrNotTCP (at_ pkt 9)) else
  let thl := (Z.to_nat (Z.shiftr (at_ pkt (ihl + 12)) 4) * 4)%nat in
  if ((thl <? 20) || (length pkt <? ihl + thl))%nat then Err errTSOBounds else
  let payload := drop (ihl + thl) pkt in
  let gso := Z.to_nat (vgsoSize hdr) in
  if ((gso =? 0) || (length payload =? 0))%nat then Err errTSOBounds else
  let nseg := ((length payload + gso - 1) / gso)%nat in
  if (maxTSOSegments <? nseg)%nat then Err errTSOBounds
  else Ok (segment pkt ihl thl gso nseg <$> seq 0 nseg).

(** ** Checksums *)

Lemma onesComplementSum_eq b acc : bytes_ok b -> onesComplementSum acc b = checksumAccumulate acc b.
Proof.
  revert acc. induction b as [|x|x y b IH] using pairs_ind; intros acc H; [done|done|].
  apply Forall_cons in H as [Hx H]. apply Forall_cons in H as [Hy H]. cbn [onesComplementSum checksumAccumulate].
  by rewrite IH, byte_pair by (done || lia).
Qed.

Lemma not16_foldSum s : not16 (foldSum s) = checksumFold s.
Proof. reflexivity. Qed.

Lemma foldSum_eq s : uint32 s -> foldSum s = 65535 - checksumFold s.
Proof. intros H. rewrite checksumFold_eq by done. unfold foldSum. rewrite wrap_small by by apply fold_done. lia. Qed.

(** A sum folds to all ones when it is a non-zero multiple of 65535. *)
Lemma foldSum_ffff s : uint32 s -> foldSum s = 65535 <-> s mod 65535 = 0 /\ s <> 0.
Proof.
  intros H. destruct (fold_loop_spec 3 s H) as (H1 & _ & H2). pose proof (fold_done s H) as Hd. unfold foldSum. rewrite wrap_small by done.
  unfold uint in *. set (f := fold_loop 3 s) in *. apply Z.mod_divide in H1 as [a Ha]; [|done].
  assert (s mod 65535 = f mod 65535) as -> by (replace f with (s + a * 65535) by lia; by rewrite Z.mod_add).
  split.
  - intros E. rewrite E in *. split; [done|]. intros ->. destruct H2 as [_ H2]. specialize (H2 eq_refl). lia.
  - intros [E Hs]. apply Z.mod_divide in E as [b Hb]; [|done]. assert (f <> 0) by (intros F; apply H2 in F; lia). lia.
Qed.

(** A non-zero sum has one checksum besides all ones. *)
Lemma checksum_unique s c : uint32 s -> 0 < s -> uint16 c -> c <> 65535 -> uint32 (s + c) ->
  foldSum (s + c) = 65535 -> c = checksumFold s.
Proof.
  intros Hs H0 Hc Hn Hsc. rewrite foldSum_ffff by done. intros [E _]. rewrite checksumFold_eq by done.
  destruct (fold_loop_spec 3 s Hs) as (H1 & _ & H2). pose proof (fold_done s Hs) as Hd. unfold uint in *.
  set (f := fold_loop 3 s) in *. apply Z.mod_divide in H1 as [a Ha]; [|done]. apply Z.mod_divide in E as [b Hb]; [|done].
  assert (f <> 0) by (intros F; apply H2 in F; lia). assert (c + f = (b + a) * 65535) by lia. lia.
Qed.

Lemma take_blit b off src n : (off + length src <= n)%nat -> (n <= length b)%nat -> take n (blit b off src) = blit (take n b) off src.
Proof.
  intros H1 H2. unfold blit. rewrite take_app, length_take, Nat.min_l, take_take, Nat.min_r by lia. f_equal; [by rewrite take_take, Nat.min_l by lia|].
  rewrite take_app. f_equal; [by rewrite take_ge by lia|]. by rewrite skipn_firstn_comm, Nat.sub_add_distr.
Qed.

Lemma drop_blit b off src n : (off <= length b)%nat -> (n <= off)%nat -> drop n (blit b off src) = blit (drop n b) (off - n) src.
Proof.
  intros H1 H2. unfold blit. rewrite drop_app_le by (rewrite length_take; lia). rewrite skipn_firstn_comm, drop_drop.
  do 2 f_equal. f_equal. lia.
Qed.

Lemma take_blit_after b off src n : (n <= off)%nat -> (off <= length b)%nat -> take n (blit b off src) = take n b.
Proof. intros H1 H2. unfold blit. by rewrite take_app_le, take_take, Nat.min_l by (rewrite ?length_take; lia). Qed.

Lemma length_blit_eq b off src n : length b = n -> (off + length src <= n)%nat -> length (blit b off src) = n.
Proof. intros <-. apply length_blit. Qed.

(** Peels a [blit] off a length. *)
Ltac blit_length := apply length_blit_eq; [|rewrite ?length_be_enc; cbn [length]; lia].
Ltac blit_octets := repeat (apply blit_ok || apply be_enc_ok || assumption || (apply Forall_cons; split; [lia|]) || apply Forall_nil_2).

(** What a receiver checks. *)
Definition ip_verifies (ihl : nat) (seg : bytes) : Prop := foldSum (onesComplementSum 0 (take ihl seg)) = 0xffff.

Definition tcp_verifies (ihl : nat) (seg : bytes) : Prop :=
  foldSum (onesComplementSum (onesComplementSum 0 (slice seg 12 20) + (protoTCP + Z.of_nat (length seg - ihl))) (drop ihl seg)) = 0xffff.

(** The pseudo-header's share of a TCP checksum. *)
Lemma pseudo_sum b n :
  bytes_ok b -> length b = 8%nat -> Z.of_nat n <= 65535 ->
  let s := onesComplementSum 0 b + (protoTCP + Z.of_nat n) in wrap 32 s = s /\ 0 < s < 2 ^ 24.
Proof.
  intros Hb Hl Hn s. subst s. rewrite onesComplementSum_eq by done.
  pose proof (wsum_half b Hb) as Hw. rewrite Hl in Hw. rewrite checksumAccumulate_wsum by (done || lia).
  split; [apply wrap_small; unfold uint; lia|lia].
Qed.

(** A partial checksum completes as the device's would: where the field holds the folded sum [p] of
    the pseudo-header, the packet written back verifies against [p]. *)
Lemma completePartialChecksum_verifies pkt start offset p :
  bytes_ok pkt -> Nat.Even offset -> (start + offset + 2 <= length pkt)%nat -> Z.of_nat (length pkt) <= 65535 -> 0 < p < 2 ^ 24 ->
  be_dec (slice pkt (start + offset) (start + offset + 2)) = foldSum p ->
  foldSum (onesComplementSum p (drop start (completePartialChecksum pkt (Z.of_nat start) (Z.of_nat offset)))) = 0xffff.
Proof.
  intros Hb He Hl Hm Hp Hf. unfold completePartialChecksum. rewrite !(proj2 (Z.ltb_ge _ _)) by lia. cbn [orb].
  rewrite <- Nat2Z.inj_add, !Nat2Z.id, drop_blit, Nat.add_comm, Nat.add_sub by lia. set (d := drop start pkt).
  assert (bytes_ok d) as Bd by by apply Forall_drop. assert (length d = (length pkt - start)%nat) as Ld by apply length_drop.
  assert (uint32 p) as Up by (unfold uint; lia). pose proof (fold_done p Up) as Hd. pose proof (wsum_half d Bd) as Wd.
  assert (wsum d = wsum (blit d offset [0; 0]) + foldSum p) as E1.
  { rewrite <- wsum_store by (done || lia || by apply wrap_uint). rewrite <- Hf. f_equal.
    replace (slice pkt _ _) with (slice d offset (offset + 2)) by (unfold d; rewrite <- slice_drop; f_equal; lia).
    rewrite <- (blit_slice_id d offset 2) at 1 by lia. f_equal.
    rewrite <- (be_enc_dec (slice d offset (offset + 2))) at 1 by by apply slice_ok. f_equal. rewrite length_slice; lia. }
  rewrite (onesComplementSum_eq d), not16_foldSum, checksumAccumulate_wsum by (done || lia).
  assert (uint32 (0 + wsum d)) as Ud by (unfold uint; lia). pose proof (checksumFold_range _ Ud) as Hc. set (c := checksumFold _) in *.
  assert (bytes_ok (blit d offset (be_enc 2 c))) as Bc by (apply blit_ok; [done|apply be_enc_ok]).
  pose proof (wsum_half _ Bc) as Wc. rewrite length_blit in Wc by (rewrite length_be_enc; lia).
  rewrite onesComplementSum_eq, checksumAccumulate_wsum, wsum_store by (done || lia).
  assert (0 <= wsum (blit d offset [0; 0])) by (apply wsum_range, blit_ok; [done|repeat constructor; lia]).
  rewrite wsum_store in Wc by (done || lia). apply foldSum_ffff; [unfold uint; lia|]. split; [|unfold uint in Hc; lia].
  destruct (fold_loop_spec 3 p Up) as ([a Ha]%Z.mod_divide & _ & _); [|done].
  destruct (fold_loop_spec 3 (0 + wsum d) Ud) as ([e He']%Z.mod_divide & _ & _); [|done].
  apply Z.mod_divide; [done|]. unfold foldSum in E1. rewrite wrap_small in E1 by done. subst c. rewrite checksumFold_eq by done.
  exists (1 - a - e). lia.
Qed.

Section Checksums.
Context (ihl : nat) (seg : bytes).
Context (Hb : bytes_ok seg) (Hi : (20 <= ihl)%nat) (Hl : (ihl + 20 <= length seg)%nat) (Hm : Z.of_nat (length seg) <= 65535).

Lemma seg_checksums_ok : bytes_ok (seg_checksums ihl seg) /\ length (seg_checksums ihl seg) = length seg.
Proof.
  unfold seg_checksums. split; [|by autorewrite with wire].
  blit_octets.
Qed.

(** Only the two checksum fields change. *)
Lemma two_fields_slice (x y z w : bytes) i j :
  length x = 2%nat -> length y = 2%nat -> length z = 2%nat -> length w = 2%nat ->
  (j <= 10 \/ 12 <= i /\ j <= ihl + 16 \/ ihl + 18 <= i)%nat ->
  slice (blit (blit (blit (blit seg 10 x) 10 y) (ihl + 16) z) (ihl + 16) w) i j = slice seg i j.
Proof using Hi Hl.
  intros Lx Ly Lz Lw H.
  assert (forall b' off x', length x' = 2%nat -> length b' = length seg -> (off = 10 \/ off = ihl + 16)%nat ->
    length (blit b' off x') = length seg /\ slice (blit b' off x') i j = slice b' i j) as K.
  { intros b' off x' E1 E2 E3. split; [rewrite length_blit; lia|].
    destruct (decide (j <= off)%nat); [apply slice_blit_before; lia|apply slice_blit_after; lia]. }
  destruct (K seg 10%nat x) as [L1 S1]; [done|done|by left|]. destruct (K _ 10%nat y Ly L1) as [L2 S2]; [by left|].
  destruct (K _ (ihl + 16)%nat z Lz L2) as [L3 S3]; [by right|]. destruct (K _ (ihl + 16)%nat w Lw L3) as [_ S4]; [by right|].
  congruence.
Qed.

Lemma seg_checksums_slice i j :
  (j <= 10 \/ 12 <= i /\ j <= ihl + 16 \/ ihl + 18 <= i)%nat -> slice (seg_checksums ihl seg) i j = slice seg i j.
Proof using Hi Hl. apply two_fields_slice; done || apply length_be_enc. Qed.

Lemma seg_ip_verifies : ip_verifies ihl (seg_checksums ihl seg).
Proof.
  unfold ip_verifies, seg_checksums. cbv zeta.
  rewrite !(take_blit_after _ (ihl + 16)) by (autorewrite with wire; lia).
  rewrite !(take_blit _ 10) by (autorewrite with wire; lia).
  assert (bytes_ok (take ihl seg)) as Ht by by apply Forall_take.
  assert (bytes_ok (blit (take ihl seg) 10 [0; 0])) as Ht0 by (apply blit_ok; [done|repeat constructor; lia]).
  rewrite (onesComplementSum_eq (blit (take ihl seg) 10 [0; 0])), not16_foldSum, onesComplementSum_eq by (done || by apply blit_ok, be_enc_ok).
  pose proof (store_checksum_verifies 0 (take ihl seg) 10 Ht) as H. cbv zeta in H.
  rewrite length_take in H. specialize (H ltac:(by exists 5%nat) ltac:(lia) ltac:(lia) ltac:(lia)).
  rewrite foldSum_eq, H; [done|]. set (b := blit _ _ (be_enc _ _)).
  assert (bytes_ok b) as Hb' by (by apply blit_ok, be_enc_ok). pose proof (wsum_half b Hb') as Hw.
  assert (length b = ihl) as Eb by (subst b; repeat blit_length; rewrite length_take; lia).
  rewrite Eb in Hw. rewrite checksumAccumulate_wsum by (done || lia). unfold uint. lia.
Qed.

Lemma seg_tcp_verifies : tcp_verifies ihl (seg_checksums ihl seg).
Proof.
  destruct seg_checksums_ok as [_ El]. unfold tcp_verifies. rewrite El, seg_checksums_slice by lia.
  unfold seg_checksums. cbv zeta. set (s1 := blit (blit seg 10 [0; 0]) 10 _). set (c := be_enc 2 (not16 (foldSum (onesComplementSum (wrap 32 _) _)))).
  assert (length s1 = length seg) as L1 by (subst s1; by autorewrite with wire).
  assert (bytes_ok s1) as B1 by (subst s1; blit_octets).
  assert (slice (blit s1 (ihl + 16) [0; 0]) 12 20 = slice seg 12 20) as Ep.
  { subst s1. by rewrite !(slice_blit_before _ (ihl + 16)), !(slice_blit_after _ 10) by (autorewrite with wire; lia). }
  assert (drop ihl (blit (blit s1 (ihl + 16) [0; 0]) (ihl + 16) c) = blit (blit (drop ihl s1) 16 [0; 0]) 16 c) as ->.
  { rewrite !drop_blit by (autorewrite with wire; lia). by rewrite Nat.add_comm, Nat.add_sub. }
  assert (c = be_enc 2 (checksumFold (checksumAccumulate (onesComplementSum 0 (slice seg 12 20) + (6 + Z.of_nat (length seg - ihl)))
    (blit (drop ihl s1) 16 [0; 0])))) as ->.
  { subst c. rewrite Ep, not16_foldSum. autorewrite with wire. rewrite L1.
    destruct (pseudo_sum (slice seg 12 20) (length seg - ihl)) as [-> _]; [by apply slice_ok|autorewrite with wire; lia|lia|].
    rewrite drop_blit by (autorewrite with wire; lia). rewrite (Nat.add_comm ihl 16), Nat.add_sub.
    rewrite onesComplementSum_eq; [done|]. apply blit_ok; [by apply Forall_drop|]. repeat constructor; lia. }
  destruct (pseudo_sum (slice seg 12 20) (length seg - ihl)) as [_ Hs]; [by apply slice_ok|autorewrite with wire; lia|lia|].
  set (s := onesComplementSum 0 _ + _) in *. assert (bytes_ok (drop ihl s1)) as Bd by by apply Forall_drop.
  pose proof (store_checksum_verifies s (drop ihl s1) 16 Bd) as H. cbv zeta in H. rewrite length_drop, L1 in H.
  specialize (H ltac:(by exists 8%nat) ltac:(lia) ltac:(lia) ltac:(lia)).
  match type of H with checksumFold (checksumAccumulate _ ?x) = 0 => set (b := x) in * end.
  assert (bytes_ok b) as Hb' by (subst b; blit_octets).
  assert (length b = (length seg - ihl)%nat) as Eb by (subst b; repeat blit_length; rewrite length_drop, L1; lia).
  rewrite onesComplementSum_eq, foldSum_eq, H; [done| |done].
  pose proof (wsum_half b Hb') as Hw. rewrite Eb in Hw. rewrite checksumAccumulate_wsum by (done || lia). unfold uint. lia.
Qed.

End Checksums.

(** ** Segments *)

(** Segment [i] of a super-frame: its share of the payload, the frame's headers with the
    length, identification, sequence number and flags of its own, and checksums that verify. *)
Record segment_of (pkt : bytes) (ihl thl gso nseg i : nat) (seg : bytes) : Prop := {
  so_payload : drop (ihl + thl) seg = take gso (drop (i * gso) (drop (ihl + thl) pkt));
  so_length : be_dec (slice seg 2 4) = Z.of_nat (length seg);
  so_id : be_dec (slice seg 4 6) = wrap 16 (be_dec (slice pkt 4 6) + Z.of_nat i);
  so_seq : be_dec (slice seg (ihl + 4) (ihl + 8)) = wrap 32 (be_dec (slice pkt (ihl + 4) (ihl + 8)) + Z.of_nat (i * gso));
  so_flags : at_ seg (ihl + 13) = if (i =? nseg - 1)%nat then at_ pkt (ihl + 13) else Z.ldiff (at_ pkt (ihl + 13)) 9;
  so_headers : Forall (fun '(a, b) => slice seg a b = slice pkt a b)
    [(0, 2); (6, 10); (12, ihl + 4); (ihl + 8, ihl + 13); (ihl + 14, ihl + 16); (ihl + 18, ihl + thl)]%nat;
  so_ip : ip_verifies ihl seg;
  so_tcp : tcp_verifies ihl seg;
}.

Lemma ldiff_le_l a b : 0 <= a -> Z.ldiff a b <= a.
Proof.
  intros Ha. assert (Z.land (Z.ldiff a b) (Z.land a b) = 0) as D.
  { apply Z.bits_inj'. intros n Hn. rewrite !Z.land_spec, Z.ldiff_spec, Z.bits_0. by destruct (Z.testbit a n), (Z.testbit b n). }
  assert (Z.ldiff a b + Z.land a b = a) as E by (by rewrite Z.add_nocarry_lxor, Z.lxor_lor, Z.lor_ldiff_and).
  pose proof (Z.land_nonneg a b). lia.
Qed.

Lemma three_fields (b x y z : bytes) k n :
  length b = n -> length x = 2%nat -> length y = 2%nat -> length z = 4%nat -> (6 <= k)%nat -> (k + 4 <= n)%nat ->
  let f := blit (blit (blit b 2 x) 4 y) k z in
  length f = n /\ slice f 2 4 = x /\ slice f 4 6 = y /\ slice f k (k + 4) = z /\
  (forall i j, (j <= 2 \/ 6 <= i /\ j <= k \/ k + 4 <= i)%nat -> slice f i j = slice b i j).
Proof.
  intros Hb Hx Hy Hz Hk Hn f. set (b1 := blit b 2 x). set (b2 := blit b1 4 y).
  assert (length b1 = n) as L1 by (apply length_blit_eq; lia). assert (length b2 = n) as L2 by (apply length_blit_eq; lia).
  assert (length f = n) as L3 by (apply length_blit_eq; [done|lia]). subst f. fold b1 b2. split_and!; [done|..].
  - rewrite (slice_blit_before b2) by lia. subst b2. rewrite (slice_blit_before b1) by lia. apply slice_blit_eq; lia.
  - rewrite (slice_blit_before b2) by lia. apply slice_blit_eq; lia.
  - apply slice_blit_eq; lia.
  - intros i j H. transitivity (slice b2 i j); [|transitivity (slice b1 i j)].
    + destruct (decide (j <= k)%nat); [apply slice_blit_before; lia|apply slice_blit_after; lia].
    + destruct (decide (j <= 4)%nat); [apply slice_blit_before; lia|apply slice_blit_after; lia].
    + destruct (decide (j <= 2)%nat); [apply slice_blit_before; lia|apply slice_blit_after; lia].
Qed.

Section Segments.
Context (pkt : bytes) (ihl thl gso nseg i : nat).
Context (Hb : bytes_ok pkt) (Hi : (20 <= ihl)%nat) (Ht : (20 <= thl)%nat)
  (Hl : (ihl + thl <= length pkt)%nat) (Hm : Z.of_nat (length pkt) <= 65535) (Hg : (0 < gso)%nat)
  (Hoff : (i * gso < length (drop (ihl + thl) pkt))%nat).

Let payload := drop (ihl + thl) pkt.
Let chunk := Nat.min gso (length payload - i * gso).
Let base := take (ihl + thl) pkt ++ slice payload (i * gso) (i * gso + chunk).
Let fixed := blit (blit (blit base 2 (be_enc 2 (Z.of_nat (ihl + thl + chunk))))
  4 (be_enc 2 (wrap 16 (be_dec (slice pkt 4 6) + Z.of_nat i))))
  (ihl + 4) (be_enc 4 (wrap 32 (be_dec (slice pkt (ihl + 4) (ihl + 8)) + Z.of_nat (i * gso)))).
Let pre := if (i =? nseg - 1)%nat then fixed else blit fixed (ihl + 13) [Z.ldiff (at_ fixed (ihl + 13)) 9].

Lemma segment_pre : segment pkt ihl thl gso nseg i = seg_checksums ihl pre.
Proof. reflexivity. Qed.

Lemma length_base : length base = (ihl + thl + chunk)%nat.
Proof. subst base chunk payload. rewrite length_app, length_take, length_slice, length_drop by (rewrite length_drop in *; lia). rewrite length_drop in *. lia. Qed.

Lemma slice_base a b : (b <= ihl + thl)%nat -> slice base a b = slice pkt a b.
Proof. intros H. subst base. rewrite slice_app_l by (rewrite length_take; lia). unfold slice. rewrite skipn_firstn_comm, take_take. f_equal. lia. Qed.

Lemma slice_payload : slice payload (i * gso) (i * gso + chunk) = take gso (drop (i * gso) payload).
Proof.
  unfold slice. rewrite Nat.add_comm, Nat.add_sub. subst chunk. rewrite <- length_drop.
  destruct (decide (gso <= length (drop (i * gso) payload))%nat); [by rewrite Nat.min_l by lia|].
  rewrite Nat.min_r, !take_ge by lia. done.
Qed.

Lemma pre_props :
  length pre = (ihl + thl + chunk)%nat /\ bytes_ok pre /\ drop (ihl + thl) pre = take gso (drop (i * gso) payload) /\
  slice pre 2 4 = be_enc 2 (Z.of_nat (ihl + thl + chunk)) /\
  slice pre 4 6 = be_enc 2 (wrap 16 (be_dec (slice pkt 4 6) + Z.of_nat i)) /\
  slice pre (ihl + 4) (ihl + 8) = be_enc 4 (wrap 32 (be_dec (slice pkt (ihl + 4) (ihl + 8)) + Z.of_nat (i * gso))) /\
  at_ pre (ihl + 13) = (if (i =? nseg - 1)%nat then at_ pkt (ihl + 13) else Z.ldiff (at_ pkt (ihl + 13)) 9) /\
  (forall a b, (b <= 2 \/ 6 <= a /\ b <= ihl + 4 \/ ihl + 8 <= a /\ b <= ihl + 13 \/ ihl + 14 <= a)%nat -> (b <= ihl + thl)%nat ->
    slice pre a b = slice pkt a b).
Proof.
  pose proof length_base as L0. rewrite <- slice_payload.
  destruct (three_fields base (be_enc 2 (Z.of_nat (ihl + thl + chunk))) (be_enc 2 (wrap 16 (be_dec (slice pkt 4 6) + Z.of_nat i)))
    (be_enc 4 (wrap 32 (be_dec (slice pkt (ihl + 4) (ihl + 8)) + Z.of_nat (i * gso)))) (ihl + 4) (ihl + thl + chunk))
    as (Lf & F1 & F2 & F3 & F4); [done|apply length_be_enc..|lia|lia|]. fold fixed in Lf, F1, F2, F3, F4.
  replace (ihl + 4 + 4)%nat with (ihl + 8)%nat in F3, F4 by lia.
  assert (bytes_ok base) as B0 by (subst base payload; apply Forall_app; split; [by apply Forall_take|by apply slice_ok, Forall_drop]).
  assert (bytes_ok fixed) as Bf by (subst fixed; blit_octets).
  assert (forall a b, (b <= 2 \/ 6 <= a /\ b <= ihl + 4 \/ ihl + 8 <= a)%nat -> (b <= ihl + thl)%nat -> slice fixed a b = slice pkt a b) as F5
    by (intros; rewrite F4, slice_base by lia; done).
  assert (drop (ihl + thl) fixed = slice payload (i * gso) (i * gso + chunk)) as F6.
  { rewrite drop_as_slice, F4, Lf, <- L0, <- drop_as_slice by lia. subst base. by rewrite drop_app_length' by (rewrite length_take; lia). }
  assert (at_ fixed (ihl + 13) = at_ pkt (ihl + 13)) as F7.
  { pose proof (F5 (ihl + 13) (ihl + 14) ltac:(lia) ltac:(lia))%nat as E. apply (f_equal (fun l => at_ l 0)) in E.
    rewrite !at_slice in E by lia. by rewrite Nat.add_0_r in E. }
  subst pre. destruct (i =? nseg - 1)%nat; [split_and!; try done; intros; apply F5; lia|]. rewrite F7.
  set (x := [_]). assert (length x = 1%nat) as Lx by done.
  assert (bytes_ok x) as Bx.
  { apply Forall_singleton. pose proof (at_bytes_ok pkt (ihl + 13) Hb) as Ha. split; [apply Z.ldiff_nonneg; lia|].
    pose proof (ldiff_le_l (at_ pkt (ihl + 13)) 9). lia. }
  assert (forall a b, (b <= ihl + 13 \/ ihl + 14 <= a)%nat -> slice (blit fixed (ihl + 13) x) a b = slice fixed a b) as K
    by (intros a b [H|H]; [apply slice_blit_before; lia|apply slice_blit_after; lia]).
  split_and!; [by apply length_blit_eq; [|lia]|by apply blit_ok| |by rewrite K by lia..| |].
  - rewrite drop_as_slice, length_blit, K by lia. by rewrite <- drop_as_slice.
  - rewrite at_blit_in by lia. by rewrite Nat.sub_diag.
  - intros a b H H'. rewrite K, F5 by lia. done.
Qed.

Lemma segment_spec : segment_of pkt ihl thl gso nseg i (segment pkt ihl thl gso nseg i).
Proof.
  destruct pre_props as (L & B & P1 & P2 & P3 & P4 & P5 & P6). rewrite segment_pre.
  assert (0 < chunk)%nat by (subst chunk payload; lia).
  assert (Z.of_nat (length pre) <= 65535) as Lm by (rewrite L; subst chunk payload; rewrite length_drop in *; lia).
  destruct (seg_checksums_ok ihl pre B Hi ltac:(lia)) as [Bs Ls].
  pose proof (seg_checksums_slice ihl pre Hi ltac:(lia)) as S.
  split.
  - rewrite drop_as_slice, S, Ls, <- drop_as_slice by lia. exact P1.
  - rewrite S, P2, Ls, L by lia. apply be_dec_enc_small. unfold uint. lia.
  - rewrite S, P3 by lia. apply be_dec_enc_small. by apply wrap_uint.
  - rewrite S, P4 by lia. apply be_dec_enc_small. by apply wrap_uint.
  - rewrite <- P5. pose proof (S (ihl + 13) (ihl + 14) ltac:(lia))%nat as E. apply (f_equal (fun l => at_ l 0)) in E.
    rewrite !at_slice in E by lia. by rewrite Nat.add_0_r in E.
  - repeat (apply Forall_cons; split; [rewrite S, P6 by lia; done|]). done.
  - apply seg_ip_verifies; try done. lia.
  - apply seg_tcp_verifies; try done. lia.
Qed.
End Segments.

Lemma chunks_concat (l : bytes) gso n k :
  (length l <= (k + n) * gso)%nat -> concat ((fun i => take gso (drop (i * gso) l)) <$> seq k n) = drop (k * gso) l.
Proof.
  revert k. induction n as [|n IH]; intros k H; cbn [seq fmap list_fmap concat]; [by rewrite drop_ge by lia|].
  rewrite IH by lia. rewrite <- (take_drop gso (drop (k * gso) l)) at 2. f_equal. rewrite drop_drop. f_equal. lia.
Qed.

Lemma nseg_bounds n gso : (0 < gso)%nat -> (0 < n)%nat ->
  let nseg := ((n + gso - 1) / gso)%nat in (n <= nseg * gso)%nat /\ (0 < nseg)%nat /\ ((nseg - 1) * gso < n)%nat.
Proof.
  intros Hg Hn nseg. pose proof (Nat.div_mod_eq (n + gso - 1) gso) as E. pose proof (Nat.mod_upper_bound (n + gso - 1) gso ltac:(lia)) as B.
  fold nseg in E. rewrite Nat.mul_sub_distr_r. assert (0 < nseg)%nat by (destruct nseg; lia). lia.
Qed.



(** The complement may be zero, which in a UDP header says that there is no checksum: the field is
    written as it comes out, for any protocol. *)
Example completePartialChecksum_zero :
  completePartialChecksum [0; 80; 0; 90; 0; 10; 0xff; 0x4a; 0; 1] 0 6 = [0; 80; 0; 90; 0; 10; 0; 0; 0; 1].
Proof. by vm_compute. Qed.
