(* ===== verification/Gro.v ===== *)
(** * Receive coalescing, [dataplane/gro_linux.go]

    The table of open groups of one read batch: which segments may join a group,
    how a group is written, and the batch path of the pump on a vnet TUN.  The
    operations of the table are functions that return the TUN writes they make,
    in order; the pump performs them ([perform]), since their errors are only
    logged.  [None] stands for a run-time panic: the code indexes the group's
    buffer, which [flush] leaves in place with its old length.

    A group's buffer is its backing array [arr] and its length [blen]; slice
    expressions reach past the length, index expressions do not.

    The theorems: coalescing changes neither the packets nor the order within a
    flow, as long as no segment is appended to a group already flushed; what
    happens when one is; and that a batch writes only what its tunnels opened. *)
From Stdlib Require Import ZArith Lia.
From stdpp Require Import base list gmap.
From S2P Require Import Prelude Routes Packet Shape Pump Offload.

Abbreviation groMaxLen := 65535 (only parsing).
Abbreviation tcpFlagACK := 0x10 (only parsing).
Abbreviation tcpFlagMask := 0x3f (only parsing).
Abbreviation finPsh := (Z.lor tcpFlagPSH tcpFlagFIN) (only parsing).

Record groGroup := mkGroup {
  arr : bytes; blen : nat; glen : nat; gsegs : nat; gsoSize : nat; nextSeq : Z; nextID : Z; closed : bool }.

(** [groups[:n]]. *)
Definition groTable : Type := list groGroup.

Inductive tun_write := WPlain (pkt : bytes) | WGSO (hdr frame : bytes).

(** ** Packets *)

Definition coalescible (pkt : bytes) : bool :=
  if ((length pkt <? 40)%nat || negb (at_ pkt 0 =? 0x45) || negb (at_ pkt 9 =? protoTCP))%bool then false
  else if negb (be_dec (slice pkt 2 4) =? Z.of_nat (length pkt)) then false
  else if negb (be_dec (slice pkt 6 8) =? 0x4000) then false
  else
    let thl := (Z.to_nat (Z.shiftr (at_ pkt 32) 4) * 4)%nat in
    if ((thl <? 20) || (length pkt <? 20 + thl))%nat then false
    else
      let flags := Z.land (at_ pkt 33) tcpFlagMask in
      if (negb (Z.ldiff flags (Z.lor tcpFlagACK finPsh) =? 0) || (Z.land flags tcpFlagACK =? 0))%bool then false
      else (20 + thl <? length pkt)%nat.

Definition tcpChecksumOK (pkt : bytes) : bool :=
  let acc := onesComplementSum 0 (slice pkt 12 20) in
  let acc := wrap 32 (acc + (protoTCP + Z.of_nat (length pkt - 20))) in
  let acc := onesComplementSum acc (drop 20 pkt) in
  foldSum acc =? 0xffff.

(** ** Groups *)

(** An index expression on the buffer. *)
Definition index (g : groGroup) (i : nat) : option Z := if (i <? blen g)%nat then Some (at_ (arr g) i) else None.

Definition sameFlow (g : groGroup) (pkt : bytes) : bool := bool_decide (slice (arr g) 12 24 = slice pkt 12 24).

Definition canAppend (g : groGroup) (pkt : bytes) : option bool :=
  if closed g then Some false else
  let payload := (length pkt - 40)%nat in
  if negb (Z.shiftr (at_ pkt 32) 4 =? 5) then Some false else
  b32 ← index g 32;
  if negb (Z.shiftr b32 4 =? 5) then Some false
  else if ((gsoSize g <? payload)%nat || (groMaxLen <? Z.of_nat (glen g + payload)))%bool then Some false
  else if negb (be_dec (slice pkt 24 28) =? nextSeq g) then Some false
  else if negb (be_dec (slice pkt 4 6) =? nextID g) then Some false
  else
    b1 ← index g 1; b8 ← index g 8;
    if (negb (at_ pkt 1 =? b1) || negb (at_ pkt 8 =? b8))%bool then Some false
    else if (negb (bool_decide (slice pkt 28 32 = slice (arr g) 28 32)) || negb (bool_decide (slice pkt 34 36 = slice (arr g) 34 36))
             || negb (bool_decide (slice pkt 38 40 = slice (arr g) 38 40)))%bool then Some false
    else
      b33 ← index g 33;
      Some (Z.ldiff (Z.land (at_ pkt 33) tcpFlagMask) finPsh =? Z.ldiff (Z.land b33 tcpFlagMask) finPsh).

Definition start (g : groGroup) (pkt : bytes) : groGroup :=
  mkGroup (blit (arr g) 0 pkt) (length pkt) (length pkt) 1 (length pkt - 40)
    (wrap 32 (be_dec (slice pkt 24 28) + Z.of_nat (length pkt - 40))) (wrap 16 (be_dec (slice pkt 4 6) + 1))
    (negb (Z.land (at_ pkt 33) finPsh =? 0) || negb (Z.shiftr (at_ pkt 32) 4 =? 5)).

Definition append (g : groGroup) (pkt : bytes) : option groGroup :=
  let payload := drop 40 pkt in
  let buf := blit (arr g) (glen g) payload in
  let len := (glen g + length payload)%nat in
  let flags := Z.land (at_ pkt 33) finPsh in
  let short := (length payload <? gsoSize g)%nat in
  let g' := mkGroup buf len len (S (gsegs g)) (gsoSize g) (wrap 32 (nextSeq g + Z.of_nat (length payload))) (wrap 16 (nextID g + 1))
              (closed g || short) in
  if flags =? 0 then Some g'
  else
    b33 ← index g' 33;
    Some (mkGroup (blit buf 33 [Z.lor b33 flags]) len len (S (gsegs g)) (gsoSize g) (nextSeq g') (nextID g') true).

(** The state after the deferred reset. *)
Definition flushed (g : groGroup) (buf : bytes) : groGroup :=
  mkGroup buf (blen g) 0 0 (gsoSize g) (nextSeq g) (nextID g) (closed g).

Definition flush (g : groGroup) : option (list tun_write * groGroup) :=
  if (gsegs g =? 0)%nat then Some ([], g)
  else if (gsegs g =? 1)%nat then Some ([WPlain (take (glen g) (arr g))], flushed g (arr g))
  else if (glen g <=? 11)%nat then None
  else
    let b := blit (arr g) 2 (be_enc 2 (wrap 16 (Z.of_nat (glen g)))) in
    let b := blit b 10 [0; 0] in
    let b := blit b 10 (be_enc 2 (not16 (foldSum (onesComplementSum 0 (take 20 b))))) in
    let l4len := wrap 32 (Z.of_nat (glen g) - 20) in
    let acc := wrap 32 (onesComplementSum 0 (slice b 12 20) + wrap 32 (protoTCP + l4len)) in
    let b := blit b 36 (be_enc 2 (foldSum acc)) in
    let hdr := putVirtioNetHdr (replicate virtioNetHdrLen 0)
                 (mkVnet vnetFlagNeedsCsum vnetGSOTCPv4 40 (wrap 16 (Z.of_nat (gsoSize g))) 20 16) in
    Some ([WGSO hdr (take (glen g) b)], flushed g b).

(** ** The table *)

(** [grab().start]: the storage grabbed may hold an earlier batch's octets, all overwritten where they are read. *)
Definition grab : groGroup := mkGroup [] 0 0 0 0 0 0 false.

Fixpoint add_loop (t : groTable) (pkt : bytes) : option (list tun_write * groTable) :=
  match t with
  | [] => Some ([], [start grab pkt])
  | g :: t =>
      if sameFlow g pkt then
        can ← canAppend g pkt;
        if can : bool then g ← append g pkt; Some ([], g :: t)
        else '(ws, g) ← flush g; Some (ws, start g pkt :: t)
      else '(ws, t) ← add_loop t pkt; Some (ws, g :: t)
  end.

Fixpoint flush_loop (t : groTable) (pkt : bytes) : option (list tun_write * groTable) :=
  match t with
  | [] => Some ([], [])
  | g :: t =>
      if ((0 <? gsegs g)%nat && sameFlow g pkt)%bool then '(ws, g) ← flush g; Some (ws, g :: t)
      else '(ws, t) ← flush_loop t pkt; Some (ws, g :: t)
  end.

Definition flushSameFlow (t : groTable) (pkt : bytes) : option (list tun_write * groTable) :=
  if ((length pkt <? 24)%nat || negb (at_ pkt 0 =? 0x45) || negb (at_ pkt 9 =? protoTCP))%bool then Some ([], t)
  else flush_loop t pkt.

(** Whether the table took the packet, the writes made, the table. *)
Definition add (t : groTable) (pkt : bytes) : option (bool * list tun_write * groTable) :=
  if (negb (coalescible pkt) || negb (tcpChecksumOK pkt))%bool
  then '(ws, t) ← flushSameFlow t pkt; Some (false, ws, t)
  else '(ws, t) ← add_loop t pkt; Some (true, ws, t).

(** The flush of every group at the end of a batch. *)
Fixpoint flush_all (t : groTable) : option (list tun_write) :=
  match t with
  | [] => Some []
  | g :: t => '(ws, _) ← flush g; ws' ← flush_all t; Some (ws ++ ws')
  end.

(** One packet offered, and written through if the table did not take it. *)
Definition offer (t : groTable) (pkt : bytes) : option (list tun_write * groTable) :=
  '(taken, ws, t) ← add t pkt;
  Some (if taken : bool then (ws, t) else (ws ++ [WPlain pkt], t)).

(** The TUN writes of a batch of inner packets. *)
Fixpoint offer_all (t : groTable) (pkts : list bytes) : option (list tun_write) :=
  match pkts with
  | [] => flush_all t
  | pkt :: pkts => '(ws, t) ← offer t pkt; ws' ← offer_all t pkts; Some (ws ++ ws')
  end.

(** ** What the stack sees *)

(** A super-frame is seen as the segments it stands for. *)
Definition seen (w : tun_write) : list bytes :=
  match w with
  | WPlain pkt => [pkt]
  | WGSO hdr frame => match segmentTSO4 frame (parseVirtioNetHdr hdr) with Ok l => l | Err _ => [] end
  end.

(** The flow of a packet [flushSameFlow] can name; every other packet is in the class [None]. *)
Definition flow_of (pkt : bytes) : option bytes :=
  if ((length pkt <? 24)%nat || negb (at_ pkt 0 =? 0x45) || negb (at_ pkt 9 =? protoTCP))%bool then None
  else Some (slice pkt 12 24).

(** The octets [canAppend] and [tcpChecksumOK] do not look at are as a sender without ECN
    makes them: a right IP checksum, reserved bits zero, neither ECE nor CWR, and no
    checksum in its second form. *)
Record clean (p : bytes) : Prop := {
  cl_ip : ip_verifies 20 p;
  cl_ip_form : slice p 10 12 <> [255; 255];
  cl_tcp_form : slice p 36 38 <> [255; 255];
  cl_reserved : Z.land (at_ p 32) 15 = 0;
  cl_ecn : at_ p 33 < 64;
}.

Lemma slice2 (p : bytes) off : (off + 2 <= length p)%nat -> slice p off (off + 2) = [at_ p off; at_ p (S off)].
Proof.
  intros H. apply list_eq. intros k. rewrite lookup_slice. unfold at_.
  destruct k as [|[|k]]; cbn; [| |by rewrite decide_False by lia].
  - rewrite decide_True, Nat.add_0_r by lia. destruct (lookup_lt_is_Some_2 p off) as [x E]; [lia|]. by rewrite E.
  - rewrite decide_True by lia. replace (off + 1)%nat with (S off) by lia. destruct (lookup_lt_is_Some_2 p (S off)) as [x E]; [lia|]. by rewrite E.
Qed.

(** A field that verifies is the one the sender computed. *)
Lemma field_checksum s b off :
  bytes_ok b -> Nat.Even off -> (off + 2 <= length b)%nat -> Z.of_nat (length b) <= 65535 -> 0 <= s < 2 ^ 24 ->
  0 < s + wsum (blit b off [0; 0]) -> foldSum (s + wsum b) = 65535 -> slice b off (off + 2) <> [255; 255] ->
  be_enc 2 (checksumFold (s + wsum (blit b off [0; 0]))) = slice b off (off + 2).
Proof.
  intros Hb He Hl Hm Hs H0 Hf Hn. rewrite slice2 in * by done. set (x := at_ b off) in *. set (y := at_ b (S off)) in *.
  assert (0 <= x < 256 /\ 0 <= y < 256) as [Hx Hy] by (split; by apply at_bytes_ok).
  assert (wsum b = wsum (blit b off [0; 0]) + (x * 256 + y)) as Ew.
  { rewrite <- wsum_blit by done. f_equal. subst x y. rewrite <- slice2 by done. by rewrite blit_slice_id. }
  set (z := wsum (blit b off [0; 0])) in *. pose proof (wsum_half b Hb) as Hw.
  rewrite <- (checksum_unique (s + z) (x * 256 + y)); unfold uint; try lia.
  - change (be_enc 2 (x * 256 + y)) with [(x * 256 + y) / 256 mod 256; (x * 256 + y) / 1 mod 256].
    rewrite Z.div_add_l, (Z.div_small y), Z.add_0_r, (Z.mod_small x) by lia. rewrite Z.div_1_r, Z.add_comm, Z.mod_add, Z.mod_small by lia. done.
  - intros E. apply Hn. assert (x = 255 /\ y = 255) as [-> ->] by lia. done.
  - by rewrite <- Z.add_assoc, <- Ew.
Qed.

Lemma wsum_zero_hi b off : bytes_ok b -> Nat.Even off -> (off + 2 <= length b)%nat -> 0 <= wsum (blit b off [0; 0]).
Proof.
  intros Hb He Hl. assert (bytes_ok (blit b off [0; 0])) as H by (apply blit_ok; [done|repeat constructor; lia]).
  pose proof (wsum_half _ H). lia.
Qed.

Lemma coalescible_inv p :
  coalescible p = true ->
  (40 < length p)%nat /\ at_ p 0 = 0x45 /\ at_ p 9 = 6 /\ be_dec (slice p 2 4) = Z.of_nat (length p) /\ be_dec (slice p 6 8) = 0x4000.
Proof.
  unfold coalescible. destruct (_ || _ || _) eqn:E1; [done|]. apply orb_false_iff in E1 as [E1 E3]. apply orb_false_iff in E1 as [E1 E2].
  apply Nat.ltb_ge in E1. apply negb_false_iff, Z.eqb_eq in E2, E3.
  destruct (Z.eqb_spec (be_dec (slice p 2 4)) (Z.of_nat (length p))); [|done].
  destruct (Z.eqb_spec (be_dec (slice p 6 8)) 16384); [|done]. cbn [negb].
  destruct (_ || _)%bool eqn:E4; [done|]. apply orb_false_iff in E4 as [E4%Nat.ltb_ge E5%Nat.ltb_ge].
  destruct (_ || _)%bool; [done|]. intros E6%Nat.ltb_lt. split_and!; try done. lia.
Qed.

(** A clean segment that passed verification has the checksums segmentation gives it. *)
Lemma clean_canonical p :
  bytes_ok p -> coalescible p = true -> tcpChecksumOK p = true -> clean p -> seg_checksums 20 p = p.
Proof.
  intros Hb Hc Ht [C1 C2 C3 _ _]. apply coalescible_inv in Hc as (Hl & H0 & _ & Hlen & _).
  assert (Z.of_nat (length p) <= 65535) as Hm.
  { rewrite <- Hlen. pose proof (be_dec_range (slice p 2 4) ltac:(by apply slice_ok)) as B. rewrite length_slice in B by lia.
    change (256 ^ Z.of_nat (4 - 2)) with 65536 in B. lia. }
  assert (bytes_ok (take 20 p)) as Bt by by apply Forall_take. assert (bytes_ok (drop 20 p)) as Bd by by apply Forall_drop.
  assert (length (take 20 p) = 20%nat) as Lt by (rewrite length_take; lia).
  unfold seg_checksums. cbv zeta. rewrite !not16_foldSum.
  assert (be_enc 2 (checksumFold (onesComplementSum 0 (take 20 (blit p 10 [0; 0])))) = slice p 10 12) as ->.
  { rewrite take_blit, onesComplementSum_eq by (cbn [length]; lia || (apply blit_ok; [done|repeat constructor; lia])).
    assert (bytes_ok (blit (take 20 p) 10 [0; 0])) as B0 by (apply blit_ok; [done|repeat constructor; lia]).
    assert (length (blit (take 20 p) 10 [0; 0]) = 20%nat) as L0 by (rewrite length_blit; cbn [length]; lia).
    pose proof (wsum_half _ B0) as Hw. rewrite L0 in Hw. rewrite checksumAccumulate_wsum by (done || lia).
    assert (0 < wsum (blit (take 20 p) 10 [0; 0])) as Hpos.
    { destruct p as [|x [|y p']]; [done..|]. cbn [at_ lookup list_lookup default] in H0. cbn in H0. subst x.
      change (blit (take 20 (0x45 :: y :: p')) 10 [0; 0]) with (0x45 :: y :: blit (take 18 p') 8 [0; 0]).
      change (blit (take 20 (0x45 :: y :: p')) 10 [0; 0]) with (0x45 :: y :: blit (take 18 p') 8 [0; 0]) in B0.
      apply Forall_cons in B0 as [_ B0]. apply Forall_cons in B0 as [? B0]. pose proof (wsum_half _ B0). cbn [wsum]. lia. }
    change (slice p 10 12) with (slice p 10 (10 + 2)) in *.
    assert (slice p 10 (10 + 2) = slice (take 20 p) 10 (10 + 2)) as E by (unfold slice; rewrite skipn_firstn_comm, take_take; done).
    rewrite E in *. apply (field_checksum 0); first [done | by exists 5%nat | lia | idtac].
    unfold ip_verifies in C1. rewrite onesComplementSum_eq in C1 by done. pose proof (wsum_half _ Bt) as Hw'. rewrite Lt in Hw'.
    by rewrite checksumAccumulate_wsum in C1 by (done || lia). }
  rewrite !(blit_blit p 10 [0; 0]) by (rewrite ?length_slice; cbn [length]; lia). rewrite !(blit_slice_id p 10 2 : _ -> blit p 10 (slice p 10 12) = p) by lia.
  assert (length (blit p (20 + 16) [0; 0]) = length p) as Lz by (apply length_blit; cbn [length]; lia). rewrite Lz.
  rewrite slice_blit_before by (cbn [length]; lia). rewrite drop_blit by lia.
  destruct (pseudo_sum (slice p 12 20) (length p - 20)) as [Es Hs]; [by apply slice_ok|rewrite length_slice; lia|lia|].
  unfold tcpChecksumOK in Ht. rewrite Es in *. set (s := onesComplementSum 0 _ + _) in *.
  assert (length (drop 20 p) = (length p - 20)%nat) as Ld by apply length_drop.
  assert (bytes_ok (blit (drop 20 p) (20 + 16 - 20) [0; 0])) as B0 by (apply blit_ok; [done|repeat constructor; lia]).
  assert (length (blit (drop 20 p) (20 + 16 - 20) [0; 0]) = (length p - 20)%nat) as L0 by (rewrite length_blit; cbn [length]; lia).
  rewrite onesComplementSum_eq in * by done. pose proof (wsum_half _ B0) as Hw. rewrite L0 in Hw. pose proof (wsum_half _ Bd) as Hw'. rewrite Ld in Hw'.
  rewrite checksumAccumulate_wsum in * by (done || lia). apply Z.eqb_eq in Ht.
  assert (slice p 36 38 = slice (drop 20 p) 16 (16 + 2)) as E by (rewrite <- slice_drop; done).
  rewrite E in C3. change (20 + 16 - 20)%nat with 16%nat in *.
  rewrite (field_checksum s (drop 20 p) 16); first [done | by exists 8%nat | lia | idtac].
  rewrite <- E. rewrite blit_blit by (rewrite ?length_slice; cbn [length]; lia). apply (blit_slice_id p 36 2 : _ -> blit p 36 (slice p 36 38) = p). lia.
Qed.

(** ** Packets by their fields *)

Lemma slice_join (p : bytes) a b c : (a <= b <= c)%nat -> slice p a c = slice p a b ++ slice p b c.
Proof.
  intros H. unfold slice. rewrite <- (take_drop (b - a) (drop a p)) at 1. rewrite drop_drop. replace (a + (b - a))%nat with b by lia.
  rewrite take_app. rewrite take_take, Nat.min_r by lia. f_equal. rewrite length_take, length_drop.
  destruct (decide (b <= length p)%nat); [f_equal; lia|]. by rewrite !(drop_ge p b), !take_nil by lia.
Qed.

Lemma join_eq (p q : bytes) a b c :
  (a <= b <= c)%nat -> slice p a b = slice q a b -> slice p b c = slice q b c -> slice p a c = slice q a c.
Proof. intros H E1 E2. by rewrite (slice_join p a b c), (slice_join q a b c), E1, E2. Qed.

Lemma slice1 (p : bytes) k : (k < length p)%nat -> slice p k (S k) = [at_ p k].
Proof.
  intros H. unfold slice, at_. replace (S k - k)%nat with 1%nat by lia. destruct (lookup_lt_is_Some_2 p k H) as [x E].
  rewrite (drop_S _ x) by done. by rewrite E.
Qed.

(** The checksum fields' old contents do not matter. *)
Lemma seg_checksums_pieces (A X B C Y D X' Y' : bytes) :
  length A = 10%nat -> length X = 2%nat -> length X' = 2%nat -> length B = 8%nat -> length C = 16%nat ->
  length Y = 2%nat -> length Y' = 2%nat ->
  seg_checksums 20 (A ++ X ++ B ++ C ++ Y ++ D) = seg_checksums 20 (A ++ X' ++ B ++ C ++ Y' ++ D).
Proof.
  intros LA LX LX' LB LC LY LY'. unfold seg_checksums. cbv zeta.
  assert (forall V W Z, length V = 2%nat -> length W = 2%nat -> blit (A ++ V ++ Z) 10 W = A ++ W ++ Z) as K1 by (intros; apply blit_mid; lia).
  assert (forall V W Z U, length Z = 2%nat -> length V = 2%nat -> length U = 2%nat -> blit (A ++ V ++ B ++ C ++ Z ++ W) (20 + 16) U = A ++ V ++ B ++ C ++ U ++ W) as K2.
  { intros V W Z U L1 L2 L3. rewrite !app_assoc, <- (app_assoc _ Z W), blit_mid; [by rewrite !app_assoc|rewrite !length_app; lia|lia]. }
  assert (forall V W Z, length V = 2%nat -> take 20 (A ++ V ++ B ++ C ++ W ++ Z) = A ++ V ++ B) as K3.
  { intros V W Z L. rewrite (app_assoc A), (app_assoc _ B), take_app_length' by (rewrite !length_app; lia). by rewrite <- app_assoc. }
  assert (length (be_enc 2 0) = 2%nat) as Le by done.
  rewrite !(K1 X), !(K1 X'), !(K1 [0; 0]) by (done || apply length_be_enc). rewrite !K3 by done.
  rewrite !(K2 (be_enc 2 _)) by (done || apply length_be_enc). done.
Qed.

(** Two packets equal outside their checksum fields. *)
Definition same_core (p q : bytes) : Prop :=
  length p = length q /\ slice p 0 10 = slice q 0 10 /\ slice p 12 36 = slice q 12 36 /\ drop 38 p = drop 38 q.

Lemma in_pieces (p : bytes) : (40 <= length p)%nat ->
  p = slice p 0 10 ++ slice p 10 12 ++ slice p 12 20 ++ slice p 20 36 ++ slice p 36 38 ++ drop 38 p.
Proof.
  intros H. rewrite (drop_as_slice p 38).
  rewrite <- (slice_join p 36 38), <- (slice_join p 20 36), <- (slice_join p 12 20), <- (slice_join p 10 12), <- (slice_join p 0 10) by lia.
  by rewrite slice_all.
Qed.

Lemma seg_checksums_core p q : same_core p q -> (40 <= length p)%nat -> seg_checksums 20 p = seg_checksums 20 q.
Proof.
  intros (L & E1 & E2 & E3) Hl. rewrite (in_pieces p Hl), (in_pieces q) by lia. rewrite E1, E3.
  assert (slice p 12 20 = slice q 12 20 /\ slice p 20 36 = slice q 20 36) as [-> ->].
  { rewrite (slice_join p 12 20 36), (slice_join q 12 20 36) in E2 by lia. apply app_inj_1 in E2; [done|]. rewrite !length_slice by lia. done. }
  apply seg_checksums_pieces; rewrite length_slice by lia; lia.
Qed.

(** Packet [p] is segment [i] of [n] of the frame held in [b], up to its length and checksum fields. *)
Record member (b : bytes) (len gso n i : nat) (p : bytes) : Prop := {
  mb_same : Forall (fun '(x, y) => slice p x y = slice b x y) [(0, 2); (6, 10); (12, 24); (28, 33); (34, 36); (38, 40)]%nat;
  mb_len : slice p 2 4 = be_enc 2 (Z.of_nat (length p));
  mb_id : slice p 4 6 = be_enc 2 (wrap 16 (be_dec (slice b 4 6) + Z.of_nat i));
  mb_seq : slice p 24 28 = be_enc 4 (wrap 32 (be_dec (slice b 24 28) + Z.of_nat (i * gso)));
  mb_flags : at_ p 33 = if (i =? n - 1)%nat then at_ b 33 else Z.ldiff (at_ b 33) 9;
  mb_payload : drop 40 p = take gso (drop (i * gso) (slice b 40 len));
  mb_canon : seg_checksums 20 p = p;
  mb_long : (40 < length p)%nat;
}.

Lemma slice_take (b : bytes) n x y : (y <= n)%nat -> slice (take n b) x y = slice b x y.
Proof. intros H. unfold slice. rewrite skipn_firstn_comm, take_take. f_equal. lia. Qed.

Lemma member_segment b len gso n i p :
  bytes_ok b -> (40 < len <= length b)%nat -> Z.of_nat len <= groMaxLen -> (0 < gso)%nat -> (i * gso < len - 40)%nat ->
  member b len gso n i p -> segment (take len b) 20 20 gso n i = p.
Proof.
  intros Hb Hl Hm Hg Hi [M1 M2 M3 M4 M5 M6 M7 M8].
  assert (length (take len b) = len) as Lf by (rewrite length_take; lia).
  assert (drop (20 + 20) (take len b) = slice b 40 len) as Ep by (unfold slice; by rewrite skipn_firstn_comm).
  destruct (pre_props (take len b) 20 20 gso n i) as (L & B & P1 & P2 & P3 & P4 & P5 & P6);
    [by apply Forall_take|lia|lia|lia|lia|rewrite length_drop; lia|]. rewrite segment_pre.
  match goal with |- seg_checksums 20 ?x = _ => set (pre := x) in * end.
  rewrite <- M7. symmetry. apply seg_checksums_core; [|lia].
  rewrite Ep in *. rewrite <- M6 in P1. assert (length pre = length p) as Lp.
  { rewrite L. assert (length (drop 40 p) = Nat.min gso (length (slice b 40 len) - i * gso)) as E by (rewrite M6, length_take, length_drop; done).
    rewrite length_drop in E. lia. }
  repeat (apply Forall_cons in M1 as [? M1]).
  assert (forall x y, (y <= 2 \/ 6 <= x /\ y <= 24 \/ 28 <= x /\ y <= 33 \/ 34 <= x)%nat -> (y <= 40)%nat -> slice pre x y = slice b x y) as Q
    by (intros; rewrite P6, slice_take by lia; done).
  change (20 + 4)%nat with 24%nat in *. change (20 + 8)%nat with 28%nat in *. change (20 + 13)%nat with 33%nat in *.
  rewrite !slice_take in P3, P4 by lia.
  assert (at_ (take len b) 33 = at_ b 33) as E33 by (unfold at_; rewrite lookup_take_lt by lia; done). rewrite E33 in P5.
  split_and!; [done|..].
  - apply (join_eq _ _ 0 2 10); [lia|by rewrite Q by lia|]. apply (join_eq _ _ 2 4 10); [lia|by rewrite P2, M2, <- Lp, L|].
    apply (join_eq _ _ 4 6 10); [lia|by rewrite P3, M3|by rewrite Q by lia].
  - apply (join_eq _ _ 12 24 36); [lia|by rewrite Q by lia|]. apply (join_eq _ _ 24 28 36); [lia|by rewrite P4, M4|].
    apply (join_eq _ _ 28 33 36); [lia|by rewrite Q by lia|]. apply (join_eq _ _ 33 34 36); [lia| |by rewrite Q by lia].
    by rewrite !slice1, P5, M5 by lia.
  - rewrite !drop_as_slice, Lp. apply (join_eq _ _ 38 40); [lia|by rewrite Q by lia|].
    rewrite <- (drop_as_slice p 40), <- P1, <- Lp. apply drop_as_slice.
Qed.

(** ** Groups and the packets they hold *)

Definition key (g : groGroup) : bytes := slice (arr g) 12 24.

(** A group that coalesces the packets [ps]. *)
Record running (g : groGroup) (ps : list bytes) : Prop := {
  ru_segs : gsegs g = length ps;
  ru_one : forall p, ps = [p] -> take (glen g) (arr g) = p;
  ru_len : blen g = glen g /\ (40 < glen g <= length (arr g))%nat /\ Z.of_nat (glen g) <= groMaxLen;
  ru_bytes : bytes_ok (arr g);
  ru_hdr : at_ (arr g) 0 = 0x45 /\ at_ (arr g) 9 = 6 /\ slice (arr g) 6 8 = [0x40; 0] /\ at_ (arr g) 32 = 0x50 /\ at_ (arr g) 33 < 64;
  ru_gso : (0 < gsoSize g)%nat /\ ((length ps - 1) * gsoSize g < glen g - 40 <= length ps * gsoSize g)%nat;
  ru_members : forall i p, ps !! i = Some p -> member (arr g) (glen g) (gsoSize g) (length ps) i p;
  ru_open : closed g = false ->
    (glen g - 40 = length ps * gsoSize g)%nat /\ Z.land (at_ (arr g) 33) 9 = 0 /\
    nextSeq g = wrap 32 (be_dec (slice (arr g) 24 28) + Z.of_nat (length ps * gsoSize g)) /\
    nextID g = wrap 16 (be_dec (slice (arr g) 4 6) + Z.of_nat (length ps));
}.

Inductive holds (g : groGroup) : list bytes -> Prop :=
| holds_none : gsegs g = 0%nat -> holds g []
| holds_one p : gsegs g = 1%nat -> closed g = true -> take (glen g) (arr g) = p -> holds g [p]
| holds_run ps : ps <> [] -> running g ps -> holds g ps.

(** What the coalescing rules and the cleanliness of a segment give. *)
Record mergeable (p : bytes) : Prop := {
  me_bytes : bytes_ok p;
  me_co : coalescible p = true;
  me_sum : tcpChecksumOK p = true;
  me_clean : clean p;
}.

Lemma be_enc_slice p a b : bytes_ok p -> (a <= b <= length p)%nat -> be_enc (b - a) (be_dec (slice p a b)) = slice p a b.
Proof. intros Hb H. rewrite <- (length_slice p a b) at 1 by lia. apply be_enc_dec. by apply slice_ok. Qed.

Lemma be_dec_slice_range p a b : bytes_ok p -> (a <= b <= length p)%nat -> 0 <= be_dec (slice p a b) < 2 ^ (8 * Z.of_nat (b - a)).
Proof. intros Hb H. pose proof (be_dec_range (slice p a b) ltac:(by apply slice_ok)) as R. by rewrite length_slice, pow256_2 in R by lia. Qed.

Lemma mergeable_inv p :
  mergeable p ->
  (40 < length p)%nat /\ Z.of_nat (length p) <= groMaxLen /\ at_ p 0 = 0x45 /\ at_ p 9 = 6 /\ slice p 6 8 = [0x40; 0] /\ slice p 2 4 = be_enc 2 (Z.of_nat (length p)) /\
  0 <= at_ p 33 < 64 /\ seg_checksums 20 p = p /\ (Z.shiftr (at_ p 32) 4 = 5 -> at_ p 32 = 0x50).
Proof.
  intros [Hb Hc Ht Hcl]. pose proof (clean_canonical p Hb Hc Ht Hcl) as Hcan.
  apply coalescible_inv in Hc as (Hl & H0 & H9 & H2 & H6).
  pose proof (be_dec_slice_range p 2 4 Hb ltac:(lia)) as R. change (2 ^ (8 * Z.of_nat (4 - 2))) with 65536 in R.
  destruct Hcl as [_ _ _ C4 C5]. split_and!; [lia|lia|done|done| | | |done|done|].
  - transitivity (be_enc 2 0x4000); [|done]. rewrite <- H6. symmetry. apply (be_enc_slice p 6 8); [done|lia].
  - rewrite <- H2. symmetry. apply (be_enc_slice p 2 4); [done|lia].
  - by apply at_bytes_ok.
  - intros E. pose proof (at_bytes_ok p 32 Hb). rewrite Z.shiftr_div_pow2 in E by lia. change 15 with (Z.ones 4) in C4.
    rewrite Z.land_ones in C4 by lia. pose proof (Z.div_mod (at_ p 32) 16 ltac:(lia)). change (2 ^ 4) with 16 in *. lia.
Qed.

Lemma slice_start g p a b : (b <= length p)%nat -> slice (arr (start g p)) a b = slice p a b.
Proof. intros H. cbn [start arr]. unfold blit. rewrite take_0. cbn [app]. by apply slice_app_l. Qed.

Lemma at_start g p k : (k < length p)%nat -> at_ (arr (start g p)) k = at_ p k.
Proof. intros H. cbn [start arr]. unfold blit. rewrite take_0. cbn [app]. by apply at_app_l. Qed.

Lemma start_holds g p :
  bytes_ok (arr g) -> mergeable p -> holds (start g p) [p] /\ key (start g p) = slice p 12 24.
Proof.
  intros Hg HM. pose proof (me_bytes p HM) as Hb. destruct (mergeable_inv p HM) as (Hl & Hm & H0 & H9 & H6 & H2 & H33 & Hcan & H32).
  assert (take (length p) (arr (start g p)) = p) as Et by (cbn [start arr]; unfold blit; rewrite take_0; cbn [app]; apply take_app_length).
  split; [|apply slice_start; lia].
  destruct (Z.eqb_spec (Z.shiftr (at_ p 32) 4) 5) as [E5|E5].
  2: { apply holds_one; [done| |done]. cbn [start closed]. rewrite (proj2 (Z.eqb_neq _ _) E5). apply orb_true_r. }
  apply holds_run; [done|]. specialize (H32 E5). split; cbn [length].
  - done.
  - by intros ? [= <-].
  - cbn [start blen glen]. split_and!; try lia. cbn [start arr]. unfold blit. rewrite !length_app. lia.
  - cbn [start arr]. by apply blit_ok.
  - rewrite !at_start, slice_start by lia. split_and!; try done. lia.
  - cbn [start glen gsoSize]. lia.
  - intros [|i] q; [|done]. intros [= <-]. split; try done.
    + repeat (apply Forall_cons; split; [by rewrite slice_start by lia|]). done.
    + rewrite slice_start by lia. change (Z.of_nat 0) with 0. rewrite Z.add_0_r. pose proof (be_dec_slice_range p 4 6 Hb ltac:(lia)).
      rewrite wrap_small by done. symmetry. apply (be_enc_slice p 4 6); [done|lia].
    + rewrite slice_start, Nat.mul_0_l by lia. change (Z.of_nat 0) with 0. rewrite Z.add_0_r. pose proof (be_dec_slice_range p 24 28 Hb ltac:(lia)).
      rewrite wrap_small by done. symmetry. apply (be_enc_slice p 24 28); [done|lia].
    + by rewrite at_start by lia.
    + rewrite Nat.mul_0_l, drop_0. cbn [start glen gsoSize]. rewrite slice_start by lia. rewrite <- drop_as_slice.
      by rewrite take_ge by (rewrite length_drop; lia).
  - cbn [start closed]. intros [E1 _]%orb_false_iff. apply negb_false_iff, Z.eqb_eq in E1.
    split_and!; [cbn [start glen gsoSize]; lia|by rewrite at_start by lia|..]; rewrite slice_start by lia; cbn [start nextSeq nextID gsoSize].
    + by rewrite Nat.mul_1_l.
    + done.
Qed.

(** What [canAppend] established. *)
Record next_of (g : groGroup) (q : bytes) : Prop := {
  ne_open : closed g = false;
  ne_off : Z.shiftr (at_ q 32) 4 = 5;
  ne_size : (length q - 40 <= gsoSize g)%nat /\ Z.of_nat (glen g + (length q - 40)) <= groMaxLen;
  ne_seq : be_dec (slice q 24 28) = nextSeq g;
  ne_id : be_dec (slice q 4 6) = nextID g;
  ne_same : at_ q 1 = at_ (arr g) 1 /\ at_ q 8 = at_ (arr g) 8 /\ slice q 28 32 = slice (arr g) 28 32 /\
    slice q 34 36 = slice (arr g) 34 36 /\ slice q 38 40 = slice (arr g) 38 40;
  ne_flags : Z.ldiff (Z.land (at_ q 33) tcpFlagMask) 9 = Z.ldiff (Z.land (at_ (arr g) 33) tcpFlagMask) 9;
}.

Lemma canAppend_inv g q : canAppend g q = Some true -> next_of g q.
Proof.
  unfold canAppend, index. destruct (closed g) eqn:Ec; [done|]. destruct (Z.eqb_spec (Z.shiftr (at_ q 32) 4) 5); [|done]. cbn [negb].
  destruct (32 <? blen g)%nat; [|done]. cbn [mbind option_bind]. destruct (negb _); [done|].
  destruct (_ || _)%bool eqn:E1; [done|]. apply orb_false_iff in E1 as [E1%Nat.ltb_ge E2%Z.ltb_ge].
  destruct (Z.eqb_spec (be_dec (slice q 24 28)) (nextSeq g)); [|done]. destruct (Z.eqb_spec (be_dec (slice q 4 6)) (nextID g)); [|done]. cbn [negb].
  destruct (1 <? blen g)%nat; [|done]. destruct (8 <? blen g)%nat; [|done]. cbn [mbind option_bind].
  destruct (_ || _)%bool eqn:E3; [done|]. apply orb_false_iff in E3 as [E3%negb_false_iff%Z.eqb_eq E4%negb_false_iff%Z.eqb_eq].
  destruct (_ || _)%bool eqn:E5; [done|]. apply orb_false_iff in E5 as [E5 E7]. apply orb_false_iff in E5 as [E5 E6].
  apply negb_false_iff, bool_decide_eq_true in E5, E6, E7.
  destruct (33 <? blen g)%nat; [|done]. cbn [mbind option_bind]. intros [= E8%Z.eqb_eq]. by split.
Qed.

Lemma octet_lor_land x y : 0 <= x < 256 -> 0 <= y < 256 -> 0 <= Z.lor x (Z.land y 9) < 256.
Proof.
  intros Hx Hy. assert (0 <= Z.lor x (Z.land y 9)) as H0 by (apply Z.lor_nonneg; split; [lia|]; apply Z.land_nonneg; lia).
  split; [done|]. destruct (Z.eq_dec (Z.lor x (Z.land y 9)) 0) as [->|Hn]; [done|]. apply (Z.log2_lt_pow2 _ 8); [lia|].
  rewrite Z.log2_lor by (done || lia || (apply Z.land_nonneg; lia)).
  assert (Z.log2 (Z.land y 9) <= Z.log2 9) as H9 by (pose proof (Z.log2_land y 9 ltac:(lia) ltac:(lia)); lia). change (Z.log2 9) with 3 in H9.
  assert (Z.log2 x <= Z.log2 255) by (apply Z.log2_le_mono; lia). change (Z.log2 255) with 7 in *. lia.
Qed.

(** The group's buffer after a segment was appended. *)
Definition joined (g : groGroup) (q : bytes) : bytes :=
  blit (blit (arr g) (glen g) (drop 40 q)) 33 [Z.lor (at_ (arr g) 33) (Z.land (at_ q 33) 9)].

Lemma joined_props g ps q :
  running g ps -> bytes_ok q -> (40 < length q)%nat ->
  let b := joined g q in let len := (glen g + (length q - 40))%nat in
  bytes_ok b /\ (len <= length b)%nat /\ at_ b 33 = Z.lor (at_ (arr g) 33) (Z.land (at_ q 33) 9) /\
  slice b 40 len = slice (arr g) 40 (glen g) ++ drop 40 q /\
  (forall x y, (y <= 33 \/ 34 <= x)%nat -> (y <= 40)%nat -> slice b x y = slice (arr g) x y).
Proof.
  intros [_ _ (_ & Hl & _) Hb _ _ _ _] Hq Hlq b len.
  set (b1 := blit (arr g) (glen g) (drop 40 q)). pose (x33 := [Z.lor (at_ (arr g) 33) (Z.land (at_ q 33) 9)]). change b with (blit b1 33 x33).
  assert (length (drop 40 q) = (length q - 40)%nat) as Ld by apply length_drop.
  assert (length b1 = Nat.max (length (arr g)) len) as L1 by (unfold b1, blit; rewrite !length_app, length_take, !length_drop; lia).
  assert (bytes_ok b1) as B1 by (apply blit_ok; [done|by apply Forall_drop]).
  assert (forall x y, (y <= glen g)%nat -> slice b1 x y = slice (arr g) x y) as S1.
  { intros x y H. unfold b1, blit. rewrite slice_app_l by (rewrite length_take; lia). by apply slice_take. }
  assert (slice b1 40 len = slice (arr g) 40 (glen g) ++ drop 40 q) as S2.
  { rewrite (slice_join b1 40 (glen g) len) by lia. rewrite S1 by lia. f_equal. unfold b1, blit.
    rewrite slice_app_r by (rewrite length_take; lia). rewrite length_take, Nat.min_l, Nat.sub_diag by lia. apply slice_hd. lia. }
  assert (forall x y, (y <= 33 \/ 34 <= x)%nat -> slice (blit b1 33 x33) x y = slice b1 x y) as S3.
  { intros x y [H|H]; [apply slice_blit_before|apply slice_blit_after]; cbn [length x33]; lia. }
  split_and!.
  - apply blit_ok; [done|]. apply Forall_singleton. pose proof (at_bytes_ok (arr g) 33 Hb) as Ha. pose proof (at_bytes_ok q 33 Hq) as Hq'.
    by apply (octet_lor_land (at_ (arr g) 33) (at_ q 33)).
  - rewrite length_blit; cbn [length x33]; lia.
  - rewrite at_blit_in by (cbn [length x33]; lia). by rewrite Nat.sub_diag.
  - rewrite S3 by lia. done.
  - intros x y H H'. rewrite S3, S1 by lia. done.
Qed.

(** Flags: a group that may still grow has neither FIN nor PSH, and a segment brings its own. *)
Lemma flags_join a q :
  0 <= a < 64 -> 0 <= q < 64 -> Z.land a 9 = 0 -> Z.ldiff (Z.land q 63) 9 = Z.ldiff (Z.land a 63) 9 ->
  Z.ldiff (Z.lor a (Z.land q 9)) 9 = a /\ Z.ldiff a 9 = a /\ q = Z.lor a (Z.land q 9).
Proof.
  intros Ha Hq H9. change 63 with (Z.ones 6). rewrite !Z.land_ones, !Z.mod_small by lia. intros E.
  assert (Z.ldiff a 9 = a) as Ea.
  { apply Z.bits_inj'. intros n Hn. rewrite Z.ldiff_spec. apply (f_equal (fun z => Z.testbit z n)) in H9. rewrite Z.land_spec, Z.bits_0 in H9.
    by destruct (Z.testbit a n), (Z.testbit 9 n). }
  split_and!; [|done|].
  - apply Z.bits_inj'. intros n Hn. rewrite Z.ldiff_spec, Z.lor_spec, Z.land_spec.
    apply (f_equal (fun z => Z.testbit z n)) in H9. rewrite Z.land_spec, Z.bits_0 in H9.
    by destruct (Z.testbit a n), (Z.testbit q n), (Z.testbit 9 n).
  - rewrite <- Ea at 1. rewrite <- E. symmetry. apply Z.lor_ldiff_and.
Qed.

Lemma append_joined g ps q :
  running g ps -> append g q = Some (mkGroup (joined g q) (glen g + length (drop 40 q)) (glen g + length (drop 40 q)) (S (gsegs g)) (gsoSize g)
    (wrap 32 (nextSeq g + Z.of_nat (length (drop 40 q)))) (wrap 16 (nextID g + 1))
    (closed g || (length (drop 40 q) <? gsoSize g)%nat || negb (Z.land (at_ q 33) finPsh =? 0))).
Proof.
  intros [_ _ (Hbl & Hl & _) Hb _ _ _ _]. unfold append, joined.
  assert (at_ (blit (arr g) (glen g) (drop 40 q)) 33 = at_ (arr g) 33) as E33.
  { unfold blit. rewrite at_app_l by (rewrite length_take; lia). unfold at_. by rewrite lookup_take_lt by lia. }
  destruct (Z.eqb_spec (Z.land (at_ q 33) (Z.lor 8 1)) 0) as [E|E]; cbn [negb].
  - change (Z.lor 8 1) with 9 in E. rewrite E, Z.lor_0_r, orb_false_r. f_equal. f_equal. rewrite <- E33.
    set (b := blit (arr g) (glen g) (drop 40 q)). assert (33 < length b)%nat as Lb by (unfold b, blit; rewrite !length_app, length_take; lia).
    rewrite <- (slice1 b 33) by done. symmetry. by apply (blit_slice_id b 33 1).
  - unfold index. cbn [blen arr]. rewrite (proj2 (Nat.ltb_lt 33 _)) by lia. cbn [mbind option_bind]. by rewrite E33, orb_true_r.
Qed.

Lemma running_flags g ps : running g ps -> 0 <= at_ (arr g) 33 < 64.
Proof. intros [_ _ _ Hb (_ & _ & _ & _ & H) _ _ _]. split; [by apply at_bytes_ok|done]. Qed.

(** The fields of the segment that joins. *)
Lemma next_member g ps q :
  running g ps -> mergeable q -> sameFlow g q = true -> next_of g q ->
  let len := (glen g + (length q - 40))%nat in
  member (joined g q) len (gsoSize g) (S (length ps)) (length ps) q.
Proof.
  intros HR HM HF [N1 N2 [N3 N3'] N4 N5 (N6 & N7 & N8 & N9 & N10) N11] len. pose proof (me_bytes q HM) as Hq.
  destruct (mergeable_inv q HM) as (Hlq & _ & Q0 & Q9 & Q6 & Q2 & Q33 & Qc & Q32). specialize (Q32 N2).
  destruct (joined_props g ps q HR Hq Hlq) as (_ & _ & J33 & Jp & Js). fold len in Jp. pose proof (running_flags g ps HR) as F33.
  destruct HR as [_ _ (_ & Hl & _) Hb (R0 & R9 & R6 & R32 & _) _ _ Ro]. destruct (Ro N1) as (O1 & O2 & O3 & O4).
  apply bool_decide_eq_true in HF. split; try done.
  - repeat (apply Forall_cons; split; [rewrite Js by lia|]); [..|done].
    + rewrite !slice2 by lia. congruence.
    + apply (join_eq _ _ 6 8 10); [lia|congruence|]. rewrite !slice2 by lia. congruence.
    + done.
    + apply (join_eq _ _ 28 32 33); [lia|done|]. rewrite !slice1 by lia. congruence.
    + done.
    + done.
  - rewrite Js by lia. rewrite <- O4, <- N5. symmetry. apply (be_enc_slice q 4 6); [done|lia].
  - rewrite Js by lia. rewrite <- O3, <- N4. symmetry. apply (be_enc_slice q 24 28); [done|lia].
  - replace (length ps =? S (length ps) - 1)%nat with true by (symmetry; apply Nat.eqb_eq; lia). rewrite J33.
    by apply (flags_join (at_ (arr g) 33) (at_ q 33)).
  - rewrite Jp, drop_app_ge by (rewrite length_slice; lia). rewrite length_slice, O1, Nat.sub_diag, drop_0 by lia.
    by rewrite take_ge by (rewrite length_drop; lia).
Qed.

(** The segments already there. *)
Lemma old_member g ps q i p :
  running g ps -> mergeable q -> next_of g q -> ps !! i = Some p ->
  member (joined g q) (glen g + (length q - 40)) (gsoSize g) (S (length ps)) i p.
Proof.
  intros HR HM [N1 _ _ _ _ _ N11] Hi. pose proof (me_bytes q HM) as Hq. destruct (mergeable_inv q HM) as (Hlq & _ & _ & _ & _ & _ & Q33 & _).
  destruct (joined_props g ps q HR Hq Hlq) as (_ & _ & J33 & Jp & Js). pose proof (running_flags g ps HR) as F33.
  destruct HR as [_ _ (_ & Hl & _) Hb _ _ Rm Ro]. destruct (Ro N1) as (O1 & O2 & _). destruct (Rm i p Hi) as [M1 M2 M3 M4 M5 M6 M7 M8].
  pose proof (lookup_lt_Some _ _ _ Hi) as Hlt. destruct (flags_join (at_ (arr g) 33) (at_ q 33)) as (F1 & F2 & _); try done.
  split; try done.
  - repeat (apply Forall_cons in M1 as [? M1]). repeat (apply Forall_cons; split; [by rewrite Js by lia|]). done.
  - by rewrite Js by lia.
  - by rewrite Js by lia.
  - rewrite J33, F1. replace (i =? S (length ps) - 1)%nat with false by (symmetry; apply Nat.eqb_neq; lia). rewrite M5, F2. by destruct (_ =? _)%nat.
  - rewrite M6, Jp, drop_app_le, take_app_le; [done|..]; rewrite ?length_drop, length_slice by lia; nia.
Qed.

Lemma append_holds g ps q :
  running g ps -> mergeable q -> sameFlow g q = true -> next_of g q ->
  exists g', append g q = Some g' /\ running g' (ps ++ [q]) /\ key g' = key g.
Proof.
  intros HR HM HF HN. rewrite (append_joined g ps q HR). eexists. split; [done|].
  pose proof (me_bytes q HM) as Hq. destruct (mergeable_inv q HM) as (Hlq & _ & _ & _ & _ & _ & Q33 & _).
  pose proof (next_member g ps q HR HM HF HN) as Mq. pose proof (fun i p => old_member g ps q i p HR HM HN) as Mo.
  destruct (joined_props g ps q HR Hq Hlq) as (Jb & Jl & J33 & Jp & Js). pose proof (running_flags g ps HR) as F33.
  destruct HN as [N1 N2 [N3 N3'] N4 N5 N6 N11]. destruct HR as [Rs _ (_ & Hl & _) Hb (R0 & R9 & R6 & R32 & _) [Rg Rg'] Rm Ro].
  destruct (Ro N1) as (O1 & O2 & O3 & O4). rewrite !length_drop.
  assert (forall k, (k < 40)%nat -> k <> 33%nat -> at_ (joined g q) k = at_ (arr g) k) as Ja.
  { intros k Hk Hk'. pose proof (Js k (S k) ltac:(lia) ltac:(lia)) as E. rewrite !slice1 in E by lia. by injection E. }
  split; [|by unfold key; cbn [arr]; rewrite Js by lia].
  split; cbn [arr blen glen gsegs gsoSize nextSeq nextID closed]; rewrite ?length_app; cbn [length].
  - lia.
  - intros p E. apply (f_equal length) in E. rewrite length_app in E. cbn in E. destruct ps; [cbn in *; lia|cbn in E; lia].
  - split_and!; lia.
  - done.
  - rewrite !Ja, Js by lia. split_and!; try done. rewrite J33. destruct (flags_join (at_ (arr g) 33) (at_ q 33)) as (_ & _ & <-); lia || done.
  - split; [done|]. lia.
  - intros i p. rewrite Nat.add_1_r. intros [Hi|[Hi Hi']]%lookup_app_Some; [by apply Mo|].
    apply list_lookup_singleton_Some in Hi' as [E <-]. assert (i = length ps) as -> by lia. done.
  - intros [[_ Hs]%orb_false_iff Hf]%orb_false_iff. apply Nat.ltb_ge in Hs. apply negb_false_iff, Z.eqb_eq in Hf. change (Z.lor 8 1) with 9 in Hf.
    assert (length q - 40 = gsoSize g)%nat as Eq by lia. rewrite Eq. split_and!; [lia| | |].
    + rewrite J33, Hf, Z.lor_0_r. done.
    + rewrite Js by lia. rewrite O3. unfold wrap. rewrite Zplus_mod_idemp_l. f_equal. lia.
    + rewrite Js by lia. rewrite O4. unfold wrap. rewrite Zplus_mod_idemp_l. f_equal. lia.
Qed.

(** ** Flushing *)

Lemma vnet_roundtrip h :
  uint 8 (vflags h) -> uint 8 (gsoType h) -> uint16 (hdrLen h) -> uint16 (vgsoSize h) -> uint16 (csumStart h) -> uint16 (csumOffset h) ->
  parseVirtioNetHdr (putVirtioNetHdr (replicate 10 0) h) = h.
Proof.
  intros H1 H2 H3 H4 H5 H6.
  assert (putVirtioNetHdr (replicate 10 0) h = [vflags h; gsoType h] ++ le_enc 2 (hdrLen h) ++ le_enc 2 (vgsoSize h) ++
    le_enc 2 (csumStart h) ++ le_enc 2 (csumOffset h)) as -> by reflexivity.
  unfold parseVirtioNetHdr. rewrite <- (app_nil_r (le_enc 2 (csumOffset h))). cut_fields. rewrite !le_dec_enc_small by done. by destruct h.
Qed.

Lemma member_ext b b' len gso n i p :
  (40 < len)%nat -> (forall x y, (y <= 2 \/ 4 <= x /\ y <= 10 \/ 12 <= x /\ y <= 36 \/ 38 <= x)%nat -> slice b' x y = slice b x y) ->
  at_ b' 33 = at_ b 33 -> member b len gso n i p -> member b' len gso n i p.
Proof.
  intros Hl E E33 [M1 M2 M3 M4 M5 M6 M7 M8]. split; try done.
  - repeat (apply Forall_cons in M1 as [? M1]). repeat (apply Forall_cons; split; [by rewrite E by lia|]). done.
  - by rewrite E by lia.
  - by rewrite E by lia.
  - by rewrite E33.
  - by rewrite E by lia.
Qed.

Lemma nseg_unique l gso n : (0 < gso)%nat -> (0 < n)%nat -> ((n - 1) * gso < l <= n * gso)%nat -> ((l + gso - 1) / gso)%nat = n.
Proof. intros Hg Hn H. symmetry. apply (Nat.div_unique _ _ _ (l - 1 - (n - 1) * gso)); [nia|nia]. Qed.

(** A frame whose parts are the packets is cut back into them. *)
Lemma frame_cut b len gso ps h :
  bytes_ok b -> (40 < len <= length b)%nat -> Z.of_nat len <= groMaxLen -> (0 < gso)%nat -> ps <> [] -> (length ps <= maxTSOSegments)%nat ->
  ((length ps - 1) * gso < len - 40 <= length ps * gso)%nat -> vgsoSize h = Z.of_nat gso ->
  at_ b 0 = 0x45 -> at_ b 9 = 6 -> at_ b 32 = 0x50 -> (forall i p, ps !! i = Some p -> member b len gso (length ps) i p) ->
  segmentTSO4 (take len b) h = Ok ps.
Proof.
  intros Hb Hl Hm Hg Hne Hmax Hn Hh B0 B9 B32 HM.
  assert (forall k, (k < len)%nat -> at_ (take len b) k = at_ b k) as Ea by (intros k Hk; unfold at_; by rewrite lookup_take_lt by lia).
  assert (length (take len b) = len) as Lf by (rewrite length_take; lia).
  unfold segmentTSO4, ihl_of. rewrite !Ea, B0, B9, Lf by lia. change (Z.to_nat (Z.land 69 15) * 4)%nat with 20%nat.
  change (20 + 12)%nat with 32%nat. rewrite !Ea, B32, (proj2 (Nat.ltb_ge len 20)) by lia. change (Z.to_nat (Z.shiftr 80 4) * 4)%nat with 20%nat.
  rewrite (proj2 (Nat.ltb_ge len (20 + 20))) by lia. rewrite length_drop, Lf, Hh, Nat2Z.id.
  change (Z.shiftr 69 4 =? 4) with true. change (20 <? 20)%nat with false. cbn [negb orb Z.eqb Pos.eqb].
  rewrite (proj2 (Nat.eqb_neq gso 0)), (proj2 (Nat.eqb_neq (len - (20 + 20)) 0)) by lia. cbn [orb].
  rewrite (nseg_unique (len - (20 + 20)) gso (length ps)) by (done || lia || (destruct ps; [done|cbn; lia])).
  rewrite (proj2 (Nat.ltb_ge _ _)) by done. f_equal. apply list_eq. intros i. rewrite list_lookup_fmap.
  destruct (ps !! i) as [p|] eqn:Ei.
  - pose proof (lookup_lt_Some _ _ _ Ei) as Hi. rewrite lookup_seq_lt by done. cbn [fmap option_fmap option_map Nat.add]. f_equal.
    apply member_segment; try done; [nia|by apply HM].
  - apply lookup_ge_None in Ei. by rewrite lookup_seq_ge.
Qed.

Lemma flush_holds g ps :
  holds g ps -> (length ps <= maxTSOSegments)%nat ->
  exists ws g', flush g = Some (ws, g') /\ mjoin (seen <$> ws) = ps /\ gsegs g' = 0%nat /\ key g' = key g /\
    (bytes_ok (arr g) -> bytes_ok (arr g')).
Proof.
  intros HH Hmax. unfold flush. destruct HH as [Hs|p Hs Hc Et|ps Hne HR].
  - rewrite Hs. by exists [], g.
  - rewrite Hs, Et. eexists [_], _. by split_and!.
  - pose proof HR as [Rs R1 (Rb & Rl & Rm) Hb (R0 & R9 & R6 & R32 & R33) [Rg Rg'] HM _]. rewrite Rs.
    destruct ps as [|p [|p2 ps]]; [done| |].
    { rewrite (R1 p eq_refl). eexists [_], _. by split_and!. }
    set (qs := p :: p2 :: ps) in *. change (length qs =? 0)%nat with false. change (length qs =? 1)%nat with false.
    rewrite (proj2 (Nat.leb_gt _ _)) by lia. eexists [_], _. split; [reflexivity|].
    match goal with |- context [flushed g ?x] => set (b := x) end. fold b. cbn [flushed gsegs key arr].
    assert (length b = length (arr g) /\ bytes_ok b /\
      (forall x y, (y <= 2 \/ 4 <= x /\ y <= 10 \/ 12 <= x /\ y <= 36 \/ 38 <= x)%nat -> slice b x y = slice (arr g) x y)) as (Lb & Bb & Sb).
    { unfold b. set (x2 := be_enc 2 (wrap 16 _)). set (x10 := be_enc 2 (not16 _)). set (x36 := be_enc 2 (foldSum _)).
      assert (length x2 = 2%nat /\ length x10 = 2%nat /\ length x36 = 2%nat) as (L2 & L10 & L36) by (split_and!; apply length_be_enc).
      assert (bytes_ok x2 /\ bytes_ok x10 /\ bytes_ok x36) as (B2 & B10 & B36) by (split_and!; apply be_enc_ok). clearbody x2 x10 x36.
      split_and!; [repeat (apply length_blit_eq; [|cbn [length]; lia]); done|blit_octets|]. intros x y H.
      set (b1 := blit (arr g) 2 x2). set (b2 := blit b1 10 [0; 0]). set (b3 := blit b2 10 x10).
      assert (length b1 = length (arr g)) as K1 by (apply length_blit; lia). assert (length b2 = length (arr g)) as K2 by (rewrite <- K1; apply length_blit; cbn; lia).
      assert (length b3 = length (arr g)) as K3 by (rewrite <- K2; apply length_blit; lia).
      transitivity (slice b3 x y); [destruct (decide (y <= 36)%nat); [apply slice_blit_before|apply slice_blit_after]; lia|].
      transitivity (slice b2 x y); [destruct (decide (y <= 10)%nat); [apply slice_blit_before|apply slice_blit_after]; lia|].
      transitivity (slice b1 x y); [destruct (decide (y <= 10)%nat); [apply slice_blit_before|apply slice_blit_after]; cbn [length]; lia|].
      destruct (decide (y <= 2)%nat); [apply slice_blit_before|apply slice_blit_after]; lia. }
    assert (forall k, (k < 2 \/ 4 <= k < 10 \/ 12 <= k < 36)%nat -> at_ b k = at_ (arr g) k) as Ab.
    { intros k Hk. pose proof (Sb k (S k) ltac:(lia)) as E. rewrite !slice1 in E by lia. by injection E. }
    split_and!; [|done|by unfold key; cbn [arr]; rewrite Sb by lia|done].
    cbn [fmap list_fmap mjoin list_join seen]. rewrite vnet_roundtrip by (cbn; unfold uint, wrap; try lia; apply Z.mod_pos_bound; lia).
    rewrite (frame_cut b (glen g) (gsoSize g) qs); try done; [by rewrite app_nil_r|lia|..].
    + cbn [vgsoSize]. assert (1 <= length qs - 1)%nat by (unfold qs; cbn [length]; lia).
      assert (gsoSize g < glen g - 40)%nat by nia. apply wrap_small. unfold uint. lia.
    + by rewrite Ab by lia.
    + by rewrite Ab by lia.
    + by rewrite Ab by lia.
    + intros i q Hq. apply (member_ext (arr g)); [lia|done|by rewrite Ab by lia|by apply HM].
Qed.

(** ** The table *)

(** A segment about to be appended to a group already flushed. *)
Definition reuses (t : groTable) (pkt : bytes) : bool :=
  coalescible pkt && tcpChecksumOK pkt &&
  existsb (fun g => (gsegs g =? 0)%nat && sameFlow g pkt && bool_decide (canAppend g pkt = Some true)) t.

Fixpoint no_reuse (t : groTable) (pkts : list bytes) : bool :=
  match pkts with
  | [] => true
  | pkt :: pkts => negb (reuses t pkt) && match offer t pkt with Some (_, t') => no_reuse t' pkts | None => false end
  end.

(** The packets of one class. *)
Definition of_flow (k : option bytes) (ps : list bytes) : list bytes := filter (fun p => flow_of p = k) ps.

Lemma of_flow_app k l1 l2 : of_flow k (l1 ++ l2) = of_flow k l1 ++ of_flow k l2.
Proof. apply filter_app. Qed.

Lemma of_flow_none k ps : Forall (fun p => flow_of p <> k) ps -> of_flow k ps = [].
Proof. induction 1 as [|p ps H _ IH]; [done|]. unfold of_flow. by rewrite filter_cons_False. Qed.

(** What all the writes of a list are seen as. *)
Definition seen_all (ws : list tun_write) : list bytes := mjoin (seen <$> ws).

Lemma seen_all_app ws ws' : seen_all (ws ++ ws') = seen_all ws ++ seen_all ws'.
Proof. unfold seen_all. by rewrite fmap_app, join_app. Qed.

(** A group as the table keeps it: the packets it holds, all of its flow. *)
Record group_ok (g : groGroup) (ps : list bytes) : Prop := {
  go_holds : holds g ps;
  go_flow : Forall (fun p => flow_of p = Some (key g)) ps;
  go_bytes : bytes_ok (arr g);
  go_blen : (40 < blen g)%nat;
}.

Definition table_ok (t : groTable) (pss : list (list bytes)) : Prop := Forall2 group_ok t pss /\ NoDup (key <$> t).

Lemma mergeable_flow p : mergeable p -> flow_of p = Some (slice p 12 24).
Proof.
  intros HM. destruct (mergeable_inv p HM) as (Hl & _ & H0 & H9 & _). unfold flow_of.
  by rewrite H0, H9, (proj2 (Nat.ltb_ge _ _)) by lia.
Qed.

Lemma flush_ok g ps :
  group_ok g ps -> (length ps <= maxTSOSegments)%nat ->
  exists ws g', flush g = Some (ws, g') /\ seen_all ws = ps /\ group_ok g' [] /\ key g' = key g /\ (length ws <= length ps)%nat.
Proof.
  intros [HH HF Hb Hl] Hm. destruct (flush_holds g ps HH Hm) as (ws & g' & E & Es & Hs & Hk & Hb').
  exists ws, g'. split_and!; try done.
  - split; [by apply holds_none|done|by apply Hb'|]. unfold flush in E. destruct (gsegs g =? 0)%nat; [by injection E as <- <-|].
    destruct (gsegs g =? 1)%nat; [by injection E as <- <-|]. destruct (glen g <=? 11)%nat; [done|]. by injection E as <- <-.
  - unfold flush in E. destruct HH as [H0|p H1 _ _|ps Hne [H _ _ _ _ _ _ _]].
    + rewrite H0 in E. by injection E as <- <-.
    + rewrite H1 in E. by injection E as <- <-.
    + destruct ps; [done|]. rewrite H in E. cbn [length Nat.eqb] in E. destruct (length ps =? 0)%nat; [by injection E as <- <-; cbn; lia|].
      destruct (glen g <=? 11)%nat; [done|]. injection E as <- <-. cbn. lia.
Qed.

Lemma start_ok g p : bytes_ok (arr g) -> mergeable p -> group_ok (start g p) [p] /\ key (start g p) = slice p 12 24.
Proof.
  intros Hb HM. destruct (start_holds g p Hb HM) as [HH HK]. split; [|done]. split; [done|..].
  - apply Forall_singleton. by rewrite HK, mergeable_flow.
  - cbn [start arr]. by apply blit_ok, (me_bytes p HM).
  - destruct (mergeable_inv p HM) as (Hl & _). done.
Qed.

Lemma canAppend_some g p : (40 < blen g)%nat -> canAppend g p <> None.
Proof.
  intros H. unfold canAppend, index.
  rewrite (proj2 (Nat.ltb_lt 32 _)), (proj2 (Nat.ltb_lt 1 _)), (proj2 (Nat.ltb_lt 8 _)), (proj2 (Nat.ltb_lt 33 _)) by lia. cbn [mbind option_bind]. by repeat case_match.
Qed.

Lemma append_ok g ps p :
  group_ok g ps -> gsegs g <> 0%nat -> mergeable p -> sameFlow g p = true -> canAppend g p = Some true ->
  exists g', append g p = Some g' /\ group_ok g' (ps ++ [p]) /\ key g' = key g.
Proof.
  intros [HH HF Hb Hl] Hn HM HS HC. apply canAppend_inv in HC as HN.
  destruct HH as [H0|q _ Hcl _|ps Hne HR]; [done|by destruct HN; congruence|].
  destruct (append_holds g ps p HR HM HS HN) as (g' & E & HR' & HK). exists g'. split_and!; [done| |done]. split.
  - apply holds_run; [by destruct ps|done].
  - apply Forall_app. split; [by rewrite HK|]. apply Forall_singleton. rewrite HK, mergeable_flow by done.
    apply bool_decide_eq_true in HS. unfold key. by rewrite HS.
  - by destruct HR'.
  - destruct HR' as [_ _ (-> & ? & _) _ _ _ _ _]. lia.
Qed.

Lemma held_flows t pss k :
  Forall2 group_ok t pss -> (forall g, g ∈ t -> k <> Some (key g)) -> of_flow k (concat pss) = [].
Proof.
  induction 1 as [|g ps t pss [_ HF _ _] _ IH]; intros Hk; [done|]. cbn [concat].
  rewrite of_flow_app, IH, app_nil_r by (intros; apply Hk; by right).
  apply of_flow_none. eapply Forall_impl; [exact HF|]. intros p -> <-. by apply (Hk g); [left|].
Qed.

(** What one operation of the table does: the packets seen are of the flow [f], and with the
    packets still held they are those held before and then [new]. *)
Record table_step (t : groTable) (pss : list (list bytes)) (f : bytes) (new : list bytes)
    (ws : list tun_write) (t' : groTable) (pss' : list (list bytes)) : Prop := {
  ts_ok : table_ok t' pss';
  ts_keys : forall x, x ∈ key <$> t' -> x ∈ key <$> t \/ x = f;
  ts_seen : Forall (fun p => flow_of p = Some f) (seen_all ws);
  ts_order : forall k, of_flow k (seen_all ws) ++ of_flow k (concat pss') = of_flow k (concat pss) ++ of_flow k new;
  ts_count : (length ws <= length (seen_all ws) /\ length (seen_all ws) + length (concat pss') = length (concat pss) + length new)%nat;
}.

(** A step on the rest of the table is a step on the table. *)
Lemma table_step_cons g ps t pss f new ws t' pss' :
  table_ok (g :: t) (ps :: pss) -> key g <> f ->
  table_step t pss f new ws t' pss' -> table_step (g :: t) (ps :: pss) f new ws (g :: t') (ps :: pss').
Proof.
  intros [HF HN] Hk [[HF' HN'] K S O C]. apply Forall2_cons in HF as [Hg HF]. rewrite fmap_cons in HN. apply NoDup_cons in HN as [Hni HN].
  split; try done.
  - split; [by apply Forall2_cons|]. rewrite fmap_cons. apply NoDup_cons. split; [|done]. intros [H|H]%K; congruence || done.
  - intros x [->|H]%elem_of_cons; [left; by left|]. apply K in H as [H|H]; [left; by right|by right].
  - intros k. cbn [concat]. rewrite !of_flow_app. destruct (decide (k = Some (key g))) as [->|Hkg].
    + assert (of_flow (Some (key g)) (seen_all ws) = []) as E0 by (apply of_flow_none; eapply Forall_impl; [exact S|]; intros p Hp; cbv beta in *; congruence).
      specialize (O (Some (key g))). rewrite E0 in O |- *. cbn [app] in O |- *. by rewrite O, app_assoc.
    + rewrite (of_flow_none k ps) by (eapply Forall_impl; [apply (go_flow _ _ Hg)|]; intros p Hp; cbv beta in *; congruence). apply O.
  - cbn [concat]. rewrite !length_app. lia.
Qed.

(** A group replaced at the head of the table. *)
Lemma table_step_head g ps t pss f new ws g' ps' :
  table_ok (g :: t) (ps :: pss) -> key g = f -> group_ok g' ps' -> key g' = f ->
  Forall (fun p => flow_of p = Some f) new -> seen_all ws ++ ps' = ps ++ new -> (length ws <= length (seen_all ws))%nat ->
  table_step (g :: t) (ps :: pss) f new ws (g' :: t) (ps' :: pss).
Proof.
  intros [HF HN] Hk Hg' Hk' Hnew E Hlen. apply Forall2_cons in HF as [Hg HF]. rewrite fmap_cons in HN. rewrite Hk in HN. pose proof HN as [Hni HN']%NoDup_cons.
  assert (Forall (fun p => flow_of p = Some f) (ps ++ new)) as HA by (apply Forall_app; split; [rewrite <- Hk; apply (go_flow _ _ Hg)|done]).
  rewrite <- E in HA. apply Forall_app in HA as [HA _]. split.
  - split; [by apply Forall2_cons|]. rewrite fmap_cons. by rewrite Hk'.
  - intros x [->|H]%elem_of_cons; [by right|left; by right].
  - done.
  - intros k. cbn [concat]. rewrite !of_flow_app, app_assoc, <- of_flow_app, E, of_flow_app. destruct (decide (k = Some f)) as [->|Hkf].
    + rewrite (held_flows t pss); [by rewrite !app_nil_r|done|]. intros g0 Hg0 [= ->]. by apply Hni, list_elem_of_fmap_2.
    + rewrite (of_flow_none k new) by (eapply Forall_impl; [exact Hnew|]; intros p Hp; cbv beta in *; congruence). by rewrite !app_nil_r.
  - split; [done|]. cbn [concat]. apply (f_equal length) in E. rewrite !length_app in *. lia.
Qed.

Lemma add_loop_step t pss p :
  table_ok t pss -> Forall (fun ps => length ps <= maxTSOSegments)%nat pss -> mergeable p -> reuses t p = false ->
  exists ws t' pss', add_loop t p = Some (ws, t') /\ table_step t pss (slice p 12 24) [p] ws t' pss'.
Proof.
  intros HT HL HM. assert (Forall (fun q => flow_of q = Some (slice p 12 24)) [p]) as Hp by (by apply Forall_singleton, mergeable_flow).
  unfold reuses. rewrite (me_co p HM), (me_sum p HM). cbn [andb]. revert pss HT HL.
  induction t as [|g t IH]; intros pss HT HL HU; cbn [add_loop].
  - destruct HT as [HF HN]. apply Forall2_nil_inv_l in HF as ->. destruct (start_ok grab p) as [Hg Hk]; [constructor|done|].
    exists [], [start grab p], [[p]]. split; [done|]. split.
    + split; [by apply Forall2_cons|]. apply NoDup_singleton.
    + intros x Hx%list_elem_of_singleton. right. congruence.
    + done.
    + done.
    + done.
  - pose proof HT as [HF HN]. apply Forall2_cons_inv_l in HF as (ps & pss' & Hg & HF & ->). apply Forall_cons in HL as [Hl HL].
    cbn [existsb] in HU. apply orb_false_iff in HU as [HU1 HU2]. rewrite fmap_cons in HN. apply NoDup_cons in HN as [_ HN].
    destruct (sameFlow g p) eqn:ES.
    2: { destruct (IH pss' (conj HF HN) HL HU2) as (ws & t' & pss'' & E & HS). rewrite E. cbn [mbind option_bind]. eexists ws, _, _. split; [done|].
         apply table_step_cons; try done. apply bool_decide_eq_false in ES. exact ES. }
    assert (key g = slice p 12 24) as HK by (by apply bool_decide_eq_true in ES).
    destruct (canAppend g p) as [[]|] eqn:EC; cbn [mbind option_bind]; [| |by destruct (canAppend_some g p (go_blen _ _ Hg))].
    + assert (gsegs g <> 0)%nat as HU.
      { intros E0. rewrite E0 in HU1. apply andb_false_iff in HU1 as [HU1|HU1]; [by destruct (sameFlow g p)|]. by apply bool_decide_eq_false in HU1. }
      destruct (append_ok g ps p Hg HU HM ES EC) as (g' & -> & Hg' & Hk'). cbn [mbind option_bind]. eexists [], _, _. split; [done|].
      apply (table_step_head g ps t pss' _ _ _ g' (ps ++ [p])); try done. congruence.
    + destruct (flush_ok g ps Hg Hl) as (ws & g' & -> & Es & Hg' & Hk' & Hw). cbn [mbind option_bind]. eexists ws, _, _. split; [done|].
      destruct (start_ok g' p (go_bytes _ _ Hg') HM) as [Hs Hks].
      apply (table_step_head g ps t pss' _ _ _ (start g' p) [p]); try done; [by rewrite Es|by rewrite Es].
Qed.

Lemma flush_loop_none t p : (forall g, g ∈ t -> key g <> slice p 12 24) -> flush_loop t p = Some ([], t).
Proof.
  induction t as [|g t IH]; intros H; [done|]. cbn [flush_loop]. assert (sameFlow g p = false) as ->
    by (apply bool_decide_eq_false, (H g); by left). rewrite andb_false_r, IH; [done|]. intros g' Hg'. apply H. by right.
Qed.

Lemma table_step_refl t pss f : table_ok t pss -> table_step t pss f [] [] t pss.
Proof. intros HT. split; try done; first [by intros x Hx; left | by intros k; rewrite app_nil_r | cbn; lia]. Qed.

Lemma flush_loop_step t pss p :
  table_ok t pss -> Forall (fun ps => length ps <= maxTSOSegments)%nat pss ->
  exists ws t' pss', flush_loop t p = Some (ws, t') /\ table_step t pss (slice p 12 24) [] ws t' pss' /\
    of_flow (Some (slice p 12 24)) (concat pss') = [].
Proof.
  revert pss. induction t as [|g t IH]; intros pss HT HL.
  { pose proof HT as [HF%Forall2_nil_inv_l _]. subst pss. exists [], [], []. split_and!; [done|by apply table_step_refl|done]. }
  pose proof HT as [HF HN]. apply Forall2_cons_inv_l in HF as (ps & pss' & Hg & HF & ->). apply Forall_cons in HL as [Hl HL].
  rewrite fmap_cons in HN. apply NoDup_cons in HN as [Hni HN]. cbn [flush_loop]. destruct (sameFlow g p) eqn:ES.
  - assert (key g = slice p 12 24) as HK by (by apply bool_decide_eq_true in ES).
    assert (forall g0, g0 ∈ t -> key g0 <> slice p 12 24) as Hne.
    { intros g0 Hg0 E0. apply Hni. rewrite HK, <- E0. by apply list_elem_of_fmap_2. }
    assert (of_flow (Some (slice p 12 24)) (concat pss') = []) as HE' by (apply (held_flows t); [done|intros g0 Hg0 [= E0]; by apply (Hne g0)]).
    destruct (Nat.ltb_spec 0 (gsegs g)) as [Hs|Hs]; cbn [andb].
    + destruct (flush_ok g ps Hg Hl) as (ws' & g' & -> & Es & Hg' & Hk' & Hw). cbn [mbind option_bind].
      exists ws', (g' :: t), ([] :: pss'). split_and!; [done| |exact HE'].
      apply (table_step_head g ps t pss' _ _ _ g' []); try done; [congruence|by rewrite Es, !app_nil_r|by rewrite Es].
    + assert (ps = []) as -> by (destruct (go_holds _ _ Hg) as [|? H1|ps ? [H1 _ _ _ _ _ _ _]]; [done|lia|destruct ps; cbn in *; [done|lia]]).
      rewrite flush_loop_none by done. cbn [mbind option_bind]. exists [], (g :: t), ([] :: pss'). split_and!; [done|by apply table_step_refl|exact HE'].
  - rewrite andb_false_r. destruct (IH pss' (conj HF HN) HL) as (ws & t' & pss'' & E & HS & HE). rewrite E. cbn [mbind option_bind].
    apply bool_decide_eq_false in ES. exists ws, (g :: t'), (ps :: pss''). split_and!; [done|by apply table_step_cons|].
    cbn [concat]. rewrite of_flow_app, HE, app_nil_r. apply of_flow_none. eapply Forall_impl; [apply (go_flow _ _ Hg)|].
    intros q Hq [= E0]. apply ES. change (slice (arr g) 12 24) with (key g). congruence.
Qed.

(** ** A batch *)

(** A packet as the theorem asks of a batch: octets, and clean if it may be merged. *)
Definition packet_ok (p : bytes) : Prop := bytes_ok p /\ (coalescible p = true -> tcpChecksumOK p = true -> clean p).

Lemma flushSameFlow_flow t p : flushSameFlow t p = match flow_of p with None => Some ([], t) | Some _ => flush_loop t p end.
Proof. unfold flushSameFlow, flow_of. by destruct (_ || _ || _). Qed.

Lemma flow_of_slice p f : flow_of p = Some f -> f = slice p 12 24.
Proof. unfold flow_of. destruct (_ || _ || _); [done|]. by intros [= <-]. Qed.

Lemma offer_step t pss p :
  table_ok t pss -> Forall (fun ps => length ps <= maxTSOSegments)%nat pss -> packet_ok p -> reuses t p = false ->
  exists ws t' pss', offer t p = Some (ws, t') /\ table_ok t' pss' /\
    (forall k, of_flow k (seen_all ws) ++ of_flow k (concat pss') = of_flow k (concat pss) ++ of_flow k [p]) /\
    (length ws <= length (seen_all ws) /\ length (seen_all ws) + length (concat pss') = length (concat pss) + 1)%nat.
Proof.
  intros HT HL [Hb Hc] HU. unfold offer, add. destruct (coalescible p) eqn:E1, (tcpChecksumOK p) eqn:E2; cbn [negb orb].
  1: { destruct (add_loop_step t pss p HT HL) as (ws & t' & pss' & -> & [T K S O C]); [by split; auto|done|].
       cbn [mbind option_bind]. by exists ws, t', pss'. }
  all: assert (exists ws t' pss', flushSameFlow t p = Some (ws, t') /\ table_step t pss (slice p 12 24) [] ws t' pss' /\
    of_flow (flow_of p) (concat pss') = []) as (ws & t' & pss' & -> & [T K S O [C1 C2]] & HE);
    [rewrite flushSameFlow_flow; destruct (flow_of p) as [f|] eqn:Ef; [rewrite (flow_of_slice p f Ef); by apply flush_loop_step|];
     exists [], t, pss; split_and!; [done|by apply table_step_refl|]; apply (held_flows t); [by destruct HT|done]|].
  all: cbn [mbind option_bind]; exists (ws ++ [WPlain p]), t', pss'; rewrite seen_all_app; split_and!; [done|done| | |].
  all: try (rewrite !length_app; cbn [length seen_all seen fmap list_fmap mjoin list_join app] in *; lia).
  all: intros k; change (seen_all [WPlain p]) with [p]; specialize (O k); rewrite of_flow_app; cbn [of_flow filter list_filter] in O; rewrite app_nil_r in O; rewrite <- O.
  all: destruct (decide (flow_of p = k)) as [<-|Hk]; [by rewrite HE, !app_nil_r|].
  all: rewrite (of_flow_none k [p]) by (by apply Forall_singleton); by rewrite !app_nil_r.
Qed.

Lemma flush_all_spec t pss :
  Forall2 group_ok t pss -> Forall (fun ps => length ps <= maxTSOSegments)%nat pss ->
  exists ws, flush_all t = Some ws /\ seen_all ws = concat pss /\ (length ws <= length (concat pss))%nat.
Proof.
  induction 1 as [|g ps t pss Hg _ IH]; intros HL; [by exists []|]. apply Forall_cons in HL as [Hl HL].
  destruct (IH HL) as (ws & E & Es & Hw). destruct (flush_ok g ps Hg Hl) as (ws' & g' & E' & Es' & _ & _ & Hw').
  exists (ws' ++ ws). cbn [flush_all]. rewrite E'. cbn [mbind option_bind]. rewrite E. cbn [mbind option_bind concat].
  split_and!; [done|by rewrite seen_all_app, Es, Es'|rewrite !length_app; lia].
Qed.

Lemma parts_bounded (pss : list (list bytes)) n : (length (concat pss) <= n)%nat -> Forall (fun ps => length ps <= n)%nat pss.
Proof.
  induction pss as [|ps pss IH]; intros H; [done|]. cbn [concat] in H. rewrite length_app in H. constructor; [lia|]. apply IH. lia.
Qed.

Lemma offer_all_spec pkts t pss :
  table_ok t pss -> Forall packet_ok pkts -> no_reuse t pkts = true -> (length (concat pss) + length pkts <= maxTSOSegments)%nat ->
  exists ws, offer_all t pkts = Some ws /\ (forall k, of_flow k (seen_all ws) = of_flow k (concat pss) ++ of_flow k pkts) /\
    (length ws <= length (concat pss) + length pkts)%nat.
Proof.
  revert t pss. induction pkts as [|p pkts IH]; intros t pss HT HP HU HL; cbn [length] in HL.
  - destruct HT as [HF _]. destruct (flush_all_spec t pss HF) as (ws & E & Es & Hw); [apply parts_bounded; lia|].
    exists ws. cbn [offer_all]. split_and!; [done| |cbn; lia]. intros k. by rewrite Es, app_nil_r.
  - apply Forall_cons in HP as [Hp HP]. cbn [no_reuse] in HU. apply andb_true_iff in HU as [HU1%negb_true_iff HU2].
    destruct (offer_step t pss p HT) as (ws & t' & pss' & E & HT' & O & C1 & C2); [apply parts_bounded; lia|done|done|].
    rewrite E in HU2. destruct (IH t' pss' HT' HP HU2) as (ws' & E' & O' & C'); [lia|].
    exists (ws ++ ws'). cbn [offer_all]. rewrite E. cbn [mbind option_bind]. rewrite E'. cbn [mbind option_bind]. split_and!; [done| |].
    + intros k. rewrite seen_all_app, of_flow_app, O', app_assoc, O. rewrite <- app_assoc. f_equal. by rewrite <- of_flow_app.
    + cbn [length]. rewrite length_app. lia.
Qed.


(** ** Examples *)

(** A TCP segment from 10.0.0.1:80 to 10.0.0.2:90. *)
Definition demo_segment (id seq flags : Z) (payload : bytes) : bytes :=
  seg_checksums 20 ([0x45; 0] ++ be_enc 2 (40 + Z.of_nat (length payload)) ++ be_enc 2 id ++
    [0x40; 0; 64; 6; 0; 0; 10; 0; 0; 1; 10; 0; 0; 2; 0; 80; 0; 90] ++ be_enc 4 seq ++
    [0; 0; 0; 2; 0x50; flags; 1; 0; 0; 0; 0; 0] ++ payload).

Definition demo_batch : list bytes :=
  [demo_segment 7 1000 0x10 (replicate 28 1); demo_segment 8 1028 0x10 (replicate 28 2);
   [0x60; 0; 0; 0]; demo_segment 9 1056 0x18 (replicate 20 3)].

Lemma demo_segment_ok :
  Forall packet_ok demo_batch.
Proof.
  repeat (apply Forall_cons; split; [split; [by_decision|intros H1 H2; revert H1 H2; vm_compute]|]); [..|constructor].
  all: first [discriminate | intros _ _; split; by_decision || vm_compute; done].
Qed.


(** ** A segment appended to a flushed group *)

Lemma canAppend_flushed g q : gsegs g = 1%nat -> canAppend g q = Some true -> canAppend (flushed g (arr g)) q = Some true.
Proof.
  intros _. unfold canAppend, index. cbn [flushed arr blen glen closed gsoSize nextSeq nextID]. destruct (closed g); [done|].
  destruct (negb _); [done|]. destruct (32 <? blen g)%nat; [|done]. cbn [mbind option_bind]. destruct (negb _); [done|].
  destruct (Nat.ltb_spec (gsoSize g) (length q - 40)); [done|]. cbn [orb].
  destruct (Z.ltb_spec 65535 (Z.of_nat (glen g + (length q - 40)))) as [|Hsz]; [done|].
  by rewrite (proj2 (Z.ltb_ge 65535 _)) by lia.
Qed.

(** A segment of a flow whose group was flushed early is written without its headers.  When
    segment [a] opens a group, a packet [c] of the same flow that is written through (a pure ACK, say)
    flushes it, and segment [b] continues [a], then [b] is appended to the flushed group: the TUN
    gets the payload of [b] as a packet of its own, whatever it contains. *)
Theorem gro_payload_as_packet (a c b : bytes) :
  coalescible a = true -> tcpChecksumOK a = true -> coalescible b = true -> tcpChecksumOK b = true ->
  canAppend (start grab a) b = Some true -> slice b 12 24 = slice a 12 24 -> Z.land (at_ b 33) finPsh = 0 ->
  flow_of c = Some (slice a 12 24) -> coalescible c = false ->
  offer_all [] [a; c; b] = Some [WPlain a; WPlain c; WPlain (drop 40 b)].
Proof.
  intros Ca Sa Cb Sb Hcan Hf Hfl Hc Cc. destruct (coalescible_inv a Ca) as (La & _). destruct (coalescible_inv b Cb) as (Lb & _).
  set (g := start grab a) in *. assert (arr g = a) as Ea by (cbn; rewrite drop_nil; apply app_nil_r).
  assert (offer [] a = Some ([], [g])) as E1 by (unfold offer, add; by rewrite Ca, Sa).
  assert (offer [g] c = Some ([WPlain a; WPlain c], [flushed g (arr g)])) as E2.
  { unfold offer, add. rewrite Cc. cbn [negb orb]. rewrite flushSameFlow_flow, Hc. cbn [flush_loop].
    assert (sameFlow g c = true) as -> by (apply bool_decide_eq_true; rewrite Ea; by apply flow_of_slice).
    unfold flush. change (gsegs g) with 1%nat. cbn [Nat.ltb Nat.leb andb Nat.eqb mbind option_bind].
    assert (take (glen g) (arr g) = a) as -> by (rewrite Ea; apply take_ge; cbn; lia). done. }
  set (g3 := mkGroup (blit (arr g) 0 (drop 40 b)) (length (drop 40 b)) (length (drop 40 b)) 1 (gsoSize g)
    (wrap 32 (nextSeq g + Z.of_nat (length (drop 40 b)))) (wrap 16 (nextID g + 1)) (closed g || (length (drop 40 b) <? gsoSize g)%nat)).
  assert (offer [flushed g (arr g)] b = Some ([], [g3])) as E3.
  { unfold offer, add. rewrite Cb, Sb. cbn [negb orb add_loop].
    assert (sameFlow (flushed g (arr g)) b = true) as -> by (apply bool_decide_eq_true; cbn [flushed arr]; by rewrite Ea, Hf).
    rewrite (canAppend_flushed g b eq_refl Hcan). cbn [mbind option_bind]. unfold append. by rewrite Hfl. }
  cbn [offer_all]. rewrite E1. cbn [mbind option_bind]. rewrite E2. cbn [mbind option_bind]. rewrite E3. cbn [mbind option_bind flush_all].
  change (flush g3) with (Some ([WPlain (take (length (drop 40 b)) (blit (arr g) 0 (drop 40 b)))], flushed g3 (arr g3))).
  cbn [mbind option_bind app]. unfold blit. rewrite take_0. cbn [app]. by rewrite take_app_length.
Qed.

(** The payload of the third segment is a packet from an address its sender may not use. *)
Definition demo_spoof : bytes :=
  [0x45; 0; 0; 28; 0; 0; 0; 0; 64; 17; 0; 0; 192; 168; 0; 1; 10; 0; 0; 2; 0; 53; 0; 53; 0; 8; 0; 0].

Lemma gro_payload_as_packet_witness :
  let a := demo_segment 7 1000 0x10 (replicate 28 1) in
  let c := demo_segment 0 1028 0x10 [] in
  let b := demo_segment 8 1028 0x10 demo_spoof in
  offer_all [] [a; c; b] = Some [WPlain a; WPlain c; WPlain demo_spoof].
Proof. intros a c b. apply (gro_payload_as_packet a c b); by vm_compute. Defined.

(** With a payload shorter than a header the next segment panics. *)
Example gro_panics :
  offer_all [] [demo_segment 7 1000 0x10 (replicate 10 1); demo_segment 0 1010 0x10 [];
                demo_segment 8 1010 0x10 (replicate 10 2); demo_segment 9 1020 0x10 (replicate 10 3)] = None.
Proof. by vm_compute. Qed.

(** Segments that differ in ECE are merged, and the second loses it. *)
Example gro_drops_ece :
  match offer_all [] [demo_segment 7 1000 0x10 [1; 2]; demo_segment 8 1002 0x50 [3; 4]] with
  | Some ws => seen_all ws = [demo_segment 7 1000 0x10 [1; 2]; demo_segment 8 1002 0x10 [3; 4]]
  | None => False
  end.
Proof. by vm_compute. Qed.
