(* ===== verification/PumpGso.v ===== *)
(** * The pump on a GSO device, [dataplane/{gro,pump_gso}_linux.go] and [pump.go]

    Inbound, the batch path that offers every inner packet to the coalescing
    table of [Gro]; outbound, the read loop that cuts super-frames with [Offload]
    and sends the segments as one burst.  A panic of the table ends the batch
    ([None]).  The transport's batch sender, when there is one, sends each
    datagram of a burst to one address.

    The theorems: a batch writes exactly what the table makes of the packets the
    tunnels opened and the source checks passed; and every segment of a burst is
    carried or counted as dropped. *)
From Stdlib Require Import ZArith Lia.
From stdpp Require Import base list gmap.
From S2P Require Import Prelude Routes Packet Shape Pump Offload Gro.

Create HintDb keeps.

(** Runs the monadic plumbing of a goal. *)
Ltac msimpl :=
  unfold mbind, mret, M_bind, M_ret, get, modify, outside, drop_as, emit, countAt; cbn.

Section PumpGso.
Context {Tid W Endpoint : Type} {ED : EqDecision Tid} {CT : Countable Tid} {TI : Tunnels Tid W Endpoint}.

Abbreviation bnd := (@bound Tid).
Abbreviation PM := (@M Tid W Endpoint).

(** ** Inbound *)

(** The writes of a table operation; errors are only logged. *)
Fixpoint perform (ws : list tun_write) : PM unit :=
  match ws with
  | [] => mret ()
  | WPlain pkt :: ws => writeTUN pkt;; perform ws
  | WGSO hdr frame :: ws =>
      ok ← outside (fun w => vnetWriteGSO w hdr frame);
      emit (EvGSO hdr frame ok);;
      perform ws
  end.

(** One inner packet, counted, offered to the table and written through if the table refuses it;
    the flag tells whether a write that had to be made failed. *)
Definition offerInner (t : groTable) (b : bnd) (inner : bytes) (now : Z) : PM (option (bool * groTable)) :=
  countAt (bc b) (fun c => countRx c (length inner) now);;
  match add t inner with
  | None => mret None
  | Some (taken, ws, t) =>
      perform ws;;
      if taken : bool then mret (Some (true, t))
      else
        ok ← writeTUN inner;
        (if ok : bool then mret () else drop_as DropTUNWrite);;
        mret (Some (ok, t))
  end.

(** The loop of [groMulti], which a failed write ends. *)
Fixpoint offer_multi (t : groTable) (b : bnd) (inners : list bytes) (now : Z) : PM (option groTable) :=
  match inners with
  | [] => mret (Some t)
  | inner :: inners =>
      if (length inner =? 0)%nat then offer_multi t b inners now
      else
        ok ← sourceOK b inner;
        if negb ok then offer_multi t b inners now
        else
          r ← offerInner t b inner now;
          match r with
          | None => mret None
          | Some (true, t) => offer_multi t b inners now
          | Some (false, t) => mret (Some t)
          end
  end.

Definition groMulti (t : groTable) (b : bnd) (pkt : bytes) (from : option Endpoint) (now : Z) : PM (option groTable) :=
  r ← decapMulti b pkt from now;
  match r with
  | None => mret (Some t)
  | Some inners => offer_multi t b inners now
  end.

Fixpoint gro_loop (v : gmap Z bnd) (t : groTable) (pkts : list (bytes * option Endpoint)) (now : Z) : PM (option groTable) :=
  match pkts with
  | [] => mret (Some t)
  | (pkt, from) :: pkts =>
      r ← lookupInbound v pkt;
      match r with
      | None => gro_loop v t pkts now
      | Some (b, _) =>
          r ← (if multi b then groMulti t b pkt from now
               else
                 r ← decapInbound b pkt from now;
                 match r with
                 | None => mret (Some t)
                 | Some inner => r ← offerInner t b inner now; mret (snd <$> r)
                 end);
          match r with
          | None => mret None
          | Some t => gro_loop v t pkts now
          end
      end
  end.

(** [handleInboundBatchGRO]: [None] is a panic. *)
Definition handleInboundBatchGRO (v : gmap Z bnd) (pkts : list (bytes * option Endpoint)) (now : Z) : PM (option unit) :=
  r ← gro_loop v [] pkts now;
  match r with
  | None => mret None
  | Some t => match flush_all t with None => mret None | Some ws => perform ws;; mret (Some ()) end
  end.

(** One snapshot of the tables for the batch. *)
Definition HandleInboundBatch (pkts : list (bytes * option Endpoint)) (now : Z) : PM (option unit) :=
  p ← get;
  if vnet p then handleInboundBatchGRO (byKey p) pkts now
  else inbound_batch (byKey p) pkts now;; mret (Some ()).

(** ** Outbound *)

(** [drops[r].Add(n)]. *)
Definition dropN (r : DropReason) (n : nat) : PM unit := modify (Nat.iter n (upd_drops r)).

Fixpoint enqueue_all (b : bnd) (segs : list bytes) : PM unit :=
  match segs with
  | [] => mret ()
  | seg :: segs =>
      ok ← outside (fun w => Enqueue (bt b) w seg);
      (if ok : bool then emit (EvQueued (bt b) seg);; countAt (bc b) (fun c => countTx c (length seg))
       else drop_as DropPacerFull);;
      enqueue_all b segs
  end.

Fixpoint encap_all (b : bnd) (segs : list bytes) (m now : Z) : PM (list bytes) :=
  match segs with
  | [] => mret []
  | seg :: segs =>
      r ← encap b seg m now;
      match r with
      | None => drop_as DropEncapFailed;; encap_all b segs m now
      | Some out =>
          countAt (bc b) (fun c => countTx c (length seg));;
          outs ← encap_all b segs m now;
          mret (out :: outs)
      end
  end.

Fixpoint send_all (t : Tid) (fixed : option Endpoint) (outs : list bytes) : PM unit :=
  match outs with
  | [] => mret ()
  | out :: outs =>
      p ← get;
      let to := default (PeerAddr t (world p)) fixed in
      outside (fun w => ((), sendTo w out to));;
      emit (EvSend out to);;
      send_all t fixed outs
  end.

(** [sendSegments]; [batch] tells whether the transport registered a batch sender. *)
Definition sendSegments (batch : bool) (segs : list bytes) (now : Z) : PM unit :=
  let seg0 := default [] (segs !! 0%nat) in
  match innerDest seg0 with
  | None => drop_as DropNotIP
  | Some dst =>
      p ← get;
      match lookup None (routes p) dst with
      | None => drop_as DropNoRoute
      | Some b =>
          let m := mtu p in
          if (0 <? m) && NeedsFragmentation seg0 m then
            dropN DropTooBig (length segs);;
            match FragNeeded seg0 m with
            | Some reply => writeTUN reply;; mret ()
            | None => mret ()
            end
          else if paced b then enqueue_all b segs
          else
            outs ← encap_all b segs m now;
            p ← get;
            send_all (bt b) (if batch then Some (PeerAddr (bt b) (world p)) else None) outs
      end
  end.

(** What [runVnet] does with one read of the device. *)
Definition vnetRead (batch : bool) (buf : bytes) (now : Z) : PM unit :=
  if (length buf <? virtioNetHdrLen)%nat then mret () else
  let hdr := parseVirtioNetHdr (take virtioNetHdrLen buf) in
  let pkt := drop virtioNetHdrLen buf in
  if gsoType hdr =? vnetGSONone then
    routeOutbound (if negb (Z.land (vflags hdr) vnetFlagNeedsCsum =? 0)
                   then completePartialChecksum pkt (csumStart hdr) (csumOffset hdr) else pkt) now
  else if gsoType hdr =? vnetGSOTCPv4 then
    match segmentTSO4 pkt hdr with
    | Err _ => mret ()
    | Ok segs => sendSegments batch segs now
    end
  else mret ().

(** ** What a batch writes *)

Abbreviation pump := (@Pump Tid W Endpoint).

(** The TUN writes among the events. *)
Definition writes_of (es : list (@event Tid Endpoint)) : list tun_write :=
  omap (fun e => match e with EvTun pkt _ => Some (WPlain pkt) | EvGSO hdr frame _ => Some (WGSO hdr frame) | _ => None end) es.

Lemma writes_of_app es es' : writes_of (es ++ es') = writes_of es ++ writes_of es'.
Proof. apply omap_app. Qed.

(** The pump moved from [p] to [p'] with events [es], its tables untouched. *)
Definition moved (p p' : pump) (es : list (@event Tid Endpoint)) : Prop :=
  log p' = log p ++ es /\ demux p' = demux p /\ tables_kept p p'.

Lemma moved_refl p : moved p p [].
Proof. split_and!; [by rewrite app_nil_r|done|done]. Qed.

Lemma moved_trans p1 p2 p3 es es' : moved p1 p2 es -> moved p2 p3 es' -> moved p1 p3 (es ++ es').
Proof.
  intros (L1 & D1 & ? & ? & ? & ?) (L2 & D2 & ? & ? & ? & ?). split_and!; [by rewrite L2, L1, app_assoc|congruence|].
  split_and!; congruence.
Qed.

Lemma writeTUN_moved pkt p : exists ok, (writeTUN pkt p).1 = ok /\ moved p (writeTUN pkt p).2 [EvTun pkt ok].
Proof. unfold writeTUN. msimpl. destruct (if vnet p then _ else _) as [ok w]. by exists ok. Qed.

Lemma perform_moved ws p : exists es, moved p (perform ws p).2 es /\ writes_of es = ws.
Proof.
  revert p. induction ws as [|[pkt|hdr frame] ws IH]; intros p; cbn [perform]; [exists []; by split; [apply moved_refl|]|..].
  - unfold mbind, M_bind. destruct (writeTUN_moved pkt p) as (ok & _ & H). destruct (writeTUN pkt p) as [? p1]. cbn in H.
    destruct (IH p1) as (es & H' & E). exists (EvTun pkt ok :: es). split; [by apply (moved_trans p p1 _ [_])|]. cbn. f_equal. exact E.
  - unfold mbind, M_bind, outside, emit, modify. destruct (vnetWriteGSO (world p) hdr frame) as [ok w]. cbn [fst snd].
    set (p1 := upd_log _ _). destruct (IH p1) as (es & H' & E). exists (EvGSO hdr frame ok :: es).
    split; [by apply (moved_trans p p1 _ [_])|]. cbn. f_equal. exact E.
Qed.

Lemma offerInner_moved t b inner now p :
  exists es, moved p (offerInner t b inner now p).2 es /\
  match offer t inner with
  | None => (offerInner t b inner now p).1 = None
  | Some (ws, t') => exists ok, (offerInner t b inner now p).1 = Some (ok, t') /\ writes_of es = ws
  end.
Proof.
  unfold offerInner, offer, mbind, M_bind, countAt, modify. cbn [mbind option_bind]. set (p0 := upd_heap _ p).
  assert (moved p p0 []) as H0 by (split_and!; [by rewrite app_nil_r|done..]). unfold option_bind.
  destruct (add t inner) as [[[taken ws] t']|]; [|by exists []].
  destruct (perform_moved ws p0) as (es & H1 & E). destruct (perform ws p0) as [? p1]. cbn in H1.
  destruct taken; [exists es; split; [by apply (moved_trans p p0 _ [])|]; by exists true|].
  destruct (writeTUN_moved inner p1) as (ok & E2 & H2). destruct (writeTUN inner p1) as [ok' p2]. cbn in E2, H2. subst ok'.
  exists (es ++ [EvTun inner ok]). rewrite writes_of_app, E.
  assert (moved p p2 (es ++ [EvTun inner ok])) as H by (apply (moved_trans p p0 _ []); [done|by apply (moved_trans p0 p1)]).
  destruct ok; cbn; (split; [exact H|by eexists]).
Qed.

(** The table after a list of offers, and the writes they made. *)
Fixpoint offers (t : groTable) (pkts : list bytes) : option (list tun_write * groTable) :=
  match pkts with
  | [] => Some ([], t)
  | pkt :: pkts => '(ws, t) ← offer t pkt; '(ws', t) ← offers t pkts; Some (ws ++ ws', t)
  end.

Lemma offer_all_offers t pkts :
  offer_all t pkts = '(ws, t') ← offers t pkts; ws' ← flush_all t'; Some (ws ++ ws').
Proof.
  revert t. induction pkts as [|p pkts IH]; intros t; cbn [offer_all offers]; [by cbn; destruct (flush_all t)|].
  destruct (offer t p) as [[ws t1]|]; [|done]. cbn [mbind option_bind]. rewrite IH. destruct (offers t1 pkts) as [[ws1 t2]|]; [|done].
  cbn [mbind option_bind]. destruct (flush_all t2); [|done]. cbn [mbind option_bind]. by rewrite app_assoc.
Qed.

Lemma offers_app t l l' : offers t (l ++ l') = '(ws, t) ← offers t l; '(ws', t) ← offers t l'; Some (ws ++ ws', t).
Proof.
  revert t. induction l as [|p l IH]; intros t; cbn [offers app]; [by cbn; destruct (offers t l') as [[? ?]|]|].
  destruct (offer t p) as [[ws t1]|]; [|done]. cbn [mbind option_bind]. rewrite IH. destruct (offers t1 l) as [[ws1 t2]|]; [|done].
  cbn [mbind option_bind]. destruct (offers t2 l') as [[? ?]|]; [|done]. cbn [mbind option_bind]. by rewrite app_assoc.
Qed.

(** A run of offers, with what it wrote and the table it left. *)
Definition ran (t : groTable) (l : list bytes) (p p' : pump) (r : option groTable) : Prop :=
  exists es, moved p p' es /\
  match r with
  | Some t' => offers t l = Some (writes_of es, t')
  | None => offers t l = None
  end.

Lemma ran_trans t l l' p1 p2 p3 t2 r : ran t l p1 p2 (Some t2) -> ran t2 l' p2 p3 r -> ran t (l ++ l') p1 p3 r.
Proof.
  intros (es & H1 & E1) (es' & H2 & E2). exists (es ++ es'). split; [by apply (moved_trans p1 p2)|]. rewrite offers_app, E1.
  cbn [mbind option_bind]. destruct r as [t'|]; rewrite E2; [|done]. cbn [mbind option_bind]. by rewrite writes_of_app.
Qed.

(** Events that are no writes. *)
Lemma ran_quiet t p p' es : moved p p' es -> writes_of es = [] -> ran t [] p p' (Some t).
Proof. intros H E. exists es. split; [done|]. by rewrite E. Qed.

(** A step that writes nothing. *)
Definition silent (p p' : pump) : Prop := exists es, moved p p' es /\ writes_of es = [].

Lemma silent_refl p : silent p p.
Proof. exists []. split; [apply moved_refl|done]. Qed.

Lemma silent_trans p1 p2 p3 : silent p1 p2 -> silent p2 p3 -> silent p1 p3.
Proof. intros (e1 & H1 & E1) (e2 & H2 & E2). exists (e1 ++ e2). split; [by apply (moved_trans p1 p2)|]. by rewrite writes_of_app, E1, E2. Qed.

Lemma silent_log p p' : log p' = log p -> demux p' = demux p -> tables_kept p p' -> silent p p'.
Proof. intros L D T. exists []. split; [|done]. split_and!; [by rewrite app_nil_r|done|done]. Qed.

Lemma ran_silent t p p' : silent p p' -> ran t [] p p' (Some t).
Proof. intros (es & H & E). by eapply ran_quiet. Qed.

Lemma roam_silent b from p : silent p (roam b from p).2.
Proof.
  unfold roam. destruct from as [a|]; [|apply silent_refl]. destruct (roams b); [|apply silent_refl]. msimpl.
  exists [EvRoam (bt b) a]. by split.
Qed.

Lemma sourceOK_silent b inner p : silent p (sourceOK b inner p).2 /\ ((sourceOK b inner p).1 = true -> source_allowed b inner).
Proof.
  unfold sourceOK, source_allowed. destruct (srcRoutes b) as [rs|]; [|split; [apply silent_refl|by intros]].
  destruct (SourceWithin inner rs) eqn:E; msimpl.
  - split; [apply silent_refl|]. intros _ ? [= <-]. by apply SourceWithin_spec.
  - split; [by apply silent_log|done].
Qed.

(** An inner packet the batch may write: a tunnel the datagram names opened it, and it passed the source check. *)
Definition accepted (v : gmap Z bnd) (dm : bytes -> option Z) (pkts : list (bytes * option Endpoint)) (q : bytes) : Prop :=
  exists pkt from key b w inners, (pkt, from) ∈ pkts /\ dm pkt = Some key /\ v !! key = Some b /\
    opened b w pkt inners /\ q ∈ inners /\ q <> [] /\ source_allowed b q.

Lemma decapInbound_silent b pkt from now p :
  silent p (decapInbound b pkt from now p).2 /\
  (forall inner, (decapInbound b pkt from now p).1 = Some inner ->
     (Decapsulate (bt b) (world p) pkt).1 = Some inner /\ inner <> [] /\ source_allowed b inner).
Proof.
  unfold decapInbound. msimpl. destruct (Decapsulate (bt b) (world p) pkt) as [[inner|] w]; cbn; [|split; [by apply silent_log|done]].
  pose proof (roam_silent b from (upd_world w p)) as H1. destruct (roam b from (upd_world w p)) as [? p1]. cbn in *.
  assert (silent p (upd_last now p1)) as H2 by (apply (silent_trans _ (upd_world w p)); [by apply silent_log|]; apply (silent_trans _ p1); [done|by apply silent_log]).
  destruct (Nat.eqb_spec (length inner) 0) as [El|El]; cbn; [split; [by apply (silent_trans _ (upd_last now p1)); [|apply silent_log]|done]|].
  destruct (sourceOK_silent b inner (upd_last now p1)) as [H3 H4]. destruct (sourceOK b inner (upd_last now p1)) as [ok p2]. cbn in *.
  split; [by apply (silent_trans _ (upd_last now p1))|]. destruct ok; [|done]. intros ? [= <-]. split_and!; [done|by destruct inner|by apply H4].
Qed.

Lemma offer_multi_ran t b inners now p :
  exists l, ran t l p (offer_multi t b inners now p).2 (offer_multi t b inners now p).1 /\
    Forall (fun q => q ∈ inners /\ q <> [] /\ source_allowed b q) l.
Proof.
  revert t p. induction inners as [|inner inners IH]; intros t p; cbn [offer_multi].
  { exists []. split; [apply ran_silent, silent_refl|done]. }
  assert (forall t' p', silent p p' -> t' = t -> exists l, ran t l p (offer_multi t' b inners now p').2 (offer_multi t' b inners now p').1 /\
    Forall (fun q => q ∈ inner :: inners /\ q <> [] /\ source_allowed b q) l) as K.
  { intros t' p' Hp ->. destruct (IH t p') as (l & Hr & Hl). exists l. split; [by apply (ran_trans t [] l p p' _ t); [apply ran_silent|]|].
    eapply Forall_impl; [exact Hl|]. intros q (H & H'). split; [by right|done]. }
  destruct (Nat.eqb_spec (length inner) 0) as [El|El]; [apply K; [apply silent_refl|done]|].
  unfold mbind, M_bind. destruct (sourceOK_silent b inner p) as [H1 H2]. destruct (sourceOK b inner p) as [ok p1]. cbn [fst snd] in *.
  destruct ok; cbn [negb]; [|by apply K]. specialize (H2 eq_refl).
  destruct (offerInner_moved t b inner now p1) as (es & Hm & Ho). destruct (offerInner t b inner now p1) as [r p2]. cbn [fst snd] in *.
  assert (inner <> []) as Hne by (by destruct inner).
  assert (ran t [inner] p p2 (snd <$> r)) as Hr.
  { apply (ran_trans t [] [inner] p p1 p2 t); [by apply ran_silent|]. exists es. split; [done|]. cbn [offers].
    destruct (offer t inner) as [[ws t']|]; [destruct Ho as (ok & -> & <-); cbn; by rewrite app_nil_r|by rewrite Ho]. }
  destruct r as [[[] t']|]; cbn in Hr.
  - destruct (IH t' p2) as (l & Hr' & Hl). exists (inner :: l). split; [by apply (ran_trans t [inner] l p p2 _ t')|].
    apply Forall_cons. split; [split; [by left|done]|]. eapply Forall_impl; [exact Hl|]. intros q (H & H'). split; [by right|done].
  - exists [inner]. split; [exact Hr|]. apply Forall_singleton. split; [by left|done].
  - exists [inner]. split; [exact Hr|]. apply Forall_singleton. split; [by left|done].
Qed.

(** What one datagram of the batch does, once its key resolved. *)
Definition gro_one (t : groTable) (b : bnd) (pkt : bytes) (from : option Endpoint) (now : Z) : PM (option groTable) :=
  if multi b then groMulti t b pkt from now
  else
    r ← decapInbound b pkt from now;
    match r with
    | None => mret (Some t)
    | Some inner => r ← offerInner t b inner now; mret (snd <$> r)
    end.

Lemma gro_one_ran t b pkt from now p :
  exists l, ran t l p (gro_one t b pkt from now p).2 (gro_one t b pkt from now p).1 /\
    Forall (fun q => exists w inners, opened b w pkt inners /\ q ∈ inners /\ q <> [] /\ source_allowed b q) l.
Proof.
  unfold gro_one, opened. destruct (multi b) eqn:Em.
  - unfold groMulti, decapMulti. msimpl. destruct (DecapsulateMulti (bt b) (world p) pkt) as [[inners|] w] eqn:Ed; cbn.
    2: { exists []. split; [by apply ran_silent, silent_log|done]. }
    pose proof (roam_silent b from (upd_world w p)) as H1. destruct (roam b from (upd_world w p)) as [? p1]. cbn in *.
    destruct (offer_multi_ran t b inners now (upd_last now p1)) as (l & Hr & Hl). exists l. split.
    + apply (ran_trans t [] l p (upd_last now p1) _ t); [|done]. apply ran_silent.
      apply (silent_trans _ (upd_world w p)); [by apply silent_log|]. apply (silent_trans _ p1); [done|by apply silent_log].
    + eapply Forall_impl; [exact Hl|]. intros q (H & H' & H''). exists (world p), inners. by rewrite Ed.
  - unfold mbind, M_bind. destruct (decapInbound_silent b pkt from now p) as [H1 H2].
    destruct (decapInbound b pkt from now p) as [[inner|] p1]; cbn [fst snd] in *.
    2: { exists []. split; [by apply ran_silent|done]. }
    destruct (H2 inner eq_refl) as (Hd & Hne & Hs). destruct (offerInner_moved t b inner now p1) as (es & Hm & Ho).
    destruct (offerInner t b inner now p1) as [r p2]. cbn [fst snd] in *. exists [inner]. split.
    + apply (ran_trans t [] [inner] p p1 p2 t); [by apply ran_silent|]. exists es. split; [done|]. cbn [offers].
      destruct (offer t inner) as [[ws t']|]; [destruct Ho as (ok & -> & <-); cbn; by rewrite app_nil_r|by rewrite Ho].
    + apply Forall_singleton. exists (world p), [inner]. split_and!; [by exists inner|by left|done|done].
Qed.

Lemma ran_demux t l p p' r : ran t l p p' r -> demux p' = demux p.
Proof. by intros (es & (_ & H & _) & _). Qed.

Lemma gro_loop_ran v t pkts now p :
  exists l, ran t l p (gro_loop v t pkts now p).2 (gro_loop v t pkts now p).1 /\ Forall (accepted v (demux p) pkts) l.
Proof.
  revert t p. induction pkts as [|[pkt from] pkts IH]; intros t p; cbn [gro_loop].
  { exists []. split; [apply ran_silent, silent_refl|done]. }
  assert (forall l1 t1 p1, ran t l1 p p1 (Some t1) -> Forall (accepted v (demux p) ((pkt, from) :: pkts)) l1 ->
    exists l, ran t l p (gro_loop v t1 pkts now p1).2 (gro_loop v t1 pkts now p1).1 /\ Forall (accepted v (demux p) ((pkt, from) :: pkts)) l) as K.
  { intros l1 t1 p1 Hr Ha. destruct (IH t1 p1) as (l & Hr' & Hl). exists (l1 ++ l). split; [by apply (ran_trans t l1 l p p1 _ t1)|].
    apply Forall_app. split; [done|]. rewrite (ran_demux _ _ _ _ _ Hr) in Hl. eapply Forall_impl; [exact Hl|].
    intros q (pk & fr & k & b & w & inners & H1 & H2). exists pk, fr, k, b, w, inners. split; [by right|done]. }
  unfold lookupInbound. msimpl. destruct (demux p pkt) as [key|] eqn:Ek; cbn; [|apply (K []); [by apply ran_silent, silent_log|done]].
  destruct (v !! key) as [b|] eqn:Eb; cbn; [|apply (K []); [by apply ran_silent, silent_log|done]].
  match goal with |- context [let '(_, _) := ?m p in _] => change m with (gro_one t b pkt from now) end.
  destruct (gro_one_ran t b pkt from now p) as (l & Hr & Hl). destruct (gro_one t b pkt from now p) as [r p1]. cbn [fst snd] in *.
  assert (Forall (accepted v (demux p) ((pkt, from) :: pkts)) l) as Ha.
  { eapply Forall_impl; [exact Hl|]. intros q (w & inners & Ho & Hq). exists pkt, from, key, b, w, inners. split_and!; try done; [by left|..]; by destruct Hq as (? & ? & ?). }
  destruct r as [t1|]; [by apply (K l)|]. by exists l.
Qed.

(** C21: a batch writes what the coalescing table makes of authenticated packets, and nothing else.
    Every inner packet [handleInboundBatchGRO] offers to the table was opened by the tunnel its
    datagram's key names, is not empty and passed that tunnel's source check; the TUN writes of
    the batch are, in order, exactly the table's writes for those packets; if the table panics the
    batch does; and the pump's tables never move. *)
Theorem gro_batch_writes (v : gmap Z bnd) (pkts : list (bytes * option Endpoint)) (now : Z) (p : pump) :
  let '(r, p') := handleInboundBatchGRO v pkts now p in
  exists inners es, Forall (accepted v (demux p) pkts) inners /\ moved p p' es /\
    match offer_all [] inners with
    | Some ws => r = Some () /\ writes_of es = ws
    | None => r = None
    end.
Proof.
  unfold handleInboundBatchGRO, mbind, M_bind. destruct (gro_loop_ran v [] pkts now p) as (l & (es & Hm & Ho) & Hl).
  destruct (gro_loop v [] pkts now p) as [[t|] p1]; cbn [fst snd] in *.
  - destruct (flush_all t) as [ws|] eqn:Ef.
    + destruct (perform_moved ws p1) as (es' & Hm' & E'). destruct (perform ws p1) as [? p2]. cbn [snd] in Hm'.
      exists l, (es ++ es'). rewrite offer_all_offers, Ho. cbn [mbind option_bind]. rewrite Ef. cbn [mbind option_bind].
      split_and!; [done|by apply (moved_trans p p1)|done|by rewrite writes_of_app, E'].
    + exists l, es. rewrite offer_all_offers, Ho. cbn [mbind option_bind]. by rewrite Ef.
  - exists l, es. by rewrite offer_all_offers, Ho.
Qed.

(** ** Bursts are accounted for *)

(** [cs] of the segments left through [b], in order, each counted once; the others were dropped for reason [r]. *)
Record burst (r : DropReason) (b : bnd) (segs cs : list bytes) (p p' : pump) : Prop := {
  bu_sub : cs `sublist_of` segs;
  bu_drops : drops p' = drops (Nat.iter (length segs - length cs) (upd_drops r) p);
  bu_heap : heap p' = foldl (fun h seg => alter (fun c => countTx c (length seg)) (bc b) h) (heap p) cs;
  bu_tables : tables_kept p p';
}.

Lemma iter_drops r n (p q : pump) : drops p = drops q -> drops (Nat.iter n (upd_drops r) p) = drops (Nat.iter n (upd_drops r) q).
Proof. intros E. induction n as [|n IH]; [done|]. rewrite !Nat.iter_succ. unfold upd_drops at 1 3. cbn [drops]. by rewrite IH. Qed.

Lemma iter_frame r n (p : pump) : heap (Nat.iter n (upd_drops r) p) = heap p /\ log (Nat.iter n (upd_drops r) p) = log p /\
  tables_kept p (Nat.iter n (upd_drops r) p) /\ mtu (Nat.iter n (upd_drops r) p) = mtu p.
Proof. induction n as [|n (H1 & H2 & (T1 & T2 & T3 & T4) & H4)]; [done|]. cbn. by split_and!. Qed.

Lemma burst_nil r b p : burst r b [] [] p p.
Proof. by split. Qed.

Lemma burst_keep r b seg segs cs p p1 p' :
  drops p1 = drops p -> heap p1 = alter (fun c => countTx c (length seg)) (bc b) (heap p) -> tables_kept p p1 ->
  burst r b segs cs p1 p' -> burst r b (seg :: segs) (seg :: cs) p p'.
Proof.
  intros Ed Eh (T1 & T2 & T3 & T4) [Sb D H (U1 & U2 & U3 & U4)]. split.
  - by apply sublist_skip.
  - rewrite D. cbn [length]. by apply iter_drops.
  - by rewrite H, Eh.
  - split_and!; congruence.
Qed.

Lemma burst_drop r b seg segs cs p p1 p' :
  drops p1 = drops (upd_drops r p) -> heap p1 = heap p -> tables_kept p p1 ->
  burst r b segs cs p1 p' -> burst r b (seg :: segs) cs p p'.
Proof.
  intros Ed Eh (T1 & T2 & T3 & T4) [Sb D H (U1 & U2 & U3 & U4)]. pose proof (sublist_length _ _ Sb) as L. split.
  - by apply sublist_cons.
  - rewrite D. cbn [length]. replace (S (length segs) - length cs)%nat with (S (length segs - length cs)) by lia.
    rewrite (iter_drops _ _ _ _ Ed). by rewrite Nat.iter_succ, Nat.iter_swap.
  - by rewrite H, Eh.
  - split_and!; congruence.
Qed.

Lemma enqueue_all_burst b segs p :
  exists cs, burst DropPacerFull b segs cs p (enqueue_all b segs p).2 /\ log (enqueue_all b segs p).2 = log p ++ (EvQueued (bt b) <$> cs).
Proof.
  revert p. induction segs as [|seg segs IH]; intros p; cbn [enqueue_all]; [exists []; split; [apply burst_nil|by rewrite app_nil_r]|].
  unfold mbind, M_bind, outside, emit, countAt, drop_as, modify. destruct (Enqueue (bt b) (world p) seg) as [[] w]; cbn [fst snd].
  - match goal with |- context [enqueue_all b segs ?x] => destruct (IH x) as (cs & H & L) end.
    exists (seg :: cs). split; [by eapply burst_keep; [..|exact H]|]. rewrite L. cbn. by rewrite <- app_assoc.
  - match goal with |- context [enqueue_all b segs ?x] => destruct (IH x) as (cs & H & L) end.
    exists cs. split; [by eapply burst_drop; [..|exact H]|]. by rewrite L.
Qed.

Lemma encap_all_burst b segs m now p :
  exists cs, burst DropEncapFailed b segs cs p (encap_all b segs m now p).2 /\ length (encap_all b segs m now p).1 = length cs /\
    log (encap_all b segs m now p).2 = log p.
Proof.
  revert p. induction segs as [|seg segs IH]; intros p; cbn [encap_all]; [exists []; by split; [apply burst_nil|]|].
  unfold mbind, M_bind, mret, M_ret, countAt, drop_as, modify. pose proof (encap_frame b seg m now p) as (Hd & Hh & Hl & Ht). cbn zeta in *.
  destruct (encap b seg m now p) as [[out|] p1]; cbn [fst snd] in *.
  - match goal with |- context [encap_all b segs m now ?x] => destruct (IH x) as (cs & H & L & E); destruct (encap_all b segs m now x) as [outs p2] end.
    cbn [fst snd] in *. exists (seg :: cs). split_and!; [|cbn; by f_equal|rewrite E; exact Hl].
    eapply burst_keep; [| | |exact H]; cbn; [done|by rewrite Hh|done].
  - match goal with |- context [encap_all b segs m now ?x] => destruct (IH x) as (cs & H & L & E) end.
    exists cs. split_and!; [|done|rewrite E; exact Hl]. eapply burst_drop; [| | |exact H]; cbn; [by rewrite Hd|done|done].
Qed.

Lemma send_all_frame t fixed outs p :
  let p' := (send_all t fixed outs p).2 in
  drops p' = drops p /\ heap p' = heap p /\ tables_kept p p' /\
  exists tos, length tos = length outs /\ log p' = log p ++ zip_with EvSend outs tos.
Proof.
  cbn zeta. revert p. induction outs as [|out outs IH]; intros p; cbn [send_all]; [split_and!; try done; exists []; by rewrite app_nil_r|].
  unfold mbind, M_bind, get, outside, emit, modify. cbn [fst snd].
  match goal with |- context [send_all t fixed outs ?x] => destruct (IH x) as (H1 & H2 & (T1 & T2 & T3 & T4) & tos & L & E) end.
  rewrite H1, H2. split_and!; try done. exists (default (PeerAddr t (world p)) fixed :: tos). split; [cbn; by f_equal|]. rewrite E. cbn. by rewrite <- app_assoc.
Qed.

(** Every segment of a super-frame is accounted for exactly once.  A burst without a destination
    or a route is dropped under that reason; one that exceeds the learned MTU is dropped with
    every segment counted; otherwise, in order, each segment is queued or sent through the
    tunnel of the longest matching route, with that tunnel's transmit counters moved by it, or
    counted as refused by the pacer or failed to encapsulate.  The tables never move. *)
Theorem sendSegments_accounts (batch : bool) (segs : list bytes) (now : Z) (p : pump) :
  let p' := (sendSegments batch segs now p).2 in
  let seg0 := default [] (segs !! 0%nat) in
  match innerDest seg0 with
  | None => dropped DropNotIP p p'
  | Some dst =>
      match lookup None (routes p) dst with
      | None => dropped DropNoRoute p p'
      | Some b =>
          if (0 <? mtu p) && NeedsFragmentation seg0 (mtu p) then
            drops p' = drops (Nat.iter (length segs) (upd_drops DropTooBig) p) /\ heap p' = heap p /\ tables_kept p p'
          else if paced b then
            exists cs, burst DropPacerFull b segs cs p p' /\ log p' = log p ++ (EvQueued (bt b) <$> cs)
          else
            exists cs outs tos, burst DropEncapFailed b segs cs p p' /\ length outs = length cs /\ length tos = length cs /\
              log p' = log p ++ zip_with EvSend outs tos
      end
  end.
Proof.
  cbn zeta. unfold sendSegments. set (seg0 := default [] (segs !! 0%nat)).
  destruct (innerDest seg0) as [dst|]; [|apply dropped_quietly]. unfold mbind, M_bind, get. cbn [fst snd].
  destruct (lookup None (routes p) dst) as [b|]; [|apply dropped_quietly].
  destruct ((0 <? mtu p) && NeedsFragmentation seg0 (mtu p)).
  - unfold dropN, modify. cbn [fst snd]. destruct (iter_frame DropTooBig (length segs) p) as (H1 & _ & H3 & _).
    destruct (FragNeeded seg0 (mtu p)) as [reply|]; [|done]. unfold writeTUN. msimpl. destruct (if vnet _ then _ else _) as [ok w]. by cbn.
  - destruct (paced b); [apply enqueue_all_burst|].
    destruct (encap_all_burst b segs (mtu p) now p) as (cs & HB & Hl & Hlog). destruct (encap_all b segs (mtu p) now p) as [outs p1]. cbn [fst snd] in *.
    destruct (send_all_frame (bt b) (if batch then Some (PeerAddr (bt b) (world p1)) else None) outs p1) as (H1 & H2 & (T1 & T2 & T3 & T4) & tos & L & E).
    exists cs, outs, tos. split_and!; [|done|congruence|by rewrite E, Hlog].
    destruct HB as [Sb D H (U1 & U2 & U3 & U4)]. split; [done|congruence|congruence|]. split_and!; congruence.
Qed.

(** ** Invariants of the outside world *)

Section World.
Context (I : W -> Prop) (v0 : gmap Z bnd) (r0 : routeTable (option bnd)).
Context (HD : forall t w pkt, I w -> I (Decapsulate t w pkt).2) (HM : forall t w pkt, I w -> I (DecapsulateMulti t w pkt).2)
  (HS : forall t w a, I w -> I (SetPeerAddr t w a)) (HT : forall w pkt, I w -> I (tunWrite w pkt).2)
  (HV : forall w pkt, I w -> I (vnetWrite w pkt).2) (HG : forall w h f, I w -> I (vnetWriteGSO w h f).2).

(** The operation keeps the invariant, the inbound keys and the routes. *)
Definition keeps {A} (m : PM A) : Prop :=
  forall p, I (world p) /\ byKey p = v0 /\ routes p = r0 -> I (world (m p).2) /\ byKey (m p).2 = v0 /\ routes (m p).2 = r0.

Lemma keeps_ret {A} (a : A) : keeps (mret a).
Proof. by intros p H. Qed.

Lemma keeps_bind {A B} (m : PM A) (k : A -> PM B) : keeps m -> (forall a, keeps (k a)) -> keeps (m ≫= k).
Proof. intros Hm Hk p H. unfold mbind, M_bind. specialize (Hm p H). destruct (m p) as [a p1]. by apply Hk. Qed.

Lemma keeps_get {A} (k : pump -> PM A) : (forall q, keeps (k q)) -> keeps (get ≫= k).
Proof. intros Hk p H. by apply (Hk p). Qed.

Lemma keeps_modify f : (forall p : pump, world (f p) = world p /\ byKey (f p) = byKey p /\ routes (f p) = routes p) -> keeps (modify f).
Proof. intros Hf p H. cbn. destruct (Hf p) as (-> & -> & ->). done. Qed.

Lemma keeps_outside {A} (f : W -> A * W) : (forall w, I w -> I (f w).2) -> keeps (outside f).
Proof. intros Hf p [H1 H2]. unfold outside. specialize (Hf _ H1). by destruct (f (world p)). Qed.

(** One step along the shape of an operation. *)
Ltac keep1 :=
  match goal with
  | |- keeps (mret _) => apply keeps_ret
  | |- keeps (get ≫= _) => apply keeps_get; intros
  | |- keeps (_ ≫= _) => apply keeps_bind; intros
  | |- keeps (modify _) => apply keeps_modify; done
  | |- keeps (emit _) => apply keeps_modify; done
  | |- keeps (drop_as _) => apply keeps_modify; done
  | |- keeps (countAt _ _) => apply keeps_modify; done
  | |- keeps (outside _) => apply keeps_outside; intros; try case_match; cbn; solve [eauto]
  | |- keeps (match _ with _ => _ end) => case_match
  | |- keeps _ => solve [auto with keeps]
  end.

Ltac keep := repeat keep1.

Lemma keeps_writeTUN pkt : keeps (writeTUN pkt).
Proof. unfold writeTUN. keep. Qed.

Lemma keeps_perform ws : keeps (perform ws).
Proof. induction ws as [|[pkt|hdr frame] ws IH]; cbn [perform]; keep; (done || apply keeps_writeTUN). Qed.

Lemma keeps_roam b from : keeps (roam b from).
Proof. unfold roam. keep. Qed.

Lemma keeps_sourceOK b inner : keeps (sourceOK b inner).
Proof. unfold sourceOK. keep. Qed.

Hint Resolve keeps_writeTUN keeps_perform keeps_roam keeps_sourceOK : keeps.

Lemma keeps_decapInbound b pkt from now : keeps (decapInbound b pkt from now).
Proof. unfold decapInbound. keep. Qed.

Lemma keeps_decapMulti b pkt from now : keeps (decapMulti b pkt from now).
Proof. unfold decapMulti. keep. Qed.

Lemma keeps_lookupInbound v pkt : keeps (lookupInbound v pkt).
Proof. unfold lookupInbound. keep. Qed.

Lemma keeps_offerInner t b inner now : keeps (offerInner t b inner now).
Proof. unfold offerInner. keep. Qed.

Hint Resolve keeps_decapInbound keeps_decapMulti keeps_lookupInbound keeps_offerInner : keeps.

Lemma keeps_offer_multi t b inners now : keeps (offer_multi t b inners now).
Proof. revert t. induction inners as [|inner inners IH]; intros t; cbn [offer_multi]; keep. Qed.

Lemma keeps_deliver_multi b inners now : keeps (deliver_multi b inners now).
Proof. induction inners as [|inner inners IH]; cbn [deliver_multi]; keep. Qed.

Hint Resolve keeps_offer_multi keeps_deliver_multi : keeps.

Lemma keeps_gro_loop v t pkts now : keeps (gro_loop v t pkts now).
Proof. revert t. induction pkts as [|[pkt from] pkts IH]; intros t; cbn [gro_loop]; unfold groMulti; keep. Qed.

Lemma keeps_inbound_batch v pkts now : keeps (inbound_batch v pkts now).
Proof. induction pkts as [|[pkt from] pkts IH]; cbn [inbound_batch]; unfold handleInbound, handleInboundMulti; keep. Qed.

Hint Resolve keeps_gro_loop keeps_inbound_batch : keeps.

(** A batch keeps what every call of the outside world keeps, and the tables. *)
Lemma keeps_HandleInboundBatch pkts now : keeps (HandleInboundBatch pkts now).
Proof. unfold HandleInboundBatch, handleInboundBatchGRO. keep. Qed.

Context (HE : forall t w pkt, I w -> I (Encapsulate t w pkt).2) (HP : forall t w pkt m, I w -> I (EncapsulatePadded t w pkt m).2)
  (HA : forall t w pkt m, I w -> I (AppendEncapsulated t w pkt m).2) (HQ : forall t w pkt, I w -> I (Enqueue t w pkt).2)
  (HO : forall w pkt a, I w -> I (sendTo w pkt a)).

Lemma keeps_encap b pkt m now : keeps (encap b pkt m now).
Proof. unfold encap. keep. Qed.

Hint Resolve keeps_encap : keeps.

(** So does a packet from the TUN. *)
Lemma keeps_routeOutbound pkt now : keeps (routeOutbound pkt now).
Proof. unfold routeOutbound. keep. Qed.

Lemma keeps_enqueue_all b segs : keeps (enqueue_all b segs).
Proof. induction segs as [|seg segs IH]; cbn [enqueue_all]; keep. Qed.

Lemma keeps_encap_all b segs m now : keeps (encap_all b segs m now).
Proof. induction segs as [|seg segs IH]; cbn [encap_all]; keep. Qed.

Lemma keeps_send_all t fixed outs : keeps (send_all t fixed outs).
Proof. induction outs as [|out outs IH]; cbn [send_all]; keep. Qed.

Lemma keeps_dropN r n : keeps (dropN r n).
Proof. apply keeps_modify. intros p. by induction n as [|n IH]. Qed.

Hint Resolve keeps_routeOutbound keeps_enqueue_all keeps_encap_all keeps_send_all keeps_dropN : keeps.

Lemma keeps_vnetRead batch buf now : keeps (vnetRead batch buf now).
Proof. unfold vnetRead, sendSegments. keep. Qed.

End World.

End PumpGso.

(** On a pump whose tunnel checks inner sources against 10.0.0.0/8, three datagrams from 10.0.0.1
    make the TUN see a packet from 192.168.0.1 (see [gro_payload_as_packet]). *)
Example gro_bypasses_source_check :
  let p := (AddTunnel 1%nat (NewPump None true 0 ())).2 in
  let dgram pkt := ([0; 0; 0; 1] ++ pkt, Some 7%nat) in
  let batch := dgram <$> [demo_segment 7 1000 0x10 (replicate 28 1); demo_segment 0 1028 0x10 []; demo_segment 8 1028 0x10 demo_spoof] in
  let p' := (HandleInboundBatch batch 5 p).2 in
  SourceWithin demo_spoof (demo_routes 1) = false /\ drops p' DropSpoofedSource = 0 /\
  last (log p') = Some (EvTun demo_spoof true).
Proof. by vm_compute. Qed.
