(* ===== verification/Pool.v ===== *)
(** * Address pools, [dataplane/pool.go] and [dataplane/pool6.go]

    [AddrPool] hands out the lowest free IPv4 host of a network; [AddrPool6] walks
    an IPv6 prefix upwards from a low-water mark.  The mutexes serialise the
    operations, so each is a function on the pool.  Both [net.ParseCIDR] and
    [netip.ParsePrefix] belong to the language's library and the pools are built
    from what they return. *)
From Stdlib Require Import ZArith Lia.
From stdpp Require Import base list gmap fin_sets.
From S2P Require Import Prelude Routes Shape.

Inductive pool_error := ErrNotIPv4 | ErrTooSmall | ErrNotIPv6 | ErrExhausted.

(** ** IPv4 *)

Record AddrPool := mkPool { network : Prefix; gateway : Z; pbase : Z; plast : Z; used : gset Z }.

(** [ipnet] is the network [net.ParseCIDR] returned: masked, with [ones] mask bits. *)
Definition NewAddrPool (ipnet : Prefix) : result pool_error (AddrPool * Z) :=
  match pAddr ipnet with
  | IPv6 _ => Err ErrNotIPv4
  | IPv4 netStart =>
      let size := wrap 32 (Z.shiftl 1 (32 - Z.of_nat (pBits ipnet))) in
      if size <? 4 then Err ErrTooSmall
      else
        let gw := wrap 32 (netStart + 1) in
        let base := wrap 32 (netStart + 2) in
        let last := wrap 32 (wrap 32 (netStart + size) - 2) in
        Ok (mkPool ipnet gw base last ∅, gw)
  end.

(** The loop of [Allocate] from [cand]; the inner [option] is its result and the
    outer one is [None] when the fuel runs out. *)
Fixpoint scan (fuel : nat) (cand last : Z) (used : gset Z) : option (option Z) :=
  match fuel with
  | O => None
  | S fuel =>
      if cand <=? last then
        if decide (cand ∈ used) then scan fuel (wrap 32 (cand + 1)) last used else Some (Some cand)
      else Some None
  end.

Definition Allocate (p : AddrPool) : option (result pool_error Z * AddrPool) :=
  r ← scan (S (size (used p))) (pbase p) (plast p) (used p);
  Some match r with
       | Some cand => (Ok cand, mkPool (network p) (gateway p) (pbase p) (plast p) ({[cand]} ∪ used p))
       | None => (Err ErrExhausted, p)
       end.

(** [ip.To4()] of the argument, [None] when it is not an IPv4 address. *)
Definition Release (p : AddrPool) (ip : option Z) : AddrPool :=
  match ip with
  | None => p
  | Some v4 => mkPool (network p) (gateway p) (pbase p) (plast p) (used p ∖ {[v4]})
  end.

(** What every pool built by [NewAddrPool] satisfies. *)
Record pool_inv (p : AddrPool) : Prop := {
  pi_base : 0 <= pbase p;
  pi_last : pbase p <= plast p < 2 ^ 32 - 1;
  pi_gw : gateway p < pbase p;
  pi_used : forall a, a ∈ used p -> pbase p <= a <= plast p;
}.

(** [a] is the lowest free address. *)
Definition lowest_free (p : AddrPool) (a : Z) : Prop :=
  pbase p <= a <= plast p /\ a ∉ used p /\ forall b, pbase p <= b < a -> b ∈ used p.

(** The scan cannot outrun the used addresses: from [cand] up to the first free
    one every candidate is a member of [used]. *)
Lemma scan_spec fuel cand last (used : gset Z) :
  0 <= cand -> last < 2 ^ 32 - 1 ->
  (size (filter (fun a : Z => (cand <= a)%Z) used) < fuel)%nat ->
  exists r, scan fuel cand last used = Some r /\
    match r with
    | Some a => cand <= a <= last /\ a ∉ used /\ forall b, cand <= b < a -> b ∈ used
    | None => forall b, cand <= b <= last -> b ∈ used
    end.
Proof.
  revert cand. induction fuel as [|fuel IH]; intros cand Hc Hl Hs; [lia|]. simpl.
  destruct (Z.leb_spec cand last) as [Hle|Hgt].
  2: { exists None. split; [done|]. intros; lia. }
  destruct (decide (cand ∈ used)) as [Hin|Hni].
  2: { exists (Some cand). split; [done|]. split_and!; [lia|lia|done|]. intros; lia. }
  rewrite wrap_small by (unfold uint; lia).
  destruct (IH (cand + 1)) as (r & -> & Hr); [lia|done| |].
  { assert (filter (fun a => cand + 1 <= a) used ⊂ filter (fun a => cand <= a) used) as Hsub.
    { split; [intros x; rewrite !elem_of_filter; intuition lia|].
      intros Hsup. specialize (Hsup cand). rewrite !elem_of_filter in Hsup. specialize (Hsup ltac:(split; [lia|done])). lia. }
    apply subset_size in Hsub. lia. }
  exists r. split; [done|]. destruct r as [a|].
  - destruct Hr as (H1 & H2 & H3). split_and!; [lia|lia|done|]. intros b Hb.
    destruct (decide (b = cand)) as [->|]; [done|]. apply H3. lia.
  - intros b Hb. destruct (decide (b = cand)) as [->|]; [done|]. apply Hr. lia.
Qed.

Lemma Allocate_spec p :
  pool_inv p ->
  exists r p', Allocate p = Some (r, p') /\ pool_inv p' /\
    match r with
    | Ok a => lowest_free p a /\ used p' = {[a]} ∪ used p
    | Err e => e = ErrExhausted /\ p' = p /\ forall b, pbase p <= b <= plast p -> b ∈ used p
    end.
Proof.
  intros [H1 H2 H3 H4]. unfold Allocate.
  destruct (scan_spec (S (size (used p))) (pbase p) (plast p) (used p)) as (r & -> & Hr); [done|lia| |].
  { apply Nat.lt_succ_r, subseteq_size. intros x. rewrite elem_of_filter. naive_solver. }
  cbn. destruct r as [a|].
  - destruct Hr as (Ha & Hn & Hb). do 2 eexists. split; [done|]. split; [split; cbn; try done|].
    + intros b Hbu. apply elem_of_union in Hbu as [Hbu|Hbu]; [|by apply H4]. apply elem_of_singleton in Hbu. lia.
    + by split_and!; cbn; try lia.
  - do 2 eexists. split; [done|]. done.
Qed.

Lemma Release_inv p ip : pool_inv p -> pool_inv (Release p ip).
Proof.
  intros [H1 H2 H3 H4]. destruct ip as [a|]; [|done]. split; cbn; try done.
  intros b Hb. apply H4. set_solver.
Qed.

(** [NewAddrPool] over a masked network of at least four addresses. *)
Lemma NewAddrPool_spec (x : Z) (n : nat) :
  prefix_ok (mkPrefix (IPv4 x) n) -> Masked (mkPrefix (IPv4 x) n) = mkPrefix (IPv4 x) n -> (1 <= n <= 30)%nat ->
  exists p, NewAddrPool (mkPrefix (IPv4 x) n) = Ok (p, x + 1) /\ pool_inv p /\ used p = ∅ /\
    gateway p = x + 1 /\ pbase p = x + 2 /\ plast p = x + 2 ^ (32 - Z.of_nat n) - 2.
Proof.
  intros [Hx _] Hm Hn. unfold addr_ok in Hx. cbn in Hx.
  set (k := 32 - Z.of_nat n). assert (2 <= k <= 31) as Hk by lia.
  assert (exists q, x = q * 2 ^ k) as [q Hq].
  { injection Hm as Hm. exists (x / 2 ^ k). rewrite <- Hm at 1. cbn [BitLen addr_val].
    replace (Z.of_nat (32 - n)) with k by lia. by rewrite Z.shiftl_mul_pow2, Z.shiftr_div_pow2 by lia. }
  assert (4 <= 2 ^ k) as H4 by (change 4 with (2 ^ 2); apply Z.pow_le_mono_r; lia).
  assert (2 ^ 32 = 2 ^ (32 - k) * 2 ^ k) as H32 by (rewrite <- Z.pow_add_r by lia; f_equal; lia).
  assert (2 ^ k <= 2 ^ 31) as H31 by (apply Z.pow_le_mono_r; lia).
  assert (x + 2 ^ k <= 2 ^ 32) as Htop.
  { unfold uint in Hx. assert (q < 2 ^ (32 - k)) by (apply (Z.mul_lt_mono_pos_r (2 ^ k)); lia).
    rewrite H32, Hq. replace (q * 2 ^ k + 2 ^ k) with ((q + 1) * 2 ^ k) by lia.
    apply Z.mul_le_mono_nonneg_r; lia. }
  assert (size_eq : wrap 32 (Z.shiftl 1 k) = 2 ^ k).
  { rewrite Z.shiftl_1_l. apply wrap_small. unfold uint. lia. }
  unfold NewAddrPool. cbn [pAddr pBits]. fold k. rewrite size_eq, (proj2 (Z.ltb_ge _ _)) by lia.
  assert (wrap 32 (wrap 32 (x + 2 ^ k) - 2) = x + 2 ^ k - 2) as ->.
  { unfold wrap. rewrite Zminus_mod_idemp_l. apply Z.mod_small. unfold uint in Hx. lia. }
  unfold uint in Hx. rewrite !wrap_small by (unfold uint; lia).
  eexists. split; [done|]. split_and!; try done. split; cbn; try lia. set_solver.
Qed.

Inductive pool_op := PAlloc | PRelease (ip : option Z).

(** Runs the operations and keeps, from their results alone, the addresses that
    clients hold. *)
Fixpoint run_pool (ops : list pool_op) (p : AddrPool) (held : gset Z) : option (AddrPool * gset Z) :=
  match ops with
  | [] => Some (p, held)
  | PAlloc :: ops =>
      '(r, p) ← Allocate p;
      run_pool ops p (match r with Ok a => {[a]} ∪ held | Err _ => held end)
  | PRelease ip :: ops =>
      run_pool ops (Release p ip) (match ip with Some a => held ∖ {[a]} | None => held end)
  end.

Lemma run_pool_spec ops p held :
  pool_inv p -> used p = held ->
  exists p' held', run_pool ops p held = Some (p', held') /\ pool_inv p' /\ used p' = held' /\
    pbase p' = pbase p /\ plast p' = plast p /\ gateway p' = gateway p.
Proof.
  revert p held. induction ops as [|[|ip] ops IH]; intros p held Hp Hu; simpl.
  - by exists p, held.
  - destruct (Allocate_spec p Hp) as (r & p1 & E & Hp1 & Hr). rewrite E. cbn.
    assert (pbase p1 = pbase p /\ plast p1 = plast p /\ gateway p1 = gateway p) as (<- & <- & <-).
    { unfold Allocate in E. destruct (scan _ _ _ _) as [[]|]; cbn in E; by simplify_eq. }
    apply IH; [done|]. destruct r; [destruct Hr as [_ ->]|destruct Hr as (_ & -> & _)]; by subst.
  - destruct (IH (Release p ip) (match ip with Some a => held ∖ {[a]} | None => held end))
      as (p' & h' & E & Hi & Hu' & E1 & E2 & E3).
    { by apply Release_inv. } { destruct ip; cbn; by subst. }
    exists p', h'. rewrite E1, E2, E3. by destruct ip.
Qed.

(** Over any IPv4 network and any sequence of allocations and releases,
    [Allocate] returns, and hands out the lowest host address that no client
    holds: never the network, gateway or broadcast address and never one that is
    already held; it reports exhaustion only when every host address is held. *)
Theorem AddrPool_lowest_free (x : Z) (n : nat) (ops : list pool_op) :
  prefix_ok (mkPrefix (IPv4 x) n) -> Masked (mkPrefix (IPv4 x) n) = mkPrefix (IPv4 x) n -> (1 <= n <= 30)%nat ->
  exists p0 p held r p',
    NewAddrPool (mkPrefix (IPv4 x) n) = Ok (p0, x + 1) /\ run_pool ops p0 ∅ = Some (p, held) /\
    Allocate p = Some (r, p') /\
    match r with
    | Ok a => x + 1 < a < x + 2 ^ (32 - Z.of_nat n) - 1 /\ a ∉ held /\ forall b, x + 1 < b < a -> b ∈ held
    | Err e => e = ErrExhausted /\ forall b, x + 1 < b < x + 2 ^ (32 - Z.of_nat n) - 1 -> b ∈ held
    end.
Proof.
  intros Hok Hm Hn. destruct (NewAddrPool_spec x n Hok Hm Hn) as (p0 & E0 & Hi & Hu & Hg & Hb & Hl).
  destruct (run_pool_spec ops p0 ∅ Hi Hu) as (p & held & E1 & Hi' & Hu' & Eb & El & Eg).
  destruct (Allocate_spec p Hi') as (r & p' & E2 & _ & Hr).
  exists p0, p, held, r, p'. split_and!; try done. destruct r as [a|e].
  - destruct Hr as [(Ha & Hna & Hlow) _]. rewrite Hu' in *. split_and!; [lia|lia|done|].
    intros b Hbb. apply Hlow. lia.
  - destruct Hr as (-> & _ & Hall). split; [done|]. intros b Hbb. rewrite <- Hu'. apply Hall. lia.
Qed.

(** 10.10.10.0/30: one host after the gateway. *)
Lemma AddrPool_lowest_free_witness :
  exists p0 p held r p',
    NewAddrPool (mkPrefix (IPv4 0x0a0a0a00) 30) = Ok (p0, 0x0a0a0a01) /\
    run_pool [PAlloc; PAlloc; PRelease (Some 0x0a0a0a02)] p0 ∅ = Some (p, held) /\
    Allocate p = Some (r, p') /\
    match r with
    | Ok a => 0x0a0a0a01 < a < 0x0a0a0a03 /\ a ∉ held /\ forall b, 0x0a0a0a01 < b < a -> b ∈ held
    | Err e => e = ErrExhausted /\ forall b, 0x0a0a0a01 < b < 0x0a0a0a03 -> b ∈ held
    end.
Proof.
  apply (AddrPool_lowest_free 0x0a0a0a00 30 [PAlloc; PAlloc; PRelease (Some 0x0a0a0a02)]);
    [split; [by_decision|simpl; lia]|reflexivity|lia].
Defined.

(** ** IPv6 *)

(** [netip.Addr.Next]; the zero address is [None]. *)
Definition Next (a : Addr) : option Addr :=
  let x := addr_val a + 1 in
  if x <? 2 ^ Z.of_nat (BitLen a) then Some (with_val a x) else None.

(** [netip.Addr.Less]: by width first; the zero address has width 0. *)
Definition Less (a : Addr) (b : option Addr) : bool :=
  match b with
  | None => false
  | Some b =>
      if (BitLen a <? BitLen b)%nat then true
      else if (BitLen b <? BitLen a)%nat then false else addr_val a <? addr_val b
  end.

Definition Is4In6 (a : Addr) : bool :=
  match a with IPv6 x => Z.shiftr x 32 =? 0xffff | IPv4 _ => false end.

Record AddrPool6 := mkPool6 { prefix6 : Prefix; gateway6 : option Addr; next6 : option Addr; used6 : gset Addr }.

(** [prefix] is what [netip.ParsePrefix] returned. *)
Definition NewAddrPool6 (prefix : Prefix) : result pool_error (AddrPool6 * option Addr) :=
  let prefix := Masked prefix in
  if Is4 (pAddr prefix) || Is4In6 (pAddr prefix) then Err ErrNotIPv6
  else if (126 <? pBits prefix)%nat then Err ErrTooSmall
  else
    let gw := Next (pAddr prefix) in
    let base := gw ≫= Next in
    Ok (mkPool6 prefix gw base ∅, gw).

(** The loop of [Allocate] from [cand], as for IPv4. *)
Fixpoint scan6 (fuel : nat) (prefix : Prefix) (cand : option Addr) (used : gset Addr) : option (option Addr) :=
  match fuel with
  | O => None
  | S fuel =>
      match cand with
      | None => Some None
      | Some c =>
          if decide (Contains prefix c) then
            if decide (c ∈ used) then scan6 fuel prefix (Next c) used else Some (Some c)
          else Some None
      end
  end.

Definition Allocate6 (p : AddrPool6) : option (result pool_error Addr * AddrPool6) :=
  r ← scan6 (S (size (used6 p))) (prefix6 p) (next6 p) (used6 p);
  Some match r with
       | Some c => (Ok c, mkPool6 (prefix6 p) (gateway6 p) (Next c) ({[c]} ∪ used6 p))
       | None => (Err ErrExhausted, p)
       end.

(** The invalid address is [None]. *)
Definition Release6 (p : AddrPool6) (ip : option Addr) : AddrPool6 :=
  match ip with
  | None => p
  | Some ip =>
      if decide (ip ∈ used6 p) then
        mkPool6 (prefix6 p) (gateway6 p) (if Less ip (next6 p) then Some ip else next6 p) (used6 p ∖ {[ip]})
      else p
  end.

(** A masked IPv6 prefix contains exactly an interval of addresses. *)
Lemma Contains_range N n c :
  uint 128 N -> (n <= 128)%nat -> Masked (mkPrefix (IPv6 N) n) = mkPrefix (IPv6 N) n ->
  Contains (mkPrefix (IPv6 N) n) (IPv6 c) <-> N <= c < N + 2 ^ (128 - Z.of_nat n).
Proof.
  intros HN Hn Hm. unfold Contains. rewrite Hm. injection Hm as Hm. cbn in *.
  replace (Z.of_nat (128 - n)) with (128 - Z.of_nat n) in * by lia. set (k := 128 - Z.of_nat n) in *.
  assert (0 < 2 ^ k) as Hk by (apply Z.pow_pos_nonneg; lia).
  unfold mask_addr. cbn. replace (Z.of_nat (128 - n)) with k by lia.
  rewrite Z.shiftl_mul_pow2, Z.shiftr_div_pow2 in * by lia.
  pose proof (Z.div_mod c (2 ^ k) ltac:(lia)). pose proof (Z.mod_pos_bound c (2 ^ k) Hk).
  split.
  - intros [_ [= E]]. lia.
  - intros Hc. split; [done|]. f_equal. rewrite <- Hm. f_equal. rewrite <- Hm in Hc.
    symmetry. apply (Z.div_unique_pos _ _ _ (c - N / 2 ^ k * 2 ^ k)); lia.
Qed.

Section Pool6.
(** A prefix that does not end at the all-ones address; hosts start after the gateway. *)
Context (N : Z) (n : nat) (HN : uint 128 N) (Hn : (n <= 126)%nat)
  (Hm : Masked (mkPrefix (IPv6 N) n) = mkPrefix (IPv6 N) n).

Definition top6 : Z := N + 2 ^ (128 - Z.of_nat n).

Record pool6_inv (p : AddrPool6) (m : Z) : Prop := {
  p6_prefix : prefix6 p = mkPrefix (IPv6 N) n;
  p6_next : next6 p = Some (IPv6 m);
  p6_mark : N + 2 <= m <= top6;
  p6_low : forall b, N + 2 <= b < m -> IPv6 b ∈ used6 p;
  p6_used : forall a, a ∈ used6 p -> exists x, a = IPv6 x /\ N + 2 <= x < top6;
}.

Lemma scan6_spec fuel m (used : gset Addr) :
  top6 < 2 ^ 128 -> N <= m <= top6 ->
  (size (filter (fun a : Addr => (m <= addr_val a)%Z) used) < fuel)%nat ->
  exists r, scan6 fuel (mkPrefix (IPv6 N) n) (Some (IPv6 m)) used = Some r /\
    match r with
    | Some a => exists x, a = IPv6 x /\ m <= x < top6 /\ a ∉ used /\ forall b, m <= b < x -> IPv6 b ∈ used
    | None => forall b, m <= b < top6 -> IPv6 b ∈ used
    end.
Proof.
  intros Ht. revert m. induction fuel as [|fuel IH]; intros m Hmm Hs; [lia|]. cbn [scan6].
  pose proof (Contains_range N n m HN ltac:(lia) Hm) as Hc. fold top6 in Hc.
  destruct (decide (Contains (mkPrefix (IPv6 N) n) (IPv6 m))) as [HC|HC]; [apply Hc in HC|].
  2: { exists None. split; [done|]. intros b Hb. exfalso. apply HC, Hc. lia. }
  destruct (decide (IPv6 m ∈ used)) as [Hin|Hni].
  2: { exists (Some (IPv6 m)). split; [done|]. exists m. split_and!; try done; intros; lia. }
  unfold Next. cbn [addr_val with_val BitLen]. rewrite (proj2 (Z.ltb_lt _ _)) by lia.
  destruct (IH (m + 1)) as (r & -> & Hr); [lia| |].
  { assert (filter (fun a : Addr => m + 1 <= addr_val a) used ⊂ filter (fun a : Addr => m <= addr_val a) used) as Hsub.
    { split; [intros x; rewrite !elem_of_filter; intuition lia|].
      intros Hsup. specialize (Hsup (IPv6 m)). rewrite !elem_of_filter in Hsup.
      specialize (Hsup ltac:(split; [simpl; lia|done])). simpl in Hsup. lia. }
    apply subset_size in Hsub. lia. }
  exists r. split; [done|]. destruct r as [a|].
  - destruct Hr as (x & -> & H1 & H2 & H3). exists x. split_and!; [done|lia|lia|done|]. intros b Hb.
    destruct (decide (b = m)) as [->|]; [done|]. apply H3. lia.
  - intros b Hb. destruct (decide (b = m)) as [->|]; [done|]. apply Hr. lia.
Qed.

Lemma Allocate6_spec p m :
  top6 < 2 ^ 128 -> pool6_inv p m ->
  exists r p' m', Allocate6 p = Some (r, p') /\ pool6_inv p' m' /\
    match r with
    | Ok a => exists x, a = IPv6 x /\ N + 2 <= x < top6 /\ a ∉ used6 p /\
                (forall b, N + 2 <= b < x -> IPv6 b ∈ used6 p) /\ used6 p' = {[a]} ∪ used6 p
    | Err e => e = ErrExhausted /\ p' = p /\ forall b, N + 2 <= b < top6 -> IPv6 b ∈ used6 p
    end.
Proof.
  intros Ht [H1 H2 H3 H4 H5]. unfold Allocate6. rewrite H1, H2.
  destruct (scan6_spec (S (size (used6 p))) m (used6 p)) as (r & -> & Hr); [done|lia| |].
  { apply Nat.lt_succ_r, subseteq_size. intros y. rewrite elem_of_filter. naive_solver. }
  cbn. destruct r as [a|].
  - destruct Hr as (x & -> & Hx & Hnx & Hlow).
    assert (forall b, N + 2 <= b < x -> IPv6 b ∈ used6 p) as Hall.
    { intros b Hb. destruct (Z_lt_le_dec b m); [apply H4|apply Hlow]; lia. }
    do 2 eexists. exists (x + 1). split; [done|]. split.
    + split; cbn; try done; [|lia| |].
      * unfold Next. cbn. by rewrite (proj2 (Z.ltb_lt _ _)) by lia.
      * intros b Hb. destruct (decide (b = x)) as [->|]; [set_solver|]. apply elem_of_union_r, Hall. lia.
      * intros a Ha. apply elem_of_union in Ha as [Ha|Ha]; [|by apply H5].
        apply elem_of_singleton in Ha as ->. exists x. split; [done|lia].
    + exists x. split_and!; try done; lia.
  - do 2 eexists. exists m. split; [done|]. split; [by split|]. split_and!; try done.
    intros b Hb. destruct (Z_lt_le_dec b m); [apply H4|apply Hr]; lia.
Qed.

Lemma Release6_spec p m ip :
  pool6_inv p m -> exists m', pool6_inv (Release6 p ip) m' /\
    used6 (Release6 p ip) = match ip with Some a => used6 p ∖ {[a]} | None => used6 p end.
Proof.
  intros Hi. destruct ip as [a|]; [|by exists m]. cbn. destruct Hi as [H1 H2 H3 H4 H5].
  destruct (decide (a ∈ used6 p)) as [Hin|Hni]; [|exists m; split; [by split|set_solver]].
  destruct (H5 a Hin) as (x & -> & Hx). rewrite H2. cbn.
  destruct (Z.ltb_spec x m).
  - exists x. split; [|done]. split; cbn; try done; try lia.
    + intros b Hb. apply elem_of_difference. split; [apply H4; lia|]. intros E. apply elem_of_singleton in E. simplify_eq. lia.
    + intros a Ha. apply H5. set_solver.
  - exists m. split; [|done]. split; cbn; try done.
    + intros b Hb. apply elem_of_difference. split; [apply H4; lia|]. intros E. apply elem_of_singleton in E. simplify_eq. lia.
    + intros a Ha. apply H5. set_solver.
Qed.

Lemma NewAddrPool6_spec :
  Is4In6 (IPv6 N) = false -> exists p, NewAddrPool6 (mkPrefix (IPv6 N) n) = Ok (p, Some (IPv6 (N + 1))) /\
    pool6_inv p (N + 2) /\ used6 p = ∅.
Proof.
  intros H46. unfold NewAddrPool6. rewrite Hm. cbn [pAddr pBits Is4 orb]. rewrite H46.
  rewrite (proj2 (Nat.ltb_ge _ _)) by lia.
  assert (4 <= 2 ^ (128 - Z.of_nat n)) as H4 by (change 4 with (2 ^ 2); apply Z.pow_le_mono_r; lia).
  assert (N + 4 <= 2 ^ 128) as Htop.
  { pose proof (proj1 (Contains_range N n (2 ^ 128 - 1) HN ltac:(lia) Hm)).
    injection Hm as E. cbn in E. set (k := Z.of_nat (128 - n)) in *. assert (2 <= k <= 128) by lia.
    rewrite Z.shiftl_mul_pow2, Z.shiftr_div_pow2 in E by lia.
    assert (2 ^ 128 = 2 ^ (128 - k) * 2 ^ k) as E128 by (rewrite <- Z.pow_add_r by lia; f_equal; lia).
    assert (0 < 2 ^ k) by (apply Z.pow_pos_nonneg; lia).
    assert (N / 2 ^ k < 2 ^ (128 - k)) by (apply Z.div_lt_upper_bound; [lia|unfold uint in HN; lia]).
    assert (4 <= 2 ^ k) by (change 4 with (2 ^ 2); apply Z.pow_le_mono_r; lia). nia. }
  unfold Next. cbn [addr_val with_val BitLen]. change (Z.of_nat 128) with 128.
  rewrite !(proj2 (Z.ltb_lt _ _)) by lia. cbn.
  rewrite (proj2 (Z.ltb_lt _ _)) by lia. eexists. split; [done|].
  split; [|done]. split; cbn; try done; try (f_equal; f_equal; lia); unfold top6; try lia; set_solver.
Qed.
End Pool6.

Inductive pool6_op := PAlloc6 | PRelease6 (ip : option Addr).

Fixpoint run_pool6 (ops : list pool6_op) (p : AddrPool6) (held : gset Addr) : option (AddrPool6 * gset Addr) :=
  match ops with
  | [] => Some (p, held)
  | PAlloc6 :: ops =>
      '(r, p) ← Allocate6 p;
      run_pool6 ops p (match r with Ok a => {[a]} ∪ held | Err _ => held end)
  | PRelease6 ip :: ops =>
      run_pool6 ops (Release6 p ip) (match ip with Some a => held ∖ {[a]} | None => held end)
  end.

Lemma run_pool6_spec N n ops p m held :
  uint 128 N -> (n <= 126)%nat -> Masked (mkPrefix (IPv6 N) n) = mkPrefix (IPv6 N) n -> top6 N n < 2 ^ 128 ->
  pool6_inv N n p m -> used6 p = held ->
  exists p' m', run_pool6 ops p held = Some (p', used6 p') /\ pool6_inv N n p' m'.
Proof.
  intros HN Hn Hm Ht. revert p m held. induction ops as [|[|ip] ops IH]; intros p m held Hp Hu; simpl.
  - exists p, m. by subst.
  - destruct (Allocate6_spec N n HN Hn Hm p m Ht Hp) as (r & p1 & m1 & E & Hp1 & Hr). rewrite E. cbn.
    eapply IH; [done|]. destruct r as [a|e].
    + destruct Hr as (x & _ & _ & _ & _ & ->). by subst.
    + destruct Hr as (_ & -> & _). done.
  - destruct (Release6_spec N n HN Hn Hm p m ip Hp) as (m1 & Hp1 & Hu1).
    destruct (IH _ _ (match ip with Some a => held ∖ {[a]} | None => held end) Hp1) as (p' & m' & E & Hi).
    { rewrite Hu1. destruct ip; by subst. }
    exists p', m'. by destruct ip.
Qed.

(** Over any IPv6 prefix that does not end at the all-ones address, and any
    sequence of allocations and releases, [Allocate] returns and hands out the
    lowest address after the gateway that no client holds; it reports exhaustion
    only when the whole prefix is held. *)
Theorem AddrPool6_lowest_free (N : Z) (n : nat) (ops : list pool6_op) :
  uint 128 N -> (n <= 126)%nat -> Masked (mkPrefix (IPv6 N) n) = mkPrefix (IPv6 N) n ->
  Is4In6 (IPv6 N) = false -> top6 N n < 2 ^ 128 ->
  exists p0 p held r p',
    NewAddrPool6 (mkPrefix (IPv6 N) n) = Ok (p0, Some (IPv6 (N + 1))) /\ run_pool6 ops p0 ∅ = Some (p, held) /\
    Allocate6 p = Some (r, p') /\
    match r with
    | Ok a => exists x, a = IPv6 x /\ N + 1 < x < top6 N n /\ a ∉ held /\ forall b, N + 1 < b < x -> IPv6 b ∈ held
    | Err e => e = ErrExhausted /\ forall b, N + 1 < b < top6 N n -> IPv6 b ∈ held
    end.
Proof.
  intros HN Hn Hm H46 Ht.
  destruct (NewAddrPool6_spec N n HN Hn Hm H46) as (p0 & E0 & Hi & Hu).
  destruct (run_pool6_spec N n ops p0 (N + 2) ∅ HN Hn Hm Ht Hi Hu) as (p & m & E1 & Hi').
  destruct (Allocate6_spec N n HN Hn Hm p m Ht Hi') as (r & p' & m' & E2 & _ & Hr).
  exists p0, p, (used6 p), r, p'. split_and!; try done. destruct r as [a|e].
  - destruct Hr as (x & -> & Hx & Hnx & Hlow & _). exists x. split_and!; try done; try lia.
    intros b Hb. apply Hlow. lia.
  - destruct Hr as (-> & _ & Hall). split; [done|]. intros b Hb. apply Hall. lia.
Qed.

(** fd00::/126: two clients, the first released before the third asks. *)
Lemma AddrPool6_lowest_free_witness :
  let N := 0xfd * 2 ^ 120 in
  let ops := [PAlloc6; PAlloc6; PRelease6 (Some (IPv6 (N + 2)))] in
  exists p0 p held r p',
    NewAddrPool6 (mkPrefix (IPv6 N) 126) = Ok (p0, Some (IPv6 (N + 1))) /\ run_pool6 ops p0 ∅ = Some (p, held) /\
    Allocate6 p = Some (r, p') /\
    match r with
    | Ok a => exists x, a = IPv6 x /\ N + 1 < x < top6 N 126 /\ a ∉ held /\ forall b, N + 1 < b < x -> IPv6 b ∈ held
    | Err e => e = ErrExhausted /\ forall b, N + 1 < b < top6 N 126 -> IPv6 b ∈ held
    end.
Proof.
  intros N ops. apply (AddrPool6_lowest_free N 126 ops); [by_decision|lia|reflexivity|reflexivity|by_decision].
Defined.


(** The /126 at the top of the address space, both hosts handed out and the first released again. *)
Definition top_network : Z := 2 ^ 128 - 4.

Definition top_pool : option AddrPool6 :=
  match NewAddrPool6 (mkPrefix (IPv6 top_network) 126) with
  | Ok (p0, _) => fst <$> run_pool6 [PAlloc6; PAlloc6] p0 ∅
  | Err _ => None
  end.

