(* ===== verification/Admission.v ===== *)
(** * Admission control, [dataplane/admission.go]

    The [Gate] bounds unauthenticated work: a cap on concurrent half-open
    handshakes and a token bucket per source address.  The buckets are float64;
    they are modelled by the standard library's specification of IEEE 754
    arithmetic, which computes.  The clock reading is an argument. *)
From Stdlib Require Import ZArith Lia Floats.SpecFloat.
From stdpp Require Import base list gmap fin_maps.
From S2P Require Import Prelude Routes Packet Shape.

(** ** float64 *)

Abbreviation float64 := spec_float.

Definition f64_of_int (z : Z) : float64 := binary_normalize 53 1024 z 0 false.
Definition f64_add : float64 -> float64 -> float64 := SFadd 53 1024.
Definition f64_sub : float64 -> float64 -> float64 := SFsub 53 1024.
Definition f64_mul : float64 -> float64 -> float64 := SFmul 53 1024.
Definition f64_div : float64 -> float64 -> float64 := SFdiv 53 1024.

Definition f64_nan (x : float64) : bool := match x with S754_nan => true | _ => false end.

(** The built-in [min] on floats that are not both zero. *)
Definition f64_min (x y : float64) : float64 :=
  if f64_nan x || f64_nan y then S754_nan else if SFltb y x then y else x.

(** [time.Duration.Seconds]. *)
Definition Seconds (d : Z) : float64 :=
  f64_add (f64_of_int (Z.quot d 1000000000)) (f64_div (f64_of_int (Z.rem d 1000000000)) (f64_of_int 1000000000)).

(** ** Configuration *)

Abbreviation DefaultMaxHalfOpen := 512 (only parsing).
Definition DefaultPerSourceRate : float64 := f64_of_int 10.
Definition DefaultPerSourceBurst : float64 := f64_of_int 20.
Abbreviation sourceIdleTimeout := 300000000000 (only parsing).

Record AdmissionConfig := mkAdmissionConfig { MaxHalfOpen : Z; PerSourceRate : float64; PerSourceBurst : float64 }.

Definition withDefaults (c : AdmissionConfig) : AdmissionConfig :=
  mkAdmissionConfig
    (if MaxHalfOpen c <=? 0 then DefaultMaxHalfOpen else MaxHalfOpen c)
    (if SFleb (PerSourceRate c) (f64_of_int 0) then DefaultPerSourceRate else PerSourceRate c)
    (if SFleb (PerSourceBurst c) (f64_of_int 0) then DefaultPerSourceBurst else PerSourceBurst c).

Inductive RejectReason := HandshakeAdmitted | RejectedAtCapacity | RejectedRateLimited.

Record bucket := mkBucket { tokens : float64; last : Z }.

(** Sources are keyed by address; [None] is the zero address. *)
Record Gate := mkGate { gcfg : AdmissionConfig; halfOpen : Z; sources : gmap (option Addr) bucket; lastGC : Z }.

Definition NewGate (c : AdmissionConfig) (now : Z) : Gate := mkGate (withDefaults c) 0 ∅ now.

(** ** Operations *)

(** The shapes of [net.Addr] that [addrOf] distinguishes, with the address
    [netip.AddrFromSlice] or [AddrPort] yields. *)
Inductive net_addr :=
| UDPAddr (ip : option Addr)
| TCPAddr (ip : option Addr)
| AddrPorter (ip : option Addr)
| OtherAddr.

Definition addrOf (a : net_addr) : option Addr :=
  match a with
  | UDPAddr (Some ip) | TCPAddr (Some ip) => Some (Unmap ip)
  | AddrPorter ip => Unmap <$> ip
  | _ => None
  end.

Definition gc (g : Gate) (now : Z) : Gate :=
  if time_sub now (lastGC g) <? sourceIdleTimeout then g
  else mkGate (gcfg g) (halfOpen g)
         (filter (fun kv : option Addr * bucket => ~ (sourceIdleTimeout < time_sub now (last kv.2))) (sources g)) now.

Definition allowSource (g : Gate) (addr : option Addr) (now : Z) : bool * Gate :=
  let b := default (mkBucket (PerSourceBurst (gcfg g)) now) (sources g !! addr) in
  let elapsed := Seconds (time_sub now (last b)) in
  let b :=
    if SFltb (f64_of_int 0) elapsed
    then mkBucket (f64_min (f64_add (tokens b) (f64_mul elapsed (PerSourceRate (gcfg g)))) (PerSourceBurst (gcfg g))) now
    else b in
  if SFltb (tokens b) (f64_of_int 1)
  then (false, mkGate (gcfg g) (halfOpen g) (<[addr := b]> (sources g)) (lastGC g))
  else
    let b := mkBucket (f64_sub (tokens b) (f64_of_int 1)) (last b) in
    (true, mkGate (gcfg g) (halfOpen g) (<[addr := b]> (sources g)) (lastGC g)).

Definition Admit (g : Gate) (from : net_addr) (now : Z) : RejectReason * Gate :=
  let addr := addrOf from in
  let g := gc g now in
  let '(ok, g) := allowSource g addr now in
  if negb ok then (RejectedRateLimited, g)
  else if MaxHalfOpen (gcfg g) <=? halfOpen g then (RejectedAtCapacity, g)
  else (HandshakeAdmitted, mkGate (gcfg g) (halfOpen g + 1) (sources g) (lastGC g)).

Definition Done (g : Gate) : Gate :=
  if 0 <? halfOpen g then mkGate (gcfg g) (halfOpen g - 1) (sources g) (lastGC g) else g.

Definition HalfOpen (g : Gate) : Z := halfOpen g.

(** ** The cap *)

Inductive gate_op := GAdmit (from : net_addr) (now : Z) | GDone.

(** Runs the operations, keeping what they answered. *)
Fixpoint run_gate (ops : list gate_op) (g : Gate) : list RejectReason * Gate :=
  match ops with
  | [] => ([], g)
  | GAdmit from now :: ops =>
      let '(r, g) := Admit g from now in
      let '(rs, g) := run_gate ops g in (r :: rs, g)
  | GDone :: ops => run_gate ops (Done g)
  end.

Lemma allowSource_frame g addr now :
  let g' := (allowSource g addr now).2 in
  gcfg g' = gcfg g /\ halfOpen g' = halfOpen g /\ forall a, a <> addr -> sources g' !! a = sources g !! a.
Proof.
  unfold allowSource. cbn zeta. destruct (SFltb _ (f64_of_int 1)); cbn; split_and!; try done;
    intros a Ha; by rewrite lookup_insert_ne.
Qed.

Lemma gc_frame g now : gcfg (gc g now) = gcfg g /\ halfOpen (gc g now) = halfOpen g.
Proof. unfold gc. by case_match. Qed.

Lemma Admit_cases g from now :
  let '(r, g') := Admit g from now in
  gcfg g' = gcfg g /\
  match r with
  | HandshakeAdmitted => halfOpen g < MaxHalfOpen (gcfg g) /\ halfOpen g' = halfOpen g + 1
  | RejectedAtCapacity => MaxHalfOpen (gcfg g) <= halfOpen g /\ halfOpen g' = halfOpen g
  | RejectedRateLimited => halfOpen g' = halfOpen g
  end.
Proof.
  unfold Admit. pose proof (gc_frame g now) as [E1 E2].
  pose proof (allowSource_frame (gc g now) (addrOf from) now) as (F1 & F2 & _).
  destruct (allowSource (gc g now) (addrOf from) now) as [ok g1]. cbn in *. rewrite E1 in F1. rewrite E2 in F2.
  destruct ok; cbn [negb]; [|by split]. rewrite F1, F2.
  destruct (Z.leb_spec (MaxHalfOpen (gcfg g)) (halfOpen g)); cbn [fst snd gcfg halfOpen]; split_and!; (done || lia).
Qed.

Definition admitted (rs : list RejectReason) : Z :=
  Z.of_nat (length (List.filter (fun r => match r with HandshakeAdmitted => true | _ => false end) rs)).

Definition released (ops : list gate_op) : Z :=
  Z.of_nat (length (List.filter (fun o => match o with GDone => true | _ => false end) ops)).

Lemma run_gate_spec ops g :
  0 <= halfOpen g <= MaxHalfOpen (gcfg g) ->
  let '(rs, g') := run_gate ops g in
  gcfg g' = gcfg g /\ 0 <= halfOpen g' <= MaxHalfOpen (gcfg g) /\
  halfOpen g + admitted rs - released ops <= halfOpen g'.
Proof.
  revert g. induction ops as [|[from now|] ops IH]; intros g Hg; cbn [run_gate].
  - unfold admitted, released. cbn. split_and!; try done; lia.
  - pose proof (Admit_cases g from now) as H. destruct (Admit g from now) as [r g1]. destruct H as [E H].
    specialize (IH g1). destruct (run_gate ops g1) as [rs g2]. rewrite E in IH.
    unfold admitted, released in *. destruct r; cbn in *; (destruct IH as (? & ? & ?); [lia|]); split_and!; try done; lia.
  - specialize (IH (Done g)). assert (gcfg (Done g) = gcfg g) as E by (unfold Done; by destruct (0 <? halfOpen g)).
    rewrite E in IH. assert (0 <= halfOpen (Done g) <= MaxHalfOpen (gcfg g) /\ halfOpen g - 1 <= halfOpen (Done g)) as [H1 H2].
    { unfold Done. destruct (Z.ltb_spec 0 (halfOpen g)); cbn; lia. }
    specialize (IH H1). destruct (run_gate ops (Done g)) as [rs g2]. destruct IH as (? & ? & ?).
    unfold admitted, released in *. cbn [List.filter length]. split_and!; try done; lia.
Qed.

(** C31: whatever sequence of admissions and releases a gate sees, from whatever
    sources and at whatever times, the handshakes in flight never exceed the cap,
    at most the cap more handshakes are admitted than are released, a refusal
    takes no reservation, and a refusal for capacity happens only at the cap. *)
Theorem gate_bounded (c : AdmissionConfig) (now0 : Z) (ops : list gate_op) (from : net_addr) (now : Z) :
  let '(rs, g) := run_gate ops (NewGate c now0) in
  let cap := MaxHalfOpen (withDefaults c) in
  0 <= HalfOpen g <= cap /\ admitted rs <= cap + released ops /\
  let '(r, g') := Admit g from now in
  match r with
  | HandshakeAdmitted => HalfOpen g < cap /\ HalfOpen g' = HalfOpen g + 1
  | RejectedAtCapacity => HalfOpen g = cap /\ HalfOpen g' = HalfOpen g
  | RejectedRateLimited => HalfOpen g' = HalfOpen g
  end.
Proof.
  assert (0 < MaxHalfOpen (withDefaults c)) as Hc.
  { cbn. destruct (Z.leb_spec (MaxHalfOpen c) 0); lia. }
  pose proof (run_gate_spec ops (NewGate c now0)) as H. cbn [NewGate halfOpen gcfg] in H.
  specialize (H ltac:(lia)). destruct (run_gate ops (NewGate c now0)) as [rs g].
  destruct H as (E & Hb & Hle). unfold HalfOpen. split_and!; [lia|lia|lia|].
  pose proof (Admit_cases g from now) as H. destruct (Admit g from now) as [r g'].
  destruct H as [_ H]. rewrite E in H. cbn [NewGate gcfg] in H. destruct r; lia.
Qed.

(** ** Sources do not share allowance *)

(** A handshake attempt spends its own source's allowance only: the bucket of
    every other source is untouched, unless the periodic sweep evicted it for
    having been idle longer than the timeout. *)
Theorem gate_isolates_sources (g : Gate) (from : net_addr) (now : Z) (other : option Addr) :
  other <> addrOf from ->
  let g' := (Admit g from now).2 in
  sources g' !! other = sources g !! other \/
  exists b, sources g !! other = Some b /\ sourceIdleTimeout < time_sub now (last b) /\
    sources g' !! other = None.
Proof.
  intros Hne g'. assert (sources g' !! other = sources (gc g now) !! other) as ->.
  { subst g'. unfold Admit. pose proof (allowSource_frame (gc g now) (addrOf from) now) as (_ & _ & H).
    destruct (allowSource (gc g now) (addrOf from) now) as [ok g1]. cbn in H.
    destruct ok; cbn; [case_match; cbn|]; by apply H. }
  unfold gc. destruct (time_sub now (lastGC g) <? sourceIdleTimeout); [by left|]. cbn.
  destruct (sources g !! other) as [b|] eqn:E.
  - destruct (decide (sourceIdleTimeout < time_sub now (last b))) as [D|D].
    + right. exists b. split_and!; try done. apply map_lookup_filter_None. right. intros x Hx. cbn. naive_solver.
    + left. apply map_lookup_filter_Some. done.
  - left. apply map_lookup_filter_None. by left.
Qed.

Lemma gate_isolates_sources_witness :
  let g := (Admit (NewGate (mkAdmissionConfig 0 (f64_of_int 0) (f64_of_int 0)) 0) (UDPAddr (Some (IPv4 1))) 5).2 in
  let g' := (Admit g (UDPAddr (Some (IPv4 2))) 6).2 in
  sources g' !! Some (IPv4 1) = sources g !! Some (IPv4 1) \/
  exists b, sources g !! Some (IPv4 1) = Some b /\ sourceIdleTimeout < time_sub 6 (last b) /\
    sources g' !! Some (IPv4 1) = None.
Proof.
  apply (gate_isolates_sources
    (Admit (NewGate (mkAdmissionConfig 0 (f64_of_int 0) (f64_of_int 0)) 0) (UDPAddr (Some (IPv4 1))) 5).2
    (UDPAddr (Some (IPv4 2))) 6 (Some (IPv4 1))). discriminate.
Defined.

(** With the defaults a source that bursts is admitted twenty times and then
    refused; half a second later it has earned five more. *)
Definition burst (now : Z) (k : nat) : list gate_op := replicate k (GAdmit (UDPAddr (Some (IPv4 1))) now).

Lemma default_burst :
  (run_gate (burst 1000 22 ++ burst 500001000 7) (NewGate (mkAdmissionConfig 0 (f64_of_int 0) (f64_of_int 0)) 0)).1 =
    replicate 20 HandshakeAdmitted ++ replicate 2 RejectedRateLimited ++
    replicate 5 HandshakeAdmitted ++ replicate 2 RejectedRateLimited.
Proof. vm_compute. reflexivity. Qed.
