(* ===== verification/IkeMessage.v ===== *)
(** * IKEv2 messages, [internal/ikev2/payload/message.go] and the inner chain of [internal/ikev2/ike/sk.go]

    The fixed header, the chain of generic payloads and the [Builder] that
    back-patches each payload's link to the next.  A parser position [off] in a
    buffer is the rest of the buffer.  The theorems: a message the builder
    assembled parses back to exactly its header and payloads; parsing terminates
    on every input and every body it returns lies inside the buffer. *)
From Stdlib Require Import ZArith Lia.
From stdpp Require Import base list.
From S2P Require Import Prelude.

Abbreviation IkeHeaderLen := 28%nat (only parsing).
Definition genericPayloadHeaderLen : nat := 4.

Abbreviation FlagInitiator := (Z.shiftl 1 3) (only parsing).
Abbreviation FlagResponse := (Z.shiftl 1 5) (only parsing).

(** Payload types, as in [const.go]. *)
Abbreviation NoNextPayload := 0 (only parsing).
Abbreviation TypeNotify := 41 (only parsing).
Abbreviation TypeSK := 46 (only parsing).
Abbreviation TypeSKF := 53 (only parsing).

Inductive payload_error :=
| ErrTruncated
| ErrHeaderLength (hdr : Z) (buf : nat)
| ErrBadLength (length : nat) (ty : Z)
| ErrProposalLength (plen : nat)
| ErrTransformLength (tlen : nat)
| ErrSelectorLength (slen : nat).

(** ** The header *)

Record Header := mkHeader {
  InitiatorSPI : Z; ResponderSPI : Z; NextPayload : Z; Version : Z;
  ExchangeType : Z; Flags : Z; MessageID : Z; Length : Z }.

Definition IsInitiator (h : Header) : bool := negb (Z.land (Flags h) FlagInitiator =? 0).
Definition IsResponse (h : Header) : bool := negb (Z.land (Flags h) FlagResponse =? 0).

Definition MarshalHeader (h : Header) (dst : bytes) : bytes :=
  dst ++ be_enc 8 (InitiatorSPI h) ++ be_enc 8 (ResponderSPI h) ++
  [NextPayload h; Version h; ExchangeType h; Flags h] ++ be_enc 4 (MessageID h) ++ be_enc 4 (Length h).

Definition ParseHeader (buf : bytes) : result payload_error Header :=
  if (length buf <? IkeHeaderLen)%nat then Err ErrTruncated
  else Ok (mkHeader (be_dec (slice buf 0 8)) (be_dec (slice buf 8 16)) (at_ buf 16) (at_ buf 17)
             (at_ buf 18) (at_ buf 19) (be_dec (slice buf 20 24)) (be_dec (slice buf 24 28))).

(** ** Payloads *)

Record RawPayload := mkRaw { Type_ : Z; Critical : bool; Body : bytes }.

Record Message := mkMessage { MHeader : Header; Payloads : list RawPayload }.

Definition FirstPayloadType (m : Message) : Z :=
  match Payloads m with [] => NoNextPayload | p :: _ => Type_ p end.

Fixpoint find_type (t : Z) (ps : list RawPayload) : option RawPayload :=
  match ps with
  | [] => None
  | p :: ps => if Type_ p =? t then Some p else find_type t ps
  end.

Definition Find (m : Message) (t : Z) : option RawPayload := find_type t (Payloads m).
Definition FindAll (m : Message) (t : Z) : list RawPayload := List.filter (fun p => Type_ p =? t) (Payloads m).

(** One walk over the chain, for the top-level walk ([stop] holds of the types it
    ends at) and for the inner one, which never stops early.  The outer [option]
    is [None] when the fuel runs out; [length buf + 1] is enough. *)
Fixpoint walk_chain (stop : Z -> bool) (fuel : nat) (next : Z) (buf : bytes)
    : option (result payload_error (list RawPayload)) :=
  match fuel with
  | O => None
  | S fuel =>
      if next =? NoNextPayload then Some (Ok [])
      else if (length buf <? genericPayloadHeaderLen)%nat then Some (Err ErrTruncated)
      else
        let nextType := at_ buf 0 in
        let critical := negb (Z.land (at_ buf 1) 0x80 =? 0) in
        let len := Z.to_nat (be_dec (slice buf 2 4)) in
        if ((len <? genericPayloadHeaderLen) || (length buf <? len))%nat then Some (Err (ErrBadLength len next))
        else
          let p := mkRaw next critical (slice buf genericPayloadHeaderLen len) in
          if stop next then Some (Ok [p])
          else
            match walk_chain stop fuel nextType (drop len buf) with
            | Some (Ok ps) => Some (Ok (p :: ps))
            | r => r
            end
  end.

Definition ends_chain (t : Z) : bool := (t =? TypeSK) || (t =? TypeSKF).

Definition parsePayloadChain (first : Z) (buf : bytes) : option (result payload_error (list RawPayload)) :=
  walk_chain ends_chain (S (length buf)) first buf.

Definition parseInnerPayloads (first : Z) (inner : bytes) : option (result payload_error (list RawPayload)) :=
  walk_chain (fun _ => false) (S (length inner)) first inner.

Definition ParseMessage (buf : bytes) : option (result payload_error Message) :=
  match ParseHeader buf with
  | Err e => Some (Err e)
  | Ok h =>
      if negb (Length h =? Z.of_nat (length buf)) then Some (Err (ErrHeaderLength (Length h) (length buf)))
      else
        match parsePayloadChain (NextPayload h) (drop IkeHeaderLen buf) with
        | Some (Ok ps) => Some (Ok (mkMessage h ps))
        | Some (Err e) => Some (Err e)
        | None => None
        end
  end.

(** ** Building *)

Record Builder := mkBuilder { bbuf : bytes; firstType : Z; haveFirst : bool; lastNextOff : Z; lastLenOff : Z }.

Definition NewBuilder : Builder := mkBuilder [] 0 false (-1) 0.

Definition generic_header (next : Z) (critical : bool) (body : bytes) : bytes :=
  [next; if critical then 0x80 else 0] ++ be_enc 2 (wrap 16 (Z.of_nat (genericPayloadHeaderLen + length body))).

Definition Add (b : Builder) (t : Z) (critical : bool) (body : bytes) : Builder :=
  let '(buf, ft) :=
    if haveFirst b then (blit (bbuf b) (Z.to_nat (lastNextOff b)) [t], firstType b) else (bbuf b, t) in
  let start := Z.of_nat (length buf) in
  mkBuilder (buf ++ generic_header NoNextPayload critical body ++ body) ft true start (start + 2).

Definition FirstType (b : Builder) : Z := if haveFirst b then firstType b else NoNextPayload.

Definition Bytes (b : Builder) : bytes := bbuf b.

(** ** Parsing terminates, inside the buffer *)

Definition extent (ps : list RawPayload) : nat := sum_list ((fun p => 4 + length (Body p))%nat <$> ps).

Lemma extent_cons p ps : extent (p :: ps) = (4 + length (Body p) + extent ps)%nat.
Proof. done. Qed.

Lemma walk_chain_total stop fuel next buf :
  (length buf < fuel)%nat ->
  exists r, walk_chain stop fuel next buf = Some r /\
    match r with
    | Ok ps => (extent ps <= length buf)%nat
    | Err _ => True
    end.
Proof.
  revert next buf. induction fuel as [|fuel IH]; intros next buf Hf; [lia|]. cbn [walk_chain].
  destruct (next =? NoNextPayload); [eexists; split; [done|unfold extent; simpl; lia]|].
  unfold genericPayloadHeaderLen. destruct (Nat.ltb_spec (length buf) 4); [eexists; done|].
  set (len := Z.to_nat _). destruct (Nat.ltb_spec len 4), (Nat.ltb_spec (length buf) len); cbn [orb];
    try (eexists; by split).
  assert (Hb : length (slice buf 4 len) = (len - 4)%nat) by (apply length_slice; lia).
  destruct (stop next).
  - eexists. split; [done|]. cbv iota. rewrite extent_cons. cbn [Body]. change (extent []) with 0%nat. lia.
  - destruct (IH (at_ buf 0) (drop len buf)) as (r & -> & Hr); [rewrite length_drop; lia|].
    destruct r as [ps|e]; eexists; (split; [done|]); [|done].
    rewrite length_drop in Hr. cbv iota. rewrite extent_cons. cbn [Body]. lia.
Qed.

(** ** What the builder builds *)

Record wf_payload (p : RawPayload) : Prop := {
  wp_type : 0 < Type_ p < 256;
  wp_len : Z.of_nat (4 + length (Body p)) < 2 ^ 16;
}.

Definition head_type (ps : list RawPayload) (final : Z) : Z :=
  match ps with [] => final | p :: _ => Type_ p end.

(** The chain, the last payload naming [final]. *)
Fixpoint encode (ps : list RawPayload) (final : Z) : bytes :=
  match ps with
  | [] => []
  | p :: ps => generic_header (head_type ps final) (Critical p) (Body p) ++ Body p ++ encode ps final
  end.

Definition build (ps : list RawPayload) : Builder :=
  fold_left (fun b p => Add b (Type_ p) (Critical p) (Body p)) ps NewBuilder.

Lemma length_generic_header n c b : length (generic_header n c b) = 4%nat.
Proof. done. Qed.

Lemma length_encode ps f g : length (encode ps f) = length (encode ps g).
Proof.
  induction ps as [|p ps IH]; [done|]. cbn [encode]. rewrite !length_app, IH, !length_generic_header. done.
Qed.

Lemma encode_snoc ps p f : encode (ps ++ [p]) f = encode ps (Type_ p) ++ encode [p] f.
Proof.
  induction ps as [|q ps IH]; [done|]. cbn [encode app]. rewrite IH, <- !app_assoc. f_equal.
  by destruct ps.
Qed.

(** Patching the link of the last payload. *)
Lemma encode_patch ps p f g :
  blit (encode (ps ++ [p]) f) (length (encode ps 0)) [g] = encode (ps ++ [p]) g.
Proof.
  rewrite !encode_snoc. rewrite (length_encode ps 0 (Type_ p)). unfold blit.
  rewrite take_app_length. f_equal. rewrite drop_app_add. done.
Qed.

Lemma build_spec ps :
  let b := build ps in
  bbuf b = encode ps 0 /\ FirstType b = head_type ps 0 /\ haveFirst b = negb (bool_decide (ps = [])) /\
  (forall qs p, ps = qs ++ [p] -> lastNextOff b = Z.of_nat (length (encode qs 0))).
Proof.
  induction ps as [|p ps IH] using rev_ind.
  { cbn. split_and!; try done. by intros [|] ?. }
  cbn zeta. unfold build. rewrite fold_left_app. cbn [fold_left]. fold (build ps).
  destruct IH as (Hb & Hf & Hh & Hl). unfold Add. rewrite Hh.
  destruct ps as [|q ps'] using rev_ind.
  - rewrite bool_decide_eq_true_2 by done. cbn [negb]. rewrite Hb. split_and!.
    + cbn [bbuf encode app]. by rewrite app_nil_r.
    + done.
    + by rewrite bool_decide_eq_false_2.
    + intros qs p' E. by destruct qs as [|? [|]]; simplify_eq/=.
  - clear IHps'. rewrite (bool_decide_eq_false_2 (ps' ++ [q] = [])) by (by destruct ps'). cbn [negb].
    rewrite (Hl ps' q eq_refl), Nat2Z.id, Hb, encode_patch.
    rewrite (encode_snoc (ps' ++ [q]) p 0). cbn [FirstType haveFirst bbuf lastNextOff]. unfold FirstType in *. cbn in *.
    split_and!.
    + cbn [encode]. by rewrite app_nil_r.
    + rewrite Hh in Hf. rewrite (bool_decide_eq_false_2 (ps' ++ [q] = [])) in Hf by (by destruct ps'). cbn in Hf.
      rewrite Hf. by destruct ps'.
    + rewrite bool_decide_eq_false_2; [done|]. by destruct ps'.
    + intros qs p' E. apply app_inj_tail in E as [<- <-]. by rewrite (length_encode _ (Type_ p) 0).
Qed.

(** ** Parsing what was built *)

Lemma generic_header_at n c b rest :
  let buf := generic_header n c b ++ rest in
  at_ buf 0 = n /\ negb (Z.land (at_ buf 1) 0x80 =? 0) = c /\
  slice buf 2 4 = be_enc 2 (wrap 16 (Z.of_nat (4 + length b))) /\ drop 4 buf = rest.
Proof. cbn zeta. split_and!; [done|by destruct c|done|done]. Qed.

(** No payload but the last may end the walk. *)
Fixpoint stops_last (stop : Z -> bool) (ps : list RawPayload) : Prop :=
  match ps with
  | [] | [_] => True
  | p :: ps => stop (Type_ p) = false /\ stops_last stop ps
  end.

Lemma stops_never ps : stops_last (fun _ => false) ps.
Proof. induction ps as [|p [|q ps] IH]; [done|done|]. split; [done|exact IH]. Qed.

Lemma walk_encode stop fuel ps :
  Forall wf_payload ps -> stops_last stop ps -> (length (encode ps 0) < fuel)%nat ->
  walk_chain stop fuel (head_type ps 0) (encode ps 0) = Some (Ok ps).
Proof.
  intros Hwf. revert fuel. induction Hwf as [|p ps [Ht Hl] Hps IH]; intros fuel Hst Hf;
    (destruct fuel as [|fuel]; [lia|]); cbn [walk_chain head_type]; [done|].
  rewrite (proj2 (Z.eqb_neq _ _)) by (lia).
  cbn [encode] in *. set (rest := Body p ++ encode ps 0) in *.
  destruct (generic_header_at (head_type ps 0) (Critical p) (Body p) rest) as (E0 & E1 & E2 & E3).
  unfold genericPayloadHeaderLen. rewrite E0, E1, E2.
  assert (length rest = length (Body p) + length (encode ps 0))%nat as Hr by (subst rest; apply length_app).
  rewrite length_app, length_generic_header in *.
  rewrite wrap_small, be_dec_enc_small, Nat2Z.id by (unfold uint; lia).
  rewrite !(proj2 (Nat.ltb_ge _ _)) by lia. cbn [orb].
  assert (slice (generic_header (head_type ps 0) (Critical p) (Body p) ++ rest) 4 (4 + length (Body p)) = Body p) as ->.
  { rewrite slice_app_r, length_generic_header by (by rewrite length_generic_header).
    change (4 - 4)%nat with 0%nat. replace (4 + length (Body p) - 4)%nat with (length (Body p)) by lia.
    subst rest. rewrite slice_app_l, slice_all by lia. done. }
  assert (mkRaw (Type_ p) (Critical p) (Body p) = p) as -> by (by destruct p).
  assert (drop (4 + length (Body p)) (generic_header (head_type ps 0) (Critical p) (Body p) ++ rest) = encode ps 0) as ->.
  { rewrite <- drop_drop, E3. subst rest. apply drop_app_length. }
  destruct ps as [|q ps].
  - destruct (stop (Type_ p)); [done|]. cbn [head_type encode]. destruct fuel as [|fuel]; [simpl in Hf; lia|]. done.
  - destruct Hst as [-> Hst]. rewrite IH; [done|done|lia].
Qed.

(** A payload that ends the walk, whatever its link names. *)
Lemma walk_terminal stop fuel t n c b :
  stop t = true -> t <> 0 -> Z.of_nat (4 + length b) < 2 ^ 16 ->
  walk_chain stop (S fuel) t (generic_header n c b ++ b) = Some (Ok [mkRaw t c b]).
Proof.
  intros Hs Ht Hl. cbn [walk_chain]. rewrite (proj2 (Z.eqb_neq _ _)) by done.
  destruct (generic_header_at n c b b) as (_ & E1 & E2 & E3).
  unfold genericPayloadHeaderLen. rewrite E1, E2, wrap_small, be_dec_enc_small, Nat2Z.id by (unfold uint; lia).
  rewrite length_app, length_generic_header, !(proj2 (Nat.ltb_ge _ _)) by lia. cbn [orb]. rewrite Hs.
  unfold slice. rewrite E3, take_ge by lia. done.
Qed.

Record wf_header (h : Header) : Prop := {
  wh_spi_i : uint64 (InitiatorSPI h);
  wh_spi_r : uint64 (ResponderSPI h);
  wh_id : uint32 (MessageID h);
  wh_len : uint32 (Length h);
}.

Lemma ParseHeader_marshal h rest :
  wf_header h -> ParseHeader (MarshalHeader h [] ++ rest) = Ok h.
Proof.
  intros [H1 H2 H3 H4]. unfold ParseHeader.
  rewrite (proj2 (Nat.ltb_ge _ _)) by (rewrite length_app; simpl; lia).
  set (buf := MarshalHeader h [] ++ rest).
  assert (slice buf 0 8 = be_enc 8 (InitiatorSPI h)) as -> by reflexivity.
  assert (slice buf 8 16 = be_enc 8 (ResponderSPI h)) as -> by reflexivity.
  assert (slice buf 20 24 = be_enc 4 (MessageID h)) as -> by reflexivity.
  assert (slice buf 24 28 = be_enc 4 (Length h)) as -> by reflexivity.
  rewrite !be_dec_enc_small by done. by destruct h.
Qed.

(** A message assembled by the builder parses back to exactly the header and
    the payloads that were added, in order, with their critical bits and bodies. *)
Theorem ike_message_roundtrip (h : Header) (ps : list RawPayload) :
  wf_header h -> Forall wf_payload ps -> stops_last ends_chain ps ->
  NextPayload h = FirstType (build ps) ->
  Length h = Z.of_nat (IkeHeaderLen + length (Bytes (build ps))) ->
  ParseMessage (MarshalHeader h [] ++ Bytes (build ps)) = Some (Ok (mkMessage h ps)).
Proof.
  intros Hh Hps Hst Hn Hl. destruct (build_spec ps) as (Hb & Hf & _). unfold Bytes in *.
  unfold ParseMessage. rewrite ParseHeader_marshal by done.
  assert (length (MarshalHeader h []) = IkeHeaderLen) as HL by reflexivity.
  rewrite Hl, length_app, HL, Z.eqb_refl. cbn [negb]. rewrite <- HL at 1. rewrite drop_app_length.
  rewrite Hn, Hf, Hb. unfold parsePayloadChain. rewrite walk_encode; [done|done|done|lia].
Qed.

Definition demo_payloads : list RawPayload :=
  [mkRaw 33 false [1; 2; 3]; mkRaw TypeNotify true []; mkRaw TypeSK false [9; 9]].
Definition demo_header : Header := mkHeader 1 2 33 0x20 35 8 7 45.

Lemma ike_message_roundtrip_witness :
  ParseMessage (MarshalHeader demo_header [] ++ Bytes (build demo_payloads)) = Some (Ok (mkMessage demo_header demo_payloads)).
Proof.
  apply (ike_message_roundtrip demo_header demo_payloads); [split; by_decision| |by split_and!|reflexivity|reflexivity].
  repeat constructor; simpl; lia.
Defined.

(** [ParseMessage] returns on every input.  When it succeeds the length field
    is the length of the buffer and the payloads with their generic headers fit
    after the header, so every body lies inside the message. *)
Theorem ParseMessage_total (buf : bytes) :
  exists r, ParseMessage buf = Some r /\
    match r with
    | Ok m => Length (MHeader m) = Z.of_nat (length buf) /\ (IkeHeaderLen + extent (Payloads m) <= length buf)%nat
    | Err _ => True
    end.
Proof.
  unfold ParseMessage, ParseHeader. destruct (Nat.ltb_spec (length buf) IkeHeaderLen); [eexists; done|].
  set (h := mkHeader _ _ _ _ _ _ _ _). destruct (Z.eqb_spec (Length h) (Z.of_nat (length buf))) as [E|E]; cbn [negb]; [|eexists; done].
  unfold parsePayloadChain.
  destruct (walk_chain_total ends_chain (S (length (drop IkeHeaderLen buf))) (NextPayload h) (drop IkeHeaderLen buf))
    as (r & -> & Hr); [lia|]. destruct r as [ps|e]; eexists; (split; [done|]); [|done].
  rewrite length_drop in Hr. split; [done|]. cbn [Payloads]. lia.
Qed.
