(* ===== verification/IkeSA.v ===== *)
(** * SA payloads, [internal/ikev2/payload/sa.go]

    Proposals and transforms with their key-length attribute.  Parser positions
    are rests of the buffer, as in [IkeMessage].  The theorems: parsing terminates
    on every input, and a marshalled list of proposals parses back unchanged. *)
From Stdlib Require Import ZArith Lia.
From stdpp Require Import base list.
From S2P Require Import Prelude IkeMessage.

Abbreviation AttrKeyLength := 14 (only parsing).

Record Transform := mkTransform { TType : Z; TID : Z; KeyLen : Z }.

Record Proposal := mkProposal { Num : Z; Protocol : Z; SPI : bytes; Transforms : list Transform }.

Record SAPayload := mkSA { Proposals : list Proposal }.

Fixpoint get_transform (t : Z) (trs : list Transform) : option Transform :=
  match trs with
  | [] => None
  | tr :: trs => if TType tr =? t then Some tr else get_transform t trs
  end.

Definition Get (p : Proposal) (t : Z) : option Transform := get_transform t (Transforms p).

(** ** Marshalling *)

Definition marshalTransform (t : Transform) (last : bool) : bytes :=
  let attr := if KeyLen t =? 0 then [] else be_enc 2 (Z.lor 0x8000 AttrKeyLength) ++ be_enc 2 (KeyLen t) in
  let total := (8 + length attr)%nat in
  [if last then 0 else 3; 0] ++ be_enc 2 (wrap 16 (Z.of_nat total)) ++ [TType t; 0] ++ be_enc 2 (TID t) ++ attr.

(** The loop over transforms or proposals: the last one is marked. *)
Fixpoint marshal_all {A} (f : A -> bool -> bytes) (l : list A) : bytes :=
  match l with
  | [] => []
  | [x] => f x true
  | x :: l => f x false ++ marshal_all f l
  end.

Definition marshalProposal (p : Proposal) (last : bool) : bytes :=
  let body := marshal_all marshalTransform (Transforms p) in
  let total := (8 + length (SPI p) + length body)%nat in
  [if last then 0 else 2; 0] ++ be_enc 2 (wrap 16 (Z.of_nat total)) ++
  [Num p; Protocol p; wrap 8 (Z.of_nat (length (SPI p))); wrap 8 (Z.of_nat (length (Transforms p)))] ++
  SPI p ++ body.

Definition MarshalSA (sa : SAPayload) : bytes := marshal_all marshalProposal (Proposals sa).

(** ** Parsing *)

(** [parseTransformAttrs]; the key length it leaves in the transform. *)
Fixpoint parse_attrs (fuel : nat) (buf : bytes) (keyLen : Z) : option (result payload_error Z) :=
  match fuel with
  | O => None
  | S fuel =>
      if (length buf =? 0)%nat then Some (Ok keyLen)
      else if (length buf <? 4)%nat then Some (Err ErrTruncated)
      else
        let af := be_dec (slice buf 0 2) in
        let atype := Z.land af 0x7fff in
        if negb (Z.land af 0x8000 =? 0) then
          let val := be_dec (slice buf 2 4) in
          parse_attrs fuel (drop 4 buf) (if atype =? AttrKeyLength then val else keyLen)
        else
          let l := Z.to_nat (be_dec (slice buf 2 4)) in
          parse_attrs fuel (drop (4 + l) buf) keyLen
  end.

Definition parseTransformAttrs (buf : bytes) : option (result payload_error Z) := parse_attrs (S (length buf)) buf 0.

Fixpoint parseTransforms (buf : bytes) (count : nat) : option (result payload_error (list Transform)) :=
  match count with
  | O => Some (Ok [])
  | S count =>
      if (length buf <? 8)%nat then Some (Err ErrTruncated)
      else
        let more := at_ buf 0 in
        let tlen := Z.to_nat (be_dec (slice buf 2 4)) in
        if ((tlen <? 8) || (length buf <? tlen))%nat then Some (Err (ErrTransformLength tlen))
        else
          match parseTransformAttrs (slice buf 8 tlen) with
          | None => None
          | Some (Err e) => Some (Err e)
          | Some (Ok kl) =>
              let tr := mkTransform (at_ buf 4) (be_dec (slice buf 6 8)) kl in
              if more =? 0 then Some (Ok [tr])
              else
                match parseTransforms (drop tlen buf) count with
                | Some (Ok trs) => Some (Ok (tr :: trs))
                | r => r
                end
          end
  end.

Fixpoint parse_proposals (fuel : nat) (buf : bytes) : option (result payload_error (list Proposal)) :=
  match fuel with
  | O => None
  | S fuel =>
      if (length buf =? 0)%nat then Some (Ok [])
      else if (length buf <? 8)%nat then Some (Err ErrTruncated)
      else
        let more := at_ buf 0 in
        let plen := Z.to_nat (be_dec (slice buf 2 4)) in
        if ((plen <? 8) || (length buf <? plen))%nat then Some (Err (ErrProposalLength plen))
        else
          let spiSize := Z.to_nat (at_ buf 6) in
          let numTr := Z.to_nat (at_ buf 7) in
          if (plen <? 8 + spiSize)%nat then Some (Err ErrTruncated)
          else
            match parseTransforms (slice buf (8 + spiSize) plen) numTr with
            | None => None
            | Some (Err e) => Some (Err e)
            | Some (Ok trs) =>
                let prop := mkProposal (at_ buf 4) (at_ buf 5) (slice buf 8 (8 + spiSize)) trs in
                if more =? 0 then Some (Ok [prop])
                else
                  match parse_proposals fuel (drop plen buf) with
                  | Some (Ok ps) => Some (Ok (prop :: ps))
                  | r => r
                  end
            end
  end.

Definition ParseSA (buf : bytes) : option (result payload_error SAPayload) :=
  match parse_proposals (S (length buf)) buf with
  | Some (Ok ps) => Some (Ok (mkSA ps))
  | Some (Err e) => Some (Err e)
  | None => None
  end.

(** ** Termination *)

Lemma parse_attrs_total fuel buf kl : (length buf < fuel)%nat -> parse_attrs fuel buf kl <> None.
Proof.
  revert buf kl. induction fuel as [|fuel IH]; intros buf kl Hf; [lia|]. cbn [parse_attrs].
  destruct (Nat.eqb_spec (length buf) 0); [done|]. destruct (Nat.ltb_spec (length buf) 4); [done|].
  destruct (negb _); apply IH; rewrite length_drop; lia.
Qed.

Lemma parseTransforms_total buf count : parseTransforms buf count <> None.
Proof.
  revert buf. induction count as [|count IH]; intros buf; cbn [parseTransforms]; [done|].
  destruct (_ <? _)%nat; [done|]. destruct (_ || _); [done|].
  unfold parseTransformAttrs. set (b := slice buf 8 _).
  pose proof (parse_attrs_total (S (length b)) b 0 ltac:(lia)) as H.
  destruct (parse_attrs (S (length b)) b 0) as [[kl|e]|]; [|done|done].
  destruct (_ =? _); [done|]. match goal with |- context [parseTransforms ?x count] => specialize (IH x);
    by destruct (parseTransforms x count) as [[|]|] end.
Qed.

Lemma parse_proposals_total fuel buf : (length buf < fuel)%nat -> parse_proposals fuel buf <> None.
Proof.
  revert buf. induction fuel as [|fuel IH]; intros buf Hf; [lia|]. cbn [parse_proposals].
  destruct (Nat.eqb_spec (length buf) 0); [done|]. destruct (Nat.ltb_spec (length buf) 8); [done|].
  set (plen := Z.to_nat (be_dec (slice buf 2 4))).
  destruct (Nat.ltb_spec plen 8), (Nat.ltb_spec (length buf) plen); try done. cbn [orb].
  destruct (_ <? _)%nat; [done|]. pose proof (parseTransforms_total (slice buf (8 + Z.to_nat (at_ buf 6)) plen) (Z.to_nat (at_ buf 7))) as Ht.
  destruct (parseTransforms _ _) as [[trs|e]|]; [|done|done]. destruct (at_ buf 0 =? 0); [done|].
  specialize (IH (drop plen buf) ltac:(rewrite length_drop; lia)).
  by destruct (parse_proposals fuel (drop plen buf)) as [[|]|].
Qed.

(** ** Round trip *)

Record wf_transform (t : Transform) : Prop := {
  wt_type : uint8 (TType t); wt_id : uint16 (TID t); wt_keylen : uint16 (KeyLen t) }.

Record wf_proposal (p : Proposal) : Prop := {
  wpr_num : uint8 (Num p); wpr_proto : uint8 (Protocol p);
  wpr_spi : (length (SPI p) < 256)%nat;
  wpr_count : (length (Transforms p) < 256)%nat;
  wpr_trs : Forall wf_transform (Transforms p);
}.

Lemma parse_attrs_keylen kl : uint16 kl -> kl <> 0 ->
  parseTransformAttrs (be_enc 2 (Z.lor 0x8000 AttrKeyLength) ++ be_enc 2 kl) = Some (Ok kl).
Proof.
  intros Hk Hn. unfold parseTransformAttrs. set (buf := be_enc 2 (Z.lor 0x8000 AttrKeyLength) ++ be_enc 2 kl).
  assert (length buf = 4%nat) as HL by reflexivity. rewrite HL. cbn [parse_attrs]. rewrite HL. cbn [Nat.eqb Nat.ltb Nat.leb].
  assert (be_dec (slice buf 0 2) = 0x800e) as -> by reflexivity.
  assert (slice buf 2 4 = be_enc 2 kl) as -> by reflexivity.
  rewrite be_dec_enc_small by done. assert (drop 4 buf = []) as -> by reflexivity. reflexivity.
Qed.

(** One marshalled transform is read back and the rest is left. *)
Lemma parseTransforms_step t last rest count :
  wf_transform t ->
  parseTransforms (marshalTransform t last ++ rest) (S count) =
    if last then Some (Ok [t])
    else match parseTransforms rest count with Some (Ok trs) => Some (Ok (t :: trs)) | r => r end.
Proof.
  intros [H1 H2 H3]. set (buf := marshalTransform t last ++ rest).
  set (tlen := if KeyLen t =? 0 then 8%nat else 12%nat).
  assert (length (marshalTransform t last) = tlen) as Hm.
  { unfold marshalTransform, tlen. by destruct (KeyLen t =? 0). }
  assert (Z.to_nat (be_dec (slice buf 2 4)) = tlen) as Etl.
  { subst buf tlen. unfold marshalTransform. by destruct (KeyLen t =? 0). }
  assert (slice buf 6 8 = be_enc 2 (TID t)) as Eid by (subst buf; unfold marshalTransform; by destruct (KeyLen t =? 0)).
  assert (at_ buf 4 = TType t) as Ety by (subst buf; unfold marshalTransform; by destruct (KeyLen t =? 0)).
  assert (at_ buf 0 = if last then 0 else 3) as Emo by (subst buf; unfold marshalTransform; by destruct (KeyLen t =? 0)).
  assert (length buf = (tlen + length rest)%nat) as HL by (subst buf; by rewrite length_app, Hm).
  assert (drop tlen buf = rest) as Ed by (subst buf; rewrite <- Hm; apply drop_app_length).
  assert (parseTransformAttrs (slice buf 8 tlen) = Some (Ok (KeyLen t))) as Eat.
  { subst buf tlen. unfold marshalTransform in *. destruct (Z.eqb_spec (KeyLen t) 0) as [E|E].
    - rewrite E. reflexivity.
    - by apply parse_attrs_keylen. }
  cbn [parseTransforms]. rewrite Etl, Eid, Ety, Emo, Ed, Eat, HL.
  assert (8 <= tlen)%nat by (subst tlen; destruct (KeyLen t =? 0); lia).
  rewrite !(proj2 (Nat.ltb_ge _ _)) by lia. cbn [orb]. rewrite be_dec_enc_small by done.
  assert (mkTransform (TType t) (TID t) (KeyLen t) = t) as -> by (by destruct t). by destruct last.
Qed.

Lemma parseTransforms_marshal trs :
  Forall wf_transform trs ->
  parseTransforms (marshal_all marshalTransform trs) (length trs) = Some (Ok trs).
Proof.
  induction 1 as [|t trs Ht Htrs IH]; [done|]. destruct trs as [|t' trs].
  - cbn [marshal_all length]. rewrite <- (app_nil_r (marshalTransform t true)). by rewrite parseTransforms_step.
  - change (marshal_all marshalTransform (t :: t' :: trs))
      with (marshalTransform t false ++ marshal_all marshalTransform (t' :: trs)).
    change (length (t :: t' :: trs)) with (S (length (t' :: trs))).
    by rewrite parseTransforms_step, IH.
Qed.

Lemma length_marshalProposal p last :
  length (marshalProposal p last) = (8 + length (SPI p) + length (marshal_all marshalTransform (Transforms p)))%nat.
Proof. unfold marshalProposal. rewrite !length_app, length_be_enc. simpl. lia. Qed.

Lemma parse_proposals_step p last rest fuel :
  wf_proposal p -> Z.of_nat (length (marshalProposal p last)) < 2 ^ 16 ->
  parse_proposals (S fuel) (marshalProposal p last ++ rest) =
    if last then Some (Ok [p])
    else match parse_proposals fuel rest with Some (Ok ps) => Some (Ok (p :: ps)) | r => r end.
Proof.
  intros [H1 H2 H3 H4 H5] Hlen. rewrite length_marshalProposal in Hlen.
  set (body := marshal_all marshalTransform (Transforms p)) in *.
  set (plen := (8 + length (SPI p) + length body)%nat) in *.
  set (buf := marshalProposal p last ++ rest).
  assert (length (marshalProposal p last) = plen) as Hm by apply length_marshalProposal.
  assert (length buf = (plen + length rest)%nat) as HL by (subst buf; by rewrite length_app, Hm).
  assert (slice buf 2 4 = be_enc 2 (wrap 16 (Z.of_nat plen))) as Epl by reflexivity.
  assert (at_ buf 6 = Z.of_nat (length (SPI p))) as E6.
  { change (at_ buf 6) with (wrap 8 (Z.of_nat (length (SPI p)))). apply wrap_small. unfold uint. lia. }
  assert (at_ buf 7 = Z.of_nat (length (Transforms p))) as E7.
  { change (at_ buf 7) with (wrap 8 (Z.of_nat (length (Transforms p)))). apply wrap_small. unfold uint. lia. }
  assert (at_ buf 0 = if last then 0 else 2) as E0 by reflexivity.
  assert (at_ buf 4 = Num p) as E4 by reflexivity. assert (at_ buf 5 = Protocol p) as E5 by reflexivity.
  assert (buf = take 8 buf ++ SPI p ++ body ++ rest) as Ebuf.
  { subst buf. unfold marshalProposal. fold body. rewrite <- !app_assoc. reflexivity. }
  assert (length (take 8 buf) = 8%nat) as H8 by (rewrite length_take; lia).
  assert (slice buf 8 (8 + length (SPI p)) = SPI p) as Espi.
  { rewrite Ebuf, slice_app_r, H8 by lia. change (8 - 8)%nat with 0%nat.
    rewrite slice_app_l by lia. apply slice_all. lia. }
  assert (slice buf (8 + length (SPI p)) plen = body) as Ebody.
  { rewrite Ebuf, slice_app_r, H8 by lia. rewrite slice_app_r by lia.
    replace (8 + length (SPI p) - 8 - length (SPI p))%nat with 0%nat by lia.
    rewrite slice_app_l by (subst plen; lia). apply slice_all. subst plen; lia. }
  assert (drop plen buf = rest) as Ed by (subst buf; rewrite <- Hm; apply drop_app_length).
  cbn [parse_proposals]. rewrite Epl, wrap_small, be_dec_enc_small, Nat2Z.id by (unfold uint; lia).
  rewrite E6, E7, !Nat2Z.id, Espi, Ebody, Ed, E0, E4, E5, HL. subst body. rewrite parseTransforms_marshal by done.
  rewrite (proj2 (Nat.eqb_neq _ _)) by (subst plen; lia). rewrite !(proj2 (Nat.ltb_ge _ _)) by (subst plen; lia).
  cbn [orb]. assert (mkProposal (Num p) (Protocol p) (SPI p) (Transforms p) = p) as -> by (by destruct p). by destruct last.
Qed.

Lemma parse_proposals_marshal ps fuel :
  Forall wf_proposal ps -> Forall (fun p => Z.of_nat (length (marshalProposal p true)) < 2 ^ 16) ps ->
  (length ps < fuel)%nat -> parse_proposals fuel (marshal_all marshalProposal ps) = Some (Ok ps).
Proof.
  intros Hps. revert fuel. induction Hps as [|p ps Hp Hps IH]; intros fuel Hl Hf; (destruct fuel as [|fuel]; [lia|]); [done|].
  inversion Hl as [|? ? Hp16 Hps16]; subst. destruct ps as [|p' ps].
  - cbn [marshal_all]. rewrite <- (app_nil_r (marshalProposal p true)). by rewrite parse_proposals_step.
  - change (marshal_all marshalProposal (p :: p' :: ps))
      with (marshalProposal p false ++ marshal_all marshalProposal (p' :: ps)).
    rewrite parse_proposals_step; [rewrite IH; [done|done|simpl in *; lia]|done|].
    by rewrite length_marshalProposal in *.
Qed.

Lemma length_marshal_proposals ps : (length ps <= length (marshal_all marshalProposal ps))%nat.
Proof.
  induction ps as [|p [|p' ps] IH]; [done| |].
  - cbn [marshal_all]. rewrite length_marshalProposal. simpl. lia.
  - change (marshal_all marshalProposal (p :: p' :: ps))
      with (marshalProposal p false ++ marshal_all marshalProposal (p' :: ps)).
    rewrite length_app, length_marshalProposal. simpl length in *. lia.
Qed.

(** [ParseSA] returns on every input, and reads back exactly the proposals
    [MarshalSA] wrote: numbers, protocols, SPIs and transforms with their key
    lengths, for any list whose fields fit their widths. *)
Theorem sa_roundtrip (sa : SAPayload) (junk : bytes) :
  Forall wf_proposal (Proposals sa) ->
  Forall (fun p => Z.of_nat (length (marshalProposal p true)) < 2 ^ 16) (Proposals sa) ->
  ParseSA junk <> None /\ ParseSA (MarshalSA sa) = Some (Ok sa).
Proof.
  intros H1 H2. split.
  - unfold ParseSA. pose proof (parse_proposals_total (S (length junk)) junk ltac:(lia)).
    by destruct (parse_proposals _ junk) as [[|]|].
  - unfold ParseSA, MarshalSA. pose proof (length_marshal_proposals (Proposals sa)).
    rewrite parse_proposals_marshal by (done || lia). by destruct sa.
Qed.

(** Two proposals: AES-CBC-256 with SHA2 and P-256 for IKE, AES-GCM-128 for ESP. *)
Definition demo_sa : SAPayload := mkSA
  [mkProposal 1 1 [] [mkTransform 1 12 256; mkTransform 2 5 0; mkTransform 3 12 0; mkTransform 4 19 0];
   mkProposal 2 3 [1; 2; 3; 4] [mkTransform 1 20 128; mkTransform 5 0 0]].

Lemma sa_roundtrip_witness : ParseSA [0; 1; 2] <> None /\ ParseSA (MarshalSA demo_sa) = Some (Ok demo_sa).
Proof.
  apply (sa_roundtrip demo_sa [0; 1; 2]).
  - repeat constructor; simpl; lia.
  - repeat constructor; vm_compute; reflexivity.
Defined.
