(* ===== verification/IkeBodies.v ===== *)
(** * Payload bodies, [internal/ikev2/payload/bodies.go]

    Encoders and decoders of the payload bodies: key exchange, nonce, notify,
    identification, certificates, authentication, traffic selectors, delete and
    configuration.  A [net.IP] is its byte string. *)
From Stdlib Require Import ZArith Lia.
From stdpp Require Import base list.
From S2P Require Import Prelude IkeMessage.

(** ** Fixed prefix followed by data *)

Record KEPayload := mkKE { Group : Z; KeyData : bytes }.

Definition MarshalKE (ke : KEPayload) : bytes := be_enc 2 (Group ke) ++ [0; 0] ++ KeyData ke.

Definition ParseKE (buf : bytes) : result payload_error KEPayload :=
  if (length buf <? 4)%nat then Err ErrTruncated else Ok (mkKE (be_dec (slice buf 0 2)) (drop 4 buf)).

Definition MarshalNonce (nonce : bytes) : bytes := nonce.
Definition ParseNonce (buf : bytes) : bytes := buf.

Record NotifyPayload := mkNotify { NProtocol : Z; NType : Z; NSPI : bytes; NData : bytes }.

Definition MarshalNotify (n : NotifyPayload) : bytes :=
  [NProtocol n; wrap 8 (Z.of_nat (length (NSPI n)))] ++ be_enc 2 (NType n) ++ NSPI n ++ NData n.

Definition ParseNotify (buf : bytes) : result payload_error NotifyPayload :=
  if (length buf <? 4)%nat then Err ErrTruncated
  else
    let spiSize := Z.to_nat (at_ buf 1) in
    if (length buf <? 4 + spiSize)%nat then Err ErrTruncated
    else Ok (mkNotify (at_ buf 0) (be_dec (slice buf 2 4)) (slice buf 4 (4 + spiSize)) (drop (4 + spiSize) buf)).

Record IDPayload := mkID { IDType : Z; IDData : bytes }.

Definition MarshalID (id : IDPayload) : bytes := [IDType id; 0; 0; 0] ++ IDData id.

Definition ParseID (buf : bytes) : result payload_error IDPayload :=
  if (length buf <? 4)%nat then Err ErrTruncated else Ok (mkID (at_ buf 0) (drop 4 buf)).

Record CertPayload := mkCert { CEncoding : Z; CData : bytes }.

Definition MarshalCert (c : CertPayload) : bytes := [CEncoding c] ++ CData c.

Definition ParseCert (buf : bytes) : result payload_error CertPayload :=
  if (length buf <? 1)%nat then Err ErrTruncated else Ok (mkCert (at_ buf 0) (drop 1 buf)).

Record CertReqPayload := mkCertReq { CREncoding : Z; CAs : bytes }.

Definition MarshalCertReq (c : CertReqPayload) : bytes := [CREncoding c] ++ CAs c.

Definition ParseCertReq (buf : bytes) : result payload_error CertReqPayload :=
  if (length buf <? 1)%nat then Err ErrTruncated else Ok (mkCertReq (at_ buf 0) (drop 1 buf)).

Record AuthPayload := mkAuth { AMethod : Z; AData : bytes }.

Definition MarshalAuth (a : AuthPayload) : bytes := [AMethod a; 0; 0; 0] ++ AData a.

Definition ParseAuth (buf : bytes) : result payload_error AuthPayload :=
  if (length buf <? 4)%nat then Err ErrTruncated else Ok (mkAuth (at_ buf 0) (drop 4 buf)).

(** ** Traffic selectors *)

Abbreviation TSIPv4AddrRange := 7 (only parsing).
Abbreviation TSIPv6AddrRange := 8 (only parsing).

Record TrafficSelector := mkTS {
  TSType : Z; IPProtocol : Z; StartPort : Z; EndPort : Z; StartAddr : bytes; EndAddr : bytes }.

(** [net.IP.To4] and [net.IP.To16]; nil is the empty string. *)
Definition v4_mapped_prefix : bytes := replicate 10 0 ++ [0xff; 0xff].

Definition To4 (ip : bytes) : bytes :=
  if (length ip =? 4)%nat then ip
  else if (length ip =? 16)%nat && bool_decide (slice ip 0 12 = v4_mapped_prefix) then slice ip 12 16
  else [].

Definition To16 (ip : bytes) : bytes :=
  if (length ip =? 4)%nat then v4_mapped_prefix ++ ip else if (length ip =? 16)%nat then ip else [].

Definition marshalSelector (s : TrafficSelector) : bytes :=
  let addrLen := if TSType s =? TSIPv4AddrRange then 4%nat else if TSType s =? TSIPv6AddrRange then 16%nat else 0%nat in
  let total := (8 + 2 * addrLen)%nat in
  let out := [TSType s; IPProtocol s] ++ be_enc 2 (wrap 16 (Z.of_nat total)) ++
             be_enc 2 (StartPort s) ++ be_enc 2 (EndPort s) in
  if (addrLen =? 4)%nat then out ++ To4 (StartAddr s) ++ To4 (EndAddr s)
  else out ++ To16 (StartAddr s) ++ To16 (EndAddr s).

Definition MarshalTS (ts : list TrafficSelector) : bytes :=
  [wrap 8 (Z.of_nat (length ts)); 0; 0; 0] ++ concat (marshalSelector <$> ts).

Fixpoint parse_selectors (count : nat) (buf : bytes) : result payload_error (list TrafficSelector) :=
  match count with
  | O => Ok []
  | S count =>
      if (length buf <? 8)%nat then Err ErrTruncated
      else
        let slen := Z.to_nat (be_dec (slice buf 2 4)) in
        if ((slen <? 8) || (length buf <? slen))%nat then Err (ErrSelectorLength slen)
        else
          let addrLen := ((slen - 8) / 2)%nat in
          let sel := mkTS (at_ buf 0) (at_ buf 1) (be_dec (slice buf 4 6)) (be_dec (slice buf 6 8))
                       (slice buf 8 (8 + addrLen)) (slice buf (8 + addrLen) (8 + 2 * addrLen)) in
          let* sels := parse_selectors count (drop slen buf) in
          Ok (sel :: sels)
  end.

Definition ParseTS (buf : bytes) : result payload_error (list TrafficSelector) :=
  if (length buf <? 4)%nat then Err ErrTruncated else parse_selectors (Z.to_nat (at_ buf 0)) (drop 4 buf).

(** ** Delete *)

Record DeletePayload := mkDelete { DProtocol : Z; SPISize : Z; SPIs : list bytes }.

Definition MarshalDelete (d : DeletePayload) : bytes :=
  [DProtocol d; SPISize d] ++ be_enc 2 (wrap 16 (Z.of_nat (length (SPIs d)))) ++ concat (SPIs d).

Fixpoint parse_spis (n sz : nat) (buf : bytes) : result payload_error (list bytes) :=
  match n with
  | O => Ok []
  | S n =>
      if (length buf <? sz)%nat then Err ErrTruncated
      else let* spis := parse_spis n sz (drop sz buf) in Ok (slice buf 0 sz :: spis)
  end.

Definition ParseDelete (buf : bytes) : result payload_error DeletePayload :=
  if (length buf <? 4)%nat then Err ErrTruncated
  else
    let* spis := parse_spis (Z.to_nat (be_dec (slice buf 2 4))) (Z.to_nat (at_ buf 1)) (drop 4 buf) in
    Ok (mkDelete (at_ buf 0) (at_ buf 1) spis).

(** ** Configuration *)

Record CFGAttr := mkAttr { CAType : Z; CAValue : bytes }.

Record CPPayload := mkCP { CPType : Z; Attrs : list CFGAttr }.

Definition marshalAttr (a : CFGAttr) : bytes :=
  be_enc 2 (Z.land (CAType a) 0x7fff) ++ be_enc 2 (wrap 16 (Z.of_nat (length (CAValue a)))) ++ CAValue a.

Definition MarshalCP (cp : CPPayload) : bytes := [CPType cp; 0; 0; 0] ++ concat (marshalAttr <$> Attrs cp).

(** Octets after the last whole attribute header are ignored, as in the source. *)
Fixpoint parse_cfg (fuel : nat) (buf : bytes) : option (result payload_error (list CFGAttr)) :=
  match fuel with
  | O => None
  | S fuel =>
      if (length buf <? 4)%nat then Some (Ok [])
      else
        let atype := Z.land (be_dec (slice buf 0 2)) 0x7fff in
        let alen := Z.to_nat (be_dec (slice buf 2 4)) in
        if (length buf <? 4 + alen)%nat then Some (Err ErrTruncated)
        else
          match parse_cfg fuel (drop (4 + alen) buf) with
          | Some (Ok l) => Some (Ok (mkAttr atype (slice buf 4 (4 + alen)) :: l))
          | r => r
          end
  end.

Definition ParseCP (buf : bytes) : option (result payload_error CPPayload) :=
  if (length buf <? 4)%nat then Some (Err ErrTruncated)
  else
    match parse_cfg (S (length buf)) (drop 4 buf) with
    | Some (Ok l) => Some (Ok (mkCP (at_ buf 0) l))
    | Some (Err e) => Some (Err e)
    | None => None
    end.

Fixpoint attr_value (t : Z) (l : list CFGAttr) : option bytes :=
  match l with
  | [] => None
  | a :: l => if CAType a =? t then Some (CAValue a) else attr_value t l
  end.

Definition AttrValue (cp : CPPayload) (t : Z) : option bytes := attr_value t (Attrs cp).

(** ** Round trips *)

Lemma ParseNotify_marshal n :
  (length (NSPI n) < 256)%nat -> uint16 (NType n) -> ParseNotify (MarshalNotify n) = Ok n.
Proof.
  intros H1 H2. unfold ParseNotify. set (buf := MarshalNotify n).
  assert (drop 4 buf = NSPI n ++ NData n) as Ed by reflexivity.
  assert (length buf = 4 + (length (NSPI n) + length (NData n)))%nat as HL
    by (subst buf; unfold MarshalNotify; by rewrite !length_app, length_be_enc).
  assert (at_ buf 1 = Z.of_nat (length (NSPI n))) as E1.
  { change (at_ buf 1) with (wrap 8 (Z.of_nat (length (NSPI n)))). apply wrap_small. unfold uint. lia. }
  rewrite E1, Nat2Z.id, HL, !(proj2 (Nat.ltb_ge _ _)) by lia.
  assert (slice buf 2 4 = be_enc 2 (NType n)) as -> by reflexivity.
  rewrite be_dec_enc_small by done. replace (slice buf 4) with (slice buf (4 + 0)) by done.
  rewrite slice_drop, <- drop_drop, Ed, slice_0_app, drop_app_length. by destruct n.
Qed.

Definition wf_selector (s : TrafficSelector) : Prop :=
  uint16 (StartPort s) /\ uint16 (EndPort s) /\
  (TSType s = TSIPv4AddrRange /\ length (StartAddr s) = 4%nat /\ length (EndAddr s) = 4%nat \/
   TSType s = TSIPv6AddrRange /\ length (StartAddr s) = 16%nat /\ length (EndAddr s) = 16%nat).

Lemma parse_selectors_step s rest count :
  wf_selector s ->
  parse_selectors (S count) (marshalSelector s ++ rest) =
    (let* sels := parse_selectors count rest in Ok (s :: sels)).
Proof.
  intros (H1 & H2 & Hty). set (buf := marshalSelector s ++ rest).
  assert (exists al, length (StartAddr s) = al /\ length (EndAddr s) = al /\ (al <= 16)%nat /\
    marshalSelector s = ([TSType s; IPProtocol s] ++ be_enc 2 (wrap 16 (Z.of_nat (8 + 2 * al))) ++
      be_enc 2 (StartPort s) ++ be_enc 2 (EndPort s)) ++ StartAddr s ++ EndAddr s) as (al & Ls & Le & Hal & Em).
  { unfold marshalSelector, To4, To16.
    destruct Hty as [(Et & Ls & Le)|(Et & Ls & Le)]; rewrite Et; [exists 4%nat|exists 16%nat];
      (split_and!; [done|done|lia|]); by rewrite Ls, Le. }
  assert (drop 8 buf = StartAddr s ++ EndAddr s ++ rest) as Ed.
  { subst buf. rewrite Em, <- !app_assoc. reflexivity. }
  assert (length buf = (8 + 2 * al + length rest))%nat as HL.
  { subst buf. rewrite Em, !length_app, !length_be_enc, Ls, Le. simpl. lia. }
  assert (slice buf 2 4 = be_enc 2 (wrap 16 (Z.of_nat (8 + 2 * al)))) as E2 by (subst buf; by rewrite Em).
  assert (slice buf 4 6 = be_enc 2 (StartPort s)) as E4 by (subst buf; by rewrite Em).
  assert (slice buf 6 8 = be_enc 2 (EndPort s)) as E6 by (subst buf; by rewrite Em).
  assert (at_ buf 0 = TSType s /\ at_ buf 1 = IPProtocol s) as [E0 E1] by (subst buf; by rewrite Em).
  cbn [parse_selectors]. rewrite E2, wrap_small, be_dec_enc_small, Nat2Z.id by (unfold uint; lia).
  rewrite HL, !(proj2 (Nat.ltb_ge _ _)) by lia. cbn [orb].
  replace ((8 + 2 * al - 8) / 2)%nat with al by (rewrite Nat.add_comm, Nat.add_sub, Nat.mul_comm, Nat.div_mul; lia).
  rewrite E0, E1, E4, E6, !be_dec_enc_small by done.
  replace (slice buf 8 (8 + al)) with (slice buf (8 + 0) (8 + al)) by done.
  rewrite !slice_drop, <- (drop_drop buf), Ed.
  assert (slice (StartAddr s ++ EndAddr s ++ rest) 0 al = StartAddr s) as -> by (rewrite <- Ls; apply slice_0_app).
  assert (slice (StartAddr s ++ EndAddr s ++ rest) al (2 * al) = EndAddr s) as ->.
  { rewrite slice_app_r, Ls by lia. rewrite Nat.sub_diag. replace (2 * al - al)%nat with (length (EndAddr s)) by lia.
    apply slice_0_app. }
  assert (drop (2 * al) (StartAddr s ++ EndAddr s ++ rest) = rest) as ->.
  { rewrite app_assoc. replace (2 * al)%nat with (length (StartAddr s ++ EndAddr s)) by (rewrite length_app; lia).
    apply drop_app_length. }
  by destruct s.
Qed.

Lemma ParseTS_marshal ts :
  (length ts < 256)%nat -> Forall wf_selector ts -> ParseTS (MarshalTS ts) = Ok ts.
Proof.
  intros Hl Hts. unfold ParseTS. set (buf := MarshalTS ts).
  assert (4 <= length buf)%nat by (subst buf; simpl; lia). rewrite (proj2 (Nat.ltb_ge _ _)) by lia.
  change (at_ buf 0) with (wrap 8 (Z.of_nat (length ts))). change (drop 4 buf) with (concat (marshalSelector <$> ts)).
  rewrite wrap_small, Nat2Z.id by (unfold uint; lia). clear Hl H buf. induction Hts as [|s ts Hs _ IH]; [done|].
  cbn [length fmap list_fmap concat]. rewrite parse_selectors_step by done.
  change (list_fmap _ _ marshalSelector ts) with (marshalSelector <$> ts). by rewrite IH.
Qed.

Lemma ParseDelete_marshal d :
  uint8 (SPISize d) -> Z.of_nat (length (SPIs d)) < 2 ^ 16 ->
  Forall (fun s => length s = Z.to_nat (SPISize d)) (SPIs d) -> ParseDelete (MarshalDelete d) = Ok d.
Proof.
  intros H1 H2 H3. unfold ParseDelete. set (buf := MarshalDelete d).
  assert (4 <= length buf)%nat by (subst buf; simpl; lia). rewrite (proj2 (Nat.ltb_ge _ _)) by lia.
  assert (slice buf 2 4 = be_enc 2 (wrap 16 (Z.of_nat (length (SPIs d))))) as -> by reflexivity.
  rewrite wrap_small, be_dec_enc_small, Nat2Z.id by (unfold uint; lia).
  change (drop 4 buf) with (concat (SPIs d)). change (at_ buf 1) with (SPISize d).
  assert (parse_spis (length (SPIs d)) (Z.to_nat (SPISize d)) (concat (SPIs d)) = Ok (SPIs d)) as ->.
  { clear H2 H. induction H3 as [|s l Hs _ IH]; [done|]. cbn [length concat parse_spis].
    rewrite length_app, (proj2 (Nat.ltb_ge _ _)) by lia.
    assert (drop (Z.to_nat (SPISize d)) (s ++ concat l) = concat l) as -> by (rewrite <- Hs; apply drop_app_length).
    assert (slice (s ++ concat l) 0 (Z.to_nat (SPISize d)) = s) as -> by (rewrite <- Hs; apply slice_0_app).
    by rewrite IH. }
  by destruct d.
Qed.

Definition wf_attr (a : CFGAttr) : Prop := 0 <= CAType a < 2 ^ 15 /\ Z.of_nat (length (CAValue a)) < 2 ^ 16.

Lemma parse_cfg_marshal l fuel :
  Forall wf_attr l -> (length l < fuel)%nat -> parse_cfg fuel (concat (marshalAttr <$> l)) = Some (Ok l).
Proof.
  intros Hl. revert fuel. induction Hl as [|a l [Ht Hv] _ IH]; intros fuel Hf; (destruct fuel as [|fuel]; [simpl in Hf; lia|]); [done|].
  cbn [fmap list_fmap concat]. change (list_fmap _ _ marshalAttr l) with (marshalAttr <$> l).
  set (rest := concat (marshalAttr <$> l)) in *. set (buf := marshalAttr a ++ rest).
  assert (Z.land (CAType a) 0x7fff = CAType a) as El.
  { change 0x7fff with (Z.ones 15). rewrite Z.land_ones by lia. apply Z.mod_small. lia. }
  assert (drop 4 buf = CAValue a ++ rest) as Ed by (subst buf; unfold marshalAttr; by rewrite <- !app_assoc).
  assert (length buf = 4 + length (CAValue a) + length rest)%nat as HL
    by (subst buf; unfold marshalAttr; rewrite !length_app, !length_be_enc; lia).
  assert (slice buf 0 2 = be_enc 2 (Z.land (CAType a) 0x7fff)) as E0 by reflexivity.
  assert (slice buf 2 4 = be_enc 2 (wrap 16 (Z.of_nat (length (CAValue a))))) as E2 by reflexivity.
  cbn [parse_cfg]. rewrite E0, E2, El, wrap_small, !be_dec_enc_small, Nat2Z.id, El by (unfold uint; lia).
  rewrite HL, !(proj2 (Nat.ltb_ge _ _)) by lia.
  replace (slice buf 4) with (slice buf (4 + 0)) by done. rewrite slice_drop, <- drop_drop, Ed, slice_0_app, drop_app_length.
  subst rest. rewrite IH by (simpl in Hf; lia). by destruct a.
Qed.

Lemma ParseCP_marshal cp : Forall wf_attr (Attrs cp) -> ParseCP (MarshalCP cp) = Some (Ok cp).
Proof.
  intros Ha. unfold ParseCP. set (buf := MarshalCP cp).
  assert (length buf = 4 + length (concat (marshalAttr <$> Attrs cp)))%nat as HL by reflexivity.
  rewrite (proj2 (Nat.ltb_ge _ _)) by lia. change (drop 4 buf) with (concat (marshalAttr <$> Attrs cp)).
  assert (forall l, length l <= length (concat (marshalAttr <$> l)))%nat as Hlen.
  { clear. induction l as [|a l IH]; [done|]. cbn [fmap list_fmap concat length].
    change (list_fmap _ _ marshalAttr l) with (marshalAttr <$> l).
    unfold marshalAttr at 1. rewrite !length_app, !length_be_enc. lia. }
  rewrite parse_cfg_marshal; [|done|specialize (Hlen (Attrs cp)); lia]. by destruct cp.
Qed.

(** ** All bodies at once *)

Inductive body :=
| BKE (ke : KEPayload) | BNonce (n : bytes) | BNotify (n : NotifyPayload) | BID (id : IDPayload)
| BCert (c : CertPayload) | BCertReq (c : CertReqPayload) | BAuth (a : AuthPayload)
| BTS (ts : list TrafficSelector) | BDelete (d : DeletePayload) | BCP (cp : CPPayload).

Definition marshal_body (b : body) : bytes :=
  match b with
  | BKE ke => MarshalKE ke | BNonce n => MarshalNonce n | BNotify n => MarshalNotify n | BID id => MarshalID id
  | BCert c => MarshalCert c | BCertReq c => MarshalCertReq c | BAuth a => MarshalAuth a
  | BTS ts => MarshalTS ts | BDelete d => MarshalDelete d | BCP cp => MarshalCP cp
  end.

(** The decoder for the kind of body [b] is. *)
Definition parse_like (b : body) (buf : bytes) : option (result payload_error body) :=
  match b with
  | BKE _ => Some (let* x := ParseKE buf in Ok (BKE x))
  | BNonce _ => Some (Ok (BNonce (ParseNonce buf)))
  | BNotify _ => Some (let* x := ParseNotify buf in Ok (BNotify x))
  | BID _ => Some (let* x := ParseID buf in Ok (BID x))
  | BCert _ => Some (let* x := ParseCert buf in Ok (BCert x))
  | BCertReq _ => Some (let* x := ParseCertReq buf in Ok (BCertReq x))
  | BAuth _ => Some (let* x := ParseAuth buf in Ok (BAuth x))
  | BTS _ => Some (let* x := ParseTS buf in Ok (BTS x))
  | BDelete _ => Some (let* x := ParseDelete buf in Ok (BDelete x))
  | BCP _ => r ← ParseCP buf; Some (let* x := r in Ok (BCP x))
  end.

(** Fields fit their widths and counts their octets. *)
Definition wf_body (b : body) : Prop :=
  match b with
  | BKE ke => uint16 (Group ke)
  | BNotify n => (length (NSPI n) < 256)%nat /\ uint16 (NType n)
  | BTS ts => (length ts < 256)%nat /\ Forall wf_selector ts
  | BDelete d => uint8 (SPISize d) /\ Z.of_nat (length (SPIs d)) < 2 ^ 16 /\
                 Forall (fun s => length s = Z.to_nat (SPISize d)) (SPIs d)
  | BCP cp => Forall wf_attr (Attrs cp)
  | _ => True
  end.

(** Every payload body survives its wire format: key exchange, nonce, notify,
    identification, certificate, certificate request, authentication, traffic
    selectors, delete and configuration bodies decode to what was encoded. *)
Theorem payload_bodies_roundtrip (b : body) :
  wf_body b -> parse_like b (marshal_body b) = Some (Ok b).
Proof.
  intros Hb. destruct b as [ke|n|n|id|c|c|a|ts|d|cp]; cbn [wf_body] in Hb.
  - unfold parse_like, ParseKE, marshal_body. set (buf := MarshalKE ke).
    assert (slice buf 0 2 = be_enc 2 (Group ke)) as -> by reflexivity.
    rewrite be_dec_enc_small by done. by destruct ke.
  - done.
  - cbn [parse_like marshal_body]. rewrite ParseNotify_marshal by apply Hb. done.
  - by destruct id.
  - by destruct c.
  - by destruct c.
  - by destruct a.
  - cbn [parse_like marshal_body]. rewrite ParseTS_marshal by apply Hb. done.
  - cbn [parse_like marshal_body]. rewrite ParseDelete_marshal by apply Hb. done.
  - cbn [parse_like marshal_body]. rewrite ParseCP_marshal by done. done.
Qed.

Definition demo_ts : body :=
  BTS [mkTS 7 0 0 65535 [10; 0; 0; 0] [10; 0; 0; 255]; mkTS 8 17 53 53 (replicate 16 0) (replicate 16 255)].

Lemma payload_bodies_roundtrip_witness : parse_like demo_ts (marshal_body demo_ts) = Some (Ok demo_ts).
Proof.
  apply (payload_bodies_roundtrip demo_ts). split; [simpl; lia|].
  apply Forall_cons; split; [|apply Forall_cons; split; [|by apply Forall_nil]];
    (split; [by_decision|split; [by_decision|]]); [by left|by right].
Defined.
