(* ===== verification/Crypto.v ===== *)
(** * Cipher framing, [internal/cryptoutil/{cipher,espcrypt,prf}.go]

    How the cipher suites frame what they protect: the SK ciphers of IKE, the
    prepared ESP crypters with their counter IV, HMAC integrity and prf+.  The
    primitives themselves (an AEAD, AES-CBC, HMAC) are Go's and x/crypto's; they
    are the class [Prims], with their documented behaviour in [PrimsOk]: opening
    undoes sealing under the same key, nonce and associated data, CBC decryption
    undoes encryption of whole blocks, and lengths are as specified.  A random IV
    is an argument of the operation that draws it. *)
From Stdlib Require Import ZArith Lia.
From stdpp Require Import base list.
From S2P Require Import Prelude.

(** ** Primitives *)

Inductive aead_alg := AesGCM | ChaCha20Poly1305.

(** The hash constructors handed to [hmac.New], and their [Size]. *)
Inductive hash_alg := MD5 | SHA1 | SHA256 | SHA384 | SHA512.

Definition hashSize (h : hash_alg) : nat :=
  match h with MD5 => 16 | SHA1 => 20 | SHA256 => 32 | SHA384 => 48 | SHA512 => 64 end%nat.

Class Prims := {
  aeadSeal : aead_alg -> bytes -> bytes -> bytes -> bytes -> bytes;         (* key nonce aad plaintext *)
  aeadOpen : aead_alg -> bytes -> bytes -> bytes -> bytes -> option bytes;  (* key nonce aad ciphertext *)
  cbcEncrypt : bytes -> bytes -> bytes -> bytes;                            (* key iv plaintext *)
  cbcDecrypt : bytes -> bytes -> bytes -> bytes;                            (* key iv ciphertext *)
  hmac : hash_alg -> bytes -> bytes -> bytes;                               (* hash key data *)
}.

Definition tagLen : nat := 16.
Definition blockSize : nat := 16.

Class PrimsOk (P : Prims) := {
  aead_open_seal alg k n a pt : aeadOpen alg k n a (aeadSeal alg k n a pt) = Some pt;
  length_aeadSeal alg k n a pt : length (aeadSeal alg k n a pt) = (length pt + tagLen)%nat;
  cbc_dec_enc k iv pt : Nat.divide blockSize (length pt) -> cbcDecrypt k iv (cbcEncrypt k iv pt) = pt;
  length_cbcEncrypt k iv pt : length (cbcEncrypt k iv pt) = length pt;
  length_hmac h k d : length (hmac h k d) = hashSize h;
}.

(** The unkeyed digests. *)
Class Digests := { digest : hash_alg -> bytes -> bytes }.
Class DigestsOk (D : Digests) := { length_digest h d : length (digest h d) = hashSize h }.

Inductive crypto_error :=
| ErrKeyLength | ErrAEADShort | ErrAEADOpen | ErrAEADExhausted
| ErrCBCShort | ErrCBCIntegrity | ErrCBCAlign | ErrNotAligned | ErrNeedsETM.

Abbreviation ChaCha20Poly1305KeySize := 32%nat (only parsing).

(** What [aes.NewCipher] and [chacha20poly1305.New] accept. *)
Definition key_ok (alg : aead_alg) (key : bytes) : bool :=
  match alg with
  | AesGCM => (length key =? 16) || (length key =? 24) || (length key =? 32)
  | ChaCha20Poly1305 => length key =? ChaCha20Poly1305KeySize
  end%nat.

(** [aesKeyLen]: octets from bits, 0 selecting AES-256. *)
Definition aesKeyLen (keyBits : nat) : result crypto_error nat :=
  let kl := (keyBits / 8)%nat in
  let kl := if (kl =? 0)%nat then 32%nat else kl in
  if ((kl =? 16) || (kl =? 24) || (kl =? 32))%nat then Ok kl else Err ErrKeyLength.

Section Framing.
Context {P : Prims}.

(** ** Integrity and prf+, [prf.go] *)

Record Integrity := mkIntegrity { IntegHash : hash_alg; IntegKeyLen : nat; IntegICVLen : nat }.

Definition NewHMACIntegrity (h : hash_alg) (keyLen icvLen : nat) : Integrity := mkIntegrity h keyLen icvLen.

(** [Integrity.Sum]. *)
Definition Sum (i : Integrity) (key data : bytes) : bytes := take (IntegICVLen i) (hmac (IntegHash i) key data).

Record PRF := mkPRF { PRFHash : hash_alg; PRFSize : nat; PreferredKeyLen : nat }.

Definition NewHMACPRF (h : hash_alg) : PRF := mkPRF h (hashSize h) (hashSize h).

Definition Apply (p : PRF) (key data : bytes) : bytes := hmac (PRFHash p) key data.

(** The loop of [PRF.Plus]; [counter] is the octet of the next block. *)
Fixpoint plus_loop (fuel : nat) (p : PRF) (key seed prev out : bytes) (counter : Z) (n : nat) : option bytes :=
  match fuel with
  | O => None
  | S fuel =>
      if (length out <? n)%nat then
        let t := hmac (PRFHash p) key (prev ++ seed ++ [counter]) in
        plus_loop fuel p key seed t (out ++ t) (wrap 8 (counter + 1)) n
      else Some (take n out)
  end.

Definition Plus (p : PRF) (key seed : bytes) (n : nat) : option bytes := plus_loop (S n) p key seed [] [] 1 n.

(** ** SK ciphers, [cipher.go] *)

Inductive SKCipher := AeadCipher (alg : aead_alg) (keyLen : nat) | CbcCipher (keyLen : nat).

Definition KeyLen (c : SKCipher) : nat := match c with AeadCipher _ kl => (kl + 4)%nat | CbcCipher kl => kl end.
Definition IVLen (c : SKCipher) : nat := match c with AeadCipher _ _ => 8%nat | CbcCipher _ => blockSize end.
Definition ICVLen (c : SKCipher) : nat := match c with AeadCipher _ _ => 16%nat | CbcCipher _ => 0%nat end.
Definition BlockLen (c : SKCipher) : nat := match c with AeadCipher _ _ => 1%nat | CbcCipher _ => blockSize end.
Definition AEAD (c : SKCipher) : bool := match c with AeadCipher _ _ => true | CbcCipher _ => false end.

Definition NewAESGCMSKCipher (keyBits : nat) : result crypto_error SKCipher :=
  let* kl := aesKeyLen keyBits in Ok (AeadCipher AesGCM kl).
Definition NewChaCha20Poly1305SKCipher : SKCipher := AeadCipher ChaCha20Poly1305 ChaCha20Poly1305KeySize.
Definition NewAESCBCSKCipher (keyBits : nat) : result crypto_error SKCipher :=
  let* kl := aesKeyLen keyBits in Ok (CbcCipher kl).

(** [aeadCipher.Seal] with the IV it draws.  The key material has the length
    [KeyLen] asks for, so its slices are in range. *)
Definition aead_Seal (alg : aead_alg) (kl : nat) (iv encKey aad plaintext : bytes) : result crypto_error bytes :=
  let salt := slice encKey kl (kl + 4) in
  let key := take kl encKey in
  if negb (key_ok alg key) then Err ErrKeyLength
  else Ok (iv ++ aeadSeal alg key (salt ++ iv) aad plaintext).

Definition aead_Open (alg : aead_alg) (kl : nat) (encKey aad ivCtIcv : bytes) : result crypto_error bytes :=
  if (length ivCtIcv <? IVLen (AeadCipher alg kl) + ICVLen (AeadCipher alg kl))%nat then Err ErrAEADShort
  else
    let salt := slice encKey kl (kl + 4) in
    let key := take kl encKey in
    if negb (key_ok alg key) then Err ErrKeyLength
    else
      let iv := take (IVLen (AeadCipher alg kl)) ivCtIcv in
      let ct := drop (IVLen (AeadCipher alg kl)) ivCtIcv in
      match aeadOpen alg key (salt ++ iv) aad ct with
      | Some pt => Ok pt
      | None => Err ErrAEADOpen
      end.

(** CBC goes through [SealETM] and [OpenETM]. *)
Definition Seal (c : SKCipher) (iv encKey aad plaintext : bytes) : result crypto_error bytes :=
  match c with
  | AeadCipher alg kl => aead_Seal alg kl iv encKey aad plaintext
  | CbcCipher _ => Err ErrNeedsETM
  end.

Definition Open (c : SKCipher) (encKey aad ivCtIcv : bytes) : result crypto_error bytes :=
  match c with
  | AeadCipher alg kl => aead_Open alg kl encKey aad ivCtIcv
  | CbcCipher _ => Err ErrNeedsETM
  end.

Definition aligned (b : bytes) : bool := (length b mod blockSize =? 0)%nat.

Definition SealETM (iv encKey integKey aad plaintext : bytes) (integ : Integrity) : result crypto_error bytes :=
  if negb (key_ok AesGCM encKey) then Err ErrKeyLength
  else if negb (aligned plaintext) then Err ErrNotAligned
  else
    let ct := cbcEncrypt encKey iv plaintext in
    let icv := Sum integ integKey (aad ++ iv ++ ct) in
    Ok (iv ++ ct ++ icv).

Definition OpenETM (encKey integKey aad ivCtIcv : bytes) (integ : Integrity) : result crypto_error bytes :=
  if (length ivCtIcv <? blockSize + IntegICVLen integ)%nat then Err ErrCBCShort
  else
    let icv := drop (length ivCtIcv - IntegICVLen integ) ivCtIcv in
    let rest := take (length ivCtIcv - IntegICVLen integ) ivCtIcv in
    let want := Sum integ integKey (aad ++ rest) in
    if negb (bool_decide (want = icv)) then Err ErrCBCIntegrity
    else
      let iv := take blockSize rest in
      let ct := drop blockSize rest in
      if negb (aligned ct) then Err ErrCBCAlign
      else if negb (key_ok AesGCM encKey) then Err ErrKeyLength
      else Ok (cbcDecrypt encKey iv ct).

(** ** ESP crypters, [espcrypt.go] *)

(** [espAEAD]: the keyed AEAD, its salt and the last IV sealed; or [espCBC]. *)
Inductive ESPCrypter :=
| EspAEAD (alg : aead_alg) (key salt : bytes) (iv : Z)
| EspCBC (key integKey : bytes) (integ : Integrity).

Definition NewAESGCMESPCrypter (keyBits : nat) (encKey : bytes) : result crypto_error ESPCrypter :=
  let* kl := aesKeyLen keyBits in
  if (length encKey <? kl + 4)%nat then Err ErrKeyLength
  else Ok (EspAEAD AesGCM (take kl encKey) (slice encKey kl (kl + 4)) 0).

Definition NewChaCha20Poly1305ESPCrypter (encKey : bytes) : result crypto_error ESPCrypter :=
  let kl := ChaCha20Poly1305KeySize in
  if (length encKey <? kl + 4)%nat then Err ErrKeyLength
  else Ok (EspAEAD ChaCha20Poly1305 (take kl encKey) (slice encKey kl (kl + 4)) 0).

(** A nil [integ] is [None]. *)
Definition NewAESCBCESPCrypter (keyBits : nat) (encKey : bytes) (integ : option Integrity) (integKey : bytes)
    : result crypto_error ESPCrypter :=
  let* kl := aesKeyLen keyBits in
  if (length encKey <? kl)%nat then Err ErrKeyLength
  else match integ with
       | None => Err ErrKeyLength
       | Some i => Ok (EspCBC (take kl encKey) integKey i)
       end.

Definition Overhead (c : ESPCrypter) : nat :=
  match c with EspAEAD _ _ _ _ => 24%nat | EspCBC _ _ i => (blockSize + IntegICVLen i)%nat end.

Definition EspBlockLen (c : ESPCrypter) : nat := match c with EspAEAD _ _ _ _ => 1%nat | EspCBC _ _ _ => blockSize end.

(** What [Seal] appends to its destination; [rnd] is the IV CBC draws. *)
Definition espAEAD_Seal (alg : aead_alg) (key salt : bytes) (iv : Z) (aad plaintext : bytes)
    : result crypto_error bytes * ESPCrypter :=
  if iv =? 2 ^ 64 - 1 then (Err ErrAEADExhausted, EspAEAD alg key salt iv)
  else
    let iv := iv + 1 in
    let wire := be_enc 8 iv in
    (Ok (wire ++ aeadSeal alg key (salt ++ wire) aad plaintext), EspAEAD alg key salt iv).

Definition espCBC_Seal (key integKey : bytes) (integ : Integrity) (rnd aad plaintext : bytes)
    : result crypto_error bytes * ESPCrypter :=
  if negb (aligned plaintext) then (Err ErrNotAligned, EspCBC key integKey integ)
  else
    let ct := cbcEncrypt key rnd plaintext in
    let icv := take (IntegICVLen integ) (hmac (IntegHash integ) integKey (aad ++ rnd ++ ct)) in
    (Ok (rnd ++ ct ++ icv), EspCBC key integKey integ).

Definition EspSeal (c : ESPCrypter) (rnd aad plaintext : bytes) : result crypto_error bytes * ESPCrypter :=
  match c with
  | EspAEAD alg key salt iv => espAEAD_Seal alg key salt iv aad plaintext
  | EspCBC key integKey integ => espCBC_Seal key integKey integ rnd aad plaintext
  end.

Definition verify (key integKey : bytes) (integ : Integrity) (aad ivCtIcv : bytes) : result crypto_error (bytes * bytes) :=
  if (length ivCtIcv <? blockSize + IntegICVLen integ)%nat then Err ErrCBCShort
  else
    let icv := drop (length ivCtIcv - IntegICVLen integ) ivCtIcv in
    let rest := take (length ivCtIcv - IntegICVLen integ) ivCtIcv in
    let want := take (IntegICVLen integ) (hmac (IntegHash integ) integKey (aad ++ rest)) in
    if negb (bool_decide (want = icv)) then Err ErrCBCIntegrity
    else
      let iv := take blockSize rest in
      let ct := drop blockSize rest in
      if negb (aligned ct) then Err ErrCBCAlign else Ok (iv, ct).

(** [Open] and [OpenInPlace] return the same plaintext. *)
Definition espAEAD_OpenInPlace (alg : aead_alg) (key salt aad ivCtIcv : bytes) : result crypto_error bytes :=
  if (length ivCtIcv <? 24)%nat then Err ErrAEADShort
  else
    match aeadOpen alg key (salt ++ take 8 ivCtIcv) aad (drop 8 ivCtIcv) with
    | Some pt => Ok pt
    | None => Err ErrAEADOpen
    end.

Definition espCBC_OpenInPlace (key integKey : bytes) (integ : Integrity) (aad ivCtIcv : bytes) : result crypto_error bytes :=
  let* (iv, ct) := verify key integKey integ aad ivCtIcv in
  Ok (cbcDecrypt key iv ct).

Definition OpenInPlace (c : ESPCrypter) (aad ivCtIcv : bytes) : result crypto_error bytes :=
  match c with
  | EspAEAD alg key salt _ => espAEAD_OpenInPlace alg key salt aad ivCtIcv
  | EspCBC key integKey integ => espCBC_OpenInPlace key integKey integ aad ivCtIcv
  end.

(** ** The framing undoes itself *)

Context {PO : PrimsOk P}.

Lemma Open_Seal c iv encKey aad pt sealed :
  length iv = IVLen c -> Seal c iv encKey aad pt = Ok sealed -> Open c encKey aad sealed = Ok pt.
Proof.
  intros Hiv. unfold Seal, Open, aead_Seal, aead_Open. destruct c as [alg kl|kl]; [|done].
  destruct (key_ok alg (take kl encKey)) eqn:Ek; cbn [negb]; [|done]. intros [= <-].
  cbn [IVLen ICVLen] in *. rewrite length_app, length_aeadSeal, (proj2 (Nat.ltb_ge _ _)) by (unfold tagLen; lia).
  rewrite <- Hiv, take_app_length, drop_app_length, aead_open_seal. done.
Qed.

Lemma Seal_length c iv encKey aad pt sealed :
  length iv = IVLen c -> Seal c iv encKey aad pt = Ok sealed ->
  length sealed = (IVLen c + length pt + ICVLen c)%nat.
Proof.
  intros Hiv. unfold Seal, aead_Seal. destruct c as [alg kl|kl]; [|done]. destruct (negb _); [done|]. intros [= <-].
  rewrite length_app, length_aeadSeal, Hiv. cbn. unfold tagLen. lia.
Qed.

Lemma length_Sum i key data : (IntegICVLen i <= hashSize (IntegHash i))%nat -> length (Sum i key data) = IntegICVLen i.
Proof. intros. unfold Sum. rewrite length_take, length_hmac. lia. Qed.

Lemma aligned_divide b : aligned b = true <-> Nat.divide blockSize (length b).
Proof. unfold aligned. rewrite Nat.eqb_eq. by rewrite Nat.Lcm0.mod_divide. Qed.

(** Splitting iv || ct || icv at its ends. *)
Lemma etm_split (iv ct icv : bytes) n :
  length icv = n ->
  drop (length (iv ++ ct ++ icv) - n) (iv ++ ct ++ icv) = icv /\
  take (length (iv ++ ct ++ icv) - n) (iv ++ ct ++ icv) = iv ++ ct.
Proof.
  intros Hn. replace (length (iv ++ ct ++ icv) - n)%nat with (length (iv ++ ct)) by (rewrite !length_app; lia).
  rewrite app_assoc. by rewrite drop_app_length, take_app_length.
Qed.

Lemma OpenETM_SealETM iv encKey integKey aad pt integ sealed :
  length iv = blockSize -> (IntegICVLen integ <= hashSize (IntegHash integ))%nat ->
  SealETM iv encKey integKey aad pt integ = Ok sealed ->
  OpenETM encKey integKey aad sealed integ = Ok pt /\
  length sealed = (blockSize + length pt + IntegICVLen integ)%nat.
Proof.
  intros Hiv Hicv. unfold SealETM, OpenETM.
  destruct (key_ok AesGCM encKey) eqn:Ek; cbn [negb]; [|done].
  destruct (aligned pt) eqn:Ea; cbn [negb]; [|done]. intros [= <-].
  set (ct := cbcEncrypt encKey iv pt). set (icv := Sum integ integKey (aad ++ iv ++ ct)).
  assert (length ct = length pt) as Hct by apply length_cbcEncrypt.
  assert (length icv = IntegICVLen integ) as Hl by (by apply length_Sum).
  destruct (etm_split iv ct icv _ Hl) as [-> ->].
  rewrite !length_app, Hct, Hl, (proj2 (Nat.ltb_ge _ _)) by lia. split; [|lia].
  fold icv. rewrite bool_decide_eq_true_2 by done. cbn [negb].
  rewrite <- Hiv, take_app_length, drop_app_length.
  assert (aligned ct = true) as -> by (unfold aligned in *; by rewrite Hct). cbn [negb].
  subst ct. by rewrite cbc_dec_enc by (by apply aligned_divide).
Qed.

(** ** prf+ *)

(** The stream of prf+ blocks. *)
Fixpoint prf_blocks (k : nat) (p : PRF) (key seed prev : bytes) (counter : Z) : bytes :=
  match k with
  | O => []
  | S k => let t := hmac (PRFHash p) key (prev ++ seed ++ [counter]) in t ++ prf_blocks k p key seed t (wrap 8 (counter + 1))
  end.

Lemma hashSize_pos h : (0 < hashSize h)%nat.
Proof. destruct h; cbn; lia. Qed.

Lemma plus_loop_spec fuel p key seed prev out counter n :
  (n - length out < fuel)%nat ->
  exists k, plus_loop fuel p key seed prev out counter n = Some (take n (out ++ prf_blocks k p key seed prev counter)) /\
    (n <= length (out ++ prf_blocks k p key seed prev counter))%nat.
Proof.
  revert prev out counter. induction fuel as [|fuel IH]; intros prev out counter Hf.
  { lia. }
  cbn [plus_loop]. destruct (Nat.ltb_spec (length out) n) as [Hlt|Hge].
  - set (t := hmac (PRFHash p) key _). pose proof (hashSize_pos (PRFHash p)). destruct (IH t (out ++ t) (wrap 8 (counter + 1))) as (k & E & Hk).
    { rewrite length_app. subst t. rewrite length_hmac. lia. }
    exists (S k). cbn [prf_blocks]. fold t. rewrite E. rewrite <- !app_assoc in *. done.
  - exists 0%nat. cbn [prf_blocks]. rewrite app_nil_r. done.
Qed.

Lemma prf_blocks_prefix k j p key seed prev counter :
  exists rest, prf_blocks (k + j) p key seed prev counter = prf_blocks k p key seed prev counter ++ rest.
Proof.
  revert prev counter. induction k as [|k IH]; intros prev counter; [by eexists|]. cbn [prf_blocks Nat.add].
  destruct (IH (hmac (PRFHash p) key (prev ++ seed ++ [counter])) (wrap 8 (counter + 1))) as [rest ->].
  exists rest. by rewrite app_assoc.
Qed.

Lemma Plus_length p key seed n : exists out, Plus p key seed n = Some out /\ length out = n.
Proof.
  destruct (plus_loop_spec (S n) p key seed [] [] 1 n ltac:(simpl; lia)) as (k & E & L).
  eexists. split; [exact E|]. rewrite length_take. cbn [app] in *. lia.
Qed.

(** Prf+ always returns, yields exactly the number of octets asked for, and
    yields one stream: a shorter request is a prefix of a longer one. *)
Theorem prf_plus_stream (p : PRF) (key seed : bytes) (m n : nat) :
  (m <= n)%nat ->
  exists a b, Plus p key seed m = Some a /\ Plus p key seed n = Some b /\
    length a = m /\ length b = n /\ a = take m b.
Proof.
  intros Hmn. unfold Plus.
  destruct (plus_loop_spec (S m) p key seed [] [] 1 m ltac:(simpl; lia)) as (k & Ek & Lk).
  destruct (plus_loop_spec (S n) p key seed [] [] 1 n ltac:(simpl; lia)) as (j & Ej & Lj).
  cbn [app] in *. do 2 eexists. split_and!; [exact Ek|exact Ej|rewrite length_take; lia|rewrite length_take; lia|].
  rewrite take_take, Nat.min_l by done.
  destruct (prf_blocks_prefix k j p key seed [] 1) as [r1 E1]. destruct (prf_blocks_prefix j k p key seed [] 1) as [r2 E2].
  rewrite Nat.add_comm in E2. rewrite <- (take_app_le (prf_blocks k p key seed [] 1) r1 m) by lia.
  rewrite <- (take_app_le (prf_blocks j p key seed [] 1) r2 m) by lia. congruence.
Qed.

(** ** ESP crypters *)

(** The receiver's crypter holds the same keys; its own IV state does not matter. *)
Definition same_keys (c d : ESPCrypter) : Prop :=
  match c, d with
  | EspAEAD alg key salt _, EspAEAD alg' key' salt' _ => alg = alg' /\ key = key' /\ salt = salt'
  | EspCBC key ik i, EspCBC key' ik' i' => key = key' /\ ik = ik' /\ i = i'
  | _, _ => False
  end.

Definition crypter_ok (c : ESPCrypter) : Prop :=
  match c with EspAEAD _ _ _ iv => uint64 iv | EspCBC _ _ i => (IntegICVLen i <= hashSize (IntegHash i))%nat end.

Lemma EspSeal_spec c d rnd aad pt sealed c' :
  same_keys c d -> crypter_ok c -> length rnd = blockSize -> EspSeal c rnd aad pt = (Ok sealed, c') ->
  OpenInPlace d aad sealed = Ok pt /\ length sealed = (length pt + Overhead c)%nat /\ same_keys c' d /\ crypter_ok c'.
Proof.
  intros Hk Hc Hr. destruct c as [alg key salt iv|key ik i], d as [alg' key' salt' iv'|key' ik' i']; try done.
  - destruct Hk as (<- & <- & <-). unfold EspSeal, espAEAD_Seal, espCBC_Seal. destruct (Z.eqb_spec iv (2 ^ 64 - 1)) as [|Hiv]; [done|].
    set (w := be_enc 8 (iv + 1)). intros E.
    assert (sealed = w ++ aeadSeal alg key (salt ++ w) aad pt) as -> by congruence.
    assert (c' = EspAEAD alg key salt (iv + 1)) as -> by congruence. clear E. assert (length w = 8%nat) as Hw by apply length_be_enc.
    unfold OpenInPlace, espAEAD_OpenInPlace, espCBC_OpenInPlace. rewrite length_app, length_aeadSeal, Hw, (proj2 (Nat.ltb_ge _ _)) by (unfold tagLen; lia).
    rewrite <- Hw, take_app_length, drop_app_length, aead_open_seal. cbn in Hc. unfold uint in *.
    split_and!; [done|cbn [Overhead]; unfold tagLen; lia|done|cbn; unfold uint; lia].
  - destruct Hk as (<- & <- & <-). unfold EspSeal, espAEAD_Seal, espCBC_Seal. destruct (aligned pt) eqn:Ea; cbn [negb]; [|done]. intros [= <- <-].
    set (ct := cbcEncrypt key rnd pt). set (icv := take _ _).
    assert (length ct = length pt) as Hct by apply length_cbcEncrypt.
    assert (length icv = IntegICVLen i) as Hl by (subst icv; rewrite length_take, length_hmac; cbn in Hc; lia).
    unfold OpenInPlace, espAEAD_OpenInPlace, espCBC_OpenInPlace. unfold verify. destruct (etm_split rnd ct icv _ Hl) as [-> ->].
    rewrite !length_app, Hct, Hl, (proj2 (Nat.ltb_ge _ _)) by lia. fold icv.
    rewrite bool_decide_eq_true_2 by done. cbn [negb]. rewrite <- Hr, take_app_length, drop_app_length.
    assert (aligned ct = true) as -> by (unfold aligned in *; by rewrite Hct). cbn [negb rbind].
    subst ct. rewrite cbc_dec_enc by (by apply aligned_divide). split_and!; try done. cbn [Overhead]. lia.
Qed.

(** The outputs of sealing a list of packets in turn. *)
Fixpoint seal_all (c : ESPCrypter) (l : list (bytes * bytes * bytes)) : list bytes :=
  match l with
  | [] => []
  | (rnd, aad, pt) :: l =>
      let '(r, c) := EspSeal c rnd aad pt in
      match r with Ok s => s :: seal_all c l | Err _ => seal_all c l end
  end.

Lemma seal_all_ivs alg key salt iv l :
  uint64 iv ->
  forall w, w ∈ (take 8 <$> seal_all (EspAEAD alg key salt iv) l) -> exists x, w = be_enc 8 x /\ iv < x < 2 ^ 64.
Proof.
  revert iv. induction l as [|[[rnd aad] pt] l IH]; intros iv Hiv w Hw; [by apply elem_of_nil in Hw|].
  cbn [seal_all] in Hw. unfold EspSeal, espAEAD_Seal in Hw. destruct (Z.eqb_spec iv (2 ^ 64 - 1)); [by apply IH in Hw|].
  assert (uint64 (iv + 1)) as Hiv' by (unfold uint in *; lia).
  cbn [fmap list_fmap] in Hw. apply elem_of_cons in Hw as [->|Hw].
  - exists (iv + 1). unfold uint in *. split; [|lia].
    rewrite take_app_le, take_ge by (rewrite length_be_enc; lia). done.
  - apply (IH (iv + 1) Hiv') in Hw as (x & -> & Hx). exists x. split; [done|lia].
Qed.

(** An ESP AEAD crypter never uses an IV twice under its key: whatever
    packets it is asked to seal, the explicit IVs of the packets it produces are
    pairwise different; past the last IV it refuses instead of wrapping. *)
Theorem esp_iv_never_repeats (alg : aead_alg) (key salt : bytes) (l : list (bytes * bytes * bytes)) :
  NoDup (take 8 <$> seal_all (EspAEAD alg key salt 0) l) /\
  forall rnd aad pt, (EspSeal (EspAEAD alg key salt (2 ^ 64 - 1)) rnd aad pt).1 = Err ErrAEADExhausted.
Proof.
  split; [|done]. assert (forall iv, uint64 iv -> NoDup (take 8 <$> seal_all (EspAEAD alg key salt iv) l)) as H.
  { induction l as [|[[rnd aad] pt] l IH]; intros iv Hiv; [constructor|].
    cbn [seal_all]. unfold EspSeal, espAEAD_Seal. destruct (Z.eqb_spec iv (2 ^ 64 - 1)); [by apply IH|].
    assert (uint64 (iv + 1)) as Hiv' by (unfold uint in *; lia).
    cbn [fmap list_fmap]. constructor; [|by apply IH].
    rewrite take_app_le, take_ge by (rewrite length_be_enc; lia). intros Hin.
    apply (seal_all_ivs alg key salt (iv + 1) l Hiv') in Hin as (x & E & Hx).
    apply (f_equal be_dec) in E. rewrite !be_dec_enc_small in E by (unfold uint in *; simpl; lia). lia. }
  apply H. unfold uint. lia.
Qed.
End Framing.

(** ** An instance of the primitives *)

(** Sealing appends a tag of zeros; CBC and HMAC are the identity and a constant. *)
Definition toy_prims : Prims := {|
  aeadSeal := fun _ _ _ _ pt => pt ++ replicate 16 0;
  aeadOpen := fun _ _ _ _ ct => Some (take (length ct - 16) ct);
  cbcEncrypt := fun _ _ pt => pt;
  cbcDecrypt := fun _ _ ct => ct;
  hmac := fun h _ _ => replicate (hashSize h) 7;
|}.

Lemma toy_prims_ok : PrimsOk toy_prims.
Proof.
  split; cbn -[replicate app length]; intros.
  - rewrite length_app, length_replicate, Nat.add_sub, take_app_length. done.
  - by rewrite length_app, length_replicate.
  - done.
  - done.
  - by rewrite length_replicate.
Qed.

Definition toy_digests : Digests := {| digest h _ := replicate (hashSize h) 5 |}.

Lemma toy_digests_ok : DigestsOk toy_digests.
Proof. split. intros h d. apply length_replicate. Qed.

Lemma prf_plus_stream_witness :
  exists a b, Plus (P := toy_prims) (NewHMACPRF SHA256) [1] [2] 40 = Some a /\ Plus (P := toy_prims) (NewHMACPRF SHA256) [1] [2] 70 = Some b /\
    length a = 40%nat /\ length b = 70%nat /\ a = take 40 b.
Proof. apply (prf_plus_stream (PO := toy_prims_ok) (NewHMACPRF SHA256) [1] [2] 40 70); cbn; lia. Defined.
