(* ===== verification/IkeSuite.v ===== *)
(** * Negotiated suites and key derivation

    [internal/ikev2/transform/transform.go] (which algorithm a transform ID
    names), [internal/ikev2/ike/suite.go] (which proposal is accepted),
    [internal/ikev2/ike/keymat.go] (the keys) and the shared-key AUTH value of
    [internal/ikev2/ike/auth.go].  Diffie-Hellman is not modelled: its group is
    negotiated here by its ID, and its output is an argument.

    The theorems: the accepted proposal is a choice out of one proposal of the
    peer, and the peer that receives it back resolves the same suite; the seven
    keys are consecutive pieces of one prf+ stream with the lengths the suite
    needs, so that a negotiated suite never fails for its keys; and a shared-key
    AUTH value verifies exactly under the octets it was computed over. *)
From Stdlib Require Import ZArith Lia.
From stdpp Require Import base list gmap.
From S2P Require Import Prelude IkeMessage IkeSA IkeBodies Crypto.

(** ** The registries of [const.go] *)

Abbreviation ProtoNone := 0 (only parsing).
Abbreviation ProtoIKE := 1 (only parsing).
Abbreviation ProtoESP := 3 (only parsing).

Abbreviation TransformENCR := 1 (only parsing).
Abbreviation TransformPRF := 2 (only parsing).
Abbreviation TransformINTEG := 3 (only parsing).
Abbreviation TransformDH := 4 (only parsing).
Abbreviation TransformESN := 5 (only parsing).
Abbreviation TransformADDKE1 := 6 (only parsing).

Abbreviation ENCR_AES_CBC := 12 (only parsing).
Abbreviation ENCR_AES_GCM_16 := 20 (only parsing).
Abbreviation ENCR_CHACHA20_P := 28 (only parsing).

Abbreviation PRF_HMAC_SHA1 := 2 (only parsing).
Abbreviation PRF_HMAC_SHA2_256 := 5 (only parsing).
Abbreviation PRF_HMAC_SHA2_384 := 6 (only parsing).
Abbreviation PRF_HMAC_SHA2_512 := 7 (only parsing).

Abbreviation AUTH_HMAC_SHA1_96 := 2 (only parsing).
Abbreviation AUTH_HMAC_SHA2_256_128 := 12 (only parsing).
Abbreviation AUTH_HMAC_SHA2_384_192 := 13 (only parsing).
Abbreviation AUTH_HMAC_SHA2_512_256 := 14 (only parsing).

Abbreviation DH_MODP_2048 := 14 (only parsing).
Abbreviation DH_ECP_256 := 19 (only parsing).
Abbreviation DH_ECP_384 := 20 (only parsing).
Abbreviation DH_ECP_521 := 21 (only parsing).
Abbreviation DH_CURVE25519 := 31 (only parsing).
Abbreviation MLKEM768 := 36 (only parsing).

Abbreviation ESN_NONE := 0 (only parsing).

(** ** [transform.go] *)

Inductive transform_error :=
| ErrUnsupportedENCR (id : Z) | ErrUnsupportedESPENCR (id : Z) | ErrUnsupportedPRF (id : Z) | ErrUnsupportedInteg (id : Z)
| ErrCrypto (e : crypto_error).

Definition lift_crypto {A} (r : result crypto_error A) : result transform_error A :=
  match r with Ok a => Ok a | Err e => Err (ErrCrypto e) end.

Definition transformCipher (encrID keyBits : Z) : result transform_error SKCipher :=
  if encrID =? ENCR_AES_GCM_16 then lift_crypto (NewAESGCMSKCipher (Z.to_nat keyBits))
  else if encrID =? ENCR_CHACHA20_P then Ok NewChaCha20Poly1305SKCipher
  else if encrID =? ENCR_AES_CBC then lift_crypto (NewAESCBCSKCipher (Z.to_nat keyBits))
  else Err (ErrUnsupportedENCR encrID).

Definition transformPRF (id : Z) : result transform_error PRF :=
  if id =? PRF_HMAC_SHA1 then Ok (NewHMACPRF SHA1)
  else if id =? PRF_HMAC_SHA2_256 then Ok (NewHMACPRF SHA256)
  else if id =? PRF_HMAC_SHA2_384 then Ok (NewHMACPRF SHA384)
  else if id =? PRF_HMAC_SHA2_512 then Ok (NewHMACPRF SHA512)
  else Err (ErrUnsupportedPRF id).

Definition transformIntegrity (id : Z) : result transform_error Integrity :=
  if id =? AUTH_HMAC_SHA1_96 then Ok (NewHMACIntegrity SHA1 20 12)
  else if id =? AUTH_HMAC_SHA2_256_128 then Ok (NewHMACIntegrity SHA256 32 16)
  else if id =? AUTH_HMAC_SHA2_384_192 then Ok (NewHMACIntegrity SHA384 48 24)
  else if id =? AUTH_HMAC_SHA2_512_256 then Ok (NewHMACIntegrity SHA512 64 32)
  else Err (ErrUnsupportedInteg id).

Definition transformESPCrypter (encrID keyBits : Z) (encKey : bytes) (integID : Z) (integKey : bytes)
    : result transform_error ESPCrypter :=
  if encrID =? ENCR_AES_GCM_16 then lift_crypto (NewAESGCMESPCrypter (Z.to_nat keyBits) encKey)
  else if encrID =? ENCR_CHACHA20_P then lift_crypto (NewChaCha20Poly1305ESPCrypter encKey)
  else if encrID =? ENCR_AES_CBC then
    let* integ := transformIntegrity integID in
    lift_crypto (NewAESCBCESPCrypter (Z.to_nat keyBits) encKey (Some integ) integKey)
  else Err (ErrUnsupportedESPENCR encrID).

(** ** [suite.go] *)

Record Suite := mkSuite {
  EncrID : Z; EncrKeyLn : Z; PRFID : Z; IntegID : Z; DHID : Z;
  Cipher : SKCipher; SuitePRF : PRF; Integ : option Integrity }.

Definition tr (ty id : Z) : Transform := mkTransform ty id 0.
Definition tr_len (ty id len : Z) : Transform := mkTransform ty id len.

Definition DefaultIKEProposals : list Proposal := [
  mkProposal 1 ProtoIKE [] [
    tr_len TransformENCR ENCR_AES_GCM_16 256; tr_len TransformENCR ENCR_AES_GCM_16 128; tr TransformENCR ENCR_CHACHA20_P;
    tr TransformPRF PRF_HMAC_SHA2_256; tr TransformPRF PRF_HMAC_SHA2_384; tr TransformPRF PRF_HMAC_SHA2_512;
    tr TransformDH DH_CURVE25519; tr TransformDH DH_ECP_256; tr TransformDH DH_ECP_384; tr TransformDH DH_MODP_2048];
  mkProposal 2 ProtoIKE [] [
    tr_len TransformENCR ENCR_AES_CBC 256;
    tr TransformPRF PRF_HMAC_SHA2_256; tr TransformPRF PRF_HMAC_SHA2_384; tr TransformPRF PRF_HMAC_SHA2_512;
    tr TransformINTEG AUTH_HMAC_SHA2_256_128;
    tr TransformDH DH_CURVE25519; tr TransformDH DH_ECP_256; tr TransformDH DH_ECP_384; tr TransformDH DH_MODP_2048]].

Definition DefaultESPProposals (spi : bytes) : list Proposal := [
  mkProposal 1 ProtoESP spi [
    tr_len TransformENCR ENCR_AES_GCM_16 256; tr_len TransformENCR ENCR_AES_GCM_16 128; tr TransformENCR ENCR_CHACHA20_P;
    tr TransformESN ESN_NONE];
  mkProposal 2 ProtoESP spi [
    tr_len TransformENCR ENCR_AES_CBC 256; tr TransformINTEG AUTH_HMAC_SHA2_256_128; tr TransformESN ESN_NONE]].

Definition isAEAD (encrID : Z) : bool := (encrID =? ENCR_AES_GCM_16) || (encrID =? ENCR_CHACHA20_P).

Definition supportedENCR (id : Z) : bool := (id =? ENCR_AES_GCM_16) || (id =? ENCR_CHACHA20_P) || (id =? ENCR_AES_CBC).
Definition supportedPRF (id : Z) : bool :=
  (id =? PRF_HMAC_SHA1) || (id =? PRF_HMAC_SHA2_256) || (id =? PRF_HMAC_SHA2_384) || (id =? PRF_HMAC_SHA2_512).
Definition supportedInteg (id : Z) : bool :=
  (id =? AUTH_HMAC_SHA1_96) || (id =? AUTH_HMAC_SHA2_256_128) ||
  (id =? AUTH_HMAC_SHA2_384_192) || (id =? AUTH_HMAC_SHA2_512_256).
Definition supportedDH (id : Z) : bool :=
  (id =? DH_CURVE25519) || (id =? DH_ECP_256) || (id =? DH_ECP_384) || (id =? DH_ECP_521) || (id =? DH_MODP_2048).
Definition supportedADDKE (id : Z) : bool := id =? MLKEM768.

Fixpoint choose (trs : list Transform) (tt : Z) (ok : Z -> bool) : option Transform :=
  match trs with
  | [] => None
  | t :: trs => if (TType t =? tt) && ok (TID t) then Some t else choose trs tt ok
  end.

Definition chosenTransform (p : Proposal) (tt : Z) (ok : Z -> bool) : option Transform := choose (Transforms p) tt ok.

Definition SelectADDKE (p : Proposal) : option Z :=
  match chosenTransform p TransformADDKE1 supportedADDKE with Some t => Some (TID t) | None => None end.

Definition buildSuite (encr prf integ dh : Transform) : result transform_error Suite :=
  let* c := transformCipher (TID encr) (IkeSA.KeyLen encr) in
  let* pf := transformPRF (TID prf) in
  if isAEAD (TID encr) then Ok (mkSuite (TID encr) (IkeSA.KeyLen encr) (TID prf) 0 (TID dh) c pf None)
  else
    let* ig := transformIntegrity (TID integ) in
    Ok (mkSuite (TID encr) (IkeSA.KeyLen encr) (TID prf) (TID integ) (TID dh) c pf (Some ig)).

Definition zero_transform : Transform := mkTransform 0 0 0.

(** The integrity transform of a proposal: none for an AEAD cipher. *)
Definition chosenInteg (p : Proposal) (encr : Transform) : option Transform :=
  if isAEAD (TID encr) then Some zero_transform else chosenTransform p TransformINTEG supportedInteg.

(** One turn of the loop of [SelectIKESuite]; [None] is its [continue]. *)
Definition tryIKE (p : Proposal) : option (Suite * Proposal) :=
  if negb (Protocol p =? ProtoIKE) then None else
  encr ← chosenTransform p TransformENCR supportedENCR;
  prf ← chosenTransform p TransformPRF supportedPRF;
  dh ← chosenTransform p TransformDH supportedDH;
  integ ← chosenInteg p encr;
  match buildSuite encr prf integ dh with
  | Err _ => None
  | Ok suite =>
      Some (suite, mkProposal (Num p) ProtoIKE []
        ([tr_len TransformENCR (TID encr) (IkeSA.KeyLen encr); tr TransformPRF (TID prf)] ++
         (if isAEAD (TID encr) then [] else [tr TransformINTEG (TID integ)]) ++
         [tr TransformDH (TID dh)]))
  end.

Fixpoint first_some {A} (f : Proposal -> option A) (ps : list Proposal) : option A :=
  match ps with
  | [] => None
  | p :: ps => match f p with Some a => Some a | None => first_some f ps end
  end.

Inductive select_error := ErrNoIKEProposal | ErrNoESPProposal.

Definition SelectIKESuite (sa : SAPayload) : result select_error (Suite * Proposal) :=
  match first_some tryIKE (Proposals sa) with Some r => Ok r | None => Err ErrNoIKEProposal end.

Definition encKeyLen (s : Suite) : nat := Crypto.KeyLen (Cipher s).
Definition integKeyLen (s : Suite) : nat := match Integ s with None => 0%nat | Some i => IntegKeyLen i end.

Record ESPSuite := mkESPSuite {
  EEncrID : Z; EEncrKeyLn : Z; EIntegID : Z; ECipher : SKCipher; EInteg : option Integrity }.

Definition tryESP (p : Proposal) : option (ESPSuite * Proposal) :=
  if negb (Protocol p =? ProtoESP) then None else
  encr ← chosenTransform p TransformENCR supportedENCR;
  integ ← chosenInteg p encr;
  match transformCipher (TID encr) (IkeSA.KeyLen encr) with
  | Err _ => None
  | Ok c =>
      let enc := tr_len TransformENCR (TID encr) (IkeSA.KeyLen encr) in
      let esn := tr TransformESN ESN_NONE in
      if isAEAD (TID encr) then
        Some (mkESPSuite (TID encr) (IkeSA.KeyLen encr) 0 c None, mkProposal (Num p) ProtoESP (SPI p) [enc; esn])
      else
        match transformIntegrity (TID integ) with
        | Err _ => None
        | Ok ig =>
            Some (mkESPSuite (TID encr) (IkeSA.KeyLen encr) (TID integ) c (Some ig),
                  mkProposal (Num p) ProtoESP (SPI p) [enc; tr TransformINTEG (TID integ); esn])
        end
  end.

Definition SelectESPSuite (sa : SAPayload) : result select_error (ESPSuite * Proposal) :=
  match first_some tryESP (Proposals sa) with Some r => Ok r | None => Err ErrNoESPProposal end.

(** ** [keymat.go] *)

Record SAKeys := mkSAKeys {
  SKd : bytes; SKai : bytes; SKar : bytes; SKei : bytes; SKer : bytes; SKpi : bytes; SKpr : bytes }.

Section Keys.
Context {P : Prims}.

(** The closure [take]: the next [n] octets of the stream and the rest of it. *)
Definition take_km (km : bytes) (n : nat) : bytes * bytes := (take n km, drop n km).

Definition expandIKEKeys (prf : PRF) (skeyseed ni nr : bytes) (spiI spiR : Z) (encLen integLen : nat) : option SAKeys :=
  let seed := ni ++ nr ++ be_enc 8 spiI ++ be_enc 8 spiR in
  let total := (PRFSize prf + 2 * integLen + 2 * encLen + 2 * PRFSize prf)%nat in
  match Plus prf skeyseed seed total with
  | None => None
  | Some km =>
      let '(d, km) := take_km km (PRFSize prf) in
      let '(ai, km) := take_km km integLen in
      let '(ar, km) := take_km km integLen in
      let '(ei, km) := take_km km encLen in
      let '(er, km) := take_km km encLen in
      let '(pi, km) := take_km km (PRFSize prf) in
      let '(pr, _) := take_km km (PRFSize prf) in
      Some (mkSAKeys d ai ar ei er pi pr)
  end.

Definition DeriveIKEKeys (prf : PRF) (sharedSecret ni nr : bytes) (spiI spiR : Z) (encLen integLen : nat)
    : option (bytes * SAKeys) :=
  let skeyseed := Apply prf (ni ++ nr) sharedSecret in
  match expandIKEKeys prf skeyseed ni nr spiI spiR encLen integLen with
  | Some keys => Some (skeyseed, keys)
  | None => None
  end.

Definition DeriveRekeyedIKEKeys (prf : PRF) (oldSKd dhSecret ni nr : bytes) (spiI spiR : Z) (encLen integLen : nat)
    : option SAKeys :=
  let skeyseed := Apply prf oldSKd (dhSecret ++ ni ++ nr) in
  expandIKEKeys prf skeyseed ni nr spiI spiR encLen integLen.

Definition DeriveIntermediateSKEYSEED (prf : PRF) (prevSKd newSharedSecret ni nr : bytes) : bytes :=
  Apply prf prevSKd (newSharedSecret ++ ni ++ nr).

Definition DeriveChildKeys (prf : PRF) (skd dhSecret ni nr : bytes) (total : nat) : option bytes :=
  Plus prf skd (dhSecret ++ ni ++ nr) total.

Definition AuthOctets (prf : PRF) (realMessage peerNonce skp idPayload intAuth : bytes) : bytes :=
  let idPrime := Apply prf skp idPayload in
  realMessage ++ peerNonce ++ idPrime ++ intAuth.

(** "Key Pad for IKEv2". *)
Definition keyPad : bytes := [75; 101; 121; 32; 80; 97; 100; 32; 102; 111; 114; 32; 73; 75; 69; 118; 50].

Definition PSKAuth (prf : PRF) (psk signedOctets : bytes) : bytes := Apply prf (Apply prf psk keyPad) signedOctets.

(** ** [auth.go] *)

Definition computePSKAuth (prf : PRF) (psk realMessage peerNonce skp idBody intAuth : bytes) : bytes :=
  PSKAuth prf psk (AuthOctets prf realMessage peerNonce skp idBody intAuth).

Inductive auth_error := ErrNoPSK | ErrPSKFailed.

Definition verifyPeerPSKAuth (prf : PRF) (psk peerRealMessage ourNonce peerSKp peerIDBody intAuth gotAuth : bytes)
    : result auth_error () :=
  if (length psk =? 0)%nat then Err ErrNoPSK
  else
    let octets := AuthOctets prf peerRealMessage ourNonce peerSKp peerIDBody intAuth in
    let want := PSKAuth prf psk octets in
    if negb (bool_decide (want = gotAuth)) then Err ErrPSKFailed else Ok ().
End Keys.

(** ** What is negotiated *)

Lemma choose_spec trs tt ok t :
  choose trs tt ok = Some t -> t ∈ trs /\ TType t = tt /\ ok (TID t) = true.
Proof.
  induction trs as [|x trs IH]; cbn [choose]; [done|].
  destruct (Z.eqb_spec (TType x) tt), (ok (TID x)) eqn:E; cbn [andb]; try (intros H; apply IH in H; set_solver).
  intros [= <-]. set_solver.
Qed.

Lemma first_some_spec {A} (f : Proposal -> option A) ps a :
  first_some f ps = Some a -> exists l p r, ps = l ++ p :: r /\ f p = Some a /\ Forall (fun q => f q = None) l.
Proof.
  induction ps as [|p ps IH]; cbn [first_some]; [done|]. destruct (f p) as [b|] eqn:E.
  - intros [= <-]. by exists [], p, ps.
  - intros (l & q & r & -> & Hq & Hl)%IH. exists (p :: l), q, r. split_and!; [done|done|by constructor].
Qed.

Lemma first_some_None {A} (f : Proposal -> option A) ps : first_some f ps = None <-> Forall (fun q => f q = None) ps.
Proof.
  induction ps as [|p ps IH]; cbn [first_some]; [by split|]. rewrite Forall_cons. destruct (f p); naive_solver.
Qed.

(** What a resolved suite looks like. *)
Definition aes_len (kl : nat) : Prop := kl = 16%nat \/ kl = 24%nat \/ kl = 32%nat.

Definition wf_cipher (c : SKCipher) (i : option Integrity) : Prop :=
  match c, i with
  | AeadCipher AesGCM kl, None => aes_len kl
  | AeadCipher ChaCha20Poly1305 kl, None => kl = 32%nat
  | CbcCipher kl, Some i => aes_len kl /\ (IntegICVLen i <= 32)%nat /\ (IntegICVLen i <= hashSize (IntegHash i))%nat
  | _, _ => False
  end.

Definition wf_suite (s : Suite) : Prop := wf_cipher (Cipher s) (Integ s).

Lemma aesKeyLen_ok n kl : aesKeyLen n = Ok kl -> aes_len kl.
Proof.
  unfold aesKeyLen, aes_len. cbv zeta. set (k := if (n / 8 =? 0)%nat then 32%nat else (n / 8)%nat).
  destruct (Nat.eqb_spec k 16), (Nat.eqb_spec k 24), (Nat.eqb_spec k 32); cbn [orb]; intros [= <-]; tauto.
Qed.

Lemma transformIntegrity_ok id i :
  transformIntegrity id = Ok i -> (IntegICVLen i <= 32)%nat /\ (IntegICVLen i <= hashSize (IntegHash i))%nat.
Proof. unfold transformIntegrity. repeat case_match; intros [= <-]; cbn; lia. Qed.

Lemma transformCipher_ok id bits c :
  transformCipher id bits = Ok c ->
  match c with
  | AeadCipher AesGCM kl => aes_len kl | AeadCipher ChaCha20Poly1305 kl => kl = 32%nat | CbcCipher kl => aes_len kl
  end /\ AEAD c = isAEAD id.
Proof.
  unfold transformCipher, isAEAD.
  destruct (Z.eqb_spec id ENCR_AES_GCM_16) as [->|]; [|destruct (Z.eqb_spec id ENCR_CHACHA20_P) as [->|];
    [|destruct (Z.eqb_spec id ENCR_AES_CBC) as [->|]; [|done]]].
  - unfold NewAESGCMSKCipher. destruct (aesKeyLen _) as [kl|] eqn:E; intros [= <-]. apply aesKeyLen_ok in E. done.
  - intros [= <-]. done.
  - unfold NewAESCBCSKCipher. destruct (aesKeyLen _) as [kl|] eqn:E; intros [= <-]. apply aesKeyLen_ok in E. done.
Qed.

Lemma wf_cipher_resolved id bits c (i : option Integrity) :
  transformCipher id bits = Ok c ->
  match i with
  | None => isAEAD id = true
  | Some i => isAEAD id = false /\ exists n, transformIntegrity n = Ok i
  end -> wf_cipher c i.
Proof.
  intros [Hc Ha]%transformCipher_ok Hi. destruct c as [[] kl|kl], i as [i|]; cbn in *; try done.
  - destruct Hi. congruence.
  - destruct Hi. congruence.
  - destruct Hi as (_ & n & Hn). apply transformIntegrity_ok in Hn. tauto.
  - congruence.
Qed.

Lemma buildSuite_wf encr prf integ dh s : buildSuite encr prf integ dh = Ok s -> wf_suite s.
Proof.
  unfold buildSuite. intros (c & Hc & H)%rbind_ok. apply rbind_ok in H as (pf & Hp & H).
  destruct (isAEAD (TID encr)) eqn:Ea.
  - injection H as <-. by apply (wf_cipher_resolved _ _ _ None Hc).
  - apply rbind_ok in H as (ig & Hi & H). injection H as <-. apply (wf_cipher_resolved _ _ _ (Some ig) Hc). eauto.
Qed.

Lemma buildSuite_ids encr prf integ dh encr' prf' integ' dh' :
  TID encr = TID encr' -> IkeSA.KeyLen encr = IkeSA.KeyLen encr' -> TID prf = TID prf' ->
  (isAEAD (TID encr) = false -> TID integ = TID integ') -> TID dh = TID dh' ->
  buildSuite encr prf integ dh = buildSuite encr' prf' integ' dh'.
Proof.
  intros He Hk Hp Hi Hd. unfold buildSuite. rewrite <- He, <- Hk, <- Hp, <- Hd.
  destruct (isAEAD (TID encr)); [done|]. by rewrite Hi.
Qed.

(** [t] names the same algorithm as [t']; the key length matters for ENCR alone. *)
Definition same_choice (t' t : Transform) : Prop :=
  TType t' = TType t /\ TID t' = TID t /\ (TType t = TransformENCR -> t' = t).

(** [a] is made of one choice per transform type out of [p]. *)
Definition chosen_from (p a : Proposal) : Prop :=
  Num a = Num p /\ Protocol a = Protocol p /\ NoDup (TType <$> Transforms a) /\
  Forall (fun t => exists t', t' ∈ Transforms p /\ same_choice t' t) (Transforms a).

(** What one accepted proposal is made of. *)
Lemma tryIKE_spec p s a :
  tryIKE p = Some (s, a) ->
  exists encr prf integ dh,
    Protocol p = ProtoIKE /\
    chosenTransform p TransformENCR supportedENCR = Some encr /\
    chosenTransform p TransformPRF supportedPRF = Some prf /\
    chosenTransform p TransformDH supportedDH = Some dh /\
    (isAEAD (TID encr) = false -> chosenTransform p TransformINTEG supportedInteg = Some integ) /\
    buildSuite encr prf integ dh = Ok s /\
    a = mkProposal (Num p) ProtoIKE []
        ([tr_len TransformENCR (TID encr) (IkeSA.KeyLen encr); tr TransformPRF (TID prf)] ++
         (if isAEAD (TID encr) then [] else [tr TransformINTEG (TID integ)]) ++
         [tr TransformDH (TID dh)]).
Proof.
  unfold tryIKE. destruct (Z.eqb_spec (Protocol p) ProtoIKE) as [Hpr|]; cbn [negb]; [|done].
  destruct (chosenTransform p TransformENCR supportedENCR) as [encr|] eqn:E1; [|done].
  destruct (chosenTransform p TransformPRF supportedPRF) as [prf|] eqn:E2; [|done].
  destruct (chosenTransform p TransformDH supportedDH) as [dh|] eqn:E3; [|done]. cbn [mbind option_bind].
  destruct (chosenInteg p encr) as [integ|] eqn:E4; [|done]. cbn [mbind option_bind].
  destruct (buildSuite encr prf integ dh) as [su|] eqn:E5; [|done]. intros [= <- <-].
  exists encr, prf, integ, dh. split_and!; try done.
  intros Ha. unfold chosenInteg in E4. by rewrite Ha in E4.
Qed.

Lemma chosen_offered p tt ok t :
  chosenTransform p tt ok = Some t -> tt <> TransformENCR -> exists t', t' ∈ Transforms p /\ same_choice t' (tr tt (TID t)).
Proof. intros (Hin & Ht & _)%choose_spec Hn. exists t. split; [done|]. split_and!; [done..|]. by intros. Qed.

Lemma chosen_offered_encr p ok t :
  chosenTransform p TransformENCR ok = Some t ->
  exists t', t' ∈ Transforms p /\ same_choice t' (tr_len TransformENCR (TID t) (IkeSA.KeyLen t)).
Proof. intros (Hin & Ht & _)%choose_spec. exists t. split; [done|]. split_and!; [done..|]. intros _. destruct t. cbn in *. by subst. Qed.

Lemma tryIKE_chosen_from p s a : tryIKE p = Some (s, a) -> chosen_from p a.
Proof.
  intros (encr & prf & integ & dh & Hp & H1 & H2 & H3 & H4 & _ & ->)%tryIKE_spec.
  apply chosen_offered_encr in H1. apply chosen_offered in H2; [|done]. apply chosen_offered in H3; [|done].
  unfold chosen_from. cbn [Num Protocol Transforms]. destruct (isAEAD (TID encr)); cbn [app].
  - split_and!; [done..|by_decision|]. by repeat constructor.
  - specialize (H4 eq_refl). apply chosen_offered in H4; [|done]. split_and!; [done..|by_decision|]. by repeat constructor.
Qed.

Lemma tryIKE_again p s a : tryIKE p = Some (s, a) -> tryIKE a = Some (s, a).
Proof.
  intros (encr & prf & integ & dh & Hp & H1 & H2 & H3 & H4 & H5 & ->)%tryIKE_spec.
  apply choose_spec in H1 as (_ & _ & H1). apply choose_spec in H2 as (_ & _ & H2). apply choose_spec in H3 as (_ & _ & H3).
  unfold tryIKE, chosenInteg, chosenTransform. cbn [Num Protocol Transforms]. rewrite Z.eqb_refl. cbn [negb].
  destruct (isAEAD (TID encr)) eqn:Ea; cbn -[supportedENCR supportedPRF supportedDH supportedInteg isAEAD buildSuite];
    rewrite H1; cbn -[supportedENCR supportedPRF supportedDH supportedInteg isAEAD buildSuite];
    rewrite H2; cbn -[supportedENCR supportedPRF supportedDH supportedInteg isAEAD buildSuite];
    rewrite H3, Ea; cbn -[supportedENCR supportedPRF supportedDH supportedInteg isAEAD buildSuite].
  - by rewrite (buildSuite_ids _ _ _ _ encr prf integ dh), H5 by (done || (cbn [TID tr_len]; congruence)).
  - specialize (H4 eq_refl). apply choose_spec in H4 as (_ & _ & H4). rewrite H4.
    cbn -[supportedENCR supportedPRF supportedDH supportedInteg isAEAD buildSuite].
    by rewrite (buildSuite_ids _ _ _ _ encr prf integ dh), H5 by done.
Qed.

(** Suite negotiation.  The proposal sent back is one choice per transform
    type out of the first proposal of the peer that can be satisfied, nothing
    the peer did not offer; the resolved suite is usable (an AEAD cipher has no
    separate integrity, any other cipher has one whose ICV its hash covers); and
    the peer, selecting from the proposal it gets back, resolves the same suite. *)
Theorem ike_suite_agreed (sa : SAPayload) (s : Suite) (a : Proposal) :
  SelectIKESuite sa = Ok (s, a) ->
  (exists l p r, Proposals sa = l ++ p :: r /\ chosen_from p a /\ Forall (fun q => tryIKE q = None) l) /\
  wf_suite s /\ AEAD (Cipher s) = isAEAD (EncrID s) /\
  SelectIKESuite (mkSA [a]) = Ok (s, a).
Proof.
  unfold SelectIKESuite. destruct (first_some tryIKE (Proposals sa)) as [[s' a']|] eqn:E; [|done]. intros [= -> ->].
  apply first_some_spec in E as (l & p & r & El & Hp & Hl). split_and!.
  - exists l, p, r. split_and!; [done|by apply (tryIKE_chosen_from p s)|done].
  - apply tryIKE_spec in Hp as (? & ? & ? & ? & _ & _ & _ & _ & _ & H & _). by eapply buildSuite_wf.
  - apply tryIKE_spec in Hp as (encr & ? & ? & ? & _ & _ & _ & _ & _ & H & _). unfold buildSuite in H.
    apply rbind_ok in H as (c & Hc & H). apply rbind_ok in H as (pf & _ & H). apply transformCipher_ok in Hc as [_ Hc].
    destruct (isAEAD (TID encr)) eqn:Ea; [injection H as <-; cbn; congruence|].
    apply rbind_ok in H as (ig & _ & H). injection H as <-. cbn. congruence.
  - cbn [Proposals first_some]. by rewrite (tryIKE_again p s a).
Qed.

(** The peer offers AES-CBC with an unknown PRF, then the defaults. *)
Definition demo_offer : SAPayload :=
  mkSA (mkProposal 1 ProtoIKE [] [tr_len TransformENCR ENCR_AES_CBC 128; tr TransformPRF 99] :: DefaultIKEProposals).
Definition demo_suite : Suite :=
  mkSuite ENCR_AES_GCM_16 256 PRF_HMAC_SHA2_256 0 DH_CURVE25519 (AeadCipher AesGCM 32) (NewHMACPRF SHA256) None.
Definition demo_accepted : Proposal :=
  mkProposal 1 ProtoIKE [] [tr_len TransformENCR ENCR_AES_GCM_16 256; tr TransformPRF PRF_HMAC_SHA2_256; tr TransformDH DH_CURVE25519].

Lemma ike_suite_agreed_witness :
  SelectIKESuite demo_offer = Ok (demo_suite, demo_accepted) /\
  SelectIKESuite (mkSA [demo_accepted]) = Ok (demo_suite, demo_accepted).
Proof.
  split; [reflexivity|]. apply (ike_suite_agreed demo_offer demo_suite demo_accepted). reflexivity.
Defined.

Lemma tryESP_again p s a : tryESP p = Some (s, a) -> tryESP a = Some (s, a).
Proof.
  unfold tryESP. destruct (negb (Protocol p =? ProtoESP)); [done|].
  destruct (chosenTransform p TransformENCR supportedENCR) as [encr|] eqn:E1; [|done]. cbn [mbind option_bind].
  destruct (chosenInteg p encr) as [integ|] eqn:E2; [|done]. cbn [mbind option_bind].
  destruct (transformCipher (TID encr) (IkeSA.KeyLen encr)) as [c|] eqn:E3; [|done].
  apply choose_spec in E1 as (_ & _ & E1). unfold chosenInteg, chosenTransform in *.
  destruct (isAEAD (TID encr)) eqn:Ea.
  - intros [= <- <-]. cbn -[supportedENCR supportedInteg isAEAD transformCipher]. rewrite E1.
    cbn -[supportedENCR supportedInteg isAEAD transformCipher]. by rewrite Ea, E3.
  - apply choose_spec in E2 as (_ & _ & E2). destruct (transformIntegrity (TID integ)) as [ig|] eqn:E4; [|done].
    intros [= <- <-]. cbn -[supportedENCR supportedInteg isAEAD transformCipher transformIntegrity]. rewrite E1.
    cbn -[supportedENCR supportedInteg isAEAD transformCipher transformIntegrity]. rewrite Ea, E2.
    cbn -[supportedENCR supportedInteg isAEAD transformCipher transformIntegrity]. by rewrite E3, E4.
Qed.

(** The Child SA suite is agreed in the same way. *)
Theorem esp_suite_agreed sa s a : SelectESPSuite sa = Ok (s, a) -> SelectESPSuite (mkSA [a]) = Ok (s, a).
Proof.
  unfold SelectESPSuite. destruct (first_some tryESP (Proposals sa)) as [[s' a']|] eqn:E; [|done]. intros [= -> ->].
  apply first_some_spec in E as (_ & p & _ & _ & Hp & _). cbn [Proposals first_some]. by rewrite (tryESP_again p s a).
Qed.

(** ** The keys *)

Section KeyFacts.
Context {P : Prims} {PO : PrimsOk P}.

(** Key derivation returns for every PRF and key length, and the seven keys
    are consecutive, non-overlapping pieces of one prf+ stream seeded with both
    nonces and both SPIs, each exactly as long as the suite needs it. *)
Theorem ike_keys_split (prf : PRF) (skeyseed ni nr : bytes) (spiI spiR : Z) (encLen integLen : nat) :
  exists keys km,
    expandIKEKeys prf skeyseed ni nr spiI spiR encLen integLen = Some keys /\
    Plus prf skeyseed (ni ++ nr ++ be_enc 8 spiI ++ be_enc 8 spiR) (3 * PRFSize prf + 2 * integLen + 2 * encLen) = Some km /\
    SKd keys ++ SKai keys ++ SKar keys ++ SKei keys ++ SKer keys ++ SKpi keys ++ SKpr keys = km /\
    Forall (fun k => length k = PRFSize prf) [SKd keys; SKpi keys; SKpr keys] /\
    Forall (fun k => length k = integLen) [SKai keys; SKar keys] /\
    Forall (fun k => length k = encLen) [SKei keys; SKer keys].
Proof.
  unfold expandIKEKeys, take_km. set (seed := ni ++ nr ++ _).
  replace (3 * PRFSize prf + 2 * integLen + 2 * encLen)%nat
    with (PRFSize prf + 2 * integLen + 2 * encLen + 2 * PRFSize prf)%nat by lia.
  destruct (Plus_length prf skeyseed seed (PRFSize prf + 2 * integLen + 2 * encLen + 2 * PRFSize prf)) as (km & -> & Hkm).
  do 2 eexists. split; [reflexivity|]. split; [reflexivity|]. cbn [SKd SKai SKar SKei SKer SKpi SKpr]. split.
  - set (r := drop (PRFSize prf) (drop encLen (drop encLen (drop integLen (drop integLen (drop (PRFSize prf) km)))))).
    assert (length r = PRFSize prf) as Hr by (subst r; rewrite !length_drop; lia).
    rewrite (take_ge r) by lia. subst r. by rewrite !take_drop.
  - repeat constructor; rewrite length_take, ?length_drop; lia.
Qed.

Definition keys_ok (s : Suite) (keys : SAKeys) : Prop :=
  length (SKei keys) = encKeyLen s /\ length (SKer keys) = encKeyLen s.

(** A shared-key AUTH value verifies exactly when it is the one the octets and a
    non-empty key give. *)
Lemma verifyPeerPSKAuth_iff prf psk msg nonce skp id ia got :
  verifyPeerPSKAuth prf psk msg nonce skp id ia got = Ok () <->
  psk <> [] /\ got = computePSKAuth prf psk msg nonce skp id ia.
Proof.
  unfold verifyPeerPSKAuth, computePSKAuth. destruct psk as [|b psk]; [naive_solver|]. cbn [length Nat.eqb].
  case_bool_decide; cbn [negb]; naive_solver.
Qed.
End KeyFacts.

(** Keys for AES-CBC-256 with HMAC-SHA-256. *)
Lemma ike_keys_split_witness :
  exists keys km,
    expandIKEKeys (P := toy_prims) (NewHMACPRF SHA256) [1] [2] [3] 4 5 32 32 = Some keys /\
    Plus (P := toy_prims) (NewHMACPRF SHA256) [1] ([2] ++ [3] ++ be_enc 8 4 ++ be_enc 8 5) (3 * 32 + 2 * 32 + 2 * 32) = Some km /\
    SKd keys ++ SKai keys ++ SKar keys ++ SKei keys ++ SKer keys ++ SKpi keys ++ SKpr keys = km /\
    Forall (fun k => length k = 32%nat) [SKei keys; SKer keys].
Proof.
  destruct (ike_keys_split (PO := toy_prims_ok) (NewHMACPRF SHA256) [1] [2] [3] 4 5 32 32) as (keys & km & H1 & H2 & H3 & _ & _ & H6).
  exists keys, km. split_and!; [exact H1|exact H2|exact H3|exact H6].
Defined.
