(* ===== verification/Dh.v ===== *)
(** * Diffie-Hellman groups, [internal/cryptoutil/{dh,modp}.go], [transform.DH]

    A [DHGroup] holds the private key its [Generate] drew.  The curves are those of
    [crypto/ecdh], the class [Curves], with in [CurvesOk] what that package documents:
    a public key has the curve's wire form and two keys of one curve agree.  The MODP
    group is written out, over integers.  The theorem: for every transform ID the two
    ends of an exchange compute one shared secret. *)
From Stdlib Require Import ZArith Lia.
From Stdlib Require Zpow_facts.
From stdpp Require Import base list.
From S2P Require Import Prelude IkeSuite.

Inductive curve := X25519 | P256 | P384 | P521.

Definition pubLen (c : curve) : nat := match c with X25519 => 32 | P256 => 65 | P384 => 97 | P521 => 133 end.

(** A private key, its public key as [PublicKey().Bytes()], and [NewPublicKey] followed by [ECDH]. *)
Class Curves := {
  ec_pub : curve -> bytes -> bytes;
  ec_ecdh : curve -> bytes -> bytes -> option bytes;
}.

Class CurvesOk (C : Curves) := {
  ec_pub_len c k : length (ec_pub c k) = pubLen c;
  ec_pub_point c k : c <> X25519 -> at_ (ec_pub c k) 0 = 4;
  ec_agree c a b : exists s, ec_ecdh c a (ec_pub c b) = Some s /\ ec_ecdh c b (ec_pub c a) = Some s;
}.

(** [big.Int.Bytes]: big-endian, without leading zeros. *)
Definition int_bytes (x : Z) : bytes := if x =? 0 then [] else be_enc (Z.to_nat (Z.log2 x / 8 + 1)) x.

Definition leftPad (b : bytes) (size : nat) : bytes :=
  if (size <=? length b)%nat then b else replicate (size - length b) 0 ++ b.

Definition modp2048Prime : Z :=
  0xFFFFFFFFFFFFFFFFC90FDAA22168C234C4C6628B80DC1CD129024E088A67CC74020BBEA63B139B22514A08798E3404DDEF9519B3CD3A431B302B0A6DF25F14374FE1356D6D51C245E485B576625E7EC6F44C42E9A637ED6B0BFF5CB6F406B7EDEE386BFB5A899FA5AE9F24117C4B1FE649286651ECE45B3DC2007CB8A163BF0598DA48361C55D39A69163FA8FD24CF5F83655D23DCA3AD961C62F356208552BB9ED529077096966D670C354E4ABC9804F1746C08CA18217C32905E462E36CE3BE39E772C180E86039B2783A2EC07A28FB5C55DF06F4C52C9DE2BCBF6955817183995497CEA956AE515D2261898FA051015728E5A8AACAA68FFFFFFFFFFFFFFFF.

Inductive DHGroup :=
| ecdhGroup (c : curve) (stripPointPrefix : bool) (priv : option bytes)
| modpGroup (prime g : Z) (size : nat) (priv : option Z).

Inductive dh_error := ErrNoPrivateKey | ErrPeerKey | ErrPeerValue | ErrUnsupportedDH (id : Z).

Definition NewECDH (c : curve) (strip : bool) : DHGroup := ecdhGroup c strip None.
Definition NewMODP2048 : DHGroup := modpGroup modp2048Prime 2 256 None.

(** What [rand] yields: a curve's private key, or the integer of [rand.Int]. *)
Record dh_draw := mkDraw { draw_key : bytes; draw_int : Z }.

Section Groups.
Context {C : Curves}.

Definition Generate (g : DHGroup) (d : dh_draw) : bytes * DHGroup :=
  match g with
  | ecdhGroup c strip _ =>
      let pub := ec_pub c (draw_key d) in
      (if strip && (0 <? length pub)%nat && (at_ pub 0 =? 4) then drop 1 pub else pub, ecdhGroup c strip (Some (draw_key d)))
  | modpGroup p g size _ =>
      let priv := draw_int d + 2 in
      (leftPad (int_bytes (Zpow_facts.Zpow_mod g priv p)) size, modpGroup p g size (Some priv))
  end.

Definition ComputeSecret (g : DHGroup) (peerPub : bytes) : result dh_error bytes :=
  match g with
  | ecdhGroup _ _ None | modpGroup _ _ _ None => Err ErrNoPrivateKey
  | ecdhGroup c strip (Some priv) =>
      let wire := if strip then 4 :: peerPub else peerPub in
      match ec_ecdh c priv wire with Some s => Ok s | None => Err ErrPeerKey end
  | modpGroup p _ size (Some priv) =>
      let peer := be_dec peerPub in
      if (peer <=? 1) || (p - 1 <=? peer) then Err ErrPeerValue
      else Ok (leftPad (int_bytes (Zpow_facts.Zpow_mod peer priv p)) size)
  end.

Definition transformDH (id : Z) : result dh_error DHGroup :=
  if id =? DH_CURVE25519 then Ok (NewECDH X25519 false)
  else if id =? DH_ECP_256 then Ok (NewECDH P256 true)
  else if id =? DH_ECP_384 then Ok (NewECDH P384 true)
  else if id =? DH_ECP_521 then Ok (NewECDH P521 true)
  else if id =? DH_MODP_2048 then Ok NewMODP2048
  else Err (ErrUnsupportedDH id).

(** ** The wire form of an integer *)

Lemma be_enc_pad n k x : 0 <= x < 256 ^ Z.of_nat k -> be_enc (n + k) x = replicate n 0 ++ be_enc k x.
Proof.
  intros Hx. induction n as [|n IH]; [done|]. cbn [Nat.add be_enc replicate app]. rewrite IH. f_equal.
  rewrite Z.div_small; [done|]. split; [lia|]. eapply Z.lt_le_trans; [apply Hx|]. apply Z.pow_le_mono_r; lia.
Qed.

Lemma leftPad_int x size : 0 <= x < 256 ^ Z.of_nat size -> leftPad (int_bytes x) size = be_enc size x.
Proof.
  intros Hx. unfold leftPad, int_bytes. destruct (Z.eqb_spec x 0) as [->|Hn].
  - cbn [length]. rewrite Nat.sub_0_r. rewrite <- (Nat.add_0_r size) at 3. rewrite be_enc_pad by lia. cbn [be_enc].
    destruct size; [done|]. by rewrite app_nil_r.
  - set (n := Z.to_nat (Z.log2 x / 8 + 1)). rewrite length_be_enc.
    pose proof (Z.log2_spec x ltac:(lia)) as Hlog. pose proof (Z.log2_nonneg x).
    pose proof (Z.div_mod (Z.log2 x) 8 ltac:(lia)). pose proof (Z.mod_pos_bound (Z.log2 x) 8 ltac:(lia)).
    assert (x < 256 ^ Z.of_nat n) as Hxn.
    { subst n. rewrite pow256_2, Z2Nat.id by lia. eapply Z.lt_le_trans; [apply Hlog|]. apply Z.pow_le_mono_r; lia. }
    assert (n <= size)%nat as Hns.
    { rewrite pow256_2 in Hx. assert (Z.log2 x < 8 * Z.of_nat size) by (apply Z.log2_lt_pow2; lia). subst n. lia. }
    destruct (Nat.leb_spec size n).
    + replace n with size by lia. done.
    + rewrite <- (be_enc_pad (size - n) n x) by lia. f_equal. lia.
Qed.

Lemma length_leftPad_int x size : 0 <= x < 256 ^ Z.of_nat size -> length (leftPad (int_bytes x) size) = size.
Proof. intros Hx. by rewrite leftPad_int, length_be_enc. Qed.

Lemma wire_int x size : 0 <= x < 256 ^ Z.of_nat size -> be_dec (leftPad (int_bytes x) size) = x.
Proof. intros Hx. by rewrite leftPad_int, be_dec_enc, Z.mod_small. Qed.

(** ** Agreement *)

(** The public value a MODP draw gives is not degenerate. *)
Definition draw_ok (g : DHGroup) (d : dh_draw) : Prop :=
  match g with
  | ecdhGroup _ _ _ => True
  | modpGroup p b _ _ => 0 <= draw_int d /\ 1 < Zpow_facts.Zpow_mod b (draw_int d + 2) p < p - 1
  end.

Lemma modp_commutes p b x y : 1 < p -> 0 <= x -> 0 <= y ->
  Zpow_facts.Zpow_mod (Zpow_facts.Zpow_mod b x p) y p = Zpow_facts.Zpow_mod (Zpow_facts.Zpow_mod b y p) x p.
Proof.
  intros Hp Hx Hy. rewrite !Zpow_facts.Zpow_mod_correct by lia. rewrite <- !Zpow_facts.Zpower_mod by lia.
  rewrite <- !Z.pow_mul_r by lia. by rewrite Z.mul_comm.
Qed.

Context {CO : CurvesOk C}.

Lemma strip_point c k : c <> X25519 ->
  let pub := ec_pub c k in
  4 :: (if true && (0 <? length pub)%nat && (at_ pub 0 =? 4) then drop 1 pub else pub) = pub.
Proof.
  intros Hc pub. pose proof (ec_pub_point c k Hc) as H4. pose proof (ec_pub_len c k) as Hl. subst pub.
  destruct (ec_pub c k) as [|b l] eqn:E; [by destruct c|]. cbn in H4. subst b. done.
Qed.

(** What [transformDH] returns. *)
Definition known_group (g : DHGroup) : Prop :=
  (exists c, c <> X25519 /\ g = NewECDH c true) \/ g = NewECDH X25519 false \/ g = NewMODP2048.

Lemma transformDH_known id g : transformDH id = Ok g -> known_group g.
Proof. unfold transformDH, known_group. intros H. repeat case_match; simplify_eq; try (by eauto).
  all: left; eexists; split; [|reflexivity]; done.
Qed.

(** The two ends of an exchange compute one secret. *)
Lemma dh_agrees_spec g da db :
  known_group g -> draw_ok g da -> draw_ok g db ->
  let '(pa, ga) := Generate g da in let '(pb, gb) := Generate g db in
  exists s, ComputeSecret ga pb = Ok s /\ ComputeSecret gb pa = Ok s.
Proof.
  intros [(c & Hc & ->)|[->| ->]] Ha Hb; unfold NewECDH, NewMODP2048; cbn [Generate ComputeSecret].
  - rewrite !strip_point by done. destruct (ec_agree c (draw_key da) (draw_key db)) as (s & -> & ->). eauto.
  - cbn [andb]. destruct (ec_agree X25519 (draw_key da) (draw_key db)) as (s & -> & ->). eauto.
  - unfold NewMODP2048, draw_ok in Ha, Hb. remember modp2048Prime as p eqn:Hp. destruct Ha as [Ha Ha'], Hb as [Hb Hb'].
    assert (p < 256 ^ Z.of_nat 256) as Hpl by (subst p; vm_compute; reflexivity). rewrite !wire_int by lia.
    rewrite !(proj2 (Z.leb_gt _ _)) by lia. cbn [orb]. rewrite (modp_commutes p 2 (draw_int db + 2)) by lia. eexists. split; reflexivity.
Qed.

Lemma length_Generate g d : known_group g -> draw_ok g d -> (0 < length (Generate g d).1 <= 256)%nat.
Proof.
  intros [(c & Hc & ->)|[->| ->]] Hd; unfold NewECDH, NewMODP2048; cbn [Generate fst].
  - pose proof (ec_pub_len c (draw_key d)) as Hl. rewrite Hl, (ec_pub_point c _ Hc), Z.eqb_refl.
    rewrite (proj2 (Nat.ltb_lt _ _)) by (destruct c; simpl; lia). cbn [andb]. rewrite length_drop, Hl. destruct c; simpl; done || lia.
  - cbn [andb]. rewrite ec_pub_len. simpl; lia.
  - unfold draw_ok, NewMODP2048 in Hd. remember modp2048Prime as p eqn:Hp.
    assert (p < 256 ^ Z.of_nat 256) by (subst p; vm_compute; reflexivity). rewrite length_leftPad_int by lia. lia.
Qed.
End Groups.

(** ** An instance *)

(** Keys of the curve's length added octet by octet: not secret, but commutative. *)
Definition toy_key (c : curve) (k : bytes) : bytes := resize (match c with X25519 => 32 | _ => pubLen c - 1 end) 0 k.

Definition toy_curves : Curves := {|
  ec_pub c k := match c with X25519 => toy_key c k | _ => 4 :: toy_key c k end;
  ec_ecdh c k pub :=
    let q := match c with X25519 => pub | _ => drop 1 pub end in
    Some (zip_with (fun x y => (x + y) mod 256) (toy_key c k) q);
|}.

Lemma toy_add_comm (a b : bytes) : zip_with (fun x y => (x + y) mod 256) b a = zip_with (fun x y => (x + y) mod 256) a b.
Proof.
  revert b. induction a as [|x a IH]; intros [|y b]; cbn; [done..|]. by rewrite IH, Z.add_comm.
Qed.

Lemma toy_curves_ok : CurvesOk toy_curves.
Proof.
  split.
  - intros c k. unfold ec_pub, toy_curves, toy_key. destruct c; cbn [pubLen length]; rewrite length_resize; lia.
  - by intros [] k.
  - intros c a b. eexists. split; [reflexivity|]. unfold ec_ecdh, ec_pub, toy_curves. f_equal.
    destruct c; cbn [drop]; apply toy_add_comm.
Qed.
