(* ===== verification/Eap.v ===== *)
(** * EAP-MSCHAPv2, [internal/ikev2/eap]

    The packet codec, the MSCHAPv2 challenge and response with the MD4, UTF-16 and
    DES-key plumbing of [mschapv2_crypto.go] and [md4.go], the authenticator's state
    machine and the peer's half.  SHA-1 is a digest of [Digests]; the DES block is the
    class [Des].  Go strings are their octets; a random challenge is an argument.

    The theorems: a peer that knows the password completes the exchange, and both
    ends hold one master session key; the authenticator reports success only after a
    response to its own challenge that the stored password gives; and the length
    field of the challenge it sends is one more than its length. *)
From Stdlib Require Import ZArith Lia.
From Stdlib Require String.
Import String.StringSyntax.
From stdpp Require Import base list.
From S2P Require Import Prelude Crypto.

(** ** Packets, [packet.go] *)

Abbreviation CodeRequest := 1 (only parsing).
Abbreviation CodeResponse := 2 (only parsing).
Abbreviation CodeSuccess := 3 (only parsing).
Abbreviation CodeFailure := 4 (only parsing).
Abbreviation TypeIdentity := 1 (only parsing).
Abbreviation TypeNak := 3 (only parsing).
Abbreviation TypeMSCHAPv2 := 26 (only parsing).

Record Packet := mkPacket { Code : Z; Identifier : Z; EType : Z; EData : bytes }.

Definition zero_packet : Packet := mkPacket 0 0 0 [].

Definition MarshalEAP (p : Packet) : bytes :=
  if (Code p =? CodeSuccess) || (Code p =? CodeFailure) then [Code p; Identifier p] ++ be_enc 2 4
  else
    let total := (5 + length (EData p))%nat in
    [Code p; Identifier p] ++ be_enc 2 (wrap 16 (Z.of_nat total)) ++ [EType p] ++ EData p.

Inductive eap_error :=
| ErrEAPShort | ErrEAPLength (n : Z) | ErrEAPType | ErrNotResponse | ErrValueSize (n : Z) | ErrResponseShort
| ErrNak | ErrUnexpectedType (t : Z) | ErrUnexpectedState.

Definition ParseEAP (buf : bytes) : result eap_error Packet :=
  if (length buf <? 4)%nat then Err ErrEAPShort
  else
    let len := be_dec (slice buf 2 4) in
    if (len <? 4) || (Z.of_nat (length buf) <? len) then Err (ErrEAPLength len)
    else if (at_ buf 0 =? CodeSuccess) || (at_ buf 0 =? CodeFailure) then Ok (mkPacket (at_ buf 0) (at_ buf 1) 0 [])
    else if len <? 5 then Err ErrEAPType
    else Ok (mkPacket (at_ buf 0) (at_ buf 1) (at_ buf 4) (slice buf 5 (Z.to_nat len))).

Abbreviation opChallenge := 1 (only parsing).
Abbreviation opResponse := 2 (only parsing).
Abbreviation opSuccess := 3 (only parsing).
Abbreviation opFailure := 4 (only parsing).

Definition mschapChallenge (id : Z) (challenge name : bytes) : bytes :=
  let msLen := (5 + 1 + 16 + length name)%nat in
  [opChallenge; id] ++ be_enc 2 (wrap 16 (Z.of_nat msLen)) ++ [16] ++ challenge ++ name.

Record mschapResponseFields := mkFields { FID : Z; PeerChallenge : bytes; NTResponse : bytes; FName : bytes }.

Definition parseMSCHAPResponse (data : bytes) : result eap_error mschapResponseFields :=
  if (length data <? 5)%nat || negb (at_ data 0 =? opResponse) then Err ErrNotResponse
  else if negb (at_ data 4 =? 49) then Err (ErrValueSize (at_ data 4))
  else if (length data <? 5 + 49)%nat then Err ErrResponseShort
  else
    let resp := slice data 5 54 in
    Ok (mkFields (at_ data 1) (slice resp 0 16) (slice resp 24 48) (drop 54 data)).

Definition hexDigits : bytes := str "0123456789ABCDEF".

Definition upperHex (b : bytes) : bytes :=
  concat ((fun c => [at_ hexDigits (Z.to_nat (Z.shiftr c 4)); at_ hexDigits (Z.to_nat (Z.land c 15))]) <$> b).

Definition mschapSuccess (id : Z) (authResponse : bytes) : bytes :=
  let msg := str "S=" ++ upperHex authResponse in
  [opSuccess; id] ++ be_enc 2 (wrap 16 (Z.of_nat (4 + length msg))) ++ msg.

Definition mschapFailure (id : Z) (message : bytes) : bytes :=
  [opFailure; id] ++ be_enc 2 (wrap 16 (Z.of_nat (4 + length message))) ++ message.

(** ** MD4, [md4.go] *)

Section MD4.
Definition u32 (x : Z) : Z := wrap 32 x.
Definition rol (x s : Z) : Z := Z.lor (u32 (Z.shiftl x s)) (Z.shiftr x (32 - s)).
Definition not32 (x : Z) : Z := Z.lxor x (2 ^ 32 - 1).

Definition ff (x y z : Z) : Z := Z.lor (Z.land x y) (Z.land (not32 x) z).
Definition gg (x y z : Z) : Z := Z.lor (Z.lor (Z.land x y) (Z.land x z)) (Z.land y z).
Definition hh (x y z : Z) : Z := Z.lxor (Z.lxor x y) z.

(** The registers, in the order the next step takes them: [a = r(a, b, c, d)] is followed by
    [d = r(d, a, b, c)], and so on round. *)
Definition md4_step (f : Z -> Z -> Z -> Z) (k : Z) (x : list Z) (r : Z * Z * Z * Z) (ks : nat * Z) : Z * Z * Z * Z :=
  let '(a, b, c, d) := r in
  (d, rol (u32 (a + f b c d + x !!! ks.1 + k)) ks.2, b, c).

Definition round1 : list (nat * Z) := zip (seq 0 16) (concat (replicate 4 [3; 7; 11; 19])).
Definition round2 : list (nat * Z) :=
  zip [0; 4; 8; 12; 1; 5; 9; 13; 2; 6; 10; 14; 3; 7; 11; 15]%nat (concat (replicate 4 [3; 5; 9; 13])).
Definition round3 : list (nat * Z) :=
  zip [0; 8; 4; 12; 2; 10; 6; 14; 1; 9; 5; 13; 3; 11; 7; 15]%nat (concat (replicate 4 [3; 9; 11; 15])).

Definition md4_block (r : Z * Z * Z * Z) (block : bytes) : Z * Z * Z * Z :=
  let x := (fun i => le_dec (slice block (4 * i) (4 * i + 4))) <$> seq 0 16 in
  let '(aa, bb, cc, dd) := r in
  let r := fold_left (md4_step ff 0 x) round1 r in
  let r := fold_left (md4_step gg 0x5a827999 x) round2 r in
  let '(a, b, c, d) := fold_left (md4_step hh 0x6ed9eba1 x) round3 r in
  (u32 (a + aa), u32 (b + bb), u32 (c + cc), u32 (d + dd)).

(** The zeros that bring the length to 56 modulo 64. *)
Definition md4_pad (data : bytes) : bytes :=
  data ++ [0x80] ++ replicate ((119 - length data mod 64) mod 64)%nat 0 ++ le_enc 8 (wrap 64 (Z.of_nat (length data) * 8)).

Definition md4 (data : bytes) : bytes :=
  let padded := md4_pad data in
  let '(a, b, c, d) :=
    fold_left (fun r i => md4_block r (slice padded (64 * i) (64 * i + 64))) (seq 0 (length padded / 64))
      (0x67452301, 0xefcdab89, 0x98badcfe, 0x10325476) in
  le_enc 4 a ++ le_enc 4 b ++ le_enc 4 c ++ le_enc 4 d.
End MD4.

(** The digests RFC 1320 lists for the empty string and "message digest". *)
Example md4_vectors :
  md4 [] = [0x31; 0xd6; 0xcf; 0xe0; 0xd1; 0x6a; 0xe9; 0x31; 0xb7; 0x3c; 0x59; 0xd7; 0xe0; 0xc0; 0x89; 0xc0] /\
  md4 (str "message digest") =
    [0xd9; 0x13; 0x0a; 0x81; 0x64; 0x54; 0x9f; 0xe8; 0x18; 0x87; 0x48; 0x06; 0xe1; 0xc7; 0x01; 0x4b].
Proof. vm_compute. split; reflexivity. Qed.

Lemma length_md4 data : length (md4 data) = 16%nat.
Proof. unfold md4. destruct (fold_left _ _ _) as [[[a b] c] d]. rewrite !length_app, !length_le_enc. done. Qed.

(** The padded message is a whole number of blocks. *)
Lemma md4_pad_blocks data : Nat.divide 64 (length (md4_pad data)).
Proof.
  unfold md4_pad. rewrite !length_app, length_replicate, length_le_enc. cbn [length].
  set (n := length data). pose proof (Nat.div_mod_eq n 64). pose proof (Nat.mod_upper_bound n 64).
  pose proof (Nat.div_mod_eq (119 - n mod 64) 64). pose proof (Nat.mod_upper_bound (119 - n mod 64) 64).
  exists (n / 64 + 2 - (119 - n mod 64) / 64)%nat.
  lia.
Qed.

(** ** Derivations, [mschapv2_crypto.go] *)

(** The DES block of [crypto/des], for an eight-octet key. *)
Class Des := { desBlock : bytes -> bytes -> bytes }.
Class DesOk (D : Des) := { length_desBlock k b : length (desBlock k b) = 8%nat }.

(** The conversion [[]rune(s)]: an octet that starts no valid sequence is U+FFFD. *)
Definition cont (b : Z) : bool := (0x80 <=? b) && (b <=? 0xBF).

Definition second_ok (b0 b1 : Z) : bool :=
  if b0 =? 0xE0 then (0xA0 <=? b1) && (b1 <=? 0xBF)
  else if b0 =? 0xED then (0x80 <=? b1) && (b1 <=? 0x9F)
  else if b0 =? 0xF0 then (0x90 <=? b1) && (b1 <=? 0xBF)
  else if b0 =? 0xF4 then (0x80 <=? b1) && (b1 <=? 0x8F)
  else cont b1.

Fixpoint runes (s : bytes) : list Z :=
  match s with
  | [] => []
  | b0 :: s0 =>
      if b0 <? 0x80 then b0 :: runes s0
      else
        match s0 with
        | [] => [0xFFFD]
        | b1 :: s1 =>
            if (0xC2 <=? b0) && (b0 <=? 0xDF) && cont b1
            then Z.lor (Z.shiftl (Z.land b0 31) 6) (Z.land b1 63) :: runes s1
            else
              match s1 with
              | [] => 0xFFFD :: runes s0
              | b2 :: s2 =>
                  if (0xE0 <=? b0) && (b0 <=? 0xEF) && second_ok b0 b1 && cont b2
                  then Z.lor (Z.lor (Z.shiftl (Z.land b0 15) 12) (Z.shiftl (Z.land b1 63) 6)) (Z.land b2 63) :: runes s2
                  else
                    match s2 with
                    | [] => 0xFFFD :: runes s0
                    | b3 :: s3 =>
                        if (0xF0 <=? b0) && (b0 <=? 0xF4) && second_ok b0 b1 && cont b2 && cont b3
                        then Z.lor (Z.lor (Z.lor (Z.shiftl (Z.land b0 7) 18) (Z.shiftl (Z.land b1 63) 12)) (Z.shiftl (Z.land b2 63) 6)) (Z.land b3 63) :: runes s3
                        else 0xFFFD :: runes s0
                    end
              end
        end
  end.

Definition utf16LE (s : bytes) : bytes := concat ((fun r => [wrap 8 r; wrap 8 (Z.shiftr r 8)]) <$> runes s).

Definition ntPasswordHash (password : bytes) : bytes := md4 (utf16LE password).
Definition ntPasswordHashHash (ntHash : bytes) : bytes := md4 ntHash.

(** The NT hash of "clientPass", the example of RFC 2759. *)
Example nt_hash_vector :
  ntPasswordHash (str "clientPass") =
    [0x44; 0xEB; 0xBA; 0x8D; 0x53; 0x12; 0xB8; 0xD6; 0x11; 0x47; 0x44; 0x11; 0xF5; 0x69; 0x89; 0xAE].
Proof. vm_compute. reflexivity. Qed.

Definition expandDESKey (k : bytes) : bytes :=
  let b i := at_ k i in
  [b 0; Z.lor (wrap 8 (Z.shiftl (b 0) 7)) (Z.shiftr (b 1) 1); Z.lor (wrap 8 (Z.shiftl (b 1) 6)) (Z.shiftr (b 2) 2);
   Z.lor (wrap 8 (Z.shiftl (b 2) 5)) (Z.shiftr (b 3) 3); Z.lor (wrap 8 (Z.shiftl (b 3) 4)) (Z.shiftr (b 4) 4);
   Z.lor (wrap 8 (Z.shiftl (b 4) 3)) (Z.shiftr (b 5) 5); Z.lor (wrap 8 (Z.shiftl (b 5) 2)) (Z.shiftr (b 6) 6);
   wrap 8 (Z.shiftl (b 6) 1)]%nat.

Section Mschap.
Context {D : Digests} {B : Des}.

Definition sha1 (d : bytes) : bytes := digest SHA1 d.

Definition challengeHash (peerChallenge authChallenge username : bytes) : bytes :=
  take 8 (sha1 (peerChallenge ++ authChallenge ++ username)).

Definition desEncrypt (key7 block : bytes) : bytes := desBlock (expandDESKey key7) block.

Definition challengeResponse (challenge passwordHash : bytes) : bytes :=
  let zpwd := resize 21 0 passwordHash in
  desEncrypt (slice zpwd 0 7) challenge ++ desEncrypt (slice zpwd 7 14) challenge ++ desEncrypt (slice zpwd 14 21) challenge.

Definition generateNTResponse (authChallenge peerChallenge username ntHash : bytes) : bytes :=
  challengeResponse (challengeHash peerChallenge authChallenge username) ntHash.

Definition authMagic1 : bytes := str "Magic server to client signing constant".
Definition authMagic2 : bytes := str "Pad to make it do more than one iteration".

Definition generateAuthenticatorResponse (ntHash ntResponse peerChallenge authChallenge username : bytes) : bytes :=
  let hashHash := ntPasswordHashHash ntHash in
  let dig := sha1 (hashHash ++ ntResponse ++ authMagic1) in
  sha1 (dig ++ challengeHash peerChallenge authChallenge username ++ authMagic2).

Definition magicMaster : bytes := str "This is the MPPE Master Key".
Definition magic2 : bytes := str "On the client side, this is the send key; on the server side, it is the receive key.".
Definition magic3 : bytes := str "On the client side, this is the receive key; on the server side, it is the send key.".
Definition shaPad1 : bytes := replicate 40 0.
Definition shaPad2 : bytes := replicate 40 0xf2.

Definition getMasterKey (passwordHashHash ntResponse : bytes) : bytes :=
  take 16 (sha1 (passwordHashHash ++ ntResponse ++ magicMaster)).

Definition getAsymmetricStartKey (masterKey : bytes) (keyLen : nat) (isSend isServer : bool) : bytes :=
  let s := if isSend then (if isServer then magic3 else magic2) else (if isServer then magic2 else magic3) in
  let sum := sha1 (masterKey ++ shaPad1 ++ s ++ shaPad2) in
  take (Nat.min keyLen (length sum)) sum.

Definition deriveMSK (ntHash ntResponse : bytes) : bytes :=
  let masterKey := getMasterKey (ntPasswordHashHash ntHash) ntResponse in
  let recvKey := getAsymmetricStartKey masterKey 16 false true in
  let sendKey := getAsymmetricStartKey masterKey 16 true true in
  resize 64 0 (resize 16 0 recvKey ++ resize 16 0 sendKey).

(** ** The authenticator, [server.go] *)

Inductive authState := stateInit | stateChallengeSent | stateSuccessSent | stateDone.

Record Result := mkResult { Success : bool; Username : bytes; MSK : bytes }.

(** [es_lookup] is the credential lookup. *)
Record EapServer := mkEapServer {
  es_lookup : bytes -> option bytes; es_name : bytes;
  es_state : authState; es_eapID : Z; es_mschapID : Z; es_authChallenge : bytes;
  es_username : bytes; es_ntHash : bytes; es_peerChallenge : bytes; es_ntResponse : bytes; es_result : Result }.

Definition no_result : Result := mkResult false [] [].

Definition NewEapServer (look : bytes -> option bytes) (serverName : bytes) : EapServer :=
  mkEapServer look serverName stateInit 0 0 (replicate 16 0) [] [] (replicate 16 0) (replicate 24 0) no_result.

Definition with_state (s : EapServer) (st : authState) (r : Result) : EapServer :=
  mkEapServer (es_lookup s) (es_name s) st (es_eapID s) (es_mschapID s) (es_authChallenge s) (es_username s) (es_ntHash s) (es_peerChallenge s) (es_ntResponse s) r.

Definition challenge_packet (s : EapServer) : Packet :=
  mkPacket CodeRequest (es_eapID s) TypeMSCHAPv2 (mschapChallenge (es_mschapID s) (es_authChallenge s) (es_name s)).

(** [rnd] is what the random source yields. *)
Definition Begin (s : EapServer) (id : Z) (rnd : bytes) : Packet * EapServer :=
  let s := mkEapServer (es_lookup s) (es_name s) stateChallengeSent id id rnd (es_username s) (es_ntHash s) (es_peerChallenge s) (es_ntResponse s) (es_result s) in
  (challenge_packet s, s).

Definition nextID (id : Z) : Z := wrap 8 (id + 1).

Definition failure_packet (s : EapServer) (resp : Packet) : Packet :=
  mkPacket CodeRequest (nextID (Identifier resp)) TypeMSCHAPv2
    (mschapFailure (es_mschapID s) (str "E=691 R=0 C=0 V=3 M=Authentication failed")).

(** The next packet, whether the exchange is over, and the error. *)
Definition handleResponseState (s : EapServer) (resp : Packet) : Packet * bool * option eap_error * EapServer :=
  if EType resp =? TypeIdentity then (challenge_packet s, false, None, s)
  else if EType resp =? TypeNak then
    (mkPacket CodeFailure (Identifier resp) 0 [], true, Some ErrNak, with_state s stateDone no_result)
  else if negb (EType resp =? TypeMSCHAPv2) then (zero_packet, false, Some (ErrUnexpectedType (EType resp)), s)
  else
    match parseMSCHAPResponse (EData resp) with
    | Err e => (zero_packet, false, Some e, s)
    | Ok f =>
        match es_lookup s (FName f) with
        | None => (failure_packet s resp, false, None, with_state s stateDone (mkResult false (FName f) []))
        | Some password =>
            let nt := ntPasswordHash password in
            let expected := generateNTResponse (es_authChallenge s) (PeerChallenge f) (FName f) nt in
            if negb (bool_decide (expected = NTResponse f)) then
              (failure_packet s resp, false, None, with_state s stateDone (mkResult false (FName f) []))
            else
              let authResp := generateAuthenticatorResponse nt (NTResponse f) (PeerChallenge f) (es_authChallenge s) (FName f) in
              (mkPacket CodeRequest (nextID (Identifier resp)) TypeMSCHAPv2 (mschapSuccess (es_mschapID s) authResp), false, None,
               mkEapServer (es_lookup s) (es_name s) stateSuccessSent (es_eapID s) (es_mschapID s) (es_authChallenge s) (FName f) nt (PeerChallenge f)
                 (NTResponse f) (mkResult true (FName f) (deriveMSK nt (NTResponse f))))
        end
    end.

Definition HandlePeer (s : EapServer) (resp : Packet) : Packet * bool * option eap_error * EapServer :=
  match es_state s with
  | stateChallengeSent => handleResponseState s resp
  | stateSuccessSent => (mkPacket CodeSuccess (Identifier resp) 0 [], true, None, with_state s stateDone (es_result s))
  | _ => (zero_packet, false, Some ErrUnexpectedState, s)
  end.

Definition Outcome (s : EapServer) : Result := es_result s.

(** ** The peer, [client.go] *)

Record ClientChallenge := mkClientChallenge { MSCHAPID : Z; AuthChallenge : bytes; ServerName : bytes }.

Definition ParseChallenge (eapData : bytes) : option ClientChallenge :=
  if (length eapData <? 5 + 16)%nat || negb (at_ eapData 0 =? opChallenge) then None
  else Some (mkClientChallenge (at_ eapData 1) (slice eapData 5 21) (drop 21 eapData)).

Definition BuildResponse (c : ClientChallenge) (user password rnd : bytes) : bytes * bytes :=
  let nt := ntPasswordHash password in
  let ntResp := generateNTResponse (AuthChallenge c) rnd user nt in
  let tail := [49] ++ rnd ++ replicate 8 0 ++ ntResp ++ [0] ++ user in
  let msLen := (4 + length tail)%nat in
  ([opResponse; MSCHAPID c; wrap 8 (Z.shiftr (Z.of_nat msLen) 8); wrap 8 (Z.of_nat msLen)] ++ tail, deriveMSK nt ntResp).

Definition SuccessResponseData : bytes := [opSuccess].
End Mschap.

(** ** The codec *)

Lemma ParseEAP_marshal p :
  Z.of_nat (5 + length (EData p)) < 2 ^ 16 ->
  ParseEAP (MarshalEAP p) =
    Ok (if (Code p =? CodeSuccess) || (Code p =? CodeFailure) then mkPacket (Code p) (Identifier p) 0 [] else p).
Proof.
  intros Hl. unfold MarshalEAP. destruct (_ || _) eqn:E.
  - unfold ParseEAP. change (at_ ([Code p; Identifier p] ++ be_enc 2 4) 0) with (Code p). rewrite E. done.
  - unfold ParseEAP. set (buf := _ ++ _). assert (length buf = 5 + length (EData p))%nat as HL.
    { subst buf. rewrite !length_app, length_be_enc. simpl. lia. }
    rewrite HL, (proj2 (Nat.ltb_ge _ _)) by lia.
    assert (slice buf 2 4 = be_enc 2 (wrap 16 (Z.of_nat (5 + length (EData p))))) as -> by reflexivity.
    rewrite wrap_small, be_dec_enc_small by (unfold uint; lia). rewrite !(proj2 (Z.ltb_ge _ _)) by lia. cbn [orb].
    assert (at_ buf 0 = Code p) as -> by reflexivity. rewrite E, Nat2Z.id.
    assert (slice buf 5 (5 + length (EData p)) = EData p) as ->.
    { unfold slice. subst buf. rewrite Nat.add_sub'. cbn [drop app be_enc]. by rewrite take_ge. }
    destruct p; reflexivity.
Qed.

Section Agree.
Context {D : Digests} {B : Des} {DO : DigestsOk D} {BO : DesOk B}.

Lemma length_generateNTResponse a p u n : length (generateNTResponse a p u n) = 24%nat.
Proof. unfold generateNTResponse, challengeResponse, desEncrypt. rewrite !length_app, !length_desBlock. done. Qed.

Lemma parse_built_response c user password rnd :
  length rnd = 16%nat ->
  parseMSCHAPResponse (BuildResponse c user password rnd).1 =
    Ok (mkFields (MSCHAPID c) rnd (generateNTResponse (AuthChallenge c) rnd user (ntPasswordHash password)) user).
Proof.
  intros Hr. unfold BuildResponse. set (nt := generateNTResponse _ _ _ _). pose proof (length_generateNTResponse (AuthChallenge c) rnd user (ntPasswordHash password)) as Hn.
  fold nt in Hn. cbn [fst]. set (m := (4 + _)%nat). clearbody m.
  change ([49] ++ rnd ++ replicate 8 0 ++ nt ++ [0] ++ user) with ([49] ++ (rnd ++ replicate 8 0 ++ nt ++ [0] ++ user)).
  rewrite (app_assoc _ [49]). set (h := _ ++ [49]). set (data := h ++ _).
  assert (length data = 54 + length user)%nat as HL.
  { subst data h. rewrite !length_app, Hr, Hn, length_replicate. simpl. lia. }
  unfold parseMSCHAPResponse. rewrite HL, !(proj2 (Nat.ltb_ge _ _)) by lia.
  change (at_ data 0) with 2. change (at_ data 4) with 49. change (at_ data 1) with (MSCHAPID c). cbn [Z.eqb negb orb].
  assert (drop 5 data = rnd ++ replicate 8 0 ++ nt ++ [0] ++ user) as Hd by reflexivity.
  assert (slice data 5 54 = rnd ++ replicate 8 0 ++ nt ++ [0]) as ->.
  { unfold slice. rewrite Hd. rewrite !app_assoc. apply take_app_length'. rewrite !length_app, Hr, Hn, length_replicate. done. }
  assert (drop 54 data = user) as ->.
  { change 54%nat with (5 + 49)%nat. rewrite <- drop_drop, Hd, !app_assoc. apply drop_app_length'.
    rewrite !length_app, Hr, Hn, length_replicate. done. }
  rewrite slice_app_l, slice_all by lia.
  rewrite slice_app_r by lia. rewrite Hr. rewrite slice_app_r by (rewrite length_replicate; lia). rewrite length_replicate.
  change (24 - 16 - 8)%nat with 0%nat. change (48 - 16 - 8)%nat with 24%nat. rewrite slice_app_l, slice_all by lia. done.
Qed.

Lemma parse_begun_challenge s id rnd :
  length rnd = 16%nat -> ParseChallenge (EData (Begin s id rnd).1) = Some (mkClientChallenge id rnd (es_name s)).
Proof.
  intros Hr. unfold Begin, challenge_packet, mschapChallenge, ParseChallenge. cbn [fst EData es_mschapID es_authChallenge es_name].
  set (m := wrap 16 _). clearbody m.
  set (data := _ ++ _).
  assert (length data = 21 + length (es_name s))%nat as HL by (subst data; rewrite !length_app, length_be_enc, Hr; simpl; lia).
  rewrite HL, (proj2 (Nat.ltb_ge _ _)) by lia. change (at_ data 0) with 1. change (at_ data 1) with id. cbn [Z.eqb negb orb].
  assert (drop 5 data = rnd ++ es_name s) as Hd by reflexivity.
  assert (slice data 5 21 = rnd) as -> by (unfold slice; rewrite Hd; apply take_app_length'; lia).
  change 21%nat with (5 + 16)%nat. rewrite <- drop_drop, Hd, drop_app_length' by lia. done.
Qed.

(** The octets of the exchange: a packet put on the wire by one end and read by the other. *)
Definition wire_packet (p : Packet) : result eap_error Packet := ParseEAP (MarshalEAP p).

(** The peer's first answer, from the challenge request it read. *)
Definition peer_response (req : Packet) (user password rnd : bytes) : option (Packet * bytes) :=
  c ← ParseChallenge (EData req);
  let '(data, msk) := BuildResponse c user password rnd in
  Some (mkPacket CodeResponse (Identifier req) TypeMSCHAPv2 data, msk).

Definition peer_ack (req : Packet) : Packet := mkPacket CodeResponse (Identifier req) TypeMSCHAPv2 SuccessResponseData.

(** One whole exchange over the wire: what the authenticator concludes and the peer's key. *)
Definition eap_exchange (look : bytes -> option bytes) (serverName : bytes) (id : Z) (challenge user password rnd : bytes)
    : option (Packet * bool * Result * bytes) :=
  let '(req, s) := Begin (NewEapServer look serverName) id challenge in
  match wire_packet req with
  | Err _ => None
  | Ok req =>
      '(resp, msk) ← peer_response req user password rnd;
      match wire_packet resp with
      | Err _ => None
      | Ok resp =>
          let '(next, _, _, s) := HandlePeer s resp in
          match wire_packet next with
          | Err _ => None
          | Ok next =>
              match wire_packet (peer_ack next) with
              | Err _ => None
              | Ok ack => let '(last, done, _, s) := HandlePeer s ack in Some (last, done, Outcome s, msk)
              end
          end
      end
  end.

Lemma length_mschapSuccess id r : length (mschapSuccess id r) = (6 + 2 * length r)%nat.
Proof.
  unfold mschapSuccess. rewrite !length_app, length_be_enc. unfold upperHex.
  induction r as [|b r IH]; [done|]. cbn [fmap list_fmap concat length app] in *. lia.
Qed.

(** EAP-MSCHAPv2 authenticates a peer that knows the password.  Whatever the
    server's name, identifier and challenge and the peer's challenge, a peer that
    answers with the password the lookup holds for its user name ends the exchange in
    two rounds with EAP-Success, the authenticator reports that user, and the master
    session keys of the two ends are equal. *)
Theorem eap_exchange_succeeds (look : bytes -> option bytes) (serverName : bytes) (id : Z) (challenge user password rnd : bytes) :
  look user = Some password -> length challenge = 16%nat -> length rnd = 16%nat ->
  Z.of_nat (length serverName) < 60000 -> Z.of_nat (length user) < 60000 ->
  exists msk, eap_exchange look serverName id challenge user password rnd =
    Some (mkPacket CodeSuccess (nextID id) 0 [], true, mkResult true user msk, msk) /\ length msk = 64%nat.
Proof.
  intros Hlook Hc Hr Hsn Hu. unfold eap_exchange. rewrite (surjective_pairing (Begin _ _ _)).
  pose proof (parse_begun_challenge (NewEapServer look serverName) id challenge Hc) as Hpc.
  set (req := (Begin (NewEapServer look serverName) id challenge).1) in *. unfold wire_packet. rewrite ParseEAP_marshal.
  2: { subst req. unfold Begin, challenge_packet, mschapChallenge. cbn [fst EData]. rewrite !length_app, length_be_enc. simpl. lia. }
  change (Code req) with 1. cbn [Z.eqb orb Pos.eqb]. unfold peer_response. rewrite Hpc. cbn [mbind option_bind].
  pose proof (parse_built_response (mkClientChallenge id challenge serverName) user password rnd Hr) as Hpr.
  rewrite (surjective_pairing (BuildResponse _ _ _ _)). cbn [es_name NewEapServer].
  set (nt := generateNTResponse challenge rnd user (ntPasswordHash password)).
  cbn [mbind option_bind]. rewrite ParseEAP_marshal.
  2: { cbn [EData BuildResponse fst]. rewrite !length_app, length_generateNTResponse, Hr. simpl. lia. }
  cbn [Code Z.eqb orb Pos.eqb Identifier]. unfold HandlePeer at 1. cbn [Begin snd es_state]. unfold handleResponseState.
  cbn [EType Z.eqb Pos.eqb negb EData]. rewrite Hpr. cbn [FName PeerChallenge NTResponse es_lookup NewEapServer AuthChallenge es_authChallenge es_mschapID].
  rewrite Hlook. fold nt. rewrite bool_decide_eq_true_2 by done. cbn [negb]. rewrite ParseEAP_marshal.
  2: { cbn [EData]. rewrite length_mschapSuccess. unfold generateAuthenticatorResponse, sha1. rewrite length_digest. simpl. lia. }
  cbn [Code Z.eqb orb Pos.eqb]. unfold peer_ack. cbn [Identifier]. rewrite ParseEAP_marshal by (simpl; lia).
  cbn [Code Z.eqb orb Pos.eqb HandlePeer es_state Identifier Outcome with_state es_result]. eexists. split; [reflexivity|].
  unfold deriveMSK. apply length_resize.
Qed.

(** ** Nothing else succeeds *)

(** The authenticator fed packets in turn. *)
Fixpoint feed (s : EapServer) (ps : list Packet) : EapServer :=
  match ps with [] => s | p :: ps => let '(_, _, _, s) := HandlePeer s p in feed s ps end.

(** The packet is a response to the challenge under the password the lookup holds for the name in it. *)
Definition proves (look : bytes -> option bytes) (challenge : bytes) (r : Result) (p : Packet) : Prop :=
  exists f password, EType p = TypeMSCHAPv2 /\ parseMSCHAPResponse (EData p) = Ok f /\ FName f = Username r /\
    look (Username r) = Some password /\
    NTResponse f = generateNTResponse challenge (PeerChallenge f) (Username r) (ntPasswordHash password) /\
    MSK r = deriveMSK (ntPasswordHash password) (NTResponse f).

Definition eap_inv (look : bytes -> option bytes) (challenge : bytes) (seen : list Packet) (s : EapServer) : Prop :=
  es_lookup s = look /\ es_authChallenge s = challenge /\
  (Success (es_result s) = true -> (es_state s = stateSuccessSent \/ es_state s = stateDone) /\ Exists (proves look challenge (es_result s)) seen).

Lemma eap_inv_handle look challenge seen s p :
  eap_inv look challenge seen s -> let '(_, _, _, s') := HandlePeer s p in eap_inv look challenge (seen ++ [p]) s'.
Proof.
  intros (Hl & Hc & Hs). assert (eap_inv look challenge (seen ++ [p]) s) as Hkeep.
  { split_and!; [done..|]. intros Hok. destruct (Hs Hok) as [H1 H2]. split; [done|]. apply Exists_app. by left. }
  unfold HandlePeer. destruct (es_state s) eqn:Est; [exact Hkeep| |split_and!; [done..|]; intros Hok; split; [by right|apply Hkeep; exact Hok]|exact Hkeep].
  unfold handleResponseState. destruct (_ =? TypeIdentity); [exact Hkeep|].
  destruct (_ =? TypeNak); [by split_and!|]. destruct (Z.eqb_spec (EType p) TypeMSCHAPv2) as [Et|]; cbn [negb]; [|exact Hkeep].
  destruct (parseMSCHAPResponse (EData p)) as [f|] eqn:Ef; [|exact Hkeep].
  destruct (es_lookup s (FName f)) as [password|] eqn:Elk; [|by split_and!].
  case_bool_decide as Hnt; cbn [negb]; [|by split_and!]. split_and!; [done..|]. intros _. split; [by left|]. apply Exists_app. right. constructor.
  exists f, password. cbn [Username es_result MSK]. rewrite Hl in Elk. rewrite Hc in Hnt. by split_and!.
Qed.

Lemma eap_inv_begin look serverName id challenge : eap_inv look challenge [] (Begin (NewEapServer look serverName) id challenge).2.
Proof. by split_and!. Qed.

Lemma eap_inv_feed look challenge seen s ps : eap_inv look challenge seen s -> eap_inv look challenge (seen ++ ps) (feed s ps).
Proof.
  revert seen s. induction ps as [|p ps IH]; intros seen s Hi; cbn [feed]; [by rewrite app_nil_r|].
  pose proof (eap_inv_handle look challenge seen s p Hi) as Hp. destruct (HandlePeer s p) as [[[? ?] ?] s']. apply IH in Hp.
  by rewrite <- app_assoc in Hp.
Qed.

(** C35: EAP-MSCHAPv2 accepts nobody else.  Whatever packets a peer sends, if the
    authenticator reports success then one of them was an MSCHAPv2 response to the
    challenge it drew, computed from the password stored for the reported user, and
    its master session key is the one that response and password give. *)
Theorem eap_success_proven (look : bytes -> option bytes) (serverName : bytes) (id : Z) (challenge : bytes) (ps : list Packet) :
  let s := feed (Begin (NewEapServer look serverName) id challenge).2 ps in
  Success (Outcome s) = true -> Exists (proves look challenge (Outcome s)) ps.
Proof.
  intros s Hok. pose proof (eap_inv_begin look serverName id challenge) as Hi.
  apply (eap_inv_feed _ _ _ _ ps) in Hi as (_ & _ & Hi). by apply Hi.
Qed.
End Agree.

(** The length field of the challenge counts one octet more than there is. *)
Lemma mschapChallenge_length_off id challenge serverName :
  length challenge = 16%nat -> Z.of_nat (length serverName) < 60000 ->
  be_dec (slice (mschapChallenge id challenge serverName) 2 4) = Z.of_nat (length (mschapChallenge id challenge serverName)) + 1.
Proof.
  intros Hc Hs. unfold mschapChallenge. set (m := Z.of_nat _).
  match goal with |- be_dec (slice ?b 2 4) = _ => assert (slice b 2 4 = be_enc 2 (wrap 16 m)) as -> by reflexivity end.
  rewrite !length_app, length_be_enc, Hc. subst m. rewrite wrap_small, be_dec_enc_small by (unfold uint; lia). cbn [length]. lia.
Qed.

(** ** A concrete exchange *)

Definition toy_des : Des := {| desBlock _ _ := replicate 8 3 |}.
Lemma toy_des_ok : DesOk toy_des.
Proof. split. intros. apply length_replicate. Qed.

Definition demo_lookup (u : bytes) : option bytes := if bool_decide (u = str "User") then Some (str "clientPass") else None.

Lemma eap_exchange_succeeds_witness :
  exists msk, eap_exchange (D := toy_digests) (B := toy_des) demo_lookup (str "veepin") 1 (replicate 16 1) (str "User") (str "clientPass") (replicate 16 2) =
    Some (mkPacket CodeSuccess 2 0 [], true, mkResult true (str "User") msk, msk) /\ length msk = 64%nat.
Proof.
  apply (eap_exchange_succeeds (D := toy_digests) (B := toy_des) (DO := toy_digests_ok) (BO := toy_des_ok)
    demo_lookup (str "veepin") 1 (replicate 16 1) (str "User") (str "clientPass") (replicate 16 2)); vm_compute; reflexivity.
Defined.

Definition demo_answer : Packet :=
  mkPacket CodeResponse 1 TypeMSCHAPv2 (BuildResponse (D := toy_digests) (B := toy_des) (mkClientChallenge 1 (replicate 16 1) []) (str "User") (str "clientPass") (replicate 16 2)).1.

Lemma eap_success_proven_witness :
  Exists (proves (D := toy_digests) (B := toy_des) demo_lookup (replicate 16 1)
    (Outcome (feed (D := toy_digests) (B := toy_des) (Begin (NewEapServer demo_lookup (str "veepin")) 1 (replicate 16 1)).2 [demo_answer]))) [demo_answer].
Proof.
  apply (eap_success_proven (D := toy_digests) (B := toy_des) demo_lookup (str "veepin") 1 (replicate 16 1) [demo_answer]). vm_compute. reflexivity.
Defined.
