(* ===== verification/IkeCookie.v ===== *)
(** * IKE cookies, [internal/ikev2/ike/cookie.go]

    The responder's stateless cookies: a MAC over the initiator's nonce, address and
    SPI under a secret that is replaced every two minutes, the previous one staying
    valid.  The clock reading and the fresh secret are arguments.  The theorem: what is
    accepted is exactly what one of the two secrets gives for the same nonce, address
    and SPI, and a cookie is accepted until the secret has been replaced twice. *)
From Stdlib Require Import ZArith Lia.
From stdpp Require Import base list.
From S2P Require Import Prelude Routes Packet Shape Pump Crypto.

Abbreviation cookieSecretLen := 32%nat (only parsing).
Abbreviation cookieRotate := 120000000000 (only parsing).
Abbreviation cookieThreshold := 32 (only parsing).
Abbreviation cookieLen := 17%nat (only parsing).

(** The octets of a [net.IP]; nil has none. *)
Definition ip_octets (ip : option Addr) : bytes :=
  match ip with None => [] | Some (IPv4 x) => be_enc 4 x | Some (IPv6 x) => be_enc 16 x end.

Record cookieJar := mkJar { current : bytes; prev : bytes; version : Z; rotated : Z }.

(** [rnd] is what [rand.Read] yields, unless it fails. *)
Definition rotate (j : cookieJar) (rnd : option bytes) (now : Z) : cookieJar :=
  match rnd with
  | None => mkJar (current j) (current j) (version j) (rotated j)
  | Some secret => mkJar secret (current j) (wrap 8 (version j + 1)) now
  end.

Definition newCookieJar (rnd : option bytes) (now : Z) : cookieJar :=
  rotate (mkJar (replicate cookieSecretLen 0) (replicate cookieSecretLen 0) 0 0) rnd now.

Definition maybeRotate (j : cookieJar) (rnd : option bytes) (now : Z) : cookieJar :=
  if cookieRotate <=? time_sub now (rotated j) then rotate j rnd now else j.

Section Cookie.
Context {P : Prims}.

Definition cookieWith (secret : bytes) (version spi : Z) (nonce : bytes) (remote : option UDPAddr) : bytes :=
  let addr := match remote with None => [] | Some a => ip_octets (udpIP a) ++ be_enc 2 (wrap 16 (udpPort a)) end in
  version :: take (cookieLen - 1) (hmac SHA256 secret (nonce ++ addr ++ be_enc 8 spi)).

Definition issue (j : cookieJar) (rnd : option bytes) (now : Z) (spi : Z) (nonce : bytes) (remote : option UDPAddr) : bytes * cookieJar :=
  let j := maybeRotate j rnd now in (cookieWith (current j) (version j) spi nonce remote, j).

Definition valid (j : cookieJar) (got : bytes) (spi : Z) (nonce : bytes) (remote : option UDPAddr) : bool :=
  if negb (length got =? cookieLen)%nat then false
  else if at_ got 0 =? version j then bool_decide (got = cookieWith (current j) (version j) spi nonce remote)
  else if at_ got 0 =? wrap 8 (version j - 1) then bool_decide (got = cookieWith (prev j) (wrap 8 (version j - 1)) spi nonce remote)
  else false.

Context {PO : PrimsOk P}.

Lemma length_cookieWith secret v spi nonce remote : length (cookieWith secret v spi nonce remote) = cookieLen.
Proof. unfold cookieWith. cbn [length]. rewrite length_take, length_hmac. done. Qed.

Lemma version_apart v : uint 8 v -> wrap 8 (v - 1) <> v.
Proof. unfold uint, wrap. intros Hv. destruct (Z.eq_dec v 0) as [->|]; [done|]. rewrite Z.mod_small by lia. lia. Qed.

(** A cookie is accepted exactly when one of the two secrets gives it for the same values. *)
Lemma valid_iff j got spi nonce remote : uint 8 (version j) ->
  valid j got spi nonce remote = true <->
  got = cookieWith (current j) (version j) spi nonce remote \/ got = cookieWith (prev j) (wrap 8 (version j - 1)) spi nonce remote.
Proof.
  intros Hv. pose proof (version_apart _ Hv) as Hne. unfold valid. split.
  - intros H. repeat case_match; try done; apply bool_decide_eq_true in H; auto.
  - intros [->| ->]; rewrite length_cookieWith, Nat.eqb_refl; cbn [negb];
      change (at_ (cookieWith ?s ?v spi nonce remote) 0) with v.
    + rewrite Z.eqb_refl. by apply bool_decide_eq_true.
    + rewrite (proj2 (Z.eqb_neq _ _)) by done. rewrite Z.eqb_refl. by apply bool_decide_eq_true.
Qed.

(** What the jar does while a cookie is out: the calls of [issue] for other initiators. *)
Fixpoint replacements (j : cookieJar) (calls : list (bytes * Z)) : nat * cookieJar :=
  match calls with
  | [] => (0%nat, j)
  | (secret, now) :: calls =>
      let j' := maybeRotate j (Some secret) now in
      let '(n, j'') := replacements j' calls in
      ((if (cookieRotate <=? time_sub now (rotated j)) : bool then S n else n), j'')
  end.

Lemma replacements_0 j calls j' : replacements j calls = (0%nat, j') -> j' = j.
Proof.
  revert j. induction calls as [|[secret now] calls IH]; intros j H; cbn [replacements] in H; [by injection H|].
  unfold maybeRotate in H. destruct (cookieRotate <=? _); destruct (replacements _ calls) as [n j1] eqn:E; [done|].
  injection H as -> <-. by apply IH.
Qed.

Lemma replacements_1 j calls j' : replacements j calls = (1%nat, j') -> prev j' = current j /\ version j' = wrap 8 (version j + 1).
Proof.
  revert j. induction calls as [|[secret now] calls IH]; intros j H; cbn [replacements] in H; [done|].
  unfold maybeRotate in H. destruct (cookieRotate <=? _); destruct (replacements _ calls) as [n j1] eqn:E; simplify_eq.
  - apply replacements_0 in E as ->. done.
  - by apply IH.
Qed.

Lemma uint8_version_kept j calls : uint 8 (version j) -> uint 8 (version (replacements j calls).2).
Proof.
  revert j. induction calls as [|[secret now] calls IH]; intros j Hv; cbn [replacements]; [done|].
  destruct (replacements _ calls) as [n j1] eqn:E. cbn [snd]. replace j1 with (replacements (maybeRotate j (Some secret) now) calls).2 by (by rewrite E).
  apply IH. unfold maybeRotate. destruct (_ <=? _); [apply wrap_uint; lia|done].
Qed.

(** The responder's cookies.  A cookie issued to an initiator is accepted from
    that address, with that nonce and SPI, as long as the secret has been replaced at
    most once since; and whatever is accepted is what one of the two secrets held gives
    for exactly the nonce, address and SPI it came with. *)
Theorem cookie_window (j : cookieJar) (secret : bytes) (now spi : Z) (nonce : bytes) (remote : option UDPAddr) (calls : list (bytes * Z)) :
  uint 8 (version j) ->
  let '(cookie, j1) := issue j (Some secret) now spi nonce remote in
  let '(n, j2) := replacements j1 calls in
  ((n <= 1)%nat -> valid j2 cookie spi nonce remote = true) /\
  (forall got spi' nonce' remote', valid j2 got spi' nonce' remote' = true ->
     got = cookieWith (current j2) (version j2) spi' nonce' remote' \/ got = cookieWith (prev j2) (wrap 8 (version j2 - 1)) spi' nonce' remote').
Proof.
  intros Hv. unfold issue. set (j1 := maybeRotate j (Some secret) now).
  assert (uint 8 (version j1)) as Hv1 by (subst j1; unfold maybeRotate; destruct (_ <=? _); [apply wrap_uint; lia|done]).
  destruct (replacements j1 calls) as [n j2] eqn:E. assert (uint 8 (version j2)) as Hv2.
  { replace j2 with (replacements j1 calls).2 by (by rewrite E). by apply uint8_version_kept. }
  split; [|intros; by apply valid_iff]. intros Hn. apply valid_iff; [done|]. destruct n as [|[|]]; [|..|lia].
  - apply replacements_0 in E as ->. by left.
  - apply replacements_1 in E as [-> ->]. right. f_equal. unfold uint, wrap in *. rewrite Zminus_mod_idemp_l.
    replace (version j1 + 1 - 1) with (version j1) by lia. by rewrite Z.mod_small.
Qed.
End Cookie.

Definition demo_remote : option UDPAddr := Some (mkUDPAddr (Some (IPv4 3232235777)) 500).

Lemma cookie_window_witness :
  let '(cookie, j1) := issue (P := toy_prims) (mkJar (replicate 32 1) (replicate 32 2) 255 0) (Some (replicate 32 3)) 1 7 [9; 9] demo_remote in
  let '(n, j2) := replacements j1 [(replicate 32 4, 5); (replicate 32 5, 130000000000)] in
  ((n <= 1)%nat -> valid (P := toy_prims) j2 cookie 7 [9; 9] demo_remote = true) /\
  (forall got spi nonce remote, valid (P := toy_prims) j2 got spi nonce remote = true ->
     got = cookieWith (P := toy_prims) (current j2) (version j2) spi nonce remote \/
     got = cookieWith (P := toy_prims) (prev j2) (wrap 8 (version j2 - 1)) spi nonce remote).
Proof.
  apply (cookie_window (PO := toy_prims_ok) (mkJar (replicate 32 1) (replicate 32 2) 255 0) (replicate 32 3) 1 7 [9; 9] demo_remote
    [(replicate 32 4, 5); (replicate 32 5, 130000000000)]). split; by_decision.
Defined.
