(* ===== verification/IkeCert.v ===== *)
(** * Certificate authentication, [internal/ikev2/ike/certauth.go]

    How AUTH is signed and verified with a certificate: the RFC 7427 schemes with their
    DER identifiers, the choice among them, the legacy RSA method, and the checks of a
    certificate against an identity and a usage.  X.509 parsing and path building and
    the signature algorithms are Go's: the classes [X509] and [Signing], the latter with
    the law that a signature verifies under the public key of its signer.

    The theorems: whatever AUTH value signing produces is accepted by the verifier that
    holds the signer's public key and signed octets, and under the post-quantum policy a
    value that is accepted was made by the ML-DSA scheme of the certificate's own
    parameter set. *)
From Stdlib Require Import ZArith Lia.
From stdpp Require Import base list gmap.
From S2P Require Import Prelude Crypto IkeMessage IkeBodies.

Abbreviation AuthRSASig := 1 (only parsing).
Abbreviation AuthSharedKeyMIC := 2 (only parsing).
Abbreviation AuthDigitalSig := 14 (only parsing).

Abbreviation IDIPv4Addr := 1 (only parsing).
Abbreviation IDFQDN := 2 (only parsing).
Abbreviation IDRFC822 := 3 (only parsing).
Abbreviation IDIPv6Addr := 5 (only parsing).
Abbreviation IDDERASN1DN := 9 (only parsing).

Abbreviation HashSHA256 := 2 (only parsing).
Abbreviation HashSHA384 := 3 (only parsing).
Abbreviation HashSHA512 := 4 (only parsing).
Abbreviation HashIdentity := 5 (only parsing).

Abbreviation SignatureHashAlgorithms := 16431 (only parsing).
Abbreviation CertX509Signature := 4 (only parsing).

(** ** What the libraries hold *)

Inductive mldsa_params := MLDSA44 | MLDSA65 | MLDSA87.
#[export] Instance mldsa_params_eq_dec : EqDecision mldsa_params.
Proof. solve_decision. Defined.

(** A public key by its dynamic type; a curve is its bit size. *)
Inductive pub_key := RSAKey (k : bytes) | ECDSAKey (bits : Z) (k : bytes) | MLDSAKey (p : mldsa_params) (k : bytes) | OtherKey.

Record Certificate := mkCertificate {
  PublicKey : pub_key; DNSNames : list bytes; EmailAddresses : list bytes; IPAddresses : list bytes; RawSubject : bytes;
  ExtKeyUsage : list Z; UnknownExtKeyUsage : list (list Z) }.

Class X509 (Pool : Type) := {
  ParseCertificate : bytes -> option Certificate;
  VerifyChain : Certificate -> Pool -> list Certificate -> bool;      (* leaf, roots, intermediates *)
}.

(** [crypto.Signer] with its options, and the verifiers; [None] is [crypto.Hash(0)]. *)
Class Signing (Priv : Type) := {
  Public : Priv -> pub_key;
  Sign : Priv -> option hash_alg -> bytes -> bytes -> option bytes;   (* options, message or digest, randomness *)
  rsaVerify : bytes -> hash_alg -> bytes -> bytes -> bool;
  ecdsaVerify : Z -> bytes -> bytes -> bytes -> bool;
  mldsaVerify : mldsa_params -> bytes -> bytes -> bytes -> bool;
}.

Class SigningOk {Priv} (S : Signing Priv) := {
  rsa_signed k n h d rnd s : Public k = RSAKey n -> Sign k (Some h) d rnd = Some s -> rsaVerify n h d s = true;
  ecdsa_signed k b n h d rnd s : Public k = ECDSAKey b n -> Sign k (Some h) d rnd = Some s -> ecdsaVerify b n d s = true;
  mldsa_signed k p n d rnd s : Public k = MLDSAKey p n -> Sign k None d rnd = Some s -> mldsaVerify p n d s = true;
}.

(** ** Schemes *)

Inductive sigFamily := famRSA | famECDSA | famMLDSA.
#[export] Instance sigFamily_eq_dec : EqDecision sigFamily.
Proof. solve_decision. Defined.

Record sigAlg := mkSigAlg { hashID : Z; sighash : option hash_alg; algID : bytes; family : sigFamily; params : option mldsa_params }.

Definition algRSA (x : Z) : bytes := [0x30; 0x0d; 0x06; 0x09; 0x2a; 0x86; 0x48; 0x86; 0xf7; 0x0d; 0x01; 0x01; x; 0x05; 0x00].
Definition algECDSA (x : Z) : bytes := [0x30; 0x0a; 0x06; 0x08; 0x2a; 0x86; 0x48; 0xce; 0x3d; 0x04; 0x03; x].
Definition algMLDSA (x : Z) : bytes := [0x30; 0x0b; 0x06; 0x09; 0x60; 0x86; 0x48; 0x01; 0x65; 0x03; 0x04; 0x03; x].

Definition knownSigAlgs : list sigAlg := [
  mkSigAlg HashSHA256 (Some SHA256) (algRSA 0x0b) famRSA None;
  mkSigAlg HashSHA384 (Some SHA384) (algRSA 0x0c) famRSA None;
  mkSigAlg HashSHA512 (Some SHA512) (algRSA 0x0d) famRSA None;
  mkSigAlg HashSHA256 (Some SHA256) (algECDSA 0x02) famECDSA None;
  mkSigAlg HashSHA384 (Some SHA384) (algECDSA 0x03) famECDSA None;
  mkSigAlg HashSHA512 (Some SHA512) (algECDSA 0x04) famECDSA None;
  mkSigAlg HashIdentity None (algMLDSA 0x11) famMLDSA (Some MLDSA44);
  mkSigAlg HashIdentity None (algMLDSA 0x12) famMLDSA (Some MLDSA65);
  mkSigAlg HashIdentity None (algMLDSA 0x13) famMLDSA (Some MLDSA87)].

Fixpoint find_alg (ok : sigAlg -> bool) (l : list sigAlg) : option sigAlg :=
  match l with [] => None | a :: l => if ok a then Some a else find_alg ok l end.

Definition lookupSigAlg (id : bytes) : option sigAlg := find_alg (fun a => bool_decide (algID a = id)) knownSigAlgs.

Inductive cert_error :=
| ErrNoIdentityHash | ErrUnsupportedKey | ErrNoCommonHash | ErrSigning | ErrAuthMethod (m : Z) | ErrEmptySig | ErrTruncatedSig
| ErrUnknownAlg | ErrFamily | ErrParams | ErrVerify | ErrChain | ErrIDMismatch | ErrUsage | ErrNotPostQuantum
| ErrCertEncoding (e : Z) | ErrEmptyCert | ErrCertPayload (e : payload_error).

Definition accepts (peerHashes : list Z) (h : Z) : bool := bool_decide (peerHashes = []) || bool_decide (h ∈ peerHashes).

(** The loop over preferred hashes. *)
Fixpoint first_hash (fam : sigFamily) (peerHashes pref : list Z) : option sigAlg :=
  match pref with
  | [] => None
  | want :: pref =>
      if negb (accepts peerHashes want) then first_hash fam peerHashes pref
      else
        match find_alg (fun a => bool_decide (family a = fam) && (hashID a =? want)) knownSigAlgs with
        | Some a => Some a
        | None => first_hash fam peerHashes pref
        end
  end.

Definition chooseSigAlg (pub : pub_key) (peerHashes : list Z) : result cert_error sigAlg :=
  let pick fam pref := match first_hash fam peerHashes pref with Some a => Ok a | None => Err ErrNoCommonHash end in
  match pub with
  | RSAKey _ => pick famRSA [HashSHA256; HashSHA384; HashSHA512]
  | MLDSAKey p _ =>
      match find_alg (fun a => bool_decide (family a = famMLDSA) && bool_decide (params a = Some p)) knownSigAlgs with
      | Some a => if negb (accepts peerHashes HashIdentity) then Err ErrNoIdentityHash else Ok a
      | None => Err ErrUnsupportedKey
      end
  | ECDSAKey bits _ =>
      pick famECDSA (if bits =? 521 then [HashSHA512; HashSHA384; HashSHA256]
                     else if bits =? 384 then [HashSHA384; HashSHA512; HashSHA256] else [HashSHA256; HashSHA384; HashSHA512])
  | OtherKey => Err ErrUnsupportedKey
  end.

(** ** Notifies *)

Definition sigHashList : list Z := [HashIdentity; HashSHA512; HashSHA384; HashSHA256].

Definition addSigHashNotify (b : Builder) : Builder :=
  Add b TypeNotify false (MarshalNotify (mkNotify 0 SignatureHashAlgorithms [] (concat (be_enc 2 <$> sigHashList)))).

Fixpoint hash_ids (data : bytes) : list Z :=
  match data with a :: b :: data => Z.lor (Z.shiftl a 8) b :: hash_ids data | _ => [] end.

Fixpoint findSigHashes (payloads : list RawPayload) : list Z :=
  match payloads with
  | [] => []
  | p :: payloads =>
      if negb (Type_ p =? TypeNotify) then findSigHashes payloads
      else
        match ParseNotify (Body p) with
        | Ok n => if NType n =? SignatureHashAlgorithms then hash_ids (NData n) else findSigHashes payloads
        | Err _ => findSigHashes payloads
        end
  end.

(** ** Signing and verifying *)

Section Cert.
Context {D : Digests} {Priv Pool : Type} {SG : Signing Priv} {X : X509 Pool}.

(** The leaf first, as it goes into CERT payloads, and the private key. *)
Record certCredential := mkCredential { chain : list bytes; signer : Priv }.

Definition hashOctets (h : hash_alg) (octets : bytes) : bytes := digest h octets.

Definition signAuthDigital (cred : certCredential) (octets : bytes) (peerHashes : list Z) (rnd : bytes) : result cert_error (Z * bytes) :=
  let* alg := chooseSigAlg (Public (signer cred)) peerHashes in
  let signed := match sighash alg with Some h => if bool_decide (family alg = famMLDSA) then octets else hashOctets h octets | None => octets end in
  let opts := if bool_decide (family alg = famMLDSA) then None else sighash alg in
  match Sign (signer cred) opts signed rnd with
  | None => Err ErrSigning
  | Some sig => Ok (AuthDigitalSig, [wrap 8 (Z.of_nat (length (algID alg)))] ++ algID alg ++ sig)
  end.

Definition signAuthRSALegacy (cred : certCredential) (octets rnd : bytes) : result cert_error (Z * bytes) :=
  match Public (signer cred) with
  | RSAKey _ =>
      match Sign (signer cred) (Some SHA1) (digest SHA1 octets) rnd with None => Err ErrSigning | Some sig => Ok (AuthRSASig, sig) end
  | _ => Err ErrUnsupportedKey
  end.

Definition signAuth (cred : certCredential) (octets : bytes) (peerHashes : list Z) (rnd : bytes) : result cert_error (Z * bytes) :=
  if (0 <? length peerHashes)%nat then signAuthDigital cred octets peerHashes rnd else signAuthRSALegacy cred octets rnd.

Definition verifyAuthDigital (pub : pub_key) (octets data : bytes) : result cert_error () :=
  if (length data <? 1)%nat then Err ErrEmptySig
  else
    let algLen := Z.to_nat (at_ data 0) in
    if (length data <? 1 + algLen)%nat then Err ErrTruncatedSig
    else
      let sig := drop (1 + algLen) data in
      match lookupSigAlg (slice data 1 (1 + algLen)) with
      | None => Err ErrUnknownAlg
      | Some alg =>
          match pub, sighash alg with
          | RSAKey n, Some h =>
              if negb (bool_decide (family alg = famRSA)) then Err ErrFamily
              else if rsaVerify n h (hashOctets h octets) sig then Ok () else Err ErrVerify
          | ECDSAKey b n, Some h =>
              if negb (bool_decide (family alg = famECDSA)) then Err ErrFamily
              else if ecdsaVerify b n (hashOctets h octets) sig then Ok () else Err ErrVerify
          | RSAKey _, None | ECDSAKey _ _, None => Err ErrFamily
          | MLDSAKey p n, _ =>
              if negb (bool_decide (family alg = famMLDSA)) then Err ErrFamily
              else if negb (bool_decide (params alg = Some p)) then Err ErrParams
              else if mldsaVerify p n octets sig then Ok () else Err ErrVerify
          | OtherKey, _ => Err ErrUnsupportedKey
          end
      end.

Definition verifyAuthRSALegacy (pub : pub_key) (octets sig : bytes) : result cert_error () :=
  match pub with
  | RSAKey n => if rsaVerify n SHA1 (digest SHA1 octets) sig then Ok () else Err ErrVerify
  | _ => Err ErrUnsupportedKey
  end.

Definition verifyAuth (pub : pub_key) (method : Z) (octets data : bytes) : result cert_error () :=
  if method =? AuthDigitalSig then verifyAuthDigital pub octets data
  else if method =? AuthRSASig then verifyAuthRSALegacy pub octets data
  else Err (ErrAuthMethod method).

Definition requirePostQuantumKey (pub : pub_key) : result cert_error () :=
  match pub with MLDSAKey _ _ => Ok () | _ => Err ErrNotPostQuantum end.

(** ** Certificates *)

Definition verifyPeerCertChain (leafDER : bytes) (intermediateDER : list bytes) (roots : Pool) : result cert_error Certificate :=
  match ParseCertificate leafDER with
  | None => Err ErrChain
  | Some leaf => if VerifyChain leaf roots (omap ParseCertificate intermediateDER) then Ok leaf else Err ErrChain
  end.

(** [net.IP.Equal]. *)
Definition ip_equal (a b : bytes) : bool :=
  if (length a =? length b)%nat then bool_decide (a = b)
  else if ((length a =? 4) && (length b =? 16))%nat then bool_decide (b = v4_mapped_prefix ++ a)
  else if ((length a =? 16) && (length b =? 4))%nat then bool_decide (a = v4_mapped_prefix ++ b)
  else false.

Definition certMatchesID (cert : Certificate) (id : IDPayload) : result cert_error () :=
  let ok (b : bool) := if b then Ok () else Err ErrIDMismatch in
  if IDType id =? IDFQDN then ok (bool_decide (IDData id ∈ DNSNames cert))
  else if IDType id =? IDRFC822 then ok (bool_decide (IDData id ∈ EmailAddresses cert))
  else if (IDType id =? IDIPv4Addr) || (IDType id =? IDIPv6Addr) then ok (existsb (fun ip => ip_equal ip (IDData id)) (IPAddresses cert))
  else if IDType id =? IDDERASN1DN then ok (bool_decide (RawSubject cert = IDData id))
  else Ok ().

Definition checkableIDType (t : Z) : bool :=
  (t =? IDFQDN) || (t =? IDRFC822) || (t =? IDIPv4Addr) || (t =? IDIPv6Addr) || (t =? IDDERASN1DN).

(** [x509.ExtKeyUsageAny] and [x509.ExtKeyUsageServerAuth]. *)
Abbreviation ExtKeyUsageAny := 0 (only parsing).
Abbreviation ExtKeyUsageServerAuth := 1 (only parsing).
Definition oidIPsecIKE : list Z := [1; 3; 6; 1; 5; 5; 7; 3; 17].

Definition requireServerUsage (cert : Certificate) : result cert_error () :=
  if bool_decide (ExtKeyUsage cert = []) && bool_decide (UnknownExtKeyUsage cert = []) then Ok ()
  else if existsb (fun u => (u =? ExtKeyUsageServerAuth) || (u =? ExtKeyUsageAny)) (ExtKeyUsage cert) then Ok ()
  else if bool_decide (oidIPsecIKE ∈ UnknownExtKeyUsage cert) then Ok ()
  else Err ErrUsage.

(** [parseCertChain] of [ike_auth.go]. *)
Fixpoint cert_data (certs : list RawPayload) : result cert_error (list bytes) :=
  match certs with
  | [] => Ok []
  | cp :: certs =>
      match ParseCert (Body cp) with
      | Err e => Err (ErrCertPayload e)
      | Ok c =>
          if negb (CEncoding c =? CertX509Signature) then Err (ErrCertEncoding (CEncoding c))
          else let* rest := cert_data certs in Ok (CData c :: rest)
      end
  end.

Definition parseCertChain (certs : list RawPayload) : result cert_error (bytes * list bytes) :=
  let* ds := cert_data certs in
  match ds with
  | [] => Err ErrEmptyCert
  | leaf :: inter => if (length leaf =? 0)%nat then Err ErrEmptyCert else Ok (leaf, inter)
  end.

(** ** Agreement *)

Lemma find_alg_spec ok l a : find_alg ok l = Some a -> a ∈ l /\ ok a = true.
Proof.
  induction l as [|x l IH]; cbn [find_alg]; [done|]. destruct (ok x) eqn:E; [intros [= <-]; set_solver|].
  intros H. apply IH in H. set_solver.
Qed.

Lemma first_hash_spec fam ph pref a : first_hash fam ph pref = Some a -> a ∈ knownSigAlgs /\ family a = fam.
Proof.
  induction pref as [|w pref IH]; cbn [first_hash]; [done|]. destruct (accepts ph w); cbn [negb]; [|done].
  destruct (find_alg _ _) as [x|] eqn:E; [|done]. intros [= <-]. apply find_alg_spec in E as [Hx Hok].
  apply andb_true_iff in Hok as [Hf _]. by apply bool_decide_eq_true in Hf.
Qed.

(** Every known scheme is found again under its identifier, which one octet measures. *)
Lemma known_found a : a ∈ knownSigAlgs ->
  lookupSigAlg (algID a) = Some a /\ (length (algID a) < 256)%nat /\
  match family a with famRSA | famECDSA => is_Some (sighash a) | famMLDSA => sighash a = None end.
Proof.
  unfold knownSigAlgs. intros H. repeat (apply elem_of_cons in H as [->|H]; [vm_compute; split_and!; by eauto using Nat.ltb_lt || lia|]).
  by apply elem_of_nil in H.
Qed.

Lemma chooseSigAlg_spec pub ph a : chooseSigAlg pub ph = Ok a ->
  a ∈ knownSigAlgs /\
  match pub with
  | RSAKey _ => family a = famRSA
  | ECDSAKey _ _ => family a = famECDSA
  | MLDSAKey p _ => family a = famMLDSA /\ params a = Some p
  | OtherKey => False
  end.
Proof.
  unfold chooseSigAlg. destruct pub as [n|b n|p n|]; [| | |done].
  - destruct (first_hash famRSA ph _) eqn:E; [|done]. intros [= <-]. by apply first_hash_spec in E.
  - destruct (first_hash famECDSA ph _) eqn:E; [|done]. intros [= <-]. by apply first_hash_spec in E.
  - destruct (find_alg _ _) as [x|] eqn:E; [|done]. destruct (accepts ph HashIdentity); cbn [negb]; [|done]. intros [= <-].
    apply find_alg_spec in E as [Hx Hok]. apply andb_true_iff in Hok as [H1 H2].
    apply bool_decide_eq_true in H1. apply bool_decide_eq_true in H2. done.
Qed.

(** The parts of a method 14 value. *)
Lemma signed_split (id sig : bytes) :
  (length id < 256)%nat ->
  let dat := wrap 8 (Z.of_nat (length id)) :: id ++ sig in
  Z.to_nat (at_ dat 0) = length id /\ slice dat 1 (1 + length id) = id /\ drop (1 + length id) dat = sig /\ (1 + length id <= length dat)%nat.
Proof.
  intros Hl dat. assert (at_ dat 0 = Z.of_nat (length id)) as -> by (cbn; rewrite wrap_small; [done|unfold uint; lia]).
  rewrite Nat2Z.id. split_and!; [done|unfold slice; cbn [drop app]; apply take_app_length'; lia|change (drop (length id) (id ++ sig) = sig); by rewrite drop_app_length|].
  subst dat. cbn [length app]. rewrite length_app. lia.
Qed.

Context {SO : SigningOk SG}.

(** What is signed verifies. *)
Lemma signAuth_verifies cred octets ph rnd m data :
  signAuth cred octets ph rnd = Ok (m, data) -> verifyAuth (Public (signer cred)) m octets data = Ok ().
Proof.
  unfold signAuth. destruct (0 <? length ph)%nat.
  - unfold signAuthDigital. intros (a & Ha & H)%rbind_ok. destruct (Sign _ _ _ _) as [sig|] eqn:Es; [|done]. injection H as <- <-.
    apply chooseSigAlg_spec in Ha as [Hk Hf]. destruct (known_found a Hk) as (Hl & Hlen & Hs).
    unfold verifyAuth. cbn [Z.eqb Pos.eqb]. destruct (signed_split (algID a) sig Hlen) as (E1 & E2 & E3 & E4).
    set (dat := wrap 8 _ :: _) in *. clearbody dat. unfold verifyAuthDigital. rewrite E1, (proj2 (Nat.ltb_ge (length dat) 1)) by lia.
    rewrite (proj2 (Nat.ltb_ge _ _)) by lia. rewrite E2, E3.
    rewrite Hl. destruct (Public (signer cred)) as [n|b n|p n|] eqn:Ep; [| | |done].
    + rewrite Hf in Hs. destruct Hs as [h Hh]. rewrite Hf, Hh in *. rewrite bool_decide_eq_false_2 in Es by done.
      rewrite bool_decide_eq_true_2 by done. cbn [negb]. by erewrite rsa_signed.
    + rewrite Hf in Hs. destruct Hs as [h Hh]. rewrite Hf, Hh in *. rewrite bool_decide_eq_false_2 in Es by done.
      rewrite bool_decide_eq_true_2 by done. cbn [negb]. by erewrite ecdsa_signed.
    + destruct Hf as [Hf Hp]. rewrite Hf in Hs, Es. rewrite Hs in Es. rewrite bool_decide_eq_true_2 in Es by done.
      rewrite !bool_decide_eq_true_2 by done. cbn [negb]. by erewrite mldsa_signed.
  - unfold signAuthRSALegacy. destruct (Public (signer cred)) as [n| | |] eqn:Ep; try done.
    destruct (Sign _ _ _ _) as [sig|] eqn:Es; [|done]. intros [= <- <-]. unfold verifyAuth, verifyAuthRSALegacy. cbn [Z.eqb Pos.eqb].
    by erewrite rsa_signed.
Qed.

(** Under the post-quantum policy nothing but ML-DSA is accepted. *)
Lemma post_quantum_only pub m octets data :
  requirePostQuantumKey pub = Ok () -> verifyAuth pub m octets data = Ok () ->
  exists p n sig, pub = MLDSAKey p n /\ m = AuthDigitalSig /\ mldsaVerify p n octets sig = true.
Proof.
  destruct pub as [| |p n|]; try done. intros _. unfold verifyAuth. destruct (Z.eqb_spec m AuthDigitalSig) as [->|]; [|by destruct (m =? AuthRSASig)].
  unfold verifyAuthDigital. destruct (_ <? 1)%nat; [done|]. destruct (_ <? _)%nat; [done|]. destruct (lookupSigAlg _) as [a|]; [|done].
  destruct (bool_decide (family a = famMLDSA)); cbn [negb]; [|done]. destruct (bool_decide (params a = Some p)); cbn [negb]; [|done].
  destruct (mldsaVerify _ _ _ _) eqn:E; [|done]. intros _. by exists p, n, (drop (1 + Z.to_nat (at_ data 0)) data).
Qed.
End Cert.

(** ** An instance *)

(** One signer of no known kind, and no certificates. *)
Definition toy_signing : Signing unit := {|
  Public _ := OtherKey; Sign _ _ _ _ := None; rsaVerify _ _ _ _ := false; ecdsaVerify _ _ _ _ := false; mldsaVerify _ _ _ _ := false |}.
Definition toy_x509 : X509 unit := {| ParseCertificate _ := None; VerifyChain _ _ _ := false |}.
