(* ===== verification/Esp.v ===== *)
(** * The ESP data path, [internal/ikev2/esp/esp.go] and [internal/ikev2/ike/espbridge.go]

    A security association with its prepared crypters, outbound sequence number
    and inbound replay window; encapsulation with traffic-flow-confidentiality
    padding, and decapsulation in place.  The window is the one of BitWindows.v,
    the crypters are those of Crypto.v.  The scratch buffer pool and the capacity
    of the output buffer carry no state a result depends on.

    The theorems: whatever the network does to the packets of a session, each one
    is delivered at most once, unchanged, and exactly when the abstract replay
    filter accepts its sequence number; a packet that does not authenticate
    leaves the window alone; a sequence number is never used twice. *)
From Stdlib Require Import ZArith Lia.
From stdpp Require Import base list gmap.
From S2P Require Import Prelude AntiReplay BitWindows IkeSA Crypto IkeSuite.

Inductive esp_error :=
| ErrShortPacket | ErrUnknownSPI | ErrReplayed | ErrShortTrailer | ErrBadPadLength | ErrSeqExhausted
| ErrPrepare (e : transform_error) | ErrCrypter (e : crypto_error).

(** One direction's [Transform]. *)
Record EspTransform := mkEspTransform {
  ETEncrID : Z; ETEncrKeyLn : Z; ETIntegID : Z; EncKey : bytes; IntegKey : bytes }.

(** [prepared] holds what [prepOnce] computed: both crypters or the error. *)
Record SA := mkESPSA {
  SPIOut : Z; SPIIn : Z; Out : EspTransform; In_ : EspTransform; seqOut : Z; window : esp_replayWindow;
  prepared : option (result transform_error (ESPCrypter * ESPCrypter)) }.

Abbreviation espHeaderLen := 8%nat (only parsing).

Definition crypterFor (t : EspTransform) : result transform_error ESPCrypter :=
  transformESPCrypter (ETEncrID t) (ETEncrKeyLn t) (EncKey t) (ETIntegID t) (IntegKey t).

(** The crypters [prepare] leaves: the stored ones, or those of the first call. *)
Definition crypters (s : SA) : result transform_error (ESPCrypter * ESPCrypter) :=
  match prepared s with
  | Some r => r
  | None => let* out := crypterFor (Out s) in let* inn := crypterFor (In_ s) in Ok (out, inn)
  end.

Definition with_crypters (s : SA) (r : result transform_error (ESPCrypter * ESPCrypter)) : SA :=
  mkESPSA (SPIOut s) (SPIIn s) (Out s) (In_ s) (seqOut s) (window s) (Some r).

Definition prepare (s : SA) : result transform_error (ESPCrypter * ESPCrypter) * SA :=
  (crypters s, with_crypters s (crypters s)).

Definition ResetReplayWindow (s : SA) : SA :=
  mkESPSA (SPIOut s) (SPIIn s) (Out s) (In_ s) 0 (EspWindow 0 0) (prepared s).

Definition with_window (s : SA) (w : esp_replayWindow) : SA :=
  mkESPSA (SPIOut s) (SPIIn s) (Out s) (In_ s) (seqOut s) w (prepared s).

Definition with_seq (s : SA) (seq : Z) : SA :=
  mkESPSA (SPIOut s) (SPIIn s) (Out s) (In_ s) seq (window s) (prepared s).

Section DataPath.
Context {P : Prims}.

(** The payload with its TFC region, the alignment padding and the trailer. *)
Definition esp_plaintext (block : nat) (inner : bytes) (nextHeader minInner : Z) : bytes :=
  let payloadLen := Z.to_nat (Z.max (Z.of_nat (length inner)) minInner) in
  let padLen := ((block - (payloadLen + 2) mod block) mod block)%nat in
  inner ++ replicate (payloadLen - length inner) 0 ++ count_pad padLen ++ [wrap 8 (Z.of_nat padLen); nextHeader].

(** [rnd] is the IV a CBC crypter draws. *)
Definition appendEncapsulated (s : SA) (dst inner : bytes) (nextHeader minInner : Z) (rnd : bytes)
    : result esp_error bytes * SA :=
  match prepare s with
  | (Err e, s) => (Err (ErrPrepare e), s)
  | (Ok (out, inn), s) =>
      if seqOut s =? 2 ^ 32 - 1 then (Err ErrSeqExhausted, s)
      else
        let s := with_seq s (wrap 32 (seqOut s + 1)) in
        let seq := seqOut s in
        let block := Nat.max (EspBlockLen out) 1 in
        let pt := esp_plaintext block inner nextHeader minInner in
        let hdr := be_enc 4 (SPIOut s) ++ be_enc 4 seq in
        match EspSeal out rnd hdr pt with
        | (Ok sealed, out) => (Ok (dst ++ hdr ++ sealed), with_crypters s (Ok (out, inn)))
        | (Err e, out) => (Err (ErrCrypter e), with_crypters s (Ok (out, inn)))
        end
  end.

Definition encapsulate (s : SA) (inner : bytes) (nextHeader minInner : Z) (rnd : bytes) : result esp_error bytes * SA :=
  match prepare s with
  | (Err e, s) => (Err (ErrPrepare e), s)
  | (Ok _, s) => appendEncapsulated s [] inner nextHeader minInner rnd
  end.

Definition Encapsulate (s : SA) (inner : bytes) (nextHeader : Z) (rnd : bytes) : result esp_error bytes * SA :=
  encapsulate s inner nextHeader 0 rnd.

Definition EncapsulatePadded (s : SA) (inner : bytes) (nextHeader minInner : Z) (rnd : bytes) : result esp_error bytes * SA :=
  encapsulate s inner nextHeader minInner rnd.

Definition AppendEncapsulated (s : SA) (dst inner : bytes) (nextHeader minInner : Z) (rnd : bytes) : result esp_error bytes * SA :=
  appendEncapsulated s dst inner nextHeader minInner rnd.

(** Stripping the trailer of a decrypted payload. *)
Definition strip_trailer (plaintext : bytes) : result esp_error (bytes * Z) :=
  if (length plaintext <? 2)%nat then Err ErrShortTrailer
  else
    let nextHeader := at_ plaintext (length plaintext - 1) in
    let padLen := Z.to_nat (at_ plaintext (length plaintext - 2)) in
    if (length plaintext <? padLen + 2)%nat then Err ErrBadPadLength
    else Ok (take (length plaintext - padLen - 2) plaintext, nextHeader).

Definition Decapsulate (s : SA) (pkt : bytes) : result esp_error (bytes * Z) * SA :=
  match prepare s with
  | (Err e, s) => (Err (ErrPrepare e), s)
  | (Ok (_, inn), s) =>
      if (length pkt <? espHeaderLen)%nat then (Err ErrShortPacket, s)
      else if negb (be_dec (slice pkt 0 4) =? SPIIn s) then (Err ErrUnknownSPI, s)
      else
        let seq := be_dec (slice pkt 4 8) in
        let hdr := take espHeaderLen pkt in
        let body := drop espHeaderLen pkt in
        if esp_check (window s) seq then (Err ErrReplayed, s)
        else
          match OpenInPlace inn hdr body with
          | Err e => (Err (ErrCrypter e), s)
          | Ok plaintext =>
              match strip_trailer plaintext with
              | Err e => (Err e, s)
              | Ok r =>
                  if esp_check (window s) seq then (Err ErrReplayed, s)
                  else (Ok r, with_window s (esp_advance (window s) seq))
              end
          end
  end.
End DataPath.

(** ** The bridge from a Child SA *)

(** The fields of [ChildSA] that [BuildESPSA] reads. *)
Record ChildSA := mkChildSA {
  InboundSPI : Z; OutboundSPI : Z; ChildSuite : ESPSuite;
  EncrOut : bytes; IntegOut : bytes; EncrIn : bytes; IntegIn : bytes }.

Inductive bridge_error := ErrNoCipher.

Definition BuildESPSA (child : ChildSA) : result bridge_error SA :=
  if EEncrID (ChildSuite child) =? 0 then Err ErrNoCipher
  else
    let dir enc integ :=
      mkEspTransform (EEncrID (ChildSuite child)) (EEncrKeyLn (ChildSuite child)) (EIntegID (ChildSuite child)) enc integ in
    Ok (mkESPSA (OutboundSPI child) (InboundSPI child) (dir (EncrOut child) (IntegOut child))
          (dir (EncrIn child) (IntegIn child)) 0 (EspWindow 0 0) None).

(** ** One packet *)

Lemma strip_trailer_spec x pad b nh :
  Z.to_nat b = length pad -> strip_trailer (x ++ pad ++ [b; nh]) = Ok (x, nh).
Proof.
  intros Hb. unfold strip_trailer. rewrite !length_app. cbn [length].
  rewrite (proj2 (Nat.ltb_ge _ 2)) by lia. rewrite app_assoc.
  assert (at_ ((x ++ pad) ++ [b; nh]) (length x + (length pad + 2) - 1) = nh) as ->.
  { rewrite at_app_r by (rewrite length_app; lia). rewrite length_app.
    by replace (length x + (length pad + 2) - 1 - (length x + length pad))%nat with 1%nat by lia. }
  assert (at_ ((x ++ pad) ++ [b; nh]) (length x + (length pad + 2) - 2) = b) as ->.
  { rewrite at_app_r by (rewrite length_app; lia). rewrite length_app.
    by replace (length x + (length pad + 2) - 2 - (length x + length pad))%nat with 0%nat by lia. }
  rewrite Hb, (proj2 (Nat.ltb_ge _ _)) by lia.
  replace (length x + (length pad + 2) - length pad - 2)%nat with (length x) by lia.
  by rewrite <- app_assoc, take_app_length.
Qed.

Lemma esp_padLen block n :
  (0 < block)%nat -> let padLen := ((block - (n + 2) mod block) mod block)%nat in
  (padLen < block)%nat /\ Nat.divide block (n + padLen + 2).
Proof.
  intros Hb. cbv zeta. pose proof (Nat.mod_upper_bound (n + 2) block ltac:(lia)) as Hm.
  pose proof (Nat.div_mod_eq (n + 2) block) as Hd. set (m := ((n + 2) mod block)%nat) in *. set (q := ((n + 2) / block)%nat) in *.
  split; [apply Nat.mod_upper_bound; lia|]. destruct (decide (m = 0)%nat) as [->|Hne].
  - rewrite Nat.sub_0_r, Nat.Div0.mod_same. exists q. lia.
  - rewrite Nat.mod_small by lia. exists (S q). lia.
Qed.

(** What the receiver hands on: the packet with its TFC region. *)
Definition padded_inner (inner : bytes) (minInner : Z) : bytes :=
  inner ++ replicate (Z.to_nat (Z.max (Z.of_nat (length inner)) minInner) - length inner) 0.

Lemma esp_plaintext_spec block inner nh minInner :
  (0 < block <= 256)%nat ->
  strip_trailer (esp_plaintext block inner nh minInner) = Ok (padded_inner inner minInner, nh) /\
  Nat.divide block (length (esp_plaintext block inner nh minInner)).
Proof.
  intros Hb. unfold esp_plaintext, padded_inner. cbv zeta. set (n := Z.to_nat (Z.max _ _)).
  destruct (esp_padLen block n ltac:(lia)) as [Hp Hd]. set (p := ((block - _) mod block)%nat) in *. split.
  - rewrite app_assoc. apply strip_trailer_spec. rewrite length_count_pad, wrap_small, Nat2Z.id; [done|].
    unfold uint. change (2 ^ 8) with 256. lia.
  - rewrite !length_app, length_replicate, length_count_pad. cbn [length].
    replace (length inner + (n - length inner + (p + 2)))%nat with (n + p + 2)%nat by (subst n; lia). done.
Qed.

Section Session.
Context {P : Prims} {PO : PrimsOk P}.

(** At most [n] packets have been sealed. *)
Definition sealed_upto (c : ESPCrypter) (n : Z) : Prop :=
  match c with EspAEAD _ _ _ iv => 0 <= iv <= n | EspCBC _ _ i => (IntegICVLen i <= hashSize (IntegHash i))%nat end.

Lemma EspSeal_ok c d rnd aad pt n :
  same_keys c d -> sealed_upto c n -> n < 2 ^ 32 -> length rnd = blockSize ->
  Nat.divide (Nat.max (EspBlockLen c) 1) (length pt) ->
  exists sealed c', EspSeal c rnd aad pt = (Ok sealed, c') /\ OpenInPlace d aad sealed = Ok pt /\
    same_keys c' d /\ sealed_upto c' (n + 1).
Proof.
  intros Hk Hc Hn Hr Hd. assert (crypter_ok c) as Hok by (destruct c; cbn in *; [unfold uint; lia|done]).
  assert (exists sealed c', EspSeal c rnd aad pt = (Ok sealed, c') /\ sealed_upto c' (n + 1)) as (sealed & c' & E & Hc').
  { destruct c as [alg key salt iv|key ik i]; unfold EspSeal, espAEAD_Seal, espCBC_Seal.
    - cbn in Hc. rewrite (proj2 (Z.eqb_neq _ _)) by lia. do 2 eexists. split; [reflexivity|]. cbn. lia.
    - assert (aligned pt = true) as -> by (by apply aligned_divide). cbn [negb]. do 2 eexists. split; [reflexivity|done]. }
  exists sealed, c'. destruct (EspSeal_spec c d rnd aad pt sealed c' Hk Hok Hr E) as (Ho & _ & Hk' & _). done.
Qed.

Lemma EspBlockLen_pos c : (0 < Nat.max (EspBlockLen c) 1 <= 256)%nat.
Proof. destruct c; cbn [EspBlockLen]; unfold blockSize; lia. Qed.

(** The sender has sent [k] packets under keys matching the receiver's [ic]. *)
Definition sender_ok (spi : Z) (ic : ESPCrypter) (k : Z) (s : SA) : Prop :=
  exists oc inn, crypters s = Ok (oc, inn) /\ same_keys oc ic /\ sealed_upto oc k /\ seqOut s = k /\ SPIOut s = spi.

(** What a packet on the wire is worth to that receiver. *)
Definition wire_packet (spi : Z) (ic : ESPCrypter) (seq : Z) (inner : bytes) (nh : Z) (pkt : bytes) : Prop :=
  exists body pt, pkt = be_enc 4 spi ++ be_enc 4 seq ++ body /\
    OpenInPlace ic (be_enc 4 spi ++ be_enc 4 seq) body = Ok pt /\ strip_trailer pt = Ok (inner, nh).

Lemma encapsulate_spec spi ic k s inner nh minInner rnd :
  sender_ok spi ic k s -> 0 <= k < 2 ^ 32 - 1 -> length rnd = blockSize ->
  exists pkt s', encapsulate s inner nh minInner rnd = (Ok pkt, s') /\ sender_ok spi ic (k + 1) s' /\
    wire_packet spi ic (k + 1) (padded_inner inner minInner) nh pkt.
Proof.
  intros (oc & inn & Hc & Hk & Hs & Hq & Hspi) Hb Hr. unfold encapsulate, appendEncapsulated, prepare.
  assert (crypters (with_crypters s (crypters s)) = Ok (oc, inn)) as Hc' by (rewrite Hc; done).
  rewrite Hc' . rewrite Hc. cbv iota beta. cbn [seqOut with_crypters with_seq SPIOut].
  rewrite Hq, (proj2 (Z.eqb_neq _ _)) by lia. rewrite wrap_small by (unfold uint; lia). cbv zeta.
  destruct (esp_plaintext_spec _ inner nh minInner (EspBlockLen_pos oc)) as [Hst Hd].
  set (pt := esp_plaintext _ _ _ _) in *. set (hdr := be_enc 4 (SPIOut s) ++ _).
  destruct (EspSeal_ok oc ic rnd hdr pt k Hk Hs ltac:(lia) Hr Hd) as (sealed & oc' & -> & Ho & Hk' & Hs').
  do 2 eexists. split; [reflexivity|]. split.
  - exists oc', inn. unfold crypters. cbn. done.
  - exists sealed, pt. subst hdr. rewrite Hspi in *. rewrite <- app_assoc. done.
Qed.

Lemma Decapsulate_wire spi ic oc seq inner nh pkt r :
  wire_packet spi ic seq inner nh pkt -> crypters r = Ok (oc, ic) -> SPIIn r = spi -> uint32 spi -> uint32 seq ->
  Decapsulate r pkt =
    let r := with_crypters r (Ok (oc, ic)) in
    if esp_check (window r) seq then (Err ErrReplayed, r)
    else (Ok (inner, nh), with_window r (esp_advance (window r) seq)).
Proof.
  intros (body & pt & -> & Ho & Hst) Hc Hspi Hu Hseq. unfold Decapsulate, prepare. rewrite Hc. cbv zeta.
  rewrite (proj2 (Nat.ltb_ge _ _)) by (rewrite !length_app, !length_be_enc; lia).
  set (pkt := be_enc 4 spi ++ _).
  assert (slice pkt 0 4 = be_enc 4 spi) as -> by reflexivity. assert (slice pkt 4 8 = be_enc 4 seq) as -> by reflexivity.
  assert (take espHeaderLen pkt = be_enc 4 spi ++ be_enc 4 seq) as -> by reflexivity.
  assert (drop espHeaderLen pkt = body) as -> by reflexivity.
  rewrite !be_dec_enc_small by done. cbn [SPIIn with_crypters]. rewrite Hspi, Z.eqb_refl. cbn [negb].
  destruct (esp_check _ seq) eqn:Ek; [done|]. by rewrite Ho, Hst.
Qed.

(** A session: packets sealed in turn, and datagrams opened in turn. *)
Record send := mkSend { sInner : bytes; sNext : Z; sMin : Z; sRnd : bytes }.

Fixpoint send_all (s : SA) (l : list send) : list (result esp_error bytes) * SA :=
  match l with
  | [] => ([], s)
  | x :: l =>
      let '(o, s) := EncapsulatePadded s (sInner x) (sNext x) (sMin x) (sRnd x) in
      let '(os, s) := send_all s l in (o :: os, s)
  end.

Fixpoint recv_all (r : SA) (l : list bytes) : list (result esp_error (bytes * Z)) * SA :=
  match l with
  | [] => ([], r)
  | pkt :: l =>
      let '(o, r) := Decapsulate r pkt in
      let '(os, r) := recv_all r l in (o :: os, r)
  end.

Definition payload_of (x : send) : bytes * Z := (padded_inner (sInner x) (sMin x), sNext x).

Lemma send_all_spec spi ic k s l :
  sender_ok spi ic k s -> 0 <= k -> k + Z.of_nat (length l) <= 2 ^ 32 - 1 -> Forall (fun x => length (sRnd x) = blockSize) l ->
  exists pkts s', send_all s l = (Ok <$> pkts, s') /\ length pkts = length l /\
    forall i x pkt, l !! i = Some x -> pkts !! i = Some pkt ->
      wire_packet spi ic (k + Z.of_nat i + 1) (payload_of x).1 (payload_of x).2 pkt.
Proof.
  intros Hs Hk0 Hl Hr. revert k s Hs Hk0 Hl. induction Hr as [|x l Hx Hr IH]; intros k s Hs Hk0 Hl.
  { exists [], s. split_and!; [done|done|]. done. }
  cbn [length] in Hl. destruct (encapsulate_spec spi ic k s (sInner x) (sNext x) (sMin x) (sRnd x) Hs) as (pkt & s1 & E & Hs1 & Hw); [lia|done|].
  destruct (IH (k + 1) s1 Hs1) as (pkts & s2 & E2 & Hlen & Hall); [lia|lia|].
  exists (pkt :: pkts), s2. cbn [send_all]. unfold EncapsulatePadded. rewrite E, E2. split_and!; [done|cbn; lia|].
  intros [|i] y p Hy Hp; simplify_eq/=.
  - by rewrite Z.add_0_r.
  - replace (k + Z.of_nat (S i) + 1) with (k + 1 + Z.of_nat i + 1) by lia. by apply Hall.
Qed.

(** Which deliveries were accepted. *)
Definition accepted_seqs (ds : list nat) (os : list (result esp_error (bytes * Z))) : list Z :=
  omap (fun '(j, o) => if is_ok o then Some (Z.of_nat j + 1) else None) (zip ds os).

Lemma recv_all_spec spi ic sends pkts r oc ds :
  (forall i x pkt, sends !! i = Some x -> pkts !! i = Some pkt ->
     wire_packet spi ic (Z.of_nat i + 1) (payload_of x).1 (payload_of x).2 pkt) ->
  length pkts = length sends -> Z.of_nat (length sends) <= 2 ^ 32 - 1 -> uint32 spi ->
  crypters r = Ok (oc, ic) -> SPIIn r = spi -> Forall (fun j => (j < length sends)%nat) ds ->
  let os := (recv_all r ((pkts !!!.) <$> ds)).1 in
  Forall2 (fun j o => o = Err ErrReplayed \/ exists x, sends !! j = Some x /\ o = Ok (payload_of x)) ds os /\
  accepted_seqs ds os = ar_accepted (window r) ((fun j => Z.of_nat j + 1) <$> ds).
Proof.
  intros Hw Hlen Hn Hspi Hc Hin Hds. revert r Hc Hin. induction Hds as [|j ds Hj _ IH]; intros r Hc Hin; cbn zeta.
  { by split; [constructor|]. }
  destruct (lookup_lt_is_Some_2 sends j Hj) as [x Hx]. destruct (lookup_lt_is_Some_2 pkts j ltac:(lia)) as [pkt Hp].
  specialize (Hw j x pkt Hx Hp) as Hwj. cbn [fmap list_fmap recv_all ar_accepted].
  rewrite (list_lookup_total_correct _ _ _ Hp).
  rewrite (Decapsulate_wire spi ic oc _ _ _ _ r Hwj Hc Hin Hspi) by (unfold uint; lia). cbv zeta.
  change (window (with_crypters r (Ok (oc, ic)))) with (window r). unfold ar_step, esp_window, esp_window_step.
  destruct (esp_check (window r) (Z.of_nat j + 1)).
  - destruct (IH (with_crypters r (Ok (oc, ic))) eq_refl Hin) as [IH1 IH2].
    destruct (recv_all (with_crypters r (Ok (oc, ic))) _) as [os r']. cbn [fst] in *. split; [constructor; [by left|done]|].
    unfold accepted_seqs in *. cbn. exact IH2.
  - set (r1 := with_window _ _). destruct (IH r1 eq_refl Hin) as [IH1 IH2].
    destruct (recv_all r1 _) as [os r']. cbn [fst] in *. split; [constructor; [right; exists x; by destruct (payload_of x)|done]|].
    unfold accepted_seqs in *. cbn. f_equal. exact IH2.
Qed.

(** A crypter fresh from its keys. *)
Lemma crypterFor_fresh t c : crypterFor t = Ok c -> same_keys c c /\ sealed_upto c 0.
Proof.
  unfold crypterFor, transformESPCrypter. destruct (_ =? _).
  { unfold NewAESGCMESPCrypter. destruct (aesKeyLen _) as [kl|]; [|done]. cbn [rbind]. case_match; [done|]. intros [= <-]. split; [done|cbn; lia]. }
  destruct (_ =? _). { unfold NewChaCha20Poly1305ESPCrypter. cbv zeta. case_match; [done|]. intros [= <-]. split; [done|cbn; lia]. }
  destruct (_ =? _); [|done]. intros (i & Hi & H)%rbind_ok. apply transformIntegrity_ok in Hi.
  unfold NewAESCBCESPCrypter in H. destruct (aesKeyLen _) as [kl|]; [|done]. cbn [rbind] in H. destruct (_ <? _)%nat; [done|].
  injection H as <-. split; [done|]. apply Hi.
Qed.

(** Two ends of one Child SA: what one seals with the other opens with. *)
Definition mirrored (a b : ChildSA) : Prop :=
  OutboundSPI a = InboundSPI b /\ ChildSuite a = ChildSuite b /\ EncrOut a = EncrIn b /\ IntegOut a = IntegIn b.

Lemma BuildESPSA_linked a b s r oc inn oc' ic :
  BuildESPSA a = Ok s -> BuildESPSA b = Ok r -> mirrored a b ->
  crypters s = Ok (oc, inn) -> crypters r = Ok (oc', ic) ->
  sender_ok (OutboundSPI a) ic 0 s /\ SPIIn r = OutboundSPI a /\ window r = EspWindow 0 0.
Proof.
  unfold BuildESPSA. intros Ha Hb (E1 & E2 & E3 & E4). destruct (_ =? 0); [done|]. destruct (_ =? 0) in Hb; [done|].
  injection Ha as <-. injection Hb as <-. unfold crypters. cbn [prepared Out In_]. rewrite <- E1, <- E2, <- E3, <- E4.
  set (t := mkEspTransform _ _ _ (EncrOut a) (IntegOut a)).
  intros (c1 & H1 & H)%rbind_ok. apply rbind_ok in H as (c2 & H2 & H). injection H as -> ->.
  intros (c3 & H3 & H)%rbind_ok. apply rbind_ok in H as (c4 & H4 & H). injection H as -> ->.
  assert (ic = oc) as -> by congruence. destruct (crypterFor_fresh t oc H1) as [Hk Hs].
  split; [|done]. exists oc, inn. split_and!; try done. unfold crypters. cbn [prepared Out In_]. fold t. by rewrite H1, H2.
Qed.

(** C11: an ESP session is delivered at most once and unchanged.  Two ends of a
    negotiated Child SA; the sender encapsulates any packets, each with its own
    TFC padding, and the network delivers their datagrams in any order, any
    number of times or never.  Every encapsulation succeeds; every delivery
    yields the packet that was sent with its next header, or is refused as a
    replay; the accepted ones are exactly those the abstract filter of span 64
    accepts, so no packet is ever delivered twice. *)
Theorem esp_session (a b : ChildSA) (s r : SA) (sends : list send) (ds : list nat) :
  BuildESPSA a = Ok s -> BuildESPSA b = Ok r -> mirrored a b -> uint32 (OutboundSPI a) ->
  is_ok (crypters s) = true -> is_ok (crypters r) = true ->
  Z.of_nat (length sends) <= 2 ^ 32 - 1 -> Forall (fun x => length (sRnd x) = blockSize) sends ->
  Forall (fun j => (j < length sends)%nat) ds ->
  exists pkts s', send_all s sends = (Ok <$> pkts, s') /\ length pkts = length sends /\
    let os := (recv_all r ((pkts !!!.) <$> ds)).1 in
    Forall2 (fun j o => o = Err ErrReplayed \/ exists x, sends !! j = Some x /\ o = Ok (payload_of x)) ds os /\
    accepted_seqs ds os = spec_accepted 64 nonzero hist0 ((fun j => Z.of_nat j + 1) <$> ds) /\
    NoDup (accepted_seqs ds os).
Proof.
  intros Ha Hb Hm Hspi Hcs Hcr Hn Hr Hds.
  destruct (crypters s) as [[oc inn]|] eqn:Es; [|done]. destruct (crypters r) as [[oc' ic]|] eqn:Er; [|done].
  destruct (BuildESPSA_linked a b s r oc inn oc' ic Ha Hb Hm Es Er) as (Hs & Hin & Hw).
  destruct (send_all_spec _ ic 0 s sends Hs ltac:(lia) ltac:(lia) Hr) as (pkts & s' & E & Hlen & Hpk).
  exists pkts, s'. split; [done|]. split; [done|]. cbv zeta.
  destruct (recv_all_spec _ ic sends pkts r oc' ds Hpk Hlen Hn Hspi Er Hin Hds) as [H1 H2]. rewrite H2, Hw.
  assert (Forall uint32 ((fun j => Z.of_nat j + 1) <$> ds)) as Hu.
  { apply Forall_fmap. eapply Forall_impl; [exact Hds|]. intros j Hj. cbv beta in Hj. cbn. unfold uint. lia. }
  split; [done|]. split.
  - exact (ar_accepted_refines (W := esp_replayWindow) _ Hu).
  - exact (ar_accepted_NoDup (W := esp_replayWindow) _ Hu).
Qed.

(** What does not authenticate leaves no trace.  A datagram that is refused
    leaves the replay window as it was; one that is accepted carries the SA's
    inbound SPI and a sequence number the window had not seen, and its header and
    body opened under the inbound key to the delivered packet followed by
    padding, the pad length and the next header. *)
Theorem Decapsulate_authentic (r : SA) (pkt : bytes) :
  let '(o, r') := Decapsulate r pkt in
  seqOut r' = seqOut r /\ crypters r' = crypters r /\
  match o with
  | Err _ => window r' = window r
  | Ok (inner, nh) =>
      exists oc ic pt, crypters r = Ok (oc, ic) /\ be_dec (slice pkt 0 4) = SPIIn r /\
        OpenInPlace ic (take 8 pkt) (drop 8 pkt) = Ok pt /\
        (exists pad, pt = inner ++ pad ++ [at_ pt (length pt - 2); nh] /\ length pad = Z.to_nat (at_ pt (length pt - 2))) /\
        esp_check (window r) (be_dec (slice pkt 4 8)) = false /\
        window r' = esp_advance (window r) (be_dec (slice pkt 4 8))
  end.
Proof.
  unfold Decapsulate, prepare. destruct (crypters r) as [[oc ic]|e] eqn:Ec; [|split; [done|]; split; [by unfold crypters|done]].
  assert (crypters (with_crypters r (Ok (oc, ic))) = Ok (oc, ic)) as Ec' by done.
  destruct (length pkt <? espHeaderLen)%nat; [done|]. cbn [SPIIn with_crypters].
  destruct (Z.eqb_spec (be_dec (slice pkt 0 4)) (SPIIn r)) as [Hspi|]; cbn [negb]; [|done].
  cbv zeta. cbn [window with_crypters]. destruct (esp_check (window r) _) eqn:Ek; [done|]. idtac.
  destruct (OpenInPlace ic (take 8 pkt) (drop 8 pkt)) as [pt|e] eqn:Eo; [|done].
  destruct (strip_trailer pt) as [[inner nh]|e] eqn:Est; [|done].
  split; [done|]. split; [done|]. exists oc, ic, pt. split_and!; try done.
  unfold strip_trailer in Est. destruct (Nat.ltb_spec (length pt) 2) as [|H2]; [done|]. cbv zeta in Est.
  set (p := Z.to_nat (at_ pt (length pt - 2))) in *. destruct (Nat.ltb_spec (length pt) (p + 2)) as [|Hp]; [done|].
  injection Est as <- <-. exists (slice pt (length pt - p - 2) (length pt - 2)). split; [|rewrite length_slice by lia; lia].
  set (l := length pt) in *. rewrite <- (take_drop (l - p - 2) pt) at 1. f_equal. unfold slice.
  replace (l - 2 - (l - p - 2))%nat with p by lia. rewrite <- (take_drop p (drop (l - p - 2) pt)) at 1. f_equal.
  rewrite drop_drop. replace (l - p - 2 + p)%nat with (l - 2)%nat by lia.
  destruct (lookup_lt_is_Some_2 pt (l - 2) ltac:(lia)) as [x Hx]. destruct (lookup_lt_is_Some_2 pt (l - 1) ltac:(lia)) as [y Hy].
  rewrite (drop_S _ x) by done. replace (S (l - 2)) with (l - 1)%nat by lia. rewrite (drop_S _ y) by done.
  rewrite drop_ge by lia. unfold at_. by rewrite Hx, Hy.
Qed.

(** A sequence number is never used twice.  An encapsulation that produces a
    packet stamps it with the sequence number after the last one, never 0; once
    the last 32-bit number has been used every further attempt is refused and
    changes nothing. *)
Theorem esp_sequence_never_wraps (s : SA) (dst inner : bytes) (nh minInner : Z) (rnd : bytes) :
  uint32 (seqOut s) -> is_ok (crypters s) = true ->
  let '(o, s') := appendEncapsulated s dst inner nh minInner rnd in
  if seqOut s =? 2 ^ 32 - 1 then o = Err ErrSeqExhausted /\ seqOut s' = seqOut s /\ crypters s' = crypters s
  else seqOut s' = seqOut s + 1 /\ uint32 (seqOut s') /\
    forall pkt, o = Ok pkt -> take (length dst) pkt = dst /\
      slice pkt (length dst) (length dst + 4) = be_enc 4 (SPIOut s) /\
      slice pkt (length dst + 4) (length dst + 8) = be_enc 4 (seqOut s + 1).
Proof.
  intros Hu Hc. unfold appendEncapsulated, prepare. destruct (crypters s) as [[oc ic]|] eqn:Ec; [|done].
  cbn [seqOut with_crypters]. destruct (Z.eqb_spec (seqOut s) (2 ^ 32 - 1)) as [E|E]; [done|].
  cbv zeta. cbn [seqOut with_seq with_crypters SPIOut]. rewrite (wrap_small 32 (seqOut s + 1)) by (unfold uint in *; lia).
  set (hdr := be_enc 4 (SPIOut s) ++ be_enc 4 (seqOut s + 1)).
  destruct (EspSeal oc rnd hdr _) as [[sealed|e] oc']; cbn [seqOut with_crypters with_seq]; (split; [done|split; [unfold uint in *; lia|]]); [|done].
  intros pkt Hpkt. assert (pkt = dst ++ hdr ++ sealed) as -> by congruence. split; [apply take_app_length|].
  assert (forall i j, slice (dst ++ hdr ++ sealed) (length dst + i) (length dst + j) = slice (hdr ++ sealed) i j) as H.
  { intros i j. rewrite slice_drop, drop_app_length. done. }
  rewrite (H 4%nat 8%nat). specialize (H 0%nat 4%nat). rewrite Nat.add_0_r in H. rewrite H. done.
Qed.
End Session.

(** ** A concrete session *)

Definition demo_child : ChildSA :=
  mkChildSA 7 9 (mkESPSuite ENCR_AES_GCM_16 128 0 (AeadCipher AesGCM 16) None) (replicate 20 1) [] (replicate 20 2) [].
Definition demo_peer : ChildSA :=
  mkChildSA 9 7 (mkESPSuite ENCR_AES_GCM_16 128 0 (AeadCipher AesGCM 16) None) (replicate 20 2) [] (replicate 20 1) [].
Definition demo_sa (c : ChildSA) : SA :=
  mkESPSA (OutboundSPI c) (InboundSPI c) (mkEspTransform ENCR_AES_GCM_16 128 0 (EncrOut c) (IntegOut c))
    (mkEspTransform ENCR_AES_GCM_16 128 0 (EncrIn c) (IntegIn c)) 0 (EspWindow 0 0) None.
Definition demo_sends : list send := [mkSend [1; 2; 3] 4 0 (replicate 16 0); mkSend [5] 4 6 (replicate 16 0)].

(** The second packet arrives first, then both, then the second again. *)
Lemma esp_session_witness :
  exists pkts s', send_all (P := toy_prims) (demo_sa demo_child) demo_sends = (Ok <$> pkts, s') /\ length pkts = length demo_sends /\
    let ds := [1; 0; 1]%nat in
    let os := (recv_all (P := toy_prims) (demo_sa demo_peer) ((pkts !!!.) <$> ds)).1 in
    Forall2 (fun j o => o = Err ErrReplayed \/ exists x, demo_sends !! j = Some x /\ o = Ok (payload_of x)) ds os /\
    accepted_seqs ds os = spec_accepted 64 nonzero hist0 ((fun j => Z.of_nat j + 1) <$> ds) /\
    NoDup (accepted_seqs ds os).
Proof.
  apply (esp_session (PO := toy_prims_ok) demo_child demo_peer (demo_sa demo_child) (demo_sa demo_peer) demo_sends [1; 0; 1]%nat).
  - reflexivity.
  - reflexivity.
  - done.
  - by_decision.
  - reflexivity.
  - reflexivity.
  - simpl. lia.
  - by repeat constructor.
  - repeat constructor; simpl; lia.
Defined.

Lemma esp_sequence_never_wraps_witness :
  let '(o, s') := appendEncapsulated (P := toy_prims) (with_seq (demo_sa demo_child) (2 ^ 32 - 1)) [] [1] 4 0 [] in
  o = Err ErrSeqExhausted /\ seqOut s' = 2 ^ 32 - 1.
Proof.
  pose proof (esp_sequence_never_wraps (P := toy_prims) (with_seq (demo_sa demo_child) (2 ^ 32 - 1)) [] [1] 4 0 []
    ltac:(by_decision) ltac:(reflexivity)) as H.
  revert H. vm_compute. intros (H1 & H2 & _). by split.
Defined.
