(* ===== verification/IkeDataPath.v ===== *)
(** * The IKE data path, [internal/ikev2/ike/{datapath,aggfrag_pacer}.go]

    A Child SA as a tunnel of the pump: plain ESP, ESP carrying AGGFRAG payloads, and
    the constant-rate sender on top of it.  Tunnels are pointers into a store; a tunnel's
    identity carries its dynamic type, which is what the pump's type assertions see.
    [PumpDataPath] connects the life of Child SAs to a pump.  The IVs a CBC crypter draws
    come from the store; the buffers a sender reuses hold no state of their own.

    The theorems: what a constant-rate tunnel puts on the wire does not depend on its
    traffic, and the queue and the payloads lose and reorder nothing they accepted. *)
From Stdlib Require Import ZArith Lia.
From stdpp Require Import base list gmap fin_maps countable.
From S2P Require Import Prelude AntiReplay BitWindows Routes Packet Shape Aggfrag IkeBodies Crypto IkeSuite Esp Pump PumpGso.

Abbreviation ESPNextHeader := 144 (only parsing).
Abbreviation pacerQueueDepth := 256%nat (only parsing).
Abbreviation iptfsPayloadSize := 1400 (only parsing).
Abbreviation pacerMinInterval := 100000 (only parsing).

(** ** Routes *)

Definition hostRoute (ip : bytes) : list Prefix :=
  let v4 := To4 ip in
  if bool_decide (v4 = []) then [] else [mkPrefix (IPv4 (be_dec v4)) 32].

Definition hostRoute6 (ip : bytes) : list Prefix :=
  if bool_decide (ip = []) then []
  else if bool_decide (To16 ip = []) then [] else [mkPrefix (IPv6 (be_dec (To16 ip))) 128].

Definition defaultRoute : list Prefix := [mkPrefix (IPv4 0) 0].
Definition defaultRoute6 : list Prefix := [mkPrefix (IPv6 0) 0].

(** ** The pacer's arithmetic *)

Definition int64 (x : Z) : Z := (x + 2 ^ 63) mod 2 ^ 64 - 2 ^ 63.

Definition pacing (rateBytesPerSec payloadSize : Z) : Z * Z :=
  if (rateBytesPerSec <=? 0) || (payloadSize <=? 0) then (0, 0)
  else
    let perPayload := Z.quot (int64 (payloadSize * 1000000000)) rateBytesPerSec in
    if pacerMinInterval <=? perPayload then (perPayload, 1)
    else
      let perPayload := if perPayload <=? 0 then 1 else perPayload in
      let n := Z.quot (pacerMinInterval + perPayload - 1) perPayload in
      (pacerMinInterval, Z.max n 1).

Definition burstsFor (rateBytesPerSec payloadSize : Z) : bool * Z :=
  let '(_, n) := pacing rateBytesPerSec payloadSize in (1 <? n, n).

(** ** Tunnels *)

(** The sender of a paced tunnel; [p_ready] is the local variable of [run]. *)
Record pacer := mkPacer {
  p_size : Z; p_interval : Z; p_perTick : Z; p_queue : list bytes; p_ready : list bytes; p_started : bool; p_stopped : bool; p_sent : Z }.

Record espTunnel := mkEspTunnel {
  et_sa : SA; et_inSPI : Z; et_routes : list Prefix; et_peer : option UDPAddr; et_server : bool;
  et_packer : Packer; et_reasm : Reassembler; et_pacer : option pacer }.

Definition set_sa (t : espTunnel) (s : SA) : espTunnel :=
  mkEspTunnel s (et_inSPI t) (et_routes t) (et_peer t) (et_server t) (et_packer t) (et_reasm t) (et_pacer t).
Definition set_agg (t : espTunnel) (p : Packer) (r : Reassembler) : espTunnel :=
  mkEspTunnel (et_sa t) (et_inSPI t) (et_routes t) (et_peer t) (et_server t) p r (et_pacer t).
Definition set_pacer (t : espTunnel) (p : option pacer) : espTunnel :=
  mkEspTunnel (et_sa t) (et_inSPI t) (et_routes t) (et_peer t) (et_server t) (et_packer t) (et_reasm t) p.

Definition newAggfragTunnel (t : espTunnel) : espTunnel := set_agg t NewPacker NewReassembler.

Definition newPacedTunnel (t : espTunnel) (rate payloadSize : Z) : espTunnel :=
  let '(interval, perTick) := pacing rate payloadSize in
  set_pacer t (Some (mkPacer payloadSize interval perTick [] [] false false 0)).

(** [SetPeerAddr], [a] not nil. *)
Definition setPeerAddr (t : espTunnel) (a : UDPAddr) : espTunnel :=
  let moved := mkEspTunnel (et_sa t) (et_inSPI t) (et_routes t) (Some a) (et_server t) (et_packer t) (et_reasm t) (et_pacer t) in
  match et_peer t with
  | None => moved
  | Some cur => if (udpPort cur =? udpPort a) && bool_decide (Unmap <$> udpIP cur = Unmap <$> udpIP a) then t else moved
  end.

Definition espNextHeader (ipPacket : bytes) : Z :=
  if (0 <? length ipPacket)%nat && (Z.shiftr (at_ ipPacket 0) 4 =? 6) then 41 else 4.

Inductive tunnel_error := ErrDummyPacket | ErrBadInner | ErrESP (e : esp_error) | ErrAggfrag (e : aggfrag_error) | ErrFuel.

Section Tunnel.
Context {P : Prims}.

Definition esp_call {A} (t : espTunnel) (r : result esp_error A * SA) : result tunnel_error A * espTunnel :=
  (match r.1 with Ok a => Ok a | Err e => Err (ErrESP e) end, set_sa t r.2).

(** The methods of [espTunnel]. *)
Definition esp_Encapsulate (t : espTunnel) (ipPacket rnd : bytes) : result tunnel_error bytes * espTunnel :=
  esp_call t (Esp.Encapsulate (et_sa t) ipPacket (espNextHeader ipPacket) rnd).

Definition esp_EncapsulatePadded (t : espTunnel) (ipPacket : bytes) (minInner : Z) (rnd : bytes) : result tunnel_error bytes * espTunnel :=
  esp_call t (Esp.EncapsulatePadded (et_sa t) ipPacket (espNextHeader ipPacket) minInner rnd).

Definition esp_AppendEncapsulated (t : espTunnel) (dst ipPacket : bytes) (minInner : Z) (rnd : bytes) : result tunnel_error bytes * espTunnel :=
  esp_call t (Esp.AppendEncapsulated (et_sa t) dst ipPacket (espNextHeader ipPacket) minInner rnd).

Definition esp_Decapsulate (t : espTunnel) (espPkt : bytes) : result tunnel_error bytes * espTunnel :=
  match esp_call t (Esp.Decapsulate (et_sa t) espPkt) with
  | (Err e, t) => (Err e, t)
  | (Ok (inner, nextHeader), t) =>
      if nextHeader =? 59 then (Err ErrDummyPacket, t)
      else if (nextHeader =? 4) || (nextHeader =? 41) then
        match TrimToIP inner with Some ip => (Ok ip, t) | None => (Err ErrBadInner, t) end
      else (Ok inner, t)
  end.

(** The methods of [aggfragTunnel]; a nil payload has no octets. *)
Definition pack_one (t : espTunnel) (ipPacket : bytes) (size : Z) : bytes * espTunnel :=
  let '(payload, _, p) := Pack (et_packer t) [ipPacket] size in (default [] payload, set_agg t p (et_reasm t)).

Definition agg_Encapsulate (t : espTunnel) (ipPacket rnd : bytes) : result tunnel_error bytes * espTunnel :=
  let '(payload, t) := pack_one t ipPacket (Z.of_nat (HeaderLen + length ipPacket)) in
  esp_call t (Esp.Encapsulate (et_sa t) payload ESPNextHeader rnd).

Definition agg_EncapsulatePadded (t : espTunnel) (ipPacket : bytes) (minInner : Z) (rnd : bytes) : result tunnel_error bytes * espTunnel :=
  let '(payload, t) := pack_one t ipPacket (Z.max (Z.of_nat (HeaderLen + length ipPacket)) minInner) in
  esp_call t (Esp.Encapsulate (et_sa t) payload ESPNextHeader rnd).

Definition agg_AppendEncapsulated (t : espTunnel) (dst ipPacket : bytes) (minInner : Z) (rnd : bytes) : result tunnel_error bytes * espTunnel :=
  let '(payload, t) := pack_one t ipPacket (Z.max (Z.of_nat (HeaderLen + length ipPacket)) minInner) in
  esp_call t (Esp.AppendEncapsulated (et_sa t) dst payload ESPNextHeader 0 rnd).

Definition agg_DecapsulateMulti (t : espTunnel) (espPkt : bytes) : result tunnel_error (list bytes) * espTunnel :=
  match esp_call t (Esp.Decapsulate (et_sa t) espPkt) with
  | (Err e, t) => (Err e, t)
  | (Ok (inner, nextHeader), t) =>
      if nextHeader =? 59 then (Err ErrDummyPacket, t)
      else if nextHeader =? ESPNextHeader then
        match Feed (et_reasm t) inner with
        | None => (Err ErrFuel, t)
        | Some (pkts, None, r) => (Ok pkts, set_agg t (et_packer t) r)
        | Some (_, Some e, r) => (Err (ErrAggfrag e), set_agg t (et_packer t) r)
        end
      else if (nextHeader =? 4) || (nextHeader =? 41) then
        match TrimToIP inner with Some ip => (Ok [ip], t) | None => (Err ErrBadInner, t) end
      else (Err ErrBadInner, t)
  end.

(** The methods of [pacedTunnel]. *)
Definition startPacing (x : espTunnel) : espTunnel :=
  set_pacer x ((fun p => mkPacer (p_size p) (p_interval p) (p_perTick p) (p_queue p) (p_ready p) true (p_stopped p) (p_sent p)) <$> et_pacer x).

Definition stopPacing (x : espTunnel) : espTunnel :=
  set_pacer x ((fun p => mkPacer (p_size p) (p_interval p) (p_perTick p) (p_queue p) (p_ready p) (p_started p) true (p_sent p)) <$> et_pacer x).

Definition paced_Enqueue (p : pacer) (pkt : bytes) : bool * pacer :=
  if (length (p_queue p) <? pacerQueueDepth)%nat
  then (true, mkPacer (p_size p) (p_interval p) (p_perTick p) (p_queue p ++ [pkt]) (p_ready p) (p_started p) (p_stopped p) (p_sent p))
  else (false, p).

Definition fill (ready queue : list bytes) : list bytes * list bytes :=
  let n := (pacerQueueDepth - length ready)%nat in (ready ++ take n queue, drop n queue).

(** One payload of a tick: what is sent, if sealing succeeded. *)
Definition pace_one (t : espTunnel) (p : pacer) (rnd : bytes) : option bytes * espTunnel * pacer :=
  let '(ready, queue) := fill (p_ready p) (p_queue p) in
  let '(payload, remaining, pk) := Pack (et_packer t) ready (p_size p) in
  let t := set_agg t pk (et_reasm t) in
  let '(out, s) := Esp.Encapsulate (et_sa t) (default [] payload) ESPNextHeader rnd in
  let t := set_sa t s in
  let sent := match out with Ok _ => wrap 64 (p_sent p + 1) | Err _ => p_sent p end in
  (match out with Ok o => Some o | Err _ => None end, t,
   mkPacer (p_size p) (p_interval p) (p_perTick p) queue remaining (p_started p) (p_stopped p) sent).

(** The body of [run] for one tick: [n] payloads. *)
Fixpoint pace_n (n : nat) (t : espTunnel) (p : pacer) (rnd : nat -> bytes) (k : nat) : list bytes * espTunnel * pacer :=
  match n with
  | O => ([], t, p)
  | S n =>
      let '(o, t, p) := pace_one t p (rnd k) in
      let '(os, t, p) := pace_n n t p rnd (S k) in
      (match o with Some o => o :: os | None => os end, t, p)
  end.

Definition pace_tick (t : espTunnel) (rnd : nat -> bytes) : list bytes * espTunnel :=
  match et_pacer t with
  | None => ([], t)
  | Some p =>
      if (p_interval p <=? 0) || p_stopped p || negb (p_started p) then ([], t)
      else let '(os, t, p) := pace_n (Z.to_nat (p_perTick p)) t p rnd 0 in (os, set_pacer t (Some p))
  end.
End Tunnel.

(** ** The tunnels of a pump *)

(** A pointer with its dynamic type. *)
Inductive tun_kind := PlainESP | AggFragESP | PacedESP.
#[export] Instance tun_kind_eq_dec : EqDecision tun_kind.
Proof. solve_decision. Defined.
#[export] Instance tun_kind_countable : Countable tun_kind.
Proof.
  refine (inj_countable' (fun k => match k with PlainESP => 0%nat | AggFragESP => 1%nat | PacedESP => 2%nat end)
    (fun n => match n with O => PlainESP | 1%nat => AggFragESP | _ => PacedESP end) _). by intros [].
Defined.

Abbreviation tun_id := (nat * tun_kind)%type (only parsing).

(** The store of tunnels, the TUN device, the IVs drawn so far. *)
Record ike_world := mkIkeWorld { iw_tunnels : gmap nat espTunnel; iw_device : bytes -> bool; iw_ivs : nat -> bytes; iw_drawn : nat }.

Definition put_esp (t : nat) (x : espTunnel) (w : ike_world) : ike_world :=
  mkIkeWorld (<[t := x]> (iw_tunnels w)) (iw_device w) (iw_ivs w) (iw_drawn w).
Definition draw_iv (w : ike_world) : ike_world := mkIkeWorld (iw_tunnels w) (iw_device w) (iw_ivs w) (S (iw_drawn w)).

Section World.
Context {P : Prims}.

(** A call of a method of the tunnel at a pointer, with the IV it may draw. *)
Definition on_esp {A} (t : nat) (w : ike_world) (f : espTunnel -> bytes -> result tunnel_error A * espTunnel) : option A * ike_world :=
  match iw_tunnels w !! t with
  | None => (None, w)
  | Some x => let '(r, x) := f x (iw_ivs w (iw_drawn w)) in (match r with Ok a => Some a | Err _ => None end, draw_iv (put_esp t x w))
  end.

#[export] Instance ike_tunnels : Tunnels tun_id ike_world (option UDPAddr) := {|
  InboundKey := fun t w => match iw_tunnels w !! t.1 with Some x => et_inSPI x | None => 0 end;
  TRoutes := fun t w => match iw_tunnels w !! t.1 with Some x => et_routes x | None => [] end;
  PeerAddr := fun t w => iw_tunnels w !! t.1 ≫= et_peer;
  Encapsulate := fun t w p => on_esp t.1 w (fun x iv => match t.2 with PlainESP => esp_Encapsulate x p iv | _ => agg_Encapsulate x p iv end);
  Decapsulate := fun t w p => on_esp t.1 w (fun x _ => esp_Decapsulate x p);
  isMulti := fun t => match t.2 with PlainESP => false | _ => true end;
  DecapsulateMulti := fun t w p => on_esp t.1 w (fun x _ => agg_DecapsulateMulti x p);
  isPaced := fun t => match t.2 with PacedESP => true | _ => false end;
  Enqueue := fun t w p =>
    match iw_tunnels w !! t.1 with
    | None => (false, w)
    | Some x =>
        match et_pacer x with
        | None => (false, w)
        | Some pc => let '(ok, pc) := paced_Enqueue pc p in (ok, put_esp t.1 (set_pacer x (Some pc)) w)
        end
    end;
  StartPacing := fun t w =>
    match iw_tunnels w !! t.1 with
    | None => w
    | Some x => put_esp t.1 (startPacing x) w
    end;
  StopPacing := fun t w =>
    match iw_tunnels w !! t.1 with
    | None => w
    | Some x => put_esp t.1 (stopPacing x) w
    end;
  isRoamer := fun _ => true;
  SetPeerAddr := fun t w a => match iw_tunnels w !! t.1, a with Some x, Some a => put_esp t.1 (setPeerAddr x a) w | _, _ => w end;
  isPadding := fun _ => true;
  EncapsulatePadded := fun t w p m =>
    on_esp t.1 w (fun x iv => match t.2 with PlainESP => esp_EncapsulatePadded x p m iv | _ => agg_EncapsulatePadded x p m iv end);
  isAppend := fun _ => true;
  AppendEncapsulated := fun t w p m =>
    on_esp t.1 w (fun x iv => match t.2 with PlainESP => esp_AppendEncapsulated x [] p m iv | _ => agg_AppendEncapsulated x [] p m iv end);
  isSourceChecked := fun _ => true;
  VerifyInboundSource := fun t w => match iw_tunnels w !! t.1 with Some x => et_server x | None => false end;
  tunWrite := fun w pkt => (iw_device w pkt, w);
  vnetWrite := fun w pkt => (iw_device w pkt, w);
  vnetWriteGSO := fun w _ frame => (iw_device w frame, w);
  sendTo := fun w _ _ => w;
|}.

(** ** [PumpDataPath] *)

Record PumpDataPath := mkDataPath { dp_pump : @Pump tun_id ike_world (option UDPAddr) _ _; dp_byIn : gmap Z tun_id }.

Definition NewPumpDataPath (p : @Pump tun_id ike_world (option UDPAddr) _ _) : PumpDataPath := mkDataPath p ∅.

(** What [AddChild] reads of a Child SA. *)
Record child_config := mkChildConfig {
  cc_sa : ChildSA; cc_ip : bytes; cc_ip6 : bytes; cc_peer : option UDPAddr; cc_aggfrag : bool; cc_rate : Z }.

Definition dp_AddChild (c : child_config) (d : PumpDataPath) : PumpDataPath :=
  match BuildESPSA (cc_sa c) with
  | Err _ => d
  | Ok sa =>
      let t := mkEspTunnel sa (InboundSPI (cc_sa c)) (hostRoute (cc_ip c) ++ hostRoute6 (cc_ip6 c)) (cc_peer c) true NewPacker NewReassembler None in
      let '(t, kind) :=
        if negb (cc_aggfrag c) then (t, PlainESP)
        else
          let af := newAggfragTunnel t in
          if 0 <? cc_rate c then (newPacedTunnel af (cc_rate c) iptfsPayloadSize, PacedESP) else (af, AggFragESP) in
      let ptr := fresh (dom (iw_tunnels (world (dp_pump d)))) in
      let p := upd_world (put_esp ptr t (world (dp_pump d))) (dp_pump d) in
      mkDataPath (AddTunnel (ptr, kind) p).2 (<[InboundSPI (cc_sa c) := (ptr, kind)]> (dp_byIn d))
  end.

Definition dp_RemoveChild (inboundSPI : Z) (d : PumpDataPath) : PumpDataPath :=
  match dp_byIn d !! inboundSPI with
  | None => d
  | Some t => mkDataPath (RemoveTunnel t (dp_pump d)).2 (delete inboundSPI (dp_byIn d))
  end.

Definition ChildTraffic (inboundSPI : Z) (d : PumpDataPath) : option TunnelStats := dp_byIn d !! inboundSPI ≫= TunnelStatsOf (dp_pump d).

(** [SetPeerAddr] on every tunnel of the SA; they are different pointers, so the order does not matter. *)
Definition dp_UpdatePeerAddr (children : gset Z) (addr : UDPAddr) (d : PumpDataPath) : PumpDataPath :=
  let w := world (dp_pump d) in
  let moved := omap (fun spi => dp_byIn d !! spi) (elements children) in
  let w := fold_left (fun w t => SetPeerAddr t w (Some addr)) moved w in
  mkDataPath (upd_world w (dp_pump d)) (dp_byIn d).

Definition HandleESP (pkt : bytes) (from : UDPAddr) (now : Z) (d : PumpDataPath) : PumpDataPath :=
  mkDataPath (HandleInbound pkt (Some (Some from)) now (dp_pump d)).2 (dp_byIn d).

Definition HandleESPBatch (pkts : list (bytes * option (option UDPAddr))) (now : Z) (d : PumpDataPath) : PumpDataPath :=
  mkDataPath (HandleInboundBatch pkts now (dp_pump d)).2 (dp_byIn d).
End World.

(** ** What a constant-rate tunnel shows *)

(** What can happen to a paced tunnel: the pump offers a packet, the ticker fires, a
    datagram arrives, the peer moves. *)
Inductive pace_event := PEnqueue (pkt : bytes) | PTick (rnd : nat -> bytes) | PInbound (espPkt : bytes) | PRoam (a : UDPAddr).

Definition offered (e : pace_event) : bool := match e with PEnqueue _ => true | _ => false end.

(** What an observer of a datagram sees besides ciphertext: its length, the ESP header, where it goes. *)
Definition visible (x : bytes * option UDPAddr) : nat * bytes * option UDPAddr := (length x.1, take espHeaderLen x.1, x.2).

Section Paced.
Context {P : Prims}.

Definition pace_step (t : espTunnel) (e : pace_event) : list (bytes * option UDPAddr) * espTunnel :=
  match e with
  | PEnqueue pkt => ([], set_pacer t ((fun p => (paced_Enqueue p pkt).2) <$> et_pacer t))
  | PTick rnd => let '(os, t') := pace_tick t rnd in ((fun o => (o, et_peer t)) <$> os, t')
  | PInbound espPkt => ([], (agg_DecapsulateMulti t espPkt).2)
  | PRoam a => ([], setPeerAddr t a)
  end.

Fixpoint pace_run (t : espTunnel) (es : list pace_event) : list (bytes * option UDPAddr) * espTunnel :=
  match es with
  | [] => ([], t)
  | e :: es =>
      let '(os, t) := pace_step t e in
      let '(os', t) := pace_run t es in (os ++ os', t)
  end.

(** Pacers, and tunnels, that differ only in the traffic waiting. *)
Definition low_pacer (p q : pacer) : Prop :=
  p_size p = p_size q /\ p_interval p = p_interval q /\ p_perTick p = p_perTick q /\ p_started p = p_started q /\
  p_stopped p = p_stopped q /\ p_sent p = p_sent q.

Definition low (t u : espTunnel) : Prop :=
  et_sa t = et_sa u /\ et_inSPI t = et_inSPI u /\ et_routes t = et_routes u /\ et_peer t = et_peer u /\ et_server t = et_server u /\
  et_reasm t = et_reasm u /\ option_Forall2 low_pacer (et_pacer t) (et_pacer u).

Lemma low_refl t : low t t.
Proof. unfold low. split_and!; try done. destruct (et_pacer t); constructor. by unfold low_pacer. Qed.

Lemma low_enqueue t e : offered e = true -> (pace_step t e).1 = [] /\ low (pace_step t e).2 t.
Proof.
  destruct e as [pkt| | |]; try done. intros _. split; [done|]. cbn. unfold low. cbn. split_and!; try done.
  destruct (et_pacer t) as [p|]; cbn; constructor. unfold paced_Enqueue. by destruct (_ <? _)%nat.
Qed.

Lemma esp_plaintext_blind block x y nh m :
  length x = length y -> length (esp_plaintext block x nh m) = length (esp_plaintext block y nh m).
Proof. intros H. unfold esp_plaintext. rewrite !length_app, !length_replicate, H. done. Qed.

Lemma length_Pack p q pkts pkts' size :
  length (default [] (Pack p pkts size).1.1) = length (default [] (Pack q pkts' size).1.1).
Proof.
  destruct (Z.ltb_spec size 5) as [Hs|Hs].
  - unfold Pack. by rewrite (proj2 (Z.ltb_lt _ _)) by (unfold HeaderLen; lia).
  - destruct (Pack_constant_size p pkts size Hs) as (a & r & p' & -> & Ha).
    destruct (Pack_constant_size q pkts' size Hs) as (b & r' & q' & -> & Hb). cbn. lia.
Qed.

Context {PO : PrimsOk P}.

(** Two outcomes alike but for the plaintext inside. *)
Definition alike {E} (o o' : result E bytes) (k : nat) : Prop :=
  match o, o' with
  | Ok a, Ok b => length a = length b /\ take k a = take k b
  | Err e, Err e' => e = e'
  | _, _ => False
  end.

Lemma EspSeal_blind c rnd aad x y :
  length x = length y -> alike (EspSeal c rnd aad x).1 (EspSeal c rnd aad y).1 0 /\ (EspSeal c rnd aad x).2 = (EspSeal c rnd aad y).2.
Proof.
  intros H. destruct c as [alg key salt iv|key ik i]; unfold EspSeal, espAEAD_Seal, espCBC_Seal.
  - destruct (_ =? _); [done|]. cbv zeta. cbn [fst snd alike take]. split_and!; [|done..]. rewrite !length_app, !length_aeadSeal. lia.
  - unfold aligned. rewrite H. destruct (negb _); [done|]. cbv zeta. cbn [fst snd alike take]. split_and!; [|done..].
    rewrite !length_app, !length_take, !length_hmac, !length_cbcEncrypt. lia.
Qed.

Lemma Encapsulate_blind s x y nh rnd :
  length x = length y ->
  alike (Esp.Encapsulate s x nh rnd).1 (Esp.Encapsulate s y nh rnd).1 espHeaderLen /\
  (Esp.Encapsulate s x nh rnd).2 = (Esp.Encapsulate s y nh rnd).2.
Proof.
  intros H. unfold Esp.Encapsulate, encapsulate, appendEncapsulated, prepare. destruct (crypters s) as [[oc ic]|]; [|done].
  destruct (crypters (with_crypters s _)) as [[oc' ic']|]; [|done]. destruct (_ =? _); [done|]. cbv zeta.
  set (hdr := be_enc 4 _ ++ be_enc 4 _). assert (length hdr = espHeaderLen) as Hh by reflexivity.
  destruct (EspSeal_blind oc' rnd hdr _ _ (esp_plaintext_blind (Nat.max (EspBlockLen oc') 1) x y nh 0 H)) as [Ha Hc].
  destruct (EspSeal oc' rnd hdr (esp_plaintext _ x nh 0)) as [[a|e] c1], (EspSeal oc' rnd hdr (esp_plaintext _ y nh 0)) as [[b|e'] c2];
    cbn in Ha, Hc; try done; subst; [|done]. cbn [fst snd alike]. rewrite !app_nil_l, !length_app. split; [|done].
  split; [lia|]. rewrite <- Hh. by rewrite !take_app_length.
Qed.

Lemma pace_one_blind t u p q rnd :
  low t u -> low_pacer p q ->
  let '(o, t', p') := pace_one t p rnd in
  let '(o', u', q') := pace_one u q rnd in
  option_Forall2 (fun a b => length a = length b /\ take espHeaderLen a = take espHeaderLen b) o o' /\
  low t' u' /\ low_pacer p' q'.
Proof.
  intros (Hsa & Hi & Hr & Hp & Hsv & Hre & Hpc) (Hz & Hiv & Hpt & Hst & Hsp & Hs). unfold pace_one.
  destruct (fill (p_ready p) (p_queue p)) as [rd qu]. destruct (fill (p_ready q) (p_queue q)) as [rd' qu'].
  pose proof (length_Pack (et_packer t) (et_packer u) rd rd' (p_size p)) as HL. rewrite <- Hz.
  destruct (Pack (et_packer t) rd (p_size p)) as [[pl rem] pk]. destruct (Pack (et_packer u) rd' (p_size p)) as [[pl' rem'] pk'].
  cbn [fst] in HL. cbn [et_sa set_agg]. rewrite <- Hsa.
  destruct (Encapsulate_blind (et_sa t) _ _ ESPNextHeader rnd HL) as [Ha Hc].
  destruct (Esp.Encapsulate (et_sa t) (default [] pl) _ rnd) as [[a|e] s1], (Esp.Encapsulate (et_sa t) (default [] pl') _ rnd) as [[b|e'] s2];
    cbn in Ha, Hc; try done; subst; unfold low, low_pacer; cbn; rewrite ?Hs; split_and!; try done; by constructor.
Qed.

Lemma pace_n_blind n t u p q rnd k :
  low t u -> low_pacer p q ->
  let '(os, t', p') := pace_n n t p rnd k in
  let '(os', u', q') := pace_n n u q rnd k in
  Forall2 (fun a b => length a = length b /\ take espHeaderLen a = take espHeaderLen b) os os' /\ low t' u' /\ low_pacer p' q'.
Proof.
  revert t u p q k. induction n as [|n IH]; intros t u p q k Ht Hp; cbn [pace_n]; [done|].
  pose proof (pace_one_blind t u p q (rnd k) Ht Hp) as H1.
  destruct (pace_one t p (rnd k)) as [[o t1] p1]. destruct (pace_one u q (rnd k)) as [[o' u1] q1]. destruct H1 as (Ho & Ht1 & Hp1).
  pose proof (IH t1 u1 p1 q1 (S k) Ht1 Hp1) as H2.
  destruct (pace_n n t1 p1 rnd (S k)) as [[os t2] p2]. destruct (pace_n n u1 q1 rnd (S k)) as [[os' u2] q2].
  destruct H2 as (Hos & Ht2 & Hp2). split_and!; [|done|done]. destruct Ho; [by constructor|done].
Qed.

Lemma low_set_pacer t u p q : low t u -> low_pacer p q -> low (set_pacer t (Some p)) (set_pacer u (Some q)).
Proof. intros (?&?&?&?&?&?&?) Hpq. unfold low. cbn. split_and!; try done. by constructor. Qed.

Lemma pace_step_blind t u e :
  offered e = false -> low t u -> visible <$> (pace_step t e).1 = visible <$> (pace_step u e).1 /\ low (pace_step t e).2 (pace_step u e).2.
Proof.
  intros He Hl. pose proof Hl as (Hsa & Hi & Hr & Hp & Hsv & Hre & Hpc). destruct e as [|rnd|pkt|a]; [done|..]; cbn [pace_step].
  - unfold pace_tick. destruct Hpc as [p q Hpq|]; [|done]. pose proof Hpq as (Hz & Hiv & Hpt & Hst & Hsp & Hs).
    rewrite <- Hiv, <- Hsp, <- Hst, <- Hpt. destruct (_ || _ || _); [done|].
    pose proof (pace_n_blind (Z.to_nat (p_perTick p)) t u p q rnd 0 Hl Hpq) as H.
    destruct (pace_n _ t p rnd 0) as [[os t'] p']. destruct (pace_n _ u q rnd 0) as [[os' u'] q']. destruct H as (Hos & Ht' & Hp').
    cbn [fst snd]. split; [|by apply low_set_pacer]. rewrite Hp. clear -Hos. induction Hos as [|a b l l' [H1 H2] _ IH]; [done|].
    rewrite !fmap_cons, IH. f_equal. unfold visible. cbn. by rewrite H1, H2.
  - split; [done|]. unfold agg_DecapsulateMulti, esp_call. rewrite <- Hsa.
    destruct (Esp.Decapsulate (et_sa t) pkt) as [[[inner nh]|e] s]; cbn [fst snd]; [|by unfold low].
    cbn [et_reasm set_sa]. rewrite <- Hre. repeat (case_match; cbn [fst snd]; try by unfold low).
  - split; [done|]. unfold setPeerAddr. rewrite <- Hp. destruct (et_peer t) as [c|]; cbn; [case_match|]; by unfold low.
Qed.

Lemma low_trans t u v : low t u -> low u v -> low t v.
Proof.
  intros (?&?&?&?&?&?&Htu) (?&?&?&?&?&?&Huv). unfold low. split_and!; try congruence.
  destruct Htu as [p q (?&?&?&?&?&?)|]; inversion Huv as [q' r (?&?&?&?&?&?)|]; constructor. unfold low_pacer. split_and!; congruence.
Qed.

Lemma low_sym t u : low t u -> low u t.
Proof.
  intros (?&?&?&?&?&?&Htu). unfold low. split_and!; try done.
  destruct Htu as [p q (?&?&?&?&?&?)|]; constructor. by unfold low_pacer.
Qed.

(** What is seen of a run is what is seen of its schedule without the offers. *)
Lemma pace_run_schedule es : forall t u, low t u ->
  visible <$> (pace_run t es).1 = visible <$> (pace_run u (filter (fun e => offered e = false) es)).1.
Proof.
  induction es as [|e es IH]; intros t u Hl; [done|]. cbn [pace_run]. destruct (offered e) eqn:Eo.
  - rewrite filter_cons_False by congruence. destruct (low_enqueue t e Eo) as [Hn Hq].
    destruct (pace_step t e) as [os t']. cbn in Hn, Hq. subst. specialize (IH t' u (low_trans _ _ _ Hq Hl)).
    by destruct (pace_run t' es).
  - rewrite filter_cons_True by done. cbn [pace_run]. destruct (pace_step_blind t u e Eo Hl) as [Hv Ht].
    destruct (pace_step t e) as [os t'], (pace_step u e) as [os' u']. cbn in Hv, Ht. specialize (IH t' u' Ht).
    destruct (pace_run t' es), (pace_run u' _). cbn in IH |- *. by rewrite !fmap_app, Hv, IH.
Qed.

(** C3: a constant-rate tunnel hides its traffic.  Take two histories of one paced tunnel
    with the same ticks, arrivals and moves, in which the pump offers any packets at any
    times: the datagrams sent are the same in number and order, and each has the same
    length, the same ESP header and the same destination. *)
Theorem pacing_hides_traffic (t : espTunnel) (es es' : list pace_event) :
  filter (fun e => offered e = false) es = filter (fun e => offered e = false) es' ->
  visible <$> (pace_run t es).1 = visible <$> (pace_run t es').1.
Proof. intros H. by rewrite (pace_run_schedule es t t), (pace_run_schedule es' t t), H by apply low_refl. Qed.

(** ** What a constant-rate tunnel delivers *)

(** The datagrams of a tick reach the peer's tunnel in order. *)
Fixpoint deliver (u : espTunnel) (ds : list bytes) : list bytes * espTunnel :=
  match ds with
  | [] => ([], u)
  | d :: ds =>
      let '(r, u) := agg_DecapsulateMulti u d in
      let '(out, u) := deliver u ds in (match r with Ok ps => ps | Err _ => [] end ++ out, u)
  end.

(** A run with both ends: the packets the queue took, the datagrams sent, the packets that came out. *)
Fixpoint convey (t u : espTunnel) (es : list pace_event) : list bytes * list bytes * list bytes * (espTunnel * espTunnel) :=
  match es with
  | [] => ([], [], [], (t, u))
  | e :: es =>
      let took := match e, et_pacer t with PEnqueue pkt, Some p => if (paced_Enqueue p pkt).1 then [pkt] else [] | _, _ => [] end in
      let '(ds, t) := pace_step t e in
      let '(got, u) := deliver u ds.*1 in
      let '(took', ds', got', tu) := convey t u es in (took ++ took', ds.*1 ++ ds', got ++ got', tu)
  end.

Definition ticks (es : list pace_event) : nat := length (filter (fun e => match e with PTick _ => true | _ => false end = true) es).

(** Offered packets are IP packets; the IVs a tick draws have a block's length. *)
Definition offer_ok (e : pace_event) : Prop :=
  match e with PEnqueue pkt => wf_pkt pkt | PTick rnd => forall k, length (rnd k) = blockSize | _ => False end.

(** Octets the sender holds. *)
Definition load (t : espTunnel) (p : pacer) : nat := (length (pending (et_packer t)) + length (concat (p_ready p ++ p_queue p)))%nat.

(** [k] datagrams sent and received; [wait] is what the queue took and has not come out. *)
Definition linked (spi : Z) (k : Z) (t u : espTunnel) (p : pacer) (wait : list bytes) : Prop :=
  exists ic oc cur, sender_ok spi ic k (et_sa t) /\ crypters (et_sa u) = Ok (oc, ic) /\ SPIIn (et_sa u) = spi /\
    esp_top (window (et_sa u)) = k /\ link (et_packer t) (et_reasm u) cur /\ wait = cur ++ p_ready p ++ p_queue p /\
    Forall wf_pkt (p_ready p ++ p_queue p) /\ p_size p = iptfsPayloadSize.

Lemma wf_pkt_20 p : wf_pkt p -> (20 <= length p)%nat.
Proof.
  intros [Hn Hl]. destruct p as [|x p]; [done|]. unfold innerLen in Hl. cbn [length] in *.
  repeat case_match; try (rewrite Nat.ltb_ge in *; lia); lia.
Qed.

Lemma concat_20 ps : Forall wf_pkt ps -> (20 * length ps <= length (concat ps))%nat.
Proof. induction 1 as [|p ps Hp _ IH]; cbn; [lia|]. rewrite length_app. pose proof (wf_pkt_20 p Hp). lia. Qed.

(** Filling loses nothing, and leaves packets queued only behind a payload's worth. *)
Lemma fill_spec rd qu :
  let '(rd', qu') := fill rd qu in rd' ++ qu' = rd ++ qu /\ (qu' = [] \/ (pacerQueueDepth <= length rd')%nat).
Proof.
  unfold fill. rewrite <- app_assoc, take_drop. split; [done|].
  destruct (Nat.le_gt_cases (length qu) (pacerQueueDepth - length rd)); [left; by apply drop_ge|].
  right. rewrite length_app, length_take. lia.
Qed.

Lemma receive_one spi ic oc k u pkt payload :
  wire_packet spi ic (k + 1) payload ESPNextHeader pkt -> crypters (et_sa u) = Ok (oc, ic) -> SPIIn (et_sa u) = spi ->
  uint32 spi -> uint32 (k + 1) -> 0 <= k -> esp_top (window (et_sa u)) = k ->
  forall out r, Feed (et_reasm u) payload = Some (out, None, r) ->
  exists u', agg_DecapsulateMulti u pkt = (Ok out, u') /\ crypters (et_sa u') = Ok (oc, ic) /\ SPIIn (et_sa u') = spi /\
    esp_top (window (et_sa u')) = k + 1 /\ et_reasm u' = r.
Proof.
  intros Hw Hc Hin Hspi Hk Hk0 Ht out r Hf. unfold agg_DecapsulateMulti, esp_call.
  rewrite (Decapsulate_wire spi ic oc (k + 1) payload ESPNextHeader pkt) by done. cbv zeta.
  change (window (with_crypters (et_sa u) _)) with (window (et_sa u)).
  assert (esp_check (window (et_sa u)) (k + 1) = false) as ->.
  { unfold esp_check. rewrite (proj2 (Z.eqb_neq _ _)), Ht, (proj2 (Z.ltb_lt _ _)) by lia. done. }
  cbn [fst snd et_reasm set_sa]. change (ESPNextHeader =? 59) with false. rewrite Z.eqb_refl. cbv iota. rewrite Hf.
  eexists. split; [reflexivity|]. cbn. split_and!; try done.
  unfold esp_advance. rewrite Ht, (proj2 (Z.ltb_lt _ _)) by lia. done.
Qed.

Lemma padded_inner_0 x : padded_inner x 0 = x.
Proof. unfold padded_inner. rewrite Z.max_l, Nat2Z.id, Nat.sub_diag by lia. apply app_nil_r. Qed.

(** Pack and Feed on what is ready, with the queue behind it. *)
Lemma fill_pack p r cur rd qu :
  link p r cur -> Forall wf_pkt (rd ++ qu) ->
  let '(rd1, qu1) := fill rd qu in
  exists payload rest p' out r' cur', Pack p rd1 iptfsPayloadSize = (Some payload, rest, p') /\ length payload = 1400%nat /\
    Feed r payload = Some (out, None, r') /\ link p' r' cur' /\ cur ++ rd ++ qu = out ++ cur' ++ rest ++ qu1 /\
    Forall wf_pkt (rest ++ qu1) /\
    (length (pending p') + length (concat (rest ++ qu1)) = length (pending p) + length (concat (rd ++ qu)) - 1396)%nat.
Proof.
  intros Hl Hwf. pose proof (fill_spec rd qu) as H. destruct (fill rd qu) as [rd1 qu1]. destruct H as [He Hq].
  rewrite <- He in Hwf |- *. apply Forall_app in Hwf as [Hw1 Hw2].
  destruct (pack_feed_step p r cur rd1 iptfsPayloadSize Hl Hw1 ltac:(lia))
    as (payload & rest & p' & out & r' & cur' & HP & Hlen & HF & Hl' & Heq & Hu).
  assert (Forall wf_pkt rest) as Hrest.
  { assert (Forall wf_pkt (cur ++ rd1)) as Hall by (apply Forall_app; split; [inversion Hl; subst; auto|done]).
    rewrite Heq, !Forall_app in Hall. tauto. }
  exists payload, rest, p', out, r', cur'. split_and!; try done; [lia| | |].
  - rewrite !app_assoc, Heq. by rewrite <- !app_assoc.
  - by apply Forall_app.
  - unfold unsent in Hu. change (Z.to_nat (1400 - 4)) with 1396%nat in Hu. rewrite !concat_app, !length_app.
    destruct Hq as [-> | Hq]; [cbn; lia|]. pose proof (concat_20 rd1 Hw1). lia.
Qed.

(** The length of a paced datagram under a sender's crypter. *)
Definition paced_length (c : ESPCrypter) : nat :=
  (espHeaderLen + length (esp_plaintext (Nat.max (EspBlockLen c) 1) (replicate 1400 0%Z) ESPNextHeader 0) + Overhead c)%nat.

Lemma length_wire spi ic k s inner rnd pkt s' :
  sender_ok spi ic k s -> 0 <= k < 2 ^ 32 - 1 -> length rnd = blockSize -> length inner = 1400%nat ->
  Esp.Encapsulate s inner ESPNextHeader rnd = (Ok pkt, s') -> length pkt = paced_length ic.
Proof.
  intros (oc & inn & Hc & Hk & Hs & Hq & Hspi) Hb Hr Hi. unfold Esp.Encapsulate, encapsulate, appendEncapsulated, prepare.
  assert (crypters (with_crypters s (crypters s)) = Ok (oc, inn)) as Hc' by (rewrite Hc; done).
  rewrite Hc', Hc. cbv iota beta. cbn [seqOut with_crypters with_seq SPIOut]. rewrite Hq, (proj2 (Z.eqb_neq _ _)) by lia. cbv zeta.
  set (hdr := be_enc 4 _ ++ be_enc 4 _). assert (length hdr = espHeaderLen) as Hh by reflexivity.
  destruct (EspSeal oc rnd hdr _) as [[sealed|] oc'] eqn:E; [|done]. rewrite app_nil_l. intros Hp. assert (pkt = hdr ++ sealed) as -> by (symmetry; congruence).
  assert (crypter_ok oc) as Hok by (destruct oc; cbn in *; [unfold uint; lia|done]).
  destruct (EspSeal_spec oc oc rnd hdr _ sealed oc' ltac:(by destruct oc) Hok Hr E) as (_ & Hl & _).
  rewrite !length_app, Hl, (esp_plaintext_blind _ inner (replicate 1400 0)) by (by rewrite length_replicate). unfold paced_length.
  assert (EspBlockLen oc = EspBlockLen ic /\ Overhead oc = Overhead ic) as [-> ->].
  { destruct oc, ic; try done. destruct Hk as (-> & -> & ->). done. }
  lia.
Qed.

Lemma convey_one spi k t u p wait rnd :
  linked spi k t u p wait -> uint32 spi -> 0 <= k < 2 ^ 32 - 1 -> length rnd = blockSize ->
  exists o out t' p' u' wait', pace_one t p rnd = (Some o, t', p') /\ agg_DecapsulateMulti u o = (Ok out, u') /\
    linked spi (k + 1) t' u' p' wait' /\ wait = out ++ wait' /\ load t' p' = (load t p - 1396)%nat /\
    (forall ic oc, crypters (et_sa u) = Ok (oc, ic) -> length o = paced_length ic /\ crypters (et_sa u') = Ok (oc, ic)) /\
    p_interval p' = p_interval p /\ p_perTick p' = p_perTick p /\ p_started p' = p_started p /\ p_stopped p' = p_stopped p /\ et_peer t' = et_peer t.
Proof.
  intros (ic & oc & cur & Hs & Hc & Hin & Ht & Hl & -> & Hwf & Hz) Hspi Hk Hr. unfold pace_one, load.
  pose proof (fill_pack _ _ _ _ _ Hl Hwf) as HP. destruct (fill (p_ready p) (p_queue p)) as [rd1 qu1].
  destruct HP as (payload & rest & pk & out & r' & cur' & HP & Hlen & HF & Hl' & Heq & Hwf' & Hload).
  rewrite Hz, HP. cbn [from_option et_sa set_agg]. unfold id.
  destruct (encapsulate_spec spi ic k (et_sa t) payload ESPNextHeader 0 rnd Hs Hk Hr) as (pkt & s' & E & Hs' & Hw).
  rewrite padded_inner_0 in Hw. pose proof (length_wire spi ic k (et_sa t) payload rnd pkt s' Hs Hk Hr Hlen E) as Hpl.
  change (Esp.Encapsulate (et_sa t) payload ESPNextHeader rnd) with (encapsulate (et_sa t) payload ESPNextHeader 0 rnd). rewrite E.
  destruct (receive_one spi ic oc k u pkt payload Hw Hc Hin Hspi ltac:(unfold uint; lia) ltac:(lia) Ht out r' HF)
    as (u' & Hd & Hc' & Hin' & Ht' & Hre).
  exists pkt, out. do 3 eexists. exists (cur' ++ rest ++ qu1). split; [reflexivity|]. split; [exact Hd|]. split.
  { exists ic, oc, cur'. cbn. rewrite Hre. split_and!; try done. }
  cbn. split_and!; try done. intros ic' oc' Hcc. rewrite Hc in Hcc. injection Hcc as <- <-. done.
Qed.

Lemma convey_n spi n : forall k t u p wait rnd i,
  linked spi k t u p wait -> uint32 spi -> 0 <= k -> k + Z.of_nat n <= 2 ^ 32 - 1 -> (forall j, length (rnd j) = blockSize) ->
  exists os out t' p' u' wait', pace_n n t p rnd i = (os, t', p') /\ deliver u os = (out, u') /\
    linked spi (k + Z.of_nat n) t' u' p' wait' /\ wait = out ++ wait' /\ load t' p' = (load t p - 1396 * n)%nat /\ length os = n /\
    (forall ic oc, crypters (et_sa u) = Ok (oc, ic) -> Forall (fun o => length o = paced_length ic) os /\ crypters (et_sa u') = Ok (oc, ic)) /\
    p_interval p' = p_interval p /\ p_perTick p' = p_perTick p /\ p_started p' = p_started p /\ p_stopped p' = p_stopped p.
Proof.
  induction n as [|n IH]; intros k t u p wait rnd i Hl Hspi Hk Hn Hr.
  { exists [], [], t, p, u, wait. cbn. rewrite Z.add_0_r. split_and!; try done. lia. }
  destruct (convey_one spi k t u p wait (rnd i) Hl Hspi ltac:(lia) (Hr i))
    as (o & out & t1 & p1 & u1 & w1 & E1 & D1 & Hl1 & -> & Hld1 & Hc1 & I1 & I2 & I3 & I4 & _).
  destruct (IH (k + 1) t1 u1 p1 w1 rnd (S i) Hl1 Hspi ltac:(lia) ltac:(lia) Hr)
    as (os & out2 & t2 & p2 & u2 & w2 & E2 & D2 & Hl2 & -> & Hld2 & Hlen & Hc2 & J1 & J2 & J3 & J4).
  exists (o :: os), (out ++ out2), t2, p2, u2, w2. cbn [pace_n deliver]. rewrite E1, E2, D1, D2.
  replace (k + Z.of_nat (S n)) with (k + 1 + Z.of_nat n) by lia. cbn [length].
  split_and!; try done; try congruence; try lia; [by rewrite app_assoc|].
  intros ic oc Hc. destruct (Hc1 ic oc Hc) as [Ho Hcu]. destruct (Hc2 ic oc Hcu) as [Hos Hcu2]. split; [by constructor|done].
Qed.

(** A running pacer at the configured payload size. *)
Definition running (t : espTunnel) (p : pacer) (n : nat) : Prop :=
  et_pacer t = Some p /\ 0 < p_interval p /\ p_started p = true /\ p_stopped p = false /\ Z.to_nat (p_perTick p) = n.

Lemma convey_tick spi k t u p wait n rnd :
  linked spi k t u p wait -> running t p n -> uint32 spi -> 0 <= k -> k + Z.of_nat n <= 2 ^ 32 - 1 -> (forall j, length (rnd j) = blockSize) ->
  exists os out t' p' u' wait', pace_tick t rnd = (os, t') /\ deliver u os = (out, u') /\
    linked spi (k + Z.of_nat n) t' u' p' wait' /\ running t' p' n /\ wait = out ++ wait' /\ load t' p' = (load t p - 1396 * n)%nat /\ length os = n /\
    (forall ic oc, crypters (et_sa u) = Ok (oc, ic) -> Forall (fun o => length o = paced_length ic) os /\ crypters (et_sa u') = Ok (oc, ic)).
Proof.
  intros Hl (Hp & Hi & Hst & Hsp & Hn) Hspi Hk Hb Hr.
  destruct (convey_n spi n k t u p wait rnd 0 Hl Hspi Hk Hb Hr)
    as (os & out & t' & p' & u' & w' & E & D & (ic & oc & cur & L1 & L2 & L3 & L4 & L5 & L6 & L7 & L8) & Hw & Hld & Hlen & Hc & I1 & I2 & I3 & I4).
  unfold pace_tick. rewrite Hp, Hst, Hsp, (proj2 (Z.leb_gt _ _)), Hn by lia. cbn [orb negb]. rewrite E.
  exists os, out. eexists. exists p', u', w'. split; [reflexivity|]. split; [done|]. split; [by exists ic, oc, cur|].
  split; [|done]. unfold running. cbn. rewrite I1, I2, I3, I4. done.
Qed.

(** An offer the queue takes waits its turn; one it does not take changes nothing. *)
Lemma convey_offer spi k t u p wait n pkt :
  linked spi k t u p wait -> running t p n -> wf_pkt pkt ->
  let t' := (pace_step t (PEnqueue pkt)).2 in
  let took := if (paced_Enqueue p pkt).1 then [pkt] else [] in
  exists p', linked spi k t' u p' (wait ++ took) /\ running t' p' n /\ load t' p' = (load t p + length (concat took))%nat.
Proof.
  intros (ic & oc & cur & L1 & L2 & L3 & L4 & L5 & -> & L7 & L8) (Hp & Hi & Hst & Hsp & Hn) Hwf. cbv zeta.
  exists (paced_Enqueue p pkt).2. unfold linked, running, load. cbn [pace_step snd et_pacer set_pacer et_sa et_packer et_reasm].
  rewrite Hp. cbn [fmap option_fmap option_map]. unfold paced_Enqueue. destruct (_ <? _)%nat; cbn; rewrite ?app_nil_r, ?Nat.add_0_r.
  - split_and!; try done.
    + exists ic, oc, cur. split_and!; try done; [by rewrite <- !app_assoc|]. rewrite app_assoc. apply Forall_app. by split; [|constructor].
    + rewrite !concat_app, !length_app. cbn. rewrite app_nil_r. lia.
  - split_and!; try done. by exists ic, oc, cur.
Qed.

Lemma convey_spec spi n es : forall k t u p wait,
  linked spi k t u p wait -> running t p n -> uint32 spi -> 0 <= k -> k + Z.of_nat (n * ticks es) <= 2 ^ 32 - 1 -> Forall offer_ok es ->
  exists took ds got t' p' u' wait', convey t u es = (took, ds, got, (t', u')) /\
    linked spi (k + Z.of_nat (n * ticks es)) t' u' p' wait' /\ running t' p' n /\ wait ++ took = got ++ wait' /\
    length ds = (n * ticks es)%nat /\ (load t' p' <= load t p + length (concat took))%nat /\
    (took = [] -> load t' p' <= load t p - 1396 * (n * ticks es))%nat /\
    (forall ic oc, crypters (et_sa u) = Ok (oc, ic) -> Forall (fun o => length o = paced_length ic) ds).
Proof.
  induction es as [|e es IH]; intros k t u p wait Hl Hrun Hspi Hk Hb Hes.
  { exists [], [], [], t, p, u, wait. unfold ticks. cbn. rewrite Nat.mul_0_r, Z.add_0_r, app_nil_r, Nat.sub_0_r. split_and!; try done; lia. }
  apply Forall_cons_1 in Hes as [He Hes]. destruct e as [pkt|rnd| |]; try done.
  - destruct (convey_offer spi k t u p wait n pkt Hl Hrun He) as (p1 & Hl1 & Hrun1 & Hld1).
    destruct (IH k _ u p1 _ Hl1 Hrun1 Hspi Hk Hb Hes) as (took & ds & got & t' & p' & u' & w' & E & Hl' & Hrun' & Heq & Hlen & Hld & Hld0 & Hc).
    cbn [convey]. rewrite (proj1 Hrun). cbn [pace_step snd fst fmap list_fmap deliver] in *. rewrite E.
    do 3 eexists. exists t', p', u', w'. split; [reflexivity|]. rewrite app_assoc, Heq. split_and!; try done.
    + rewrite concat_app, length_app. lia.
    + intros [Ht Hn]%app_nil. rewrite Ht in Hld1. cbn in Hld1. specialize (Hld0 Hn).
      change (ticks (PEnqueue pkt :: es)) with (ticks es). lia.
  - change (ticks (PTick rnd :: es)) with (S (ticks es)) in *.
    destruct (convey_tick spi k t u p wait n rnd Hl Hrun Hspi Hk ltac:(lia) He) as (os & out & t1 & p1 & u1 & w1 & E1 & D1 & Hl1 & Hrun1 & -> & Hld1 & Hlen1 & Hc1).
    destruct (IH (k + Z.of_nat n) t1 u1 p1 w1 Hl1 Hrun1 Hspi ltac:(lia) ltac:(lia) Hes)
      as (took & ds & got & t' & p' & u' & w' & E & Hl' & Hrun' & Heq & Hlen & Hld & Hld0 & Hc).
    cbn [convey pace_step]. rewrite E1. rewrite <- list_fmap_compose. cbn [compose fst]. rewrite list_fmap_id, D1, E.
    do 3 eexists. exists t', p', u', w'. split; [reflexivity|]. cbn [app].
    replace (k + Z.of_nat (n * S (ticks es))) with (k + Z.of_nat n + Z.of_nat (n * ticks es)) by lia.
    split_and!; try done; [by rewrite <- !app_assoc, Heq|rewrite length_app; lia|lia|intros Ht; specialize (Hld0 Ht); lia|].
    intros ic oc Hcu. destruct (Hc1 ic oc Hcu) as [Hos Hcu1]. apply Forall_app. split; [done|by eapply Hc].
Qed.

Lemma pacing_pos rate : 0 < rate -> 0 < (pacing rate iptfsPayloadSize).1.
Proof.
  intros H. unfold pacing. rewrite (proj2 (Z.leb_gt _ _)) by done. change (false || (iptfsPayloadSize <=? 0)) with false.
  cbv zeta iota. destruct (Z.leb_spec pacerMinInterval (Z.quot (int64 (iptfsPayloadSize * 1000000000)) rate)); cbn [fst]; lia.
Qed.

Lemma convey_app es es' : forall t u,
  convey t u (es ++ es') =
    let '(took, ds, got, (t, u)) := convey t u es in
    let '(took', ds', got', tu) := convey t u es' in (took ++ took', ds ++ ds', got ++ got', tu).
Proof.
  induction es as [|e es IH]; intros t u; cbn [convey app].
  { by destruct (convey t u es') as [[[? ?] ?] ?]. }
  destruct (pace_step t e) as [ds t1]. destruct (deliver u ds.*1) as [got u1]. rewrite IH.
  destruct (convey t1 u1 es) as [[[tk1 d1] g1] [t2 u2]]. destruct (convey t2 u2 es') as [[[tk2 d2] g2] tu]. by rewrite !app_assoc.
Qed.

Lemma ticks_app es es' : ticks (es ++ es') = (ticks es + ticks es')%nat.
Proof.
  induction es as [|e es IH]; [done|]. destruct e as [pkt|rnd|pkt|a]; try exact IH.
  change (S (ticks (es ++ es')) = S (ticks es) + ticks es')%nat. by rewrite IH.
Qed.

Lemma convey_idle es : forall t u, Forall (fun e => offered e = false) es -> (convey t u es).1.1.1 = [].
Proof.
  induction es as [|e es IH]; intros t u He; [done|]. apply Forall_cons_1 in He as [He Hes]. cbn [convey].
  destruct (pace_step t e) as [ds t1]. destruct (deliver u ds.*1) as [got u1]. specialize (IH t1 u1 Hes).
  destruct (convey t1 u1 es) as [[[tk1 d1] g1] tu]. cbn in IH. subst. by destruct e.
Qed.

Lemma linked_drained spi k t u p wait : linked spi k t u p wait -> load t p = 0%nat -> wait = [].
Proof.
  intros (ic & oc & cur & _ & _ & _ & _ & Hl & -> & Hwf & _) H0. unfold load in H0. pose proof (length_concat_wf _ Hwf).
  assert (p_ready p ++ p_queue p = []) as -> by (apply nil_length_inv; lia).
  destruct Hl as [|h t' _ Ht]; [done|]. destruct t'; [done|]. cbn in H0. lia.
Qed.

(** C34: a constant-rate tunnel delivers what it accepts, at its rate.  Two ends of a
    negotiated Child SA, the sender paced, its datagrams arriving in order; packets are
    offered at any times between ticks, then ticks follow with nothing offered.  Every
    tick sends exactly the configured number of datagrams, all of one length.  What has
    come out is a prefix of what the queue took, whole and in order; once the last ticks
    have room for the octets taken, it is all of it. *)
Theorem paced_delivery (a b : ChildSA) (s r : SA) (x y : espTunnel) (rate : Z) (es idle : list pace_event) :
  BuildESPSA a = Ok s -> BuildESPSA b = Ok r -> mirrored a b -> uint32 (OutboundSPI a) ->
  is_ok (crypters s) = true -> is_ok (crypters r) = true -> et_sa x = s -> et_sa y = r -> 0 < rate ->
  Forall offer_ok (es ++ idle) -> Forall (fun e => offered e = false) idle ->
  let n := Z.to_nat (pacing rate iptfsPayloadSize).2 in
  Z.of_nat (n * ticks (es ++ idle)) <= 2 ^ 32 - 1 ->
  let t := startPacing (newPacedTunnel (newAggfragTunnel x) rate iptfsPayloadSize) in
  let '(took, ds, got, _) := convey t (newAggfragTunnel y) (es ++ idle) in
  length ds = (n * ticks (es ++ idle))%nat /\ (exists l, Forall (fun d => length d = l) ds) /\ got `prefix_of` took /\
  ((length (concat took) <= 1396 * (n * ticks idle))%nat -> got = took).
Proof.
  intros Ha Hb Hm Hspi Hcs Hcr Hx Hy Hrate Hes Hidle n Hn t.
  destruct (crypters s) as [[oc inn]|] eqn:Es; [|done]. destruct (crypters r) as [[oc' ic]|] eqn:Er; [|done].
  destruct (BuildESPSA_linked a b s r oc inn oc' ic Ha Hb Hm Es Er) as (Hs & Hin & Hw).
  pose proof (pacing_pos rate Hrate) as Hi. subst n t. unfold newPacedTunnel.
  destruct (pacing rate iptfsPayloadSize) as [interval per]. cbn [fst snd] in *. set (n := Z.to_nat per) in *.
  set (t := startPacing _). set (u := newAggfragTunnel y). set (p := mkPacer iptfsPayloadSize interval per [] [] true false 0).
  assert (running t p n) as Hrun by done.
  assert (linked (OutboundSPI a) 0 t u p []) as Hl.
  { exists ic, oc', []. cbn. rewrite Hx, Hy. split_and!; try done; [by rewrite Hw|]. exact link_idle. }
  assert (crypters (et_sa u) = Ok (oc', ic)) as Hcu by (cbn; by rewrite Hy).
  assert (ticks (es ++ idle) = (ticks es + ticks idle)%nat) as Ht by apply ticks_app.
  destruct (convey_spec (OutboundSPI a) n (es ++ idle) 0 t u p [] Hl Hrun Hspi ltac:(lia) ltac:(lia) Hes)
    as (took & ds & got & t' & p' & u' & w' & E & _ & _ & Heq & Hlen & _ & _ & Hc). rewrite E.
  split; [done|]. split; [by eexists; eapply Hc|]. split; [by exists w'|]. intros Hcap.
  apply Forall_app in Hes as [He1 He2].
  destruct (convey_spec (OutboundSPI a) n es 0 t u p [] Hl Hrun Hspi ltac:(lia) ltac:(lia) He1)
    as (tk1 & d1 & g1 & t1 & p1 & u1 & w1 & E1 & Hl1 & Hr1 & Heq1 & _ & Hld1 & _ & _).
  destruct (convey_spec (OutboundSPI a) n idle _ t1 u1 p1 w1 Hl1 Hr1 Hspi ltac:(lia) ltac:(lia) He2)
    as (tk2 & d2 & g2 & t2 & p2 & u2 & w2 & E2 & Hl2 & Hr2 & Heq2 & _ & _ & Hld2 & _).
  pose proof (convey_idle idle t1 u1 Hidle) as Htk. rewrite E2 in Htk. cbn in Htk. subst tk2.
  rewrite convey_app, E1, E2 in E. injection E as Etk _ Egot _ _. subst took got. rewrite app_nil_r in *.
  unfold load in Hld1 at 2. cbn in Hld1. specialize (Hld2 eq_refl).
  rewrite (linked_drained _ _ _ _ _ _ Hl2) in Heq2 by lia. rewrite app_nil_r in Heq2. subst. done.
Qed.
End Paced.

(** ** A concrete paced tunnel *)

Definition demo_base (c : ChildSA) : espTunnel :=
  mkEspTunnel (demo_sa c) (InboundSPI c) defaultRoute None false NewPacker NewReassembler None.
Definition demo_paced : espTunnel := startPacing (newPacedTunnel (newAggfragTunnel (demo_base demo_child)) 1000000 iptfsPayloadSize).
Definition demo_tick : pace_event := PTick (fun _ => replicate blockSize 0).

Lemma pacing_hides_traffic_witness :
  visible <$> (pace_run (P := toy_prims) demo_paced [PEnqueue sample4; demo_tick; PEnqueue sample6; demo_tick]).1 =
  visible <$> (pace_run (P := toy_prims) demo_paced [demo_tick; demo_tick]).1.
Proof.
  apply (pacing_hides_traffic (PO := toy_prims_ok) demo_paced [PEnqueue sample4; demo_tick; PEnqueue sample6; demo_tick] [demo_tick; demo_tick]).
  reflexivity.
Defined.

Lemma paced_delivery_witness :
  let es := [PEnqueue sample4; demo_tick; PEnqueue sample6] in
  let '(took, ds, got, _) := convey (P := toy_prims) demo_paced (newAggfragTunnel (demo_base demo_peer)) (es ++ [demo_tick]) in
  length ds = 2%nat /\ got `prefix_of` took.
Proof.
  pose proof (paced_delivery (PO := toy_prims_ok) demo_child demo_peer (demo_sa demo_child) (demo_sa demo_peer)
    (demo_base demo_child) (demo_base demo_peer) 1000000 [PEnqueue sample4; demo_tick; PEnqueue sample6] [demo_tick]
    eq_refl eq_refl ltac:(done) ltac:(by_decision) eq_refl eq_refl eq_refl eq_refl ltac:(lia)
    ltac:(repeat constructor; done || by_decision) ltac:(by repeat constructor) ltac:(by_decision)) as H.
  cbv zeta in *. fold demo_paced in H. destruct (convey _ _ _) as [[[took ds] got] tu]. destruct H as (H1 & _ & H3 & _). by split.
Defined.
