(* ===== verification/Fragment.v ===== *)
(** * Protected IKE messages and their fragmentation

    [internal/ikev2/ike/sk.go] (the SK payload), [internal/ikev2/ike/fragment.go]
    (RFC 7383: SKF payloads, reassembly and the outbound split) and the opening
    half of [handleSecured] in [internal/ikev2/ike/secured.go].  Random IVs are
    arguments; the reassembler's clock reading is an argument of [add], read once
    per call.  A nil slice of the reassembler is [None].

    The theorems: a protected message opens to what was sealed; a fragmented one
    reassembles to it whatever the order of arrival and whatever duplicates
    arrive; no datagram built for a peer that reassembles exceeds the threshold;
    the reassembler's memory is bounded on every input; and a repeated empty
    fragment completes a message that has a fragment missing. *)
From Stdlib Require Import ZArith Lia.
From stdpp Require Import base list gmap.
From S2P Require Import Prelude IkeMessage IkeSA IkeBodies Crypto IkeSuite.

Inductive ike_error :=
| ErrSKFShort | ErrSKFFraming | ErrSKFraming | ErrNoETM | ErrPadLength (n : nat) | ErrBodyLength (got want : nat)
| ErrNoRoom | ErrTooManyFragments (n : nat) | ErrTotalFragments (total : Z) | ErrFragmentNumber (num total : Z)
| ErrReassembledBytes | ErrIndexOutOfRange | ErrSK (e : crypto_error).

Definition lift_sk {A} (r : result crypto_error A) : result ike_error A :=
  match r with Ok a => Ok a | Err e => Err (ErrSK e) end.

(** ** [sk.go] *)

Inductive keyDir := dirInitiatorToResponder | dirResponderToInitiator.

Definition encryptKeys (keys : SAKeys) (dir : keyDir) : bytes * bytes :=
  match dir with
  | dirInitiatorToResponder => (SKei keys, SKai keys)
  | dirResponderToInitiator => (SKer keys, SKar keys)
  end.

(** The pad length the block size asks for. *)
Definition skPadLen (ptLen block : nat) : nat :=
  let padLen := (block - (ptLen + 1) mod block)%nat in
  if (padLen =? block)%nat then 0%nat else padLen.

Definition padRFC7296 (pt : bytes) (block : nat) : bytes :=
  if (block <=? 1)%nat then pt ++ [0]
  else
    let padLen := skPadLen (length pt) block in
    pt ++ count_pad padLen ++ [wrap 8 (Z.of_nat padLen)].

Definition stripRFC7296Pad (padded : bytes) : result ike_error bytes :=
  if (length padded =? 0)%nat then Ok []
  else
    let padLen := Z.to_nat (at_ padded (length padded - 1)) in
    if (length padded <? padLen + 1)%nat then Err (ErrPadLength padLen)
    else Ok (take (length padded - padLen - 1) padded).

(** The ICV length on the wire and the padded length of [n] octets. *)
Definition wireICVLen (s : Suite) : nat := match Integ s with Some i => IntegICVLen i | None => ICVLen (Cipher s) end.

Definition ctLen (block ptLen : nat) : nat :=
  if (block <=? 1)%nat then (ptLen + 1)%nat else (ptLen + skPadLen ptLen block + 1)%nat.

Section Protected.
Context {P : Prims}.

(** [iv] is the IV the cipher draws. *)
Definition sealSK (s : Suite) (iv encKey integKey aad inner : bytes) : result ike_error bytes :=
  match Integ s with
  | None => lift_sk (Seal (Cipher s) iv encKey aad (inner ++ [0]))
  | Some integ =>
      match Cipher s with
      | AeadCipher _ _ => Err ErrNoETM
      | CbcCipher _ => lift_sk (SealETM iv encKey integKey aad (padRFC7296 inner (BlockLen (Cipher s))) integ)
      end
  end.

Definition openSK (s : Suite) (encKey integKey aad ivCtIcv : bytes) : result ike_error bytes :=
  match Integ s with
  | None => lift_sk (Open (Cipher s) encKey aad ivCtIcv)
  | Some integ =>
      match Cipher s with
      | AeadCipher _ _ => Err ErrNoETM
      | CbcCipher _ => lift_sk (OpenETM encKey integKey aad ivCtIcv integ)
      end
  end.

(** The two octets [byte(n >> 8), byte(n)]. *)
Definition len16 (n : nat) : bytes := [wrap 8 (Z.shiftr (Z.of_nat n) 8); wrap 8 (Z.of_nat n)].

(** The header with the fields the sealing functions overwrite. *)
Definition with_payload (h : Header) (next : Z) (len : nat) : Header :=
  mkHeader (InitiatorSPI h) (ResponderSPI h) next 0x20 (ExchangeType h) (Flags h) (MessageID h) (wrap 32 (Z.of_nat len)).

Definition buildEncryptedMessage (hdr : Header) (s : Suite) (keys : SAKeys) (dir : keyDir) (firstInner : Z)
    (innerPayloads iv : bytes) : result ike_error bytes :=
  let '(encKey, integKey) := encryptKeys keys dir in
  let skBodyLen := (IVLen (Cipher s) + ctLen (BlockLen (Cipher s)) (length innerPayloads) + wireICVLen s)%nat in
  let skPayloadLen := (4 + skBodyLen)%nat in
  let hdr := with_payload hdr TypeSK (IkeHeaderLen + skPayloadLen) in
  let aad := MarshalHeader hdr [] ++ [firstInner; 0] ++ len16 skPayloadLen in
  let* sealed := sealSK s iv encKey integKey aad innerPayloads in
  if negb (length sealed =? skBodyLen)%nat then Err (ErrBodyLength (length sealed) skBodyLen)
  else Ok (aad ++ sealed).

Definition decryptSK (raw : bytes) (sk : RawPayload) (s : Suite) (keys : SAKeys) (dir : keyDir)
    : result ike_error (Z * bytes) :=
  let '(encKey, integKey) := encryptKeys keys dir in
  let bodyStart := (length raw - length (Body sk))%nat in
  if (bodyStart <? IkeHeaderLen + 4)%nat then Err ErrSKFraming
  else
    let aad := take bodyStart raw in
    let firstInner := at_ raw (bodyStart - 4) in
    let* padded := openSK s encKey integKey aad (Body sk) in
    let* inner := stripRFC7296Pad padded in
    Ok (firstInner, inner).

(** ** [fragment.go] *)

Definition maxFragments : Z := 64.
Definition maxReassembledBytes : Z := 64 * 1024.
Definition fragReassemblyTTL : Z := 30 * 1000000000.
Definition skfPrefixLen : nat := 4.
Abbreviation IKEFragmentationSupported := 16430 (only parsing).

Fixpoint findFragSupported (payloads : list RawPayload) : bool :=
  match payloads with
  | [] => false
  | p :: ps =>
      if negb (Type_ p =? TypeNotify) then findFragSupported ps
      else
        match ParseNotify (Body p) with
        | Ok n => if NType n =? IKEFragmentationSupported then true else findFragSupported ps
        | Err _ => findFragSupported ps
        end
  end.

Definition addFragSupported (b : Builder) : Builder :=
  Add b TypeNotify false (MarshalNotify (mkNotify ProtoNone IKEFragmentationSupported [] [])).

Record fragment := mkFragment { fragNum : Z; fragTotal : Z; fragFirst : Z; fragChunk : bytes }.

Definition decryptSKF (raw : bytes) (skf : RawPayload) (s : Suite) (keys : SAKeys) (dir : keyDir)
    : result ike_error fragment :=
  if (length (Body skf) <? skfPrefixLen)%nat then Err ErrSKFShort
  else
    let num := be_dec (slice (Body skf) 0 2) in
    let total := be_dec (slice (Body skf) 2 4) in
    let ivCtIcv := drop skfPrefixLen (Body skf) in
    let bodyStart := (length raw - length ivCtIcv)%nat in
    if (bodyStart <? IkeHeaderLen + 4 + skfPrefixLen)%nat then Err ErrSKFFraming
    else
      let aad := take bodyStart raw in
      let firstInner := at_ raw (bodyStart - 4 - skfPrefixLen) in
      let '(encKey, integKey) := encryptKeys keys dir in
      let* padded := openSK s encKey integKey aad ivCtIcv in
      let* plaintext := stripRFC7296Pad padded in
      Ok (mkFragment num total firstInner plaintext).
End Protected.

(** *** The reassembler *)

Record fragReassembler := mkReasm {
  rMsgID : Z; rTotal : Z; rParts : option (list (option bytes)); rGot : Z; rBytes : Z; rFirst : Z; rStarted : Z }.

Definition newReassembler : fragReassembler := mkReasm 0 0 None 0 0 0 0.

Definition reset (r : fragReassembler) : fragReassembler :=
  mkReasm (rMsgID r) 0 None 0 0 0 (rStarted r).

(** [append([]byte(nil), chunk...)]: nil when there is nothing to append. *)
Definition copy_slice (chunk : bytes) : option bytes := match chunk with [] => None | _ => Some chunk end.

Definition part_bytes (p : option bytes) : bytes := default [] p.

(** The reassembler [add] works on: the current one, or a fresh one for a new
    message, a changed total or a stale partial reassembly. *)
Definition current (r : fragReassembler) (now msgID total : Z) : fragReassembler * list (option bytes) :=
  let fresh := (mkReasm msgID total (Some (replicate (Z.to_nat total) None)) 0 0 0 now, replicate (Z.to_nat total) None) in
  match rParts r with
  | None => fresh
  | Some parts =>
      let stale := fragReassemblyTTL <? time_sub now (rStarted r) in
      if negb (msgID =? rMsgID r) || negb (total =? rTotal r) || stale then fresh else (r, parts)
  end.

Definition add (r : fragReassembler) (now msgID : Z) (f : fragment)
    : result ike_error (option (bytes * Z)) * fragReassembler :=
  let '(mkFragment num total first chunk) := f in
  if (total =? 0) || (maxFragments <? total) then (Err (ErrTotalFragments total), r)
  else if (num =? 0) || (total <? num) then (Err (ErrFragmentNumber num total), r)
  else
    let '(r, parts) := current r now msgID total in
    let idx := Z.to_nat (num - 1) in
    match parts !! idx with
    | None => (Err ErrIndexOutOfRange, r)
    | Some (Some _) => (Ok None, r)
    | Some None =>
        if maxReassembledBytes <? rBytes r + Z.of_nat (length chunk) then (Err ErrReassembledBytes, reset r)
        else
          let parts := <[idx := copy_slice chunk]> parts in
          let r := mkReasm (rMsgID r) (rTotal r) (Some parts) (rGot r + 1) (rBytes r + Z.of_nat (length chunk))
                     (if num =? 1 then first else rFirst r) (rStarted r) in
          if rGot r <? rTotal r then (Ok None, r)
          else (Ok (Some (concat (part_bytes <$> parts), rFirst r)), reset r)
    end.

(** *** The outbound split *)

Abbreviation fragmentThreshold := 1280%nat (only parsing).
Definition skfOverhead : nat := IkeHeaderLen + 4 + skfPrefixLen.

Section Outbound.
Context {P : Prims}.

Definition sealSKF (hdr : Header) (s : Suite) (encKey integKey : bytes) (ivLen icvLen block : nat) (num total next : Z)
    (chunk iv : bytes) : result ike_error bytes :=
  let ct := ctLen block (length chunk) in
  let skfPayloadLen := (4 + skfPrefixLen + ivLen + ct + icvLen)%nat in
  let msgLen := (IkeHeaderLen + skfPayloadLen)%nat in
  let hdr := with_payload hdr TypeSKF msgLen in
  let aad := MarshalHeader hdr [] ++ [next; 0] ++ len16 skfPayloadLen ++ be_enc 2 num ++ be_enc 2 total in
  let* sealed := sealSK s iv encKey integKey aad chunk in
  if negb (length sealed =? ivLen + ct + icvLen)%nat then Err (ErrBodyLength (length sealed) (ivLen + ct + icvLen))
  else Ok (aad ++ sealed).

(** The loop over fragments [i .. total - 1]; [ivs] are the IVs drawn. *)
Fixpoint seal_fragments (hdr : Header) (s : Suite) (encKey integKey : bytes) (ivLen icvLen block room total : nat)
    (firstInner : Z) (inner : bytes) (ivs : nat -> bytes) (i n : nat) : result ike_error (list bytes) :=
  match n with
  | O => Ok []
  | S n =>
      let chunk := take room (drop (i * room) inner) in
      let next := if (i =? 0)%nat then firstInner else 0 in
      let* frag := sealSKF hdr s encKey integKey ivLen icvLen block (wrap 16 (Z.of_nat i + 1)) (wrap 16 (Z.of_nat total))
                     next chunk (ivs i) in
      let* rest := seal_fragments hdr s encKey integKey ivLen icvLen block room total firstInner inner ivs (S i) n in
      Ok (frag :: rest)
  end.

(** Plaintext room per fragment, an [int] that can be negative. *)
Definition fragmentRoom (s : Suite) : Z :=
  let block := BlockLen (Cipher s) in
  let room := Z.of_nat fragmentThreshold - Z.of_nat skfOverhead - Z.of_nat (IVLen (Cipher s)) - Z.of_nat (wireICVLen s) - 1 in
  if (1 <? block)%nat then room - Z.of_nat block else room.

Definition fragmentCount (room len : nat) : nat :=
  let total := ((len + room - 1) / room)%nat in
  if (total =? 0)%nat then 1%nat else total.

Definition buildFragmentedMessage (hdr : Header) (s : Suite) (keys : SAKeys) (dir : keyDir) (firstInner : Z)
    (innerPayloads : bytes) (ivs : nat -> bytes) : result ike_error (list bytes) :=
  let '(encKey, integKey) := encryptKeys keys dir in
  if fragmentRoom s <=? 0 then Err ErrNoRoom
  else
    let room := Z.to_nat (fragmentRoom s) in
    let total := fragmentCount room (length innerPayloads) in
    if maxFragments <? Z.of_nat total then Err (ErrTooManyFragments total)
    else seal_fragments hdr s encKey integKey (IVLen (Cipher s)) (wireICVLen s) (BlockLen (Cipher s)) room total
           firstInner innerPayloads ivs 0 total.

Definition wouldExceedThreshold (s : Suite) (innerLen : nat) : bool :=
  let overhead := (IkeHeaderLen + 4 + IVLen (Cipher s) + wireICVLen s + 1)%nat in
  let overhead := if (1 <? BlockLen (Cipher s))%nat then (overhead + BlockLen (Cipher s))%nat else overhead in
  (fragmentThreshold <? innerLen + overhead)%nat.

Definition sealMaybeFragment (hdr : Header) (s : Suite) (keys : SAKeys) (dir : keyDir) (firstInner : Z)
    (inner : bytes) (peerSupportsFrag : bool) (ivs : nat -> bytes) : result ike_error (list bytes) :=
  if peerSupportsFrag && wouldExceedThreshold s (length inner)
  then buildFragmentedMessage hdr s keys dir firstInner inner ivs
  else
    let* pkt := buildEncryptedMessage hdr s keys dir firstInner inner (ivs 0%nat) in
    Ok [pkt].
End Outbound.

(** ** The opening half of [handleSecured]

    Either the inner payloads to dispatch, or nothing yet, or the datagram is
    dropped.  [msgID] is the header's message ID, [dir] the inbound direction. *)

Inductive opened := Opened (firstInner : Z) (inner : bytes) | Awaiting | Dropped.

Definition openSecured {P : Prims} (fragEnabled : bool) (r : fragReassembler) (now : Z) (s : Suite) (keys : SAKeys)
    (dir : keyDir) (msgID : Z) (pkt : bytes) : opened * fragReassembler :=
  match ParseMessage pkt with
  | Some (Ok msg) =>
      match Find msg TypeSKF with
      | Some skf =>
          if negb fragEnabled then (Dropped, r)
          else
            match decryptSKF pkt skf s keys dir with
            | Err _ => (Dropped, r)
            | Ok f =>
                match add r now msgID f with
                | (Err _, r) => (Dropped, r)
                | (Ok None, r) => (Awaiting, r)
                | (Ok (Some (inner, firstInner)), r) => (Opened firstInner inner, r)
                end
            end
      | None =>
          match Find msg TypeSK with
          | None => (Dropped, r)
          | Some sk =>
              match decryptSK pkt sk s keys dir with
              | Err _ => (Dropped, r)
              | Ok (firstInner, inner) => (Opened firstInner inner, r)
              end
          end
      end
  | _ => (Dropped, r)
  end.

(** ** Padding *)

Lemma strip_tail pt pad b :
  Z.to_nat b = length pad -> stripRFC7296Pad (pt ++ pad ++ [b]) = Ok pt.
Proof.
  intros Hb. unfold stripRFC7296Pad. rewrite !length_app. cbn [length].
  rewrite (proj2 (Nat.eqb_neq _ _)) by lia.
  assert (at_ (pt ++ pad ++ [b]) (length pt + (length pad + 1) - 1) = b) as ->.
  { rewrite app_assoc, at_app_r by (rewrite length_app; lia). rewrite length_app.
    by replace (length pt + (length pad + 1) - 1 - (length pt + length pad))%nat with 0%nat by lia. }
  rewrite Hb, (proj2 (Nat.ltb_ge _ _)) by lia.
  replace (length pt + (length pad + 1) - length pad - 1)%nat with (length pt) by lia. by rewrite take_app_length.
Qed.

Lemma skPadLen_spec n block :
  (0 < block)%nat -> Nat.divide block (n + skPadLen n block + 1) /\ (skPadLen n block < block)%nat.
Proof.
  intros Hb. unfold skPadLen. cbv zeta. pose proof (Nat.mod_upper_bound (n + 1) block ltac:(lia)) as Hm.
  pose proof (Nat.div_mod_eq (n + 1) block) as Hd. set (q := ((n + 1) / block)%nat) in *. set (m := ((n + 1) mod block)%nat) in *.
  destruct (Nat.eqb_spec (block - m) block); (split; [|lia]).
  - exists q. nia.
  - exists (S q). nia.
Qed.

Lemma strip_pad pt block : (block <= 256)%nat -> stripRFC7296Pad (padRFC7296 pt block) = Ok pt.
Proof.
  intros Hb. unfold padRFC7296. destruct (Nat.leb_spec block 1) as [|H1]; [by apply (strip_tail pt [])|].
  cbv zeta. destruct (skPadLen_spec (length pt) block ltac:(lia)) as [_ Hl]. apply strip_tail.
  rewrite length_count_pad, wrap_small, Nat2Z.id; [done|]. split; [lia|]. change (2 ^ 8) with 256. lia.
Qed.

Lemma length_padRFC7296 pt block : length (padRFC7296 pt block) = ctLen block (length pt).
Proof.
  unfold padRFC7296, ctLen. destruct (block <=? 1)%nat; [by rewrite length_app|]. cbv zeta.
  rewrite !length_app, length_count_pad. cbn [length]. lia.
Qed.

(** ** One sealed unit opens *)

Section Open.
Context {P : Prims} {PO : PrimsOk P}.

Lemma aes_key_ok key : aes_len (length key) -> key_ok AesGCM key = true.
Proof. unfold aes_len, key_ok. by intros [-> | [-> | ->]]. Qed.

(** Under a negotiated suite and derived keys sealing always succeeds, has the
    length the framing announces, and opens to what was sealed. *)
Lemma sealSK_spec s iv encKey integKey aad inner :
  wf_suite s -> length encKey = encKeyLen s -> length iv = IVLen (Cipher s) ->
  exists sealed, sealSK s iv encKey integKey aad inner = Ok sealed /\
    length sealed = (IVLen (Cipher s) + ctLen (BlockLen (Cipher s)) (length inner) + wireICVLen s)%nat /\
    (let* padded := openSK s encKey integKey aad sealed in stripRFC7296Pad padded) = Ok inner.
Proof.
  unfold wf_suite, encKeyLen, sealSK, openSK, wireICVLen. intros Hwf Hk Hiv.
  destruct (Cipher s) as [alg kl|kl] eqn:Ec, (Integ s) as [i|] eqn:Ei; cbn [wf_cipher] in Hwf; try (by destruct alg); try done.
  - assert (key_ok alg (take kl encKey) = true) as Hok.
    { assert (length (take kl encKey) = kl) as Hl by (rewrite length_take; cbn in Hk; lia).
      destruct alg; [apply aes_key_ok; by rewrite Hl|]. unfold key_ok. by rewrite Hl, Hwf. }
    destruct (Seal (AeadCipher alg kl) iv encKey aad (inner ++ [0])) as [sealed|] eqn:Es;
      [|unfold Seal, aead_Seal in Es; by rewrite Hok in Es].
    exists sealed. split; [done|]. pose proof (Seal_length _ _ _ _ _ _ Hiv Es) as Hl.
    apply Open_Seal in Es; [|done]. rewrite Es. split; [rewrite Hl, length_app; done|].
    by apply (strip_tail inner []).
  - destruct Hwf as (Hkl & _ & Hicv). cbn [Crypto.KeyLen BlockLen IVLen] in *.
    assert (aligned (padRFC7296 inner blockSize) = true) as Hal.
    { apply aligned_divide. rewrite length_padRFC7296. by apply (skPadLen_spec (length inner) blockSize ltac:(cbv; lia)). }
    assert (key_ok AesGCM encKey = true) as Hok by (apply aes_key_ok; by rewrite Hk).
    destruct (SealETM iv encKey integKey aad (padRFC7296 inner blockSize) i) as [sealed|] eqn:Es;
      [|unfold SealETM in Es; by rewrite Hok, Hal in Es].
    exists sealed. split; [done|]. apply OpenETM_SealETM in Es as [-> Hl]; [|done|done].
    rewrite Hl, length_padRFC7296. split; [done|]. cbn [lift_sk rbind]. apply strip_pad. unfold blockSize. lia.
Qed.

Lemma len16_be_enc n : len16 n = be_enc 2 (Z.of_nat n).
Proof.
  unfold len16, wrap. rewrite Z.shiftr_div_pow2 by lia. cbn [be_enc].
  change (256 ^ Z.of_nat 1) with (2 ^ 8). change (256 ^ Z.of_nat 0) with 1. by rewrite Z.div_1_r.
Qed.

Lemma len16_generic next n body :
  n = (4 + length body)%nat -> Z.of_nat n < 2 ^ 16 -> [next; 0] ++ len16 n = generic_header next false body.
Proof.
  intros -> Hl. rewrite len16_be_enc. unfold generic_header, genericPayloadHeaderLen.
  rewrite wrap_small by (unfold uint; lia). done.
Qed.

Lemma be_enc_wrap32 x : be_enc 4 (wrap 32 x) = be_enc 4 x.
Proof.
  unfold wrap. rewrite (Z.mod_eq x (2 ^ 32)) by lia.
  replace (x - 2 ^ 32 * (x / 2 ^ 32)) with (x + (- (x / 2 ^ 32)) * 256 ^ Z.of_nat 4) by (change (256 ^ Z.of_nat 4) with (2 ^ 32); lia).
  apply be_enc_mod.
Qed.

Lemma wf_with_payload h next len : wf_header h -> wf_header (with_payload h next len).
Proof. intros [H1 H2 H3 _]. split; try done. by apply wrap_uint. Qed.

(** A message that is one terminal payload parses to that payload. *)
Lemma ParseMessage_terminal h t next body :
  wf_header h -> ends_chain t = true -> t <> 0 -> Z.of_nat (4 + length body) < 2 ^ 16 ->
  let h' := with_payload h t (IkeHeaderLen + (4 + length body)) in
  ParseMessage (MarshalHeader h' [] ++ generic_header next false body ++ body) = Some (Ok (mkMessage h' [mkRaw t false body])).
Proof.
  intros Hh Ht Hn Hl h'. unfold ParseMessage. rewrite ParseHeader_marshal by (by apply wf_with_payload).
  assert (length (MarshalHeader h' []) = IkeHeaderLen) as HL by reflexivity.
  assert (Length h' = Z.of_nat (length (MarshalHeader h' [] ++ generic_header next false body ++ body))) as ->.
  { rewrite !length_app, length_generic_header, HL. subst h'. cbn [Length with_payload].
    rewrite wrap_small; [done|]. unfold uint. lia. }
  rewrite Z.eqb_refl. cbn [negb]. rewrite <- HL at 1. rewrite drop_app_length.
  unfold parsePayloadChain. by rewrite walk_terminal.
Qed.

Lemma ctLen_bound block n : (n < ctLen block n)%nat /\ (ctLen block n <= n + Nat.max 1 block)%nat.
Proof.
  unfold ctLen. destruct (Nat.leb_spec block 1); [lia|]. pose proof (skPadLen_spec n block ltac:(lia)). lia.
Qed.

Lemma overhead_bound s :
  wf_suite s -> (IVLen (Cipher s) <= 16)%nat /\ (1 <= BlockLen (Cipher s) <= 16)%nat /\ (wireICVLen s <= 32)%nat.
Proof.
  unfold wf_suite, wireICVLen. destruct (Cipher s) as [[] kl|kl], (Integ s); cbn [wf_cipher IVLen BlockLen ICVLen]; unfold blockSize; lia.
Qed.

Lemma encryptKeys_length s keys dir : keys_ok s keys -> length (encryptKeys keys dir).1 = encKeyLen s.
Proof. unfold keys_ok. destruct dir; cbn; tauto. Qed.

Lemma sealSKF_spec h s keys dir num total next chunk iv :
  wf_header h -> wf_suite s -> keys_ok s keys -> length iv = IVLen (Cipher s) ->
  uint16 num -> uint16 total -> Z.of_nat (length chunk) <= 65000 ->
  exists raw h' body,
    sealSKF h s (encryptKeys keys dir).1 (encryptKeys keys dir).2 (IVLen (Cipher s)) (wireICVLen s) (BlockLen (Cipher s))
      num total next chunk iv = Ok raw /\
    length raw = (skfOverhead + IVLen (Cipher s) + ctLen (BlockLen (Cipher s)) (length chunk) + wireICVLen s)%nat /\
    MessageID h' = MessageID h /\
    ParseMessage raw = Some (Ok (mkMessage h' [mkRaw TypeSKF false body])) /\
    decryptSKF raw (mkRaw TypeSKF false body) s keys dir = Ok (mkFragment num total next chunk).
Proof.
  intros Hh Hs Hk Hiv Hn Ht Hl. unfold sealSKF. cbv zeta. set (ct := ctLen _ _). set (n := (4 + skfPrefixLen + _ + _ + _)%nat).
  set (h' := with_payload _ _ _). set (pre := be_enc 2 num ++ be_enc 2 total).
  set (aad := MarshalHeader h' [] ++ _).
  pose proof (ctLen_bound (BlockLen (Cipher s)) (length chunk)) as Hct. fold ct in Hct. pose proof (overhead_bound s Hs) as Ho.
  destruct (sealSK_spec s iv (encryptKeys keys dir).1 (encryptKeys keys dir).2 aad chunk Hs
    (encryptKeys_length s keys dir Hk) Hiv) as (sealed & E & Hsl & Hop). fold ct in Hsl.
  rewrite E. cbn [rbind]. rewrite Hsl, Nat.eqb_refl. cbn [negb].
  set (body := pre ++ sealed). assert (length body = skfPrefixLen + length sealed)%nat as Hb by (subst body pre; rewrite !length_app, !length_be_enc; done).
  assert (n = 4 + length body)%nat as En by (subst n; rewrite Hb, Hsl; lia).
  assert (aad ++ sealed = MarshalHeader h' [] ++ generic_header next false body ++ body) as Er.
  { subst aad body. rewrite <- (len16_generic next n _ En) by (unfold skfPrefixLen in *; lia). subst pre. by rewrite <- !app_assoc. }
  assert (length aad = 36%nat) as Ha by reflexivity.
  exists (aad ++ sealed), h', body. split; [done|]. split.
  { rewrite length_app, Ha, Hsl. unfold skfOverhead, skfPrefixLen. lia. }
  split; [done|]. split.
  { rewrite Er. subst h'. rewrite En. apply ParseMessage_terminal; [done|done|done|unfold skfPrefixLen in *; lia]. }
  unfold decryptSKF. cbn [Body]. assert (drop skfPrefixLen body = sealed) as -> by reflexivity.
  rewrite Hb, (proj2 (Nat.ltb_ge _ _)) by lia. rewrite length_app, Nat.add_sub, Ha. cbn [Nat.ltb Nat.leb skfPrefixLen Nat.add].
  rewrite <- Ha, take_app_length. destruct (encryptKeys keys dir) as [ek ik]. cbn [fst snd] in *.
  apply rbind_ok in Hop as (padded & -> & Hst). cbn [rbind]. rewrite Hst. cbn [rbind].
  assert (slice body 0 2 = be_enc 2 num) as -> by reflexivity. assert (slice body 2 4 = be_enc 2 total) as -> by reflexivity.
  by rewrite !be_dec_enc_small by done.
Qed.

Lemma buildEncryptedMessage_spec (h : Header) (s : Suite) (keys : SAKeys) (dir : keyDir) (firstInner : Z) (inner iv : bytes) :
  wf_header h -> wf_suite s -> keys_ok s keys -> length iv = IVLen (Cipher s) -> Z.of_nat (length inner) <= 65000 ->
  exists raw h' sk,
    buildEncryptedMessage h s keys dir firstInner inner iv = Ok raw /\
    ParseMessage raw = Some (Ok (mkMessage h' [sk])) /\ Type_ sk = TypeSK /\ MessageID h' = MessageID h /\
    decryptSK raw sk s keys dir = Ok (firstInner, inner).
Proof.
  intros Hh Hs Hk Hiv Hl. unfold buildEncryptedMessage. destruct (encryptKeys keys dir) as [ek ik] eqn:Ek. cbv zeta.
  set (n := (IVLen _ + _ + _)%nat). set (h' := with_payload _ _ _). set (aad := MarshalHeader h' [] ++ _).
  pose proof (ctLen_bound (BlockLen (Cipher s)) (length inner)) as Hct. pose proof (overhead_bound s Hs) as Ho.
  pose proof (encryptKeys_length s keys dir Hk) as Hel. rewrite Ek in Hel. cbn [fst] in Hel.
  destruct (sealSK_spec s iv ek ik aad inner Hs Hel Hiv) as (body & E & Hsl & Hop). fold n in Hsl.
  rewrite E. cbn [rbind]. rewrite Hsl, Nat.eqb_refl. cbn [negb].
  assert (aad ++ body = MarshalHeader h' [] ++ generic_header firstInner false body ++ body) as Er.
  { subst aad. rewrite (len16_generic firstInner (4 + n) body) by lia. by rewrite <- !app_assoc. }
  assert (length aad = 32%nat) as Ha by reflexivity.
  exists (aad ++ body), h', (mkRaw TypeSK false body). split; [done|]. split.
  { rewrite Er. subst h'. rewrite <- Hsl. apply ParseMessage_terminal; [done|done|done|lia]. }
  split; [done|]. split; [done|]. unfold decryptSK. rewrite Ek. cbn [Body].
  rewrite length_app, Nat.add_sub, Ha. cbn [Nat.ltb Nat.leb Nat.add].
  rewrite <- Ha, take_app_length. apply rbind_ok in Hop as (padded & -> & Hst). cbn [rbind]. by rewrite Hst.
Qed.

(** A protected message opens to what was sealed.  Under a negotiated suite
    and keys of its lengths building the message never fails, the result parses
    as an IKE message whose only payload is an SK payload, and decrypting it with
    the keys of the same direction returns the first inner type and the inner
    payloads unchanged. *)
Theorem sk_roundtrip (h : Header) (s : Suite) (keys : SAKeys) (dir : keyDir) (firstInner : Z) (inner iv : bytes) :
  wf_header h -> wf_suite s -> keys_ok s keys -> length iv = IVLen (Cipher s) -> Z.of_nat (length inner) <= 65000 ->
  exists raw h' sk,
    buildEncryptedMessage h s keys dir firstInner inner iv = Ok raw /\
    ParseMessage raw = Some (Ok (mkMessage h' [sk])) /\ Type_ sk = TypeSK /\ MessageID h' = MessageID h /\
    decryptSK raw sk s keys dir = Ok (firstInner, inner).
Proof. apply buildEncryptedMessage_spec. Qed.
End Open.

(** ** The reassembler *)

(** How many parts have arrived, and how many octets they hold. *)
Definition filled (l : list (option bytes)) : nat := length (omap id l).
Definition held (l : list (option bytes)) : nat := length (concat (part_bytes <$> l)).

Lemma filled_insert l i c : l !! i = Some None -> filled (<[i := Some c]> l) = S (filled l).
Proof.
  revert i. unfold filled. induction l as [|x l IH]; intros [|i] H; simplify_eq/=; [done|].
  destruct x; cbn; by rewrite IH.
Qed.

Lemma held_insert l i p : l !! i = Some None -> held (<[i := p]> l) = (held l + length (part_bytes p))%nat.
Proof.
  revert i. unfold held. induction l as [|x l IH]; intros [|i] H; simplify_eq/=; rewrite !length_app; [simpl; lia|].
  rewrite IH by done. lia.
Qed.

Lemma filled_le l : (filled l <= length l)%nat.
Proof. unfold filled. induction l as [|[] l IH]; cbn in *; lia. Qed.

Lemma filled_all l : filled l = length l <-> Forall is_Some l.
Proof.
  split.
  - unfold filled. induction l as [|[] l IH]; cbn; intros H; constructor; [done|apply IH; lia| |].
    + exfalso. pose proof (filled_le l). unfold filled in *. lia.
    + exfalso. pose proof (filled_le l). unfold filled in *. lia.
  - unfold filled. induction 1 as [|x l [y ->] _ IH]; cbn; congruence.
Qed.

Lemma part_bytes_copy c : part_bytes (copy_slice c) = c.
Proof. by destruct c. Qed.

Lemma held_replicate n : held (replicate n None) = 0%nat.
Proof. induction n; [done|]. cbn. done. Qed.

Lemma held_imap (b : nat -> bool) (l : list bytes) :
  (held (imap (fun j c => if b j then Some c else None) l) <= length (concat l))%nat.
Proof.
  unfold held. revert b. induction l as [|c l IH]; intros b; [done|]. rewrite imap_cons. cbn [fmap list_fmap concat].
  rewrite !length_app. specialize (IH (b ∘ S)). unfold compose in *.
  assert (length (part_bytes (if b 0%nat then Some c else None)) <= length c)%nat by (destruct (b 0%nat); simpl; lia). lia.
Qed.

(** What holds of the reassembler whatever fragments it is given. *)
Definition reasm_inv (r : fragReassembler) : Prop :=
  match rParts r with
  | None => True
  | Some parts =>
      0 < rTotal r <= maxFragments /\ Z.of_nat (length parts) = rTotal r /\
      rBytes r = Z.of_nat (held parts) /\ rBytes r <= maxReassembledBytes
  end.

Lemma current_inv r now msgID total r' parts :
  reasm_inv r -> 0 < total <= maxFragments -> current r now msgID total = (r', parts) ->
  reasm_inv r' /\ rParts r' = Some parts /\ rTotal r' = total.
Proof.
  intros Hr Ht. unfold current.
  set (f := mkReasm msgID total (Some (replicate (Z.to_nat total) None)) 0 0 0 now).
  assert (reasm_inv f /\ rParts f = Some (replicate (Z.to_nat total) None) /\ rTotal f = total) as Hf.
  { split; [|done]. cbn. rewrite length_replicate, held_replicate. unfold maxReassembledBytes. lia. }
  destruct (rParts r) as [ps|] eqn:Ep; [|intros [= <- <-]; exact Hf].
  destruct (_ || _ || _) eqn:E; [intros [= <- <-]; exact Hf|]. intros [= <- <-].
  apply orb_false_iff in E as [E _]. apply orb_false_iff in E as [_ E]. apply negb_false_iff, Z.eqb_eq in E. done.
Qed.

Lemma add_inv r now msgID f :
  reasm_inv r -> 0 <= fragNum f -> 0 <= fragTotal f ->
  reasm_inv (add r now msgID f).2 /\ (add r now msgID f).1 <> Err ErrIndexOutOfRange /\
  (forall inner fi, (add r now msgID f).1 = Ok (Some (inner, fi)) ->
     Z.of_nat (length inner) <= maxReassembledBytes /\ rParts (add r now msgID f).2 = None).
Proof.
  destruct f as [num total first chunk]. cbn [fragNum fragTotal]. intros Hr Hn0 Ht0. unfold add.
  destruct (Z.eqb_spec total 0), (Z.ltb_spec maxFragments total); try done.
  destruct (Z.eqb_spec num 0), (Z.ltb_spec total num); try done. cbn [orb].
  destruct (current r now msgID total) as [r' parts] eqn:Ec.
  apply current_inv in Ec as (Hi & Hp & Ht); [|done|lia]. unfold reasm_inv in Hi. rewrite Hp in Hi.
  destruct Hi as (_ & Hlen & Hb & Hmax).
  destruct (parts !! Z.to_nat (num - 1)) as [[c|]|] eqn:El.
  - split_and!; [|done|done]. unfold reasm_inv. cbn [snd]. rewrite Hp. split_and!; lia.
  - destruct (Z.ltb_spec maxReassembledBytes (rBytes r' + Z.of_nat (length chunk))) as [|Hfit]; [done|].
    pose proof (held_insert parts _ (copy_slice chunk) El) as Hh. rewrite part_bytes_copy in Hh.
    cbn [rGot rTotal rParts rBytes rFirst]. destruct (rGot r' + 1 <? rTotal r').
    + split_and!; [|done|done]. unfold reasm_inv. cbn [rTotal rParts rBytes fst snd]. rewrite length_insert, Hh. split_and!; lia.
    + split_and!; [done|done|]. intros inner fi [= <- <-]. split; [|done]. fold (held (<[Z.to_nat (num - 1):=copy_slice chunk]> parts)).
      rewrite Hh. lia.
  - exfalso. apply lookup_ge_None in El. lia.
Qed.

(** A run of the reassembler over any fragments at any times. *)
Fixpoint add_all (r : fragReassembler) (ds : list (Z * Z * fragment)) : list (result ike_error (option (bytes * Z))) * fragReassembler :=
  match ds with
  | [] => ([], r)
  | (now, msgID, f) :: ds =>
      let '(o, r) := add r now msgID f in
      let '(os, r) := add_all r ds in (o :: os, r)
  end.

(** The reassembler's memory is bounded on every input: whatever fragments
    arrive, it buffers at most 64 parts and 64 KiB, never indexes outside its
    parts, and never returns a message longer than 64 KiB. *)
Theorem reassembler_bounded (ds : list (Z * Z * fragment)) :
  Forall (fun d => 0 <= fragNum d.2 /\ 0 <= fragTotal d.2) ds ->
  let '(os, r) := add_all newReassembler ds in
  match rParts r with
  | None => True
  | Some parts => Z.of_nat (length parts) <= maxFragments /\ Z.of_nat (held parts) <= maxReassembledBytes
  end /\
  Forall (fun o => o <> Err ErrIndexOutOfRange /\
    forall inner fi, o = Ok (Some (inner, fi)) -> Z.of_nat (length inner) <= maxReassembledBytes) os.
Proof.
  intros Hds. assert (reasm_inv newReassembler) as Hr by done. revert Hr. generalize newReassembler as r.
  induction Hds as [|[[now msgID] f] ds [Hn Ht] _ IH]; intros r Hr; cbn [add_all].
  { split; [|constructor]. unfold reasm_inv in Hr. destruct (rParts r); [|done]. lia. }
  destruct (add_inv r now msgID f Hr Hn Ht) as (Hi & Hno & Hlen). destruct (add r now msgID f) as [o r1]. cbn [fst snd] in *.
  specialize (IH r1 Hi). destruct (add_all r1 ds) as [os r2]. destruct IH as [IH1 IH2].
  split; [done|]. constructor; [|done]. split; [done|]. intros inner fi E. by destruct (Hlen inner fi E).
Qed.

Lemma reassembler_bounded_witness :
  let '(os, r) := add_all newReassembler [(0, 5, mkFragment 2 3 0 [7; 8]); (1, 5, mkFragment 9 3 0 [1])] in
  match rParts r with
  | None => True
  | Some parts => Z.of_nat (length parts) <= maxFragments /\ Z.of_nat (held parts) <= maxReassembledBytes
  end /\
  Forall (fun o => o <> Err ErrIndexOutOfRange /\
    forall inner fi, o = Ok (Some (inner, fi)) -> Z.of_nat (length inner) <= maxReassembledBytes) os.
Proof. apply (reassembler_bounded [(0, 5, mkFragment 2 3 0 [7; 8]); (1, 5, mkFragment 9 3 0 [1])]). repeat constructor; simpl; lia. Defined.

(** C32: a fragment that arrives twice with an empty chunk is counted twice, since
    the copy of an empty chunk is nil and looks like a part not yet received: a
    two-fragment message then completes although its first fragment, with all its
    content and the type of the first payload, never arrived. *)
Theorem empty_fragment_counted_twice (msgID now : Z) :
  exists r, add newReassembler now msgID (mkFragment 2 2 0 []) = (Ok None, r) /\
    (add r now msgID (mkFragment 2 2 0 [])).1 = Ok (Some ([], 0)).
Proof.
  eexists. split; [reflexivity|]. unfold add. cbn [Z.eqb Z.ltb Z.compare orb maxFragments Pos.compare Pos.compare_cont].
  unfold current. cbn [rParts rMsgID rTotal rStarted rGot rBytes rFirst]. rewrite !Z.eqb_refl. cbn [negb orb].
  unfold time_sub. rewrite Z.sub_diag. reflexivity.
Qed.

(** ** Reassembly of one message *)

Section Deliver.
Context (msgID t0 fi : Z) (cs : list bytes).

Definition frag_of (j : nat) : fragment :=
  mkFragment (Z.of_nat j + 1) (Z.of_nat (length cs)) (if (j =? 0)%nat then fi else 0) (cs !!! j).

(** The parts once the fragments [pre] have arrived. *)
Definition parts_of (pre : list nat) : list (option bytes) :=
  imap (fun j c => if bool_decide (j ∈ pre) then Some c else None) cs.

Definition partial (pre : list nat) (r : fragReassembler) : Prop :=
  rMsgID r = msgID /\ rTotal r = Z.of_nat (length cs) /\ rParts r = Some (parts_of pre) /\
  rGot r = Z.of_nat (filled (parts_of pre)) /\ rBytes r = Z.of_nat (held (parts_of pre)) /\
  (0%nat ∈ pre -> rFirst r = fi) /\ rStarted r = t0.

Lemma length_parts_of pre : length (parts_of pre) = length cs.
Proof. unfold parts_of. by rewrite length_imap. Qed.

Lemma lookup_parts_of pre j :
  (j < length cs)%nat -> parts_of pre !! j = Some (if bool_decide (j ∈ pre) then Some (cs !!! j) else None).
Proof.
  intros Hj. unfold parts_of. rewrite list_lookup_imap. rewrite (list_lookup_lookup_total_lt cs j Hj). done.
Qed.

Lemma parts_of_cons pre j :
  (j < length cs)%nat -> <[j := Some (cs !!! j)]> (parts_of pre) = parts_of (j :: pre).
Proof.
  intros Hj. apply list_eq. intros i. destruct (decide (i < length cs)%nat) as [Hi|Hi].
  - rewrite lookup_parts_of by done. destruct (decide (i = j)) as [->|Hne].
    + rewrite list_lookup_insert_eq by (by rewrite length_parts_of). rewrite bool_decide_eq_true_2 by set_solver. done.
    + rewrite list_lookup_insert_ne by done. rewrite lookup_parts_of by done. by rewrite (bool_decide_ext (i ∈ j :: pre) (i ∈ pre)) by set_solver.
  - rewrite !(proj2 (lookup_ge_None _ _)); [done|rewrite length_parts_of; lia|rewrite length_insert, length_parts_of; lia].
Qed.

Lemma parts_of_nil : parts_of [] = replicate (length cs) None.
Proof.
  apply list_eq. intros i. destruct (decide (i < length cs)%nat) as [Hi|Hi].
  - rewrite lookup_parts_of, lookup_replicate_2 by done. by rewrite bool_decide_eq_false_2 by set_solver.
  - by rewrite !(proj2 (lookup_ge_None _ _)) by (rewrite ?length_parts_of, ?length_replicate; lia).
Qed.

Lemma parts_of_all pre : (forall j, (j < length cs)%nat -> j ∈ pre) -> parts_of pre = Some <$> cs.
Proof.
  intros Hall. apply list_eq. intros i. destruct (decide (i < length cs)%nat) as [Hi|Hi].
  - rewrite lookup_parts_of, list_lookup_fmap, (list_lookup_lookup_total_lt cs i Hi) by done.
    by rewrite bool_decide_eq_true_2 by auto.
  - by rewrite !(proj2 (lookup_ge_None _ _)) by (rewrite ?length_parts_of, ?length_fmap; lia).
Qed.

Lemma held_parts_of pre : (held (parts_of pre) <= length (concat cs))%nat.
Proof. apply (held_imap (fun j => bool_decide (j ∈ pre))). Qed.

Lemma filled_parts_of_lt pre j : (j < length cs)%nat -> j ∉ pre -> (filled (parts_of pre) < length cs)%nat.
Proof.
  intros Hj Hn. pose proof (filled_le (parts_of pre)) as Hle. rewrite length_parts_of in Hle.
  destruct (decide (filled (parts_of pre) = length cs)) as [E|]; [|lia]. exfalso.
  rewrite <- (length_parts_of pre) in E. apply filled_all in E. rewrite Forall_lookup in E.
  specialize (E j _ (lookup_parts_of pre j Hj)). rewrite bool_decide_eq_false_2 in E by done. by destruct E.
Qed.

Lemma current_partial pre r now :
  partial pre r -> now - t0 <= fragReassemblyTTL -> current r now msgID (Z.of_nat (length cs)) = (r, parts_of pre).
Proof.
  intros (H1 & H2 & H3 & _ & _ & _ & H7) Ht. unfold current. rewrite H3, H1, H2, H7, !Z.eqb_refl. cbn [negb orb].
  rewrite (proj2 (Z.ltb_ge _ _)); [done|]. unfold time_sub, fragReassemblyTTL in *. lia.
Qed.

Lemma partial_fresh r :
  rParts r = None ->
  exists r', current r t0 msgID (Z.of_nat (length cs)) = (r', parts_of []) /\ partial [] r'.
Proof.
  intros Hr. unfold current. rewrite Hr, Nat2Z.id, parts_of_nil. eexists. split; [done|].
  unfold partial. rewrite parts_of_nil. cbn. split_and!; try done.
  - unfold filled. clear. induction (length cs); [done|]. cbn. done.
  - by rewrite held_replicate.
  - set_solver.
Qed.

Context (Hcount : 0 < Z.of_nat (length cs) <= maxFragments).
Context (Hsize : Z.of_nat (length (concat cs)) <= maxReassembledBytes).
Context (Hnonempty : Forall (fun c => c <> []) cs \/ length cs = 1%nat).

(** One fragment, once [current] has picked the state to work on. *)
Lemma add_fragment pre r r' now j :
  current r now msgID (Z.of_nat (length cs)) = (r', parts_of pre) -> partial pre r' -> (j < length cs)%nat ->
  add r now msgID (frag_of j) =
    if bool_decide (j ∈ pre) then (Ok None, r')
    else
      let parts := <[j := copy_slice (cs !!! j)]> (parts_of pre) in
      let r := mkReasm msgID (rTotal r') (Some parts) (rGot r' + 1) (rBytes r' + Z.of_nat (length (cs !!! j)))
                 (if (j =? 0)%nat then fi else rFirst r') (rStarted r') in
      if rGot r <? rTotal r then (Ok None, r) else (Ok (Some (concat (part_bytes <$> parts), rFirst r)), reset r).
Proof.
  intros Hc (H1 & H2 & H3 & H4 & H5 & H6 & H7) Hj. unfold frag_of, add.
  rewrite (proj2 (Z.eqb_neq (Z.of_nat (length cs)) 0)), (proj2 (Z.ltb_ge _ _)) by lia. cbn [orb].
  rewrite (proj2 (Z.eqb_neq (Z.of_nat j + 1) 0)), (proj2 (Z.ltb_ge (Z.of_nat (length cs)) _)) by lia. cbn [orb].
  rewrite Hc. replace (Z.to_nat (Z.of_nat j + 1 - 1)) with j by lia. rewrite lookup_parts_of by done.
  case_bool_decide as Hin; [done|].
  rewrite (proj2 (Z.ltb_ge maxReassembledBytes _)).
  - rewrite H1. cbv zeta. replace (Z.of_nat j + 1 =? 1) with (j =? 0)%nat; [by destruct j|].
    destruct j; [done|]. symmetry. apply Z.eqb_neq. lia.
  - pose proof (held_insert (parts_of pre) j (Some (cs !!! j))) as Hh.
    rewrite lookup_parts_of, bool_decide_eq_false_2, parts_of_cons in Hh by done. specialize (Hh eq_refl).
    cbn [part_bytes default from_option id] in Hh. pose proof (held_parts_of (j :: pre)). lia.
Qed.

Lemma chunk_nonempty j : Forall (fun c : bytes => c <> []) cs -> (j < length cs)%nat -> copy_slice (cs !!! j) = Some (cs !!! j).
Proof.
  intros H Hj. rewrite Forall_lookup in H. specialize (H j _ (list_lookup_lookup_total_lt cs j Hj)).
  by destruct (cs !!! j).
Qed.

(** A fragment that does not complete the message. *)
Lemma add_pending pre r r' now j k :
  current r now msgID (Z.of_nat (length cs)) = (r', parts_of pre) -> partial pre r' ->
  (j < length cs)%nat -> (k < length cs)%nat -> k ∉ j :: pre ->
  exists r'', add r now msgID (frag_of j) = (Ok None, r'') /\ partial (j :: pre) r''.
Proof.
  intros Hc Hp Hj Hk Hnk. rewrite (add_fragment pre r r') by done.
  destruct Hnonempty as [Hne|Hone]; [|exfalso; set_unfold in Hnk; naive_solver lia].
  destruct Hp as (H1 & H2 & H3 & H4 & H5 & H6 & H7). case_bool_decide as Hin.
  - exists r'. split; [done|]. assert (parts_of (j :: pre) = parts_of pre) as E.
    { apply imap_ext. intros i x _. cbn. by rewrite (bool_decide_ext (i ∈ j :: pre) (i ∈ pre)) by set_solver. }
    unfold partial. rewrite E. split_and!; try done. intros H. apply H6. set_solver.
  - cbv zeta. rewrite chunk_nonempty, parts_of_cons by done. cbn [rGot rTotal].
    assert (filled (parts_of (j :: pre)) = S (filled (parts_of pre))) as Hf.
    { rewrite <- parts_of_cons by done. apply filled_insert. rewrite lookup_parts_of by done. by rewrite bool_decide_eq_false_2. }
    pose proof (filled_parts_of_lt (j :: pre) k Hk Hnk). rewrite (proj2 (Z.ltb_lt _ _)) by lia.
    eexists. split; [reflexivity|]. unfold partial. cbn [rMsgID rTotal rParts rGot rBytes rFirst rStarted].
    split_and!; try done; [lia| |].
    + rewrite <- parts_of_cons by done. rewrite held_insert; [simpl; lia|]. rewrite lookup_parts_of by done. by rewrite bool_decide_eq_false_2.
    + intros H0. destruct (Nat.eqb_spec j 0) as [->|]; [done|]. apply H6. set_solver.
Qed.

(** The fragment that completes it. *)
Lemma add_complete pre r r' now j :
  current r now msgID (Z.of_nat (length cs)) = (r', parts_of pre) -> partial pre r' ->
  (j < length cs)%nat -> j ∉ pre -> (forall k, (k < length cs)%nat -> k ∈ j :: pre) ->
  exists r'', add r now msgID (frag_of j) = (Ok (Some (concat cs, fi)), r'') /\ rParts r'' = None.
Proof.
  intros Hc Hp Hj Hn Hall. rewrite (add_fragment pre r r') by done. rewrite bool_decide_eq_false_2 by done. cbv zeta.
  destruct Hp as (H1 & H2 & H3 & H4 & H5 & H6 & H7). cbn [rGot rTotal rFirst].
  assert (part_bytes <$> <[j:=copy_slice (cs !!! j)]> (parts_of pre) = cs) as ->.
  { rewrite list_fmap_insert, part_bytes_copy. change (cs !!! j) with (part_bytes (Some (cs !!! j))) at 1.
    rewrite <- list_fmap_insert, parts_of_cons, parts_of_all by done. rewrite <- list_fmap_compose. apply list_fmap_id. }
  assert (filled (parts_of pre) + 1 = length cs)%nat as Hf.
  { assert (filled (parts_of (j :: pre)) = S (filled (parts_of pre))) as Hf.
    { rewrite <- parts_of_cons by done. apply filled_insert. rewrite lookup_parts_of by done. by rewrite bool_decide_eq_false_2. }
    rewrite (parts_of_all (j :: pre)) in Hf by done. assert (filled (Some <$> cs) = length cs) as Hx.
    { rewrite <- (length_fmap Some cs). apply filled_all, Forall_fmap, Forall_forall. intros c _. by eexists. }
    lia. }
  rewrite (proj2 (Z.ltb_ge _ _)) by lia.
  assert ((if (j =? 0)%nat then fi else rFirst r') = fi) as ->.
  { destruct (Nat.eqb_spec j 0) as [->|Hj0]; [done|]. apply H6. specialize (Hall 0%nat ltac:(lia)). set_solver. }
  eexists. split; [reflexivity|]. done.
Qed.
End Deliver.

(** ** The split *)

Definition chunk_at (room : nat) (inner : bytes) (i : nat) : bytes := take room (drop (i * room) inner).
Definition chunks (room n : nat) (inner : bytes) : list bytes := chunk_at room inner <$> seq 0 n.

Lemma concat_chunks_from room inner i n :
  (length inner <= (i + n) * room)%nat -> concat (chunk_at room inner <$> seq i n) = drop (i * room) inner.
Proof.
  revert i. induction n as [|n IH]; intros i Hl; cbn [seq fmap list_fmap concat].
  - rewrite drop_ge; [done|lia].
  - rewrite IH by lia. unfold chunk_at. replace (S i * room)%nat with (i * room + room)%nat by lia.
    rewrite <- drop_drop. apply take_drop.
Qed.

Lemma fragmentCount_spec room len :
  (0 < room)%nat ->
  (0 < fragmentCount room len)%nat /\ (len <= fragmentCount room len * room)%nat /\
  ((forall i, (i < fragmentCount room len)%nat -> (i * room < len)%nat) \/ fragmentCount room len = 1%nat).
Proof.
  intros Hr. unfold fragmentCount. cbv zeta. set (q := ((len + room - 1) / room)%nat).
  assert (len + room - 1 = room * q + (len + room - 1) mod room)%nat as Hd by apply Nat.div_mod_eq.
  pose proof (Nat.mod_upper_bound (len + room - 1) room ltac:(lia)) as Hm.
  destruct (Nat.eqb_spec q 0) as [E|E].
  - rewrite E in Hd. split_and!; [lia|lia|by right].
  - split_and!; [lia|nia|]. left. intros i Hi. nia.
Qed.

Lemma concat_chunks room inner :
  (0 < room)%nat -> concat (chunks room (fragmentCount room (length inner)) inner) = inner.
Proof.
  intros Hr. unfold chunks. rewrite concat_chunks_from; [by rewrite drop_0|].
  pose proof (fragmentCount_spec room (length inner) Hr). lia.
Qed.

Lemma chunks_nonempty room inner :
  (0 < room)%nat -> let cs := chunks room (fragmentCount room (length inner)) inner in
  Forall (fun c => c <> []) cs \/ length cs = 1%nat.
Proof.
  intros Hr. cbv zeta. destruct (fragmentCount_spec room (length inner) Hr) as (_ & _ & [H|H]).
  - left. unfold chunks. apply Forall_fmap, Forall_forall. intros i Hi%elem_of_seq. specialize (H i ltac:(lia)).
    cbn. unfold chunk_at. intros E. apply (f_equal length) in E. rewrite length_take, length_drop in E. simpl in E. lia.
  - right. unfold chunks. rewrite length_fmap, length_seq. done.
Qed.

Lemma fragmentRoom_bound s : wf_suite s -> 1179 <= fragmentRoom s <= 1280.
Proof.
  intros Hs. pose proof (overhead_bound s Hs). unfold fragmentRoom. cbv zeta.
  change (Z.of_nat fragmentThreshold) with 1280. change (Z.of_nat skfOverhead) with 36.
  destruct (Nat.ltb_spec 1 (BlockLen (Cipher s))); lia.
Qed.

(** A fragment filled to the room fits the threshold. *)
Lemma fragment_fits s n :
  wf_suite s -> Z.of_nat n <= fragmentRoom s ->
  (skfOverhead + IVLen (Cipher s) + ctLen (BlockLen (Cipher s)) n + wireICVLen s <= fragmentThreshold)%nat.
Proof.
  intros Hs Hn. pose proof (overhead_bound s Hs). pose proof (ctLen_bound (BlockLen (Cipher s)) n) as Hc.
  unfold fragmentRoom in Hn. cbv zeta in Hn. apply Nat2Z.inj_le. rewrite !Nat2Z.inj_add.
  change (Z.of_nat fragmentThreshold) with 1280 in *. change (Z.of_nat skfOverhead) with 36 in *.
  destruct (Nat.ltb_spec 1 (BlockLen (Cipher s))); lia.
Qed.

Lemma fragmentCount_max s len :
  wf_suite s -> Z.of_nat len <= maxReassembledBytes ->
  Z.of_nat (fragmentCount (Z.to_nat (fragmentRoom s)) len) <= maxFragments.
Proof.
  intros Hs Hl. pose proof (fragmentRoom_bound s Hs) as Hr. set (room := Z.to_nat (fragmentRoom s)).
  destruct (fragmentCount_spec room len ltac:(lia)) as (_ & _ & [H|H]); unfold maxFragments, maxReassembledBytes in *; [|lia].
  set (n := fragmentCount room len) in *. destruct (decide (n = 0)%nat) as [->|Hn]; [lia|].
  specialize (H (n - 1)%nat ltac:(lia)). assert (Z.of_nat room = fragmentRoom s) by lia. nia.
Qed.

Section Roundtrip.
Context {P : Prims} {PO : PrimsOk P}.
Context (h : Header) (s : Suite) (keys : SAKeys) (dir : keyDir) (fi : Z) (ivs : nat -> bytes).
Context (Hh : wf_header h) (Hs : wf_suite s) (Hk : keys_ok s keys) (Hiv : forall i, length (ivs i) = IVLen (Cipher s)).

(** What the receiver makes of one datagram. *)
Definition carries (raw : bytes) (f : fragment) : Prop :=
  (length raw <= fragmentThreshold)%nat /\
  exists h' body, ParseMessage raw = Some (Ok (mkMessage h' [mkRaw TypeSKF false body])) /\ MessageID h' = MessageID h /\
    decryptSKF raw (mkRaw TypeSKF false body) s keys dir = Ok f.

Lemma seal_fragments_spec room total inner i n :
  Z.of_nat room = fragmentRoom s -> Z.of_nat total <= maxFragments -> (i + n <= total)%nat ->
  exists frags,
    seal_fragments h s (encryptKeys keys dir).1 (encryptKeys keys dir).2 (IVLen (Cipher s)) (wireICVLen s)
      (BlockLen (Cipher s)) room total fi inner ivs i n = Ok frags /\
    Forall2 (fun k raw => carries raw (mkFragment (Z.of_nat k + 1) (Z.of_nat total) (if (k =? 0)%nat then fi else 0)
                                         (chunk_at room inner k))) (seq i n) frags.
Proof.
  intros Hroom Ht. pose proof (fragmentRoom_bound s Hs) as Hrb. unfold maxFragments in Ht.
  revert i. induction n as [|n IH]; intros i Hi; cbn [seal_fragments seq].
  { eexists. split; [done|constructor]. }
  assert (length (chunk_at room inner i) <= room)%nat as Hc by (unfold chunk_at; rewrite length_take; lia).
  rewrite !wrap_small by (unfold uint; lia). fold (chunk_at room inner i).
  assert (Z.of_nat (length (chunk_at room inner i)) <= 65000) as Hc' by lia.
  assert (uint16 (Z.of_nat i + 1)) as Hi1 by (unfold uint; lia). assert (uint16 (Z.of_nat total)) as Ht1 by (unfold uint; lia).
  destruct (sealSKF_spec h s keys dir _ _ (if (i =? 0)%nat then fi else 0) _ (ivs i) Hh Hs Hk (Hiv i) Hi1 Ht1 Hc')
    as (raw & h' & body & -> & Hl & Hid & Hp & Hd).
  destruct (IH (S i)) as (frags & -> & Hf); [lia|]. cbn [rbind]. eexists. split; [done|]. constructor; [|done].
  split; [rewrite Hl; apply fragment_fits; [done|lia]|]. by exists h', body.
Qed.

Lemma buildFragmentedMessage_spec inner :
  Z.of_nat (length inner) <= maxReassembledBytes ->
  let room := Z.to_nat (fragmentRoom s) in
  let cs := chunks room (fragmentCount room (length inner)) inner in
  exists frags, buildFragmentedMessage h s keys dir fi inner ivs = Ok frags /\ length frags = length cs /\
    forall j raw, frags !! j = Some raw -> carries raw (frag_of fi cs j).
Proof.
  intros Hl room cs. pose proof (fragmentRoom_bound s Hs) as Hrb. unfold buildFragmentedMessage.
  rewrite (surjective_pairing (encryptKeys keys dir)). rewrite (proj2 (Z.leb_gt _ _)) by lia. cbv zeta. fold room.
  set (n := fragmentCount room (length inner)). pose proof (fragmentCount_max s _ Hs Hl) as Hn. fold room n in Hn.
  rewrite (proj2 (Z.ltb_ge _ _)) by done.
  destruct (seal_fragments_spec room n inner 0 n ltac:(lia) Hn ltac:(lia)) as (frags & E & Hf).
  exists frags. split; [exact E|]. assert (length cs = n) as Hcs by (subst cs; unfold chunks; by rewrite length_fmap, length_seq).
  pose proof (Forall2_length _ _ _ Hf) as Hlen. rewrite length_seq in Hlen. split; [congruence|]. intros j raw Hj.
  assert (j < n)%nat as Hjn by (apply lookup_lt_Some in Hj; lia).
  destruct (Forall2_lookup_r _ _ _ _ _ Hf Hj) as (k & Hk' & Hc). apply lookup_seq in Hk' as [-> _]. cbn [Nat.add] in Hc.
  unfold frag_of. rewrite Hcs. replace (cs !!! j) with (chunk_at room inner j); [done|].
  symmetry. apply list_lookup_total_correct. subst cs. unfold chunks. rewrite list_lookup_fmap, lookup_seq_lt by done. done.
Qed.

(** No datagram is too large.  For a peer that reassembles, and a message of
    at most 64 KiB, sealing never fails and every datagram it produces is at most
    1280 octets, whether the message is sent whole or as fragments. *)
Theorem sealed_datagrams_fit (inner : bytes) :
  Z.of_nat (length inner) <= maxReassembledBytes ->
  exists pkts, sealMaybeFragment h s keys dir fi inner true ivs = Ok pkts /\
    (0 < length pkts)%nat /\ Z.of_nat (length pkts) <= maxFragments /\
    Forall (fun pkt => (length pkt <= fragmentThreshold)%nat) pkts.
Proof.
  intros Hl. unfold sealMaybeFragment. cbn [andb]. destruct (wouldExceedThreshold s (length inner)) eqn:Ew.
  - destruct (buildFragmentedMessage_spec inner Hl) as (frags & E & Hlen & Hc). exists frags. split; [done|].
    unfold chunks in Hlen. rewrite length_fmap, length_seq in Hlen. pose proof (fragmentRoom_bound s Hs).
    pose proof (fragmentCount_spec (Z.to_nat (fragmentRoom s)) (length inner) ltac:(lia)).
    pose proof (fragmentCount_max s _ Hs Hl). split_and!; [lia|lia|]. apply Forall_lookup. intros j raw Hj. apply (Hc j raw Hj).
  - unfold wouldExceedThreshold in Ew. cbv zeta in Ew. apply Nat.ltb_ge in Ew. unfold buildEncryptedMessage.
    destruct (encryptKeys keys dir) as [ek ik] eqn:Ek. cbv zeta. set (n := (IVLen _ + _ + _)%nat). set (aad := _ ++ _).
    pose proof (encryptKeys_length s keys dir Hk) as Hel. rewrite Ek in Hel. cbn [fst] in Hel.
    destruct (sealSK_spec s (ivs 0%nat) ek ik aad inner Hs Hel (Hiv _)) as (body & -> & Hsl & _). fold n in Hsl.
    cbn [rbind]. rewrite Hsl, Nat.eqb_refl. cbn [negb rbind]. eexists. split; [reflexivity|].
    split_and!; [simpl; lia|simpl; unfold maxFragments; lia|]. constructor; [|constructor].
    rewrite length_app, Hsl. assert (length aad = 32%nat) as -> by reflexivity.
    pose proof (ctLen_bound (BlockLen (Cipher s)) (length inner)). pose proof (overhead_bound s Hs).
    subst n. revert Ew. destruct (Nat.ltb_spec 1 (BlockLen (Cipher s))); intros Ew; lia.
Qed.

(** The receiver, fed datagrams in turn. *)
Fixpoint receive_all (r : fragReassembler) (ds : list (Z * bytes)) : list opened * fragReassembler :=
  match ds with
  | [] => ([], r)
  | (now, raw) :: ds =>
      let '(o, r) := openSecured true r now s keys dir (MessageID h) raw in
      let '(os, r) := receive_all r ds in (o :: os, r)
  end.

Lemma receive_all_app r ds ds' :
  receive_all r (ds ++ ds') =
    let '(os, r) := receive_all r ds in let '(os', r) := receive_all r ds' in (os ++ os', r).
Proof.
  revert r. induction ds as [|[now raw] ds IH]; intros r; cbn [receive_all app].
  - by destruct (receive_all r ds').
  - destruct (openSecured _ _ _ _ _ _ _ _) as [o r1]. rewrite IH. destruct (receive_all r1 ds) as [os r2].
    by destruct (receive_all r2 ds').
Qed.

Lemma openSecured_carries raw f r now :
  carries raw f ->
  openSecured true r now s keys dir (MessageID h) raw =
    match add r now (MessageID h) f with
    | (Err _, r) => (Dropped, r)
    | (Ok None, r) => (Awaiting, r)
    | (Ok (Some (inner, firstInner)), r) => (Opened firstInner inner, r)
    end.
Proof. intros (_ & h' & body & Hp & _ & Hd). unfold openSecured. rewrite Hp. cbn -[decryptSKF add]. by rewrite Hd. Qed.

Section Delivery.
Context (inner : bytes) (Hl : Z.of_nat (length inner) <= maxReassembledBytes).
Let cs := chunks (Z.to_nat (fragmentRoom s)) (fragmentCount (Z.to_nat (fragmentRoom s)) (length inner)) inner.
Context (frags : list bytes) (Hlen : length frags = length cs)
  (Hc : forall j raw, frags !! j = Some raw -> carries raw (frag_of fi cs j)).

Lemma cs_facts :
  0 < Z.of_nat (length cs) <= maxFragments /\ concat cs = inner /\ (Forall (fun c => c <> []) cs \/ length cs = 1%nat).
Proof.
  pose proof (fragmentRoom_bound s Hs) as Hrb. subst cs.
  pose proof (fragmentCount_spec (Z.to_nat (fragmentRoom s)) (length inner) ltac:(lia)) as Hf.
  pose proof (fragmentCount_max s _ Hs Hl). split; [|split; [apply concat_chunks; lia|apply chunks_nonempty; lia]].
  unfold chunks. rewrite length_fmap, length_seq. lia.
Qed.

Lemma frags_carry j : (j < length frags)%nat -> carries (frags !!! j) (frag_of fi cs j).
Proof. intros Hj. apply Hc. by apply list_lookup_lookup_total_lt. Qed.

(** Fragments that leave some fragment [k] out keep the receiver waiting. *)
Lemma receive_pending t0 k ds pre r :
  (k < length cs)%nat -> partial (MessageID h) t0 fi cs pre r -> k ∉ pre ->
  Forall (fun d : Z * nat => (d.2 < length frags)%nat /\ d.1 - t0 <= fragReassemblyTTL /\ d.2 <> k) ds ->
  exists pre' r', receive_all r ((fun d => (d.1, frags !!! d.2)) <$> ds) = (replicate (length ds) Awaiting, r') /\
    partial (MessageID h) t0 fi cs pre' r' /\ (forall x, x ∈ pre' <-> x ∈ pre \/ x ∈ ds.*2).
Proof.
  destruct cs_facts as (Hn & Hcat & Hne). intros Hkl Hp Hkp Hds. revert pre r Hp Hkp.
  induction Hds as [|[now j] ds (Hj & Ht & Hjk) Hds IH]; intros pre r Hp Hkp; cbn [fmap list_fmap receive_all length replicate].
  { exists pre, r. split_and!; [done|done|]. set_solver. }
  cbn [fst snd] in *. rewrite (openSecured_carries _ _ r now (frags_carry j Hj)).
  pose proof (current_partial (MessageID h) t0 fi cs pre r now Hp Ht) as Hcur.
  destruct (add_pending (MessageID h) t0 fi cs Hn ltac:(by rewrite Hcat) Hne pre r r now j k Hcur Hp ltac:(lia) Hkl ltac:(set_solver))
    as (r1 & -> & Hp1). destruct (IH (j :: pre) r1 Hp1 ltac:(set_solver)) as (pre' & r' & -> & Hp' & Hx).
  exists pre', r'. split_and!; [done|done|]. intros x. rewrite Hx. set_solver.
Qed.

Lemma deliver_all ds t0 tl j r :
  rParts r = None -> t0 = (hd (tl, j) ds).1 -> Forall (fun d : Z * nat => (d.2 < length frags)%nat /\ d.1 - t0 <= fragReassemblyTTL) ds ->
  tl - t0 <= fragReassemblyTTL -> (j < length frags)%nat -> j ∉ ds.*2 ->
  (forall k, (k < length frags)%nat -> k ∈ j :: ds.*2) ->
  exists r', receive_all r ((fun d => (d.1, frags !!! d.2)) <$> ds ++ [(tl, j)]) =
    (replicate (length ds) Awaiting ++ [Opened fi inner], r') /\ rParts r' = None.
Proof.
  destruct cs_facts as (Hn & Hcat & Hne). intros Hr Ht0 Hds Htl Hj Hjn Hall.
  rewrite fmap_app, receive_all_app. destruct (partial_fresh (MessageID h) t0 fi cs r Hr) as (r0 & Hc0 & Hp0).
  destruct ds as [|[now i] ds].
  - cbn [hd fst] in Ht0. subst t0. cbn [fmap list_fmap receive_all fst snd].
    rewrite (openSecured_carries _ _ r tl (frags_carry j Hj)).
    destruct (add_complete (MessageID h) tl fi cs Hn ltac:(by rewrite Hcat) Hne [] r r0 tl j Hc0 Hp0 ltac:(lia) ltac:(set_solver)) as (r' & -> & Hr').
    { intros k Hk'. apply Hall. lia. } rewrite Hcat. by exists r'.
  - cbn [hd fst] in Ht0. subst t0. apply Forall_cons in Hds as [[Hi _] Hds]. cbn [fst snd] in *.
    cbn [fmap list_fmap receive_all fst snd]. rewrite (openSecured_carries _ _ r now (frags_carry i Hi)).
    destruct (add_pending (MessageID h) now fi cs Hn ltac:(by rewrite Hcat) Hne [] r r0 now i j Hc0 Hp0 ltac:(lia) ltac:(lia) ltac:(set_solver))
      as (r1 & -> & Hp1).
    destruct (receive_pending now j ds [i] r1 ltac:(lia) Hp1 ltac:(set_solver)) as (pre' & r2 & -> & Hp2 & Hx).
    { apply Forall_forall. intros d Hd. rewrite Forall_forall in Hds. specialize (Hds d Hd). split_and!; [apply Hds|apply Hds|].
      intros E. apply Hjn. cbn [fmap list_fmap]. right. rewrite <- E. by apply list_elem_of_fmap_2. }
    rewrite (openSecured_carries _ _ r2 tl (frags_carry j Hj)).
    destruct (add_complete (MessageID h) now fi cs Hn ltac:(by rewrite Hcat) Hne pre' r2 r2 tl j) as (r' & -> & Hr').
    + by apply (current_partial _ now fi).
    + done.
    + lia.
    + rewrite Hx. set_solver.
    + intros k Hk'. specialize (Hall k ltac:(lia)). rewrite elem_of_cons, Hx. set_solver.
    + rewrite Hcat. exists r'. done.
Qed.
End Delivery.

(** C12: fragmentation round trip.  A message of at most 64 KiB fragments, and the
    receiver that gets its datagrams in any order, with any duplicates before the
    last one missing arrives and within the reassembly time, is kept waiting until
    then and then has exactly the sealed inner payloads and first inner type. *)
Theorem fragment_roundtrip (inner : bytes) :
  Z.of_nat (length inner) <= maxReassembledBytes ->
  exists frags, buildFragmentedMessage h s keys dir fi inner ivs = Ok frags /\
    length frags = fragmentCount (Z.to_nat (fragmentRoom s)) (length inner) /\
    forall (ds : list (Z * nat)) (tl : Z) (j : nat) (r : fragReassembler),
      rParts r = None ->
      Forall (fun d : Z * nat => (d.2 < length frags)%nat /\ d.1 - (hd (tl, j) ds).1 <= fragReassemblyTTL) ds ->
      tl - (hd (tl, j) ds).1 <= fragReassemblyTTL -> (j < length frags)%nat -> j ∉ ds.*2 ->
      (forall k, (k < length frags)%nat -> k ∈ j :: ds.*2) ->
      exists r', receive_all r ((fun d => (d.1, frags !!! d.2)) <$> ds ++ [(tl, j)]) =
        (replicate (length ds) Awaiting ++ [Opened fi inner], r') /\ rParts r' = None.
Proof.
  intros Hl. destruct (buildFragmentedMessage_spec inner Hl) as (frags & E & Hlen & Hc). exists frags. split; [done|].
  split; [rewrite Hlen; unfold chunks; by rewrite length_fmap, length_seq|]. intros ds tl j r Hr Hds Htl Hj Hjn Hall. by apply (deliver_all inner Hl frags Hlen Hc ds (hd (tl, j) ds).1).
Qed.
End Roundtrip.

(** ** Concrete messages *)

Definition demo_keys : SAKeys :=
  mkSAKeys [] [] [] (replicate 36 1) (replicate 36 2) [] [].

Definition cbc_suite : Suite :=
  mkSuite ENCR_AES_CBC 256 PRF_HMAC_SHA2_256 AUTH_HMAC_SHA2_256_128 DH_CURVE25519 (CbcCipher 32) (NewHMACPRF SHA256)
    (Some (NewHMACIntegrity SHA256 32 16)).

Definition cbc_keys : SAKeys :=
  mkSAKeys [] (replicate 32 3) (replicate 32 4) (replicate 32 1) (replicate 32 2) [] [].

Lemma sk_roundtrip_witness :
  exists raw h' sk,
    buildEncryptedMessage (P := toy_prims) demo_header cbc_suite cbc_keys dirInitiatorToResponder 35 [1; 2; 3] (replicate 16 5) = Ok raw /\
    ParseMessage raw = Some (Ok (mkMessage h' [sk])) /\ Type_ sk = TypeSK /\ MessageID h' = MessageID demo_header /\
    decryptSK (P := toy_prims) raw sk cbc_suite cbc_keys dirInitiatorToResponder = Ok (35, [1; 2; 3]).
Proof.
  apply (sk_roundtrip (PO := toy_prims_ok) demo_header cbc_suite cbc_keys dirInitiatorToResponder 35 [1; 2; 3] (replicate 16 5)).
  - split; by_decision.
  - cbn. unfold aes_len. lia.
  - by split.
  - done.
  - simpl. lia.
Defined.

Definition demo_ivs (i : nat) : bytes := replicate 8 (Z.of_nat i).

Lemma sealed_datagrams_fit_witness :
  exists pkts, sealMaybeFragment (P := toy_prims) demo_header demo_suite demo_keys dirInitiatorToResponder 35
      (replicate 3000 9) true demo_ivs = Ok pkts /\
    (0 < length pkts)%nat /\ Z.of_nat (length pkts) <= maxFragments /\
    Forall (fun pkt => (length pkt <= fragmentThreshold)%nat) pkts.
Proof.
  apply (sealed_datagrams_fit (PO := toy_prims_ok) demo_header demo_suite demo_keys dirInitiatorToResponder 35 demo_ivs).
  - split; by_decision.
  - cbn. unfold aes_len. lia.
  - by split.
  - done.
  - rewrite length_replicate. unfold maxReassembledBytes. lia.
Defined.

(** 1300 octets make two fragments; they arrive as 1, 1, 0. *)
Lemma fragment_roundtrip_witness :
  exists frags, buildFragmentedMessage (P := toy_prims) demo_header demo_suite demo_keys dirInitiatorToResponder 35
      (replicate 1300 9) demo_ivs = Ok frags /\ length frags = 2%nat /\
    exists r', receive_all (P := toy_prims) demo_header demo_suite demo_keys dirInitiatorToResponder newReassembler
        ((fun d => (d.1, frags !!! d.2)) <$> [(0, 1%nat); (5, 1%nat)] ++ [(9, 0%nat)]) =
      (replicate 2 Awaiting ++ [Opened 35 (replicate 1300 9)], r') /\ rParts r' = None.
Proof.
  destruct (fragment_roundtrip (PO := toy_prims_ok) demo_header demo_suite demo_keys dirInitiatorToResponder 35 demo_ivs
    ltac:(split; by_decision) ltac:(cbn; unfold aes_len; lia) ltac:(by split) ltac:(done) (replicate 1300 9)
    ltac:(rewrite length_replicate; unfold maxReassembledBytes; lia)) as (frags & E & Hl & H).
  rewrite length_replicate in Hl.
  assert (fragmentCount (Z.to_nat (fragmentRoom demo_suite)) 1300 = 2%nat) as E2 by (vm_compute; reflexivity).
  rewrite E2 in Hl. clear E2.
  exists frags. split; [exact E|]. split; [exact Hl|]. clear E. apply (H [(0, 1%nat); (5, 1%nat)] 9 0%nat newReassembler); clear H.
  - done.
  - rewrite Hl. unfold fragReassemblyTTL. repeat constructor; simpl; lia.
  - simpl. unfold fragReassemblyTTL. lia.
  - lia.
  - simpl. set_solver.
  - rewrite Hl. simpl. intros [|[|k]] Hk; [set_solver..|lia].
Defined.
