(* ===== verification/IkeSession.v ===== *)
(** * IKE security associations, [internal/ikev2/ike/session.go]

    The record of one IKE SA and of its Child SAs, with what the exchanges of both roles
    share: random SPIs and nonces, the payload helpers of [mobike.go] and [ike_auth.go],
    NAT detection ([nat.go], [sa_init.go]), the identities of [auth.go], and the traffic
    selector rules of [ike_auth.go] and [child_info.go].  A [net.IP] is its byte string,
    nil the empty one; random draws and clock readings are arguments.

    The theorems: what narrowing leaves of the initiator's selectors covers no address of
    an assigned family but the assigned one, and every selector keeps the protocol and
    ports of one the initiator proposed. *)
From Stdlib Require Import ZArith Lia.
From stdpp Require Import base list gmap.
From S2P Require Import Prelude Routes Packet Shape Pump IkeMessage IkeSA IkeBodies Crypto IkeSuite Fragment Esp Eap IkeCookie IkeCert.

(** ** The registries of [const.go] *)

Abbreviation IKE_SA_INIT := 34 (only parsing).
Abbreviation IKE_AUTH := 35 (only parsing).
Abbreviation CREATE_CHILD_SA := 36 (only parsing).
Abbreviation INFORMATIONAL := 37 (only parsing).
Abbreviation IKE_INTERMEDIATE := 43 (only parsing).

Abbreviation TypeSA := 33 (only parsing).
Abbreviation TypeKE := 34 (only parsing).
Abbreviation TypeIDi := 35 (only parsing).
Abbreviation TypeIDr := 36 (only parsing).
Abbreviation TypeCERT := 37 (only parsing).
Abbreviation TypeCERTREQ := 38 (only parsing).
Abbreviation TypeAUTH := 39 (only parsing).
Abbreviation TypeNonce := 40 (only parsing).
Abbreviation TypeDelete := 42 (only parsing).
Abbreviation TypeTSi := 44 (only parsing).
Abbreviation TypeTSr := 45 (only parsing).
Abbreviation TypeCP := 47 (only parsing).
Abbreviation TypeEAP := 48 (only parsing).

Abbreviation InvalidSyntax := 7 (only parsing).
Abbreviation NoProposalChosen := 14 (only parsing).
Abbreviation InvalidKEPayload := 17 (only parsing).
Abbreviation AuthenticationFailed := 24 (only parsing).
Abbreviation TSUnacceptable := 38 (only parsing).
Abbreviation NATDetectionSourceIP := 16388 (only parsing).
Abbreviation NATDetectionDestinationIP := 16389 (only parsing).
Abbreviation CookieNotify := 16390 (only parsing).
Abbreviation RekeySA := 16393 (only parsing).
Abbreviation MobikeSupported := 16396 (only parsing).
Abbreviation UpdateSAAddresses := 16400 (only parsing).
Abbreviation Cookie2 := 16401 (only parsing).
Abbreviation IntermediateExchangeSupported := 16438 (only parsing).
Abbreviation UseAggFrag := 16442 (only parsing).

Abbreviation CFGRequest := 1 (only parsing).
Abbreviation CFGReply := 2 (only parsing).
Abbreviation CFGInternalIP4Address := 1 (only parsing).
Abbreviation CFGInternalIP4Netmask := 2 (only parsing).
Abbreviation CFGInternalIP4DNS := 3 (only parsing).
Abbreviation CFGInternalIP6Address := 8 (only parsing).
Abbreviation CFGInternalIP6DNS := 10 (only parsing).

(** ** State *)

Inductive SAState := StateInitial | StateSAInitDone | StateIntermediate | StateEstablished | StateDeleting | StateClosed.

#[global] Instance SAState_eq_dec : EqDecision SAState.
Proof. solve_decision. Defined.

(** [ChildSA]; [ch_esp] holds the SPIs, the suite and the keys. *)
Record ChildState := mkChildState {
  ch_esp : ChildSA; ch_TSi : list TrafficSelector; ch_TSr : list TrafficSelector; ch_UDPEncap : bool;
  ch_ClientIP : bytes; ch_ClientIP6 : bytes; ch_PeerAddr : option UDPAddr;
  ch_AggFrag : bool; ch_AggFragFlags : Z; ch_IPTFSRate : Z }.
#[export] Instance eta_ChildState : Eta ChildState := fun c =>
  mkChildState (ch_esp c) (ch_TSi c) (ch_TSr c) (ch_UDPEncap c) (ch_ClientIP c) (ch_ClientIP6 c) (ch_PeerAddr c)
    (ch_AggFrag c) (ch_AggFragFlags c) (ch_IPTFSRate c).

Record AddressRequest := mkRequest { WantIP4 : bool; WantIP6 : bool }.
Record Assignment := mkAssignment { IP4 : bytes; Netmask : bytes; IP6 : bytes; Prefix6 : Z; DNS : list bytes }.
Definition zeroAssignment : Assignment := mkAssignment [] [] [] 0 [].

Record natInfo := mkNat { peerBehindNAT : bool; weAreBehindNAT : bool }.
Definition natDetected (n : natInfo) : bool := peerBehindNAT n || weAreBehindNAT n.

(** [IKESA].  A nil [eapServer], [eapMSK] or saved payload is [None]. *)
Record IKESA := mkIKESA {
  SAInitiatorSPI : Z; SAResponderSPI : Z; WeAreInitiator : bool; State : SAState; SASuite : Suite;
  SANi : bytes; SANr : bytes; SharedKey : bytes; Keys : SAKeys; InitiatorSAInit : bytes; ResponderSAInit : bytes;
  IntAuthI : bytes; IntAuthR : bytes; ADDKEGroup : Z; IKEAuthMsgID : Z; PeerID : IDPayload;
  eapServer : option EapServer; eapMSK : option bytes; IDiForAuth : bytes; eapEAPID : Z; EAPIdentity : bytes;
  eapSApay : option bytes; eapTSipay : option bytes; eapTSrpay : option bytes; eapCPpay : option bytes;
  RecvMsgID : Z; SendMsgID : Z; RemoteAddr : option UDPAddr; OnPort4500 : bool; NAT : natInfo;
  MobikeEnabled : bool; peerMobike : bool; fragEnabled : bool; fragReasm : fragReassembler; peerSigHashes : list Z;
  ClientIP : bytes; ClientIP6 : bytes; assigned : Assignment; Children : gmap Z ChildState; CreatedAt : Z; lastSeen : Z }.
#[export] Instance eta_IKESA : Eta IKESA := fun s =>
  mkIKESA (SAInitiatorSPI s) (SAResponderSPI s) (WeAreInitiator s) (State s) (SASuite s)
    (SANi s) (SANr s) (SharedKey s) (Keys s) (InitiatorSAInit s) (ResponderSAInit s)
    (IntAuthI s) (IntAuthR s) (ADDKEGroup s) (IKEAuthMsgID s) (PeerID s)
    (eapServer s) (eapMSK s) (IDiForAuth s) (eapEAPID s) (EAPIdentity s)
    (eapSApay s) (eapTSipay s) (eapTSrpay s) (eapCPpay s)
    (RecvMsgID s) (SendMsgID s) (RemoteAddr s) (OnPort4500 s) (NAT s)
    (MobikeEnabled s) (peerMobike s) (fragEnabled s) (fragReasm s) (peerSigHashes s)
    (ClientIP s) (ClientIP6 s) (assigned s) (Children s) (CreatedAt s) (lastSeen s).

(** The zero values of the fields no exchange has set. *)
Definition zero_suite : Suite := mkSuite 0 0 0 0 0 (AeadCipher AesGCM 0) (NewHMACPRF SHA1) None.
Definition zero_keys : SAKeys := mkSAKeys [] [] [] [] [] [] [].

Definition newIKESA (now : Z) : IKESA :=
  mkIKESA 0 0 false StateInitial zero_suite [] [] [] zero_keys [] [] [] [] 0 0 (mkID 0 []) None None [] 0 [] None None None None
    0 0 None false (mkNat false false) false false false newReassembler [] [] [] zeroAssignment ∅ now now.

Definition dirForOutbound (sa : IKESA) : keyDir :=
  if WeAreInitiator sa then dirInitiatorToResponder else dirResponderToInitiator.
Definition dirForInbound (sa : IKESA) : keyDir :=
  if WeAreInitiator sa then dirResponderToInitiator else dirInitiatorToResponder.

(** The first draw that is not zero; 0 stands for a loop that is still drawing. *)
Fixpoint first_nonzero (draws : list bytes) : Z :=
  match draws with
  | [] => 0
  | b :: draws => if be_dec b =? 0 then first_nonzero draws else be_dec b
  end.

Definition newIKESPI (draws : list bytes) : Z := first_nonzero draws.
Definition newChildSPI (draws : list bytes) : Z := first_nonzero draws.

(** [rnd n] is what reading [n] random octets yields. *)
Definition randomNonce (n : nat) (rnd : nat -> bytes) : bytes := rnd (if (n <? 16)%nat then 16%nat else n).

(** What a parser that needs no fuel returns; running out never happens. *)
Definition parsed {E A} (r : option (result E A)) : option A := match r with Some (Ok a) => Some a | _ => None end.

(** ** Payloads *)

Definition findInner (inners : list RawPayload) (t : Z) : option RawPayload := find_type t inners.
Definition findAllInner (inners : list RawPayload) (t : Z) : list RawPayload := List.filter (fun p => Type_ p =? t) inners.

Fixpoint findNotify (inners : list RawPayload) (t : Z) : option NotifyPayload :=
  match inners with
  | [] => None
  | p :: inners =>
      if negb (Type_ p =? TypeNotify) then findNotify inners t
      else
        match ParseNotify (Body p) with
        | Ok n => if NType n =? t then Some n else findNotify inners t
        | Err _ => findNotify inners t
        end
  end.

Definition findMobikeSupported (inners : list RawPayload) : bool :=
  match findNotify inners MobikeSupported with Some _ => true | None => false end.

Definition addNotify (b : Builder) (t : Z) (data : bytes) : Builder := Add b TypeNotify false (MarshalNotify (mkNotify ProtoNone t [] data)).
Definition addMobikeSupported (b : Builder) : Builder := addNotify b MobikeSupported [].

(** [beU32], [u32BE], [beU64] and [u64BE]. *)
Definition beU32 (b : bytes) : Z := be_dec (slice b 0 4).
Definition u32BE (v : Z) : bytes := be_enc 4 v.
Definition beU64 (b : bytes) : Z := be_dec (slice b 0 8).
Definition u64BE (v : Z) : bytes := be_enc 8 v.

(** ** Identities *)

Definition FQDNIdentity (host : bytes) : IDPayload := mkID IDFQDN host.
Definition IPIdentity (ip : bytes) : IDPayload :=
  if bool_decide (To4 ip = []) then mkID IDIPv6Addr (To16 ip) else mkID IDIPv4Addr (To4 ip).
Definition idPayloadBody (id : IDPayload) : bytes := MarshalID id.

(** ** NAT detection *)

Section Nat.
Context {D : Digests}.

Definition natDetectionHash (spiI spiR : Z) (ip : bytes) (port : Z) : bytes :=
  digest SHA1 (be_enc 8 spiI ++ be_enc 8 spiR ++ (if bool_decide (To4 ip = []) then To16 ip else To4 ip) ++ be_enc 2 port).

(** One notify of [detectNAT]: whether a hash was seen, and what is known so far. *)
Definition nat_notify (publicIP : bytes) (ourPort spiI spiR : Z) (remote : UDPAddr) (acc : bool * natInfo) (p : RawPayload) : bool * natInfo :=
  let ourIP := if bool_decide (publicIP = []) then v4_mapped_prefix ++ [0; 0; 0; 0] else publicIP in
  if negb (Type_ p =? TypeNotify) then acc
  else
    match ParseNotify (Body p) with
    | Err _ => acc
    | Ok n =>
        if NType n =? NATDetectionSourceIP then
          let want := natDetectionHash spiI spiR (ip_octets (udpIP remote)) (wrap 16 (udpPort remote)) in
          (true, if bool_decide (want = NData n) then acc.2 else mkNat true (weAreBehindNAT acc.2))
        else if NType n =? NATDetectionDestinationIP then
          let want := natDetectionHash spiI spiR ourIP ourPort in
          (true, if bool_decide (want = NData n) || bool_decide (publicIP = []) then acc.2 else mkNat (peerBehindNAT acc.2) true)
        else acc
    end.

Definition detectNAT (publicIP : bytes) (ourPort : Z) (payloads : list RawPayload) (spiI spiR : Z) (remote : UDPAddr) : natInfo :=
  let '(seen, info) := fold_left (nat_notify publicIP ourPort spiI spiR remote) payloads (false, mkNat false false) in
  if seen then info else mkNat false false.

Definition addNATDetection (b : Builder) (publicIP : bytes) (ourPort spiI spiR : Z) (remote : UDPAddr) : Builder :=
  let ourIP := if bool_decide (publicIP = []) then v4_mapped_prefix ++ [0; 0; 0; 0] else publicIP in
  let b := addNotify b NATDetectionSourceIP (natDetectionHash spiI spiR ourIP ourPort) in
  addNotify b NATDetectionDestinationIP (natDetectionHash spiI spiR (ip_octets (udpIP remote)) (wrap 16 (udpPort remote))).
End Nat.

(** ** Traffic selectors *)

Definition allTrafficV4 : TrafficSelector := mkTS TSIPv4AddrRange 0 0 65535 [0; 0; 0; 0] [255; 255; 255; 255].
Definition allTrafficV6 : TrafficSelector := mkTS TSIPv6AddrRange 0 0 65535 (replicate 16 0) (replicate 16 255).

(** [bytes.Compare] as an order: the first is not after the second. *)
Fixpoint bytes_le (a b : bytes) : bool :=
  match a, b with
  | [], _ => true
  | _ :: _, [] => false
  | x :: a, y :: b => if x <? y then true else if x =? y then bytes_le a b else false
  end.

Definition ipInRange (ip start endp : bytes) : bool :=
  if bool_decide (To4 ip = []) then
    bool_decide (To4 start = []) && negb (bool_decide (To16 start = [])) && negb (bool_decide (To16 endp = [])) &&
    bytes_le (To16 start) (To16 ip) && bytes_le (To16 ip) (To16 endp)
  else
    negb (bool_decide (To4 start = [])) && negb (bool_decide (To4 endp = [])) &&
    bytes_le (To4 start) (To4 ip) && bytes_le (To4 ip) (To4 endp).

Definition covers (ip : bytes) (sel : TrafficSelector) : bool := ipInRange ip (StartAddr sel) (EndAddr sel).

Definition tsiCoversLease (tsi : list TrafficSelector) (sa : IKESA) : bool :=
  existsb (fun sel => existsb (fun lease => negb (bool_decide (lease = [])) && covers lease sel) [ClientIP sa; ClientIP6 sa]) tsi.

(** The selector of the family that contains the address, else the first of the family. *)
Fixpoint template (addr : bytes) (typ : Z) (sels : list TrafficSelector) (tmpl : option TrafficSelector) : option TrafficSelector :=
  match sels with
  | [] => tmpl
  | sel :: sels =>
      if negb (TSType sel =? typ) then template addr typ sels tmpl
      else if covers addr sel then Some sel
      else template addr typ sels (match tmpl with None => Some sel | Some _ => tmpl end)
  end.

Definition with_range (sel : TrafficSelector) (addr : bytes) : TrafficSelector :=
  mkTS (TSType sel) (IPProtocol sel) (StartPort sel) (EndPort sel) addr addr.

Definition narrow_family (addr : bytes) (typ : Z) (tsi : list TrafficSelector) : list TrafficSelector :=
  if bool_decide (addr = []) then []
  else match template addr typ tsi None with Some sel => [with_range sel addr] | None => [] end.

Definition narrowTSiToAssignment (tsi : list TrafficSelector) (sa : IKESA) : list TrafficSelector * bool :=
  if bool_decide (ClientIP sa = []) && bool_decide (ClientIP6 sa = []) then (tsi, false)
  else
    let out := narrow_family (ClientIP sa) TSIPv4AddrRange tsi ++ narrow_family (ClientIP6 sa) TSIPv6AddrRange tsi in
    if (length out =? 0)%nat then (tsi, false)
    else
      let dropped sel := (TSType sel =? TSIPv4AddrRange) && negb (bool_decide (ClientIP sa = [])) ||
                         (TSType sel =? TSIPv6AddrRange) && negb (bool_decide (ClientIP6 sa = [])) in
      (out ++ List.filter (fun sel => negb (dropped sel)) tsi, true).

(** The selectors read before an error, which [ParseTS] returns with it. *)
Fixpoint leading_selectors (count : nat) (buf : bytes) : list TrafficSelector :=
  match count with
  | O => []
  | S count =>
      let slen := Z.to_nat (be_dec (slice buf 2 4)) in
      if (length buf <? 8)%nat || (slen <? 8)%nat || (length buf <? slen)%nat then []
      else
        let addrLen := ((slen - 8) / 2)%nat in
        mkTS (at_ buf 0) (at_ buf 1) (be_dec (slice buf 4 6)) (be_dec (slice buf 6 8))
          (slice buf 8 (8 + addrLen)) (slice buf (8 + addrLen) (8 + 2 * addrLen)) :: leading_selectors count (drop slen buf)
  end.

Definition parseTS_selectors (buf : bytes) : list TrafficSelector :=
  if (length buf <? 4)%nat then [] else leading_selectors (Z.to_nat (at_ buf 0)) (drop 4 buf).

Definition requestedFamilies (req : CPPayload) : AddressRequest :=
  let ip4 := existsb (fun a => CAType a =? CFGInternalIP4Address) (Attrs req) in
  let ip6 := existsb (fun a => CAType a =? CFGInternalIP6Address) (Attrs req) in
  if negb ip4 && negb ip6 then mkRequest true false else mkRequest ip4 ip6.

(** ** Facts *)

Lemma parseTS_selectors_ok buf ts : ParseTS buf = Ok ts -> parseTS_selectors buf = ts.
Proof.
  unfold ParseTS, parseTS_selectors. destruct (length buf <? 4)%nat; [done|].
  generalize (Z.to_nat (at_ buf 0)) as n, (drop 4 buf) as b. clear buf. intros n. revert ts.
  induction n as [|n IH]; intros ts b; cbn [parse_selectors leading_selectors]; [by intros [= <-]|].
  destruct (length b <? 8)%nat; [done|]. cbn [orb]. destruct (_ || _); [done|].
  intros (sels & Hs & [= <-])%rbind_ok. by rewrite (IH _ _ Hs).
Qed.

Lemma template_spec addr typ sels tmpl t :
  template addr typ sels tmpl = Some t -> (tmpl = Some t \/ (t ∈ sels /\ TSType t = typ)).
Proof.
  revert tmpl. induction sels as [|s sels IH]; intros tmpl; cbn [template]; [by left|].
  destruct (Z.eqb_spec (TSType s) typ) as [Ht|]; cbn [negb].
  - destruct (covers addr s); [intros [= <-]; right; split; [set_solver|done]|].
    intros [H|[H1 H2]]%IH; [|right; split; [set_solver|done]].
    destruct tmpl; [by left|]. injection H as <-. right. split; [set_solver|done].
  - intros [H|[H1 H2]]%IH; [by left|]. right. split; [set_solver|done].
Qed.

(** Protocol and ports of a proposed selector. *)
Definition constrained_by (tsi : list TrafficSelector) (sel : TrafficSelector) : Prop :=
  exists s0, s0 ∈ tsi /\ TSType sel = TSType s0 /\ IPProtocol sel = IPProtocol s0 /\ StartPort sel = StartPort s0 /\ EndPort sel = EndPort s0.

Lemma narrow_family_spec addr typ tsi sel :
  sel ∈ narrow_family addr typ tsi -> constrained_by tsi sel /\ addr <> [] /\ TSType sel = typ /\ StartAddr sel = addr /\ EndAddr sel = addr.
Proof.
  unfold narrow_family. case_bool_decide as Ha; [by intros ?%elem_of_nil|].
  destruct (template addr typ tsi None) as [t|] eqn:E; [|by intros ?%elem_of_nil]. intros ->%list_elem_of_singleton.
  apply template_spec in E as [|[Hin Ht]]; [done|]. split; [by exists t|done].
Qed.

(** What is left of a proposal once an address is assigned: each selector is one the
    initiator proposed, and of an assigned family it names the assigned address alone. *)
Lemma narrowTSi_spec tsi sa out :
  narrowTSiToAssignment tsi sa = (out, true) ->
  Forall (fun sel => constrained_by tsi sel /\
    (TSType sel = TSIPv4AddrRange -> ClientIP sa <> [] -> StartAddr sel = ClientIP sa /\ EndAddr sel = ClientIP sa) /\
    (TSType sel = TSIPv6AddrRange -> ClientIP6 sa <> [] -> StartAddr sel = ClientIP6 sa /\ EndAddr sel = ClientIP6 sa)) out.
Proof.
  unfold narrowTSiToAssignment. destruct (_ && _); [done|]. cbv zeta. destruct (_ =? _)%nat; [done|]. intros [= <-].
  apply Forall_forall. intros sel [[H|H]%elem_of_app|H]%elem_of_app.
  - apply narrow_family_spec in H as (Hc & _ & -> & -> & ->). done.
  - apply narrow_family_spec in H as (Hc & _ & -> & -> & ->). done.
  - apply list_elem_of_In, List.filter_In in H as [Hin Hd]. apply list_elem_of_In in Hin.
    apply negb_true_iff, orb_false_iff in Hd as [H4 H6]. split; [by exists sel|]. split; intros Ht Hc; exfalso.
    + rewrite Ht, Z.eqb_refl, bool_decide_eq_false_2 in H4 by done. done.
    + rewrite Ht, Z.eqb_refl, bool_decide_eq_false_2 in H6 by done. done.
Qed.

Lemma bytes_le_antisym a b : length a = length b -> bytes_le a b = true -> bytes_le b a = true -> a = b.
Proof.
  revert b. induction a as [|x a IH]; intros [|y b]; try done. intros [= Hl]. cbn.
  destruct (Z.ltb_spec x y), (Z.ltb_spec y x); try lia; try done.
  - rewrite (proj2 (Z.eqb_neq y x)) by lia. done.
  - rewrite (proj2 (Z.eqb_neq x y)) by lia. done.
  - assert (x = y) as -> by lia. rewrite Z.eqb_refl. intros H1 H2. f_equal. by apply IH.
Qed.

(** A selector of one address contains that address only. *)
Lemma covers_single ip sel a :
  StartAddr sel = a -> EndAddr sel = a -> covers ip sel = true -> if bool_decide (To4 ip = []) then To16 ip = To16 a else To4 ip = To4 a.
Proof.
  intros Hs He. unfold covers, ipInRange. rewrite Hs, He. case_bool_decide as H4; rewrite !andb_true_iff, !negb_true_iff, !bool_decide_eq_false.
  - intros ((((_ & H1) & _) & Hl) & Hr). apply bytes_le_antisym; [|done..].
    unfold To16 in *. destruct (Nat.eqb_spec (length ip) 4) as [E|].
    { exfalso. unfold To4 in H4. rewrite E in H4. destruct ip; [done|]. done. }
    destruct (Nat.eqb_spec (length ip) 16) as [E|].
    + destruct (Nat.eqb_spec (length a) 4) as [Ea|]; [rewrite length_app, Ea; by rewrite E|]. destruct (Nat.eqb_spec (length a) 16); [lia|done].
    + destruct (_ =? _)%nat; [by destruct a|]. destruct (_ =? _)%nat; [by destruct a|done].
  - intros (((H1 & _) & Hl) & Hr). apply bytes_le_antisym; [|done..].
    unfold To4 in *. repeat case_match; try done; rewrite ?Nat.eqb_eq in *; try lia;
      repeat match goal with H : (_ =? _)%nat && _ = true |- _ => apply andb_true_iff in H as [?%Nat.eqb_eq _] end; rewrite ?length_slice; lia.
Qed.
