(* ===== verification/IkeIntermediate.v ===== *)
(** * IKE_INTERMEDIATE, [internal/ikev2/ike/intermediate.go]

    The additional key exchange and what the AUTH payloads say about it: the octets of a
    message each end can compute, their chains, and the keys after the exchange.  ML-KEM
    is the one of [crypto/mlkem], the class [Kem], with in [KemOk] what that package
    documents.  The responder's and the initiator's turns are in IkeServer.v and
    IkeClient.v.  The theorem: an end that has parsed a message computes the octets of
    the end that built it. *)
From Stdlib Require Import ZArith Lia.
From stdpp Require Import base list gmap.
From S2P Require Import Prelude Routes Packet Shape Pump IkeMessage IkeSA IkeBodies Crypto IkeSuite Fragment Esp Eap IkeCookie IkeCert IkeSession.

(** [GenerateKey768], [EncapsulationKey().Bytes()], [NewEncapsulationKey768] followed by
    [Encapsulate], which gives the shared secret and the ciphertext, and [Decapsulate];
    the first argument of the second and third is what [rand] yields. *)
Class Kem := {
  kem_dk : bytes -> bytes;
  kem_ek : bytes -> bytes;
  kem_encap : bytes -> bytes -> option (bytes * bytes);
  kem_decap : bytes -> bytes -> option bytes;
}.

Class KemOk (K : Kem) := {
  kem_ek_len dk : length (kem_ek dk) = 1184%nat;
  kem_agree rnd dk : exists ss ct, kem_encap rnd (kem_ek dk) = Some (ss, ct) /\ kem_decap dk ct = Some ss /\ length ct = 1088%nat;
}.

Inductive kem_error := ErrKemMethod (group : Z) | ErrKemKey.

Definition intAuthBlob (hdr : Header) (firstInner : Z) (inner : bytes) : bytes :=
  let skPayloadLen := (4 + length inner)%nat in
  let hdr := mkHeader (InitiatorSPI hdr) (ResponderSPI hdr) TypeSK 0x20 (ExchangeType hdr) (Flags hdr) (MessageID hdr)
               (wrap 32 (Z.of_nat (IkeHeaderLen + skPayloadLen))) in
  MarshalHeader hdr [] ++ [firstInner; 0] ++ len16 skPayloadLen ++ inner.

Definition finalIntAuth (intAuthI intAuthR : bytes) (ikeAuthMsgID : Z) : bytes :=
  if ((length intAuthI =? 0) && (length intAuthR =? 0))%nat then [] else intAuthI ++ intAuthR ++ be_enc 4 ikeAuthMsgID.

Definition intAuth (sa : IKESA) (ikeAuthMsgID : Z) : bytes := finalIntAuth (IntAuthI sa) (IntAuthR sa) ikeAuthMsgID.

Definition addIntermediateNotify (b : Builder) : Builder := addNotify b IntermediateExchangeSupported [].

Definition hasIntermediateSupport (msg : Message) : bool :=
  match findNotify (Payloads msg) IntermediateExchangeSupported with Some _ => true | None => false end.

(** Nothing to re-encode is an error. *)
Fixpoint reencode (inners : list RawPayload) : bytes :=
  match inners with
  | [] => []
  | inn :: rest =>
      let next := match rest with [] => NoNextPayload | r :: _ => Type_ r end in
      [next; if Critical inn then 0x80 else 0] ++ len16 (4 + length (Body inn)) ++ Body inn ++ reencode rest
  end.

Definition reencodeInners (inners : list RawPayload) : option bytes :=
  match inners with [] => None | _ => Some (reencode inners) end.

Section Intermediate.
Context {P : Prims} {K : Kem}.

Definition chainIntAuth (prf : PRF) (skp prevAuth blob : bytes) : bytes :=
  if (length prevAuth =? 0)%nat then Apply prf skp blob else Apply prf skp (prevAuth ++ blob).

Definition kemEncapsulate (group : Z) (peerPublic rnd : bytes) : result kem_error (bytes * bytes) :=
  if negb (group =? MLKEM768) then Err (ErrKemMethod group)
  else match kem_encap rnd peerPublic with None => Err ErrKemKey | Some (shared, ct) => Ok (ct, shared) end.

(** The expansion always returns ([ike_keys_split]). *)
Definition rekeyFromAdditionalExchange (suite : Suite) (keys : SAKeys) (shared ni nr : bytes) (spiI spiR : Z) : SAKeys :=
  let skeyseed := DeriveIntermediateSKEYSEED (SuitePRF suite) (SKd keys) shared ni nr in
  default zero_keys (expandIKEKeys (SuitePRF suite) skeyseed ni nr spiI spiR (encKeyLen suite) (integKeyLen suite)).
End Intermediate.

(** ** Both ends see the same octets *)

Lemma len16_be n : Z.of_nat n < 2 ^ 16 -> len16 n = be_enc 2 (Z.of_nat n).
Proof.
  intros H. unfold len16, be_enc, wrap. change (256 ^ Z.of_nat 1) with 256. change (256 ^ Z.of_nat 0) with 1.
  rewrite Z.shiftr_div_pow2 by lia. change (2 ^ 8) with 256. by rewrite Z.div_1_r.
Qed.

Lemma reencode_encode ps : Forall wf_payload ps -> reencode ps = encode ps 0.
Proof.
  induction 1 as [|p ps Hp Hps IH]; [done|]. cbn [reencode encode]. destruct Hp as [_ Hl]. rewrite IH. unfold generic_header.
  rewrite len16_be, wrap_small by (unfold uint, genericPayloadHeaderLen; lia). rewrite <- !app_assoc. by destruct ps.
Qed.

(** What a builder produced is re-encoded from its parse, octet for octet. *)
Lemma reencodeInners_built ps :
  ps <> [] -> Forall wf_payload ps -> reencodeInners ps = Some (Bytes (build ps)).
Proof. intros Hn Hps. destruct (build_spec ps) as (Hb & _). unfold Bytes. rewrite Hb, <- reencode_encode by done. by destruct ps. Qed.

(** ** An instance *)

(** The key is its seed padded, and the secret travels in the ciphertext. *)
Definition toy_kem : Kem := {|
  kem_dk seed := seed;
  kem_ek dk := replicate 1184 1;
  kem_encap rnd ek := Some (replicate 32 6, replicate 1088 6);
  kem_decap dk ct := Some (take 32 ct);
|}.

Lemma toy_kem_ok : KemOk toy_kem.
Proof. split; [done|]. intros rnd dk. by eexists _, _. Qed.
