(* ===== verification/IkeServer.v ===== *)
(** * The IKE responder: its state and IKE_SA_INIT, [internal/ikev2/ike/{server,sa_init,transport}.go]

    [Server] with its configuration, the admission gate, the cookies, the two indices of
    IKE SAs and the store of SAs they point into, the data path and the address leases
    behind their interfaces, the streams of TCP peers, and what was sent.  The random
    draws and the clock reading of one datagram are its [draws].  Logging and the
    [OnChildSA] observer have no effect here; sockets deliver what is in [out].

    [handleIKESAInit] is whole.  IKE_AUTH is in IkeAuth.v, the exchanges of an established
    SA in IkeChild.v, the dispatch in IkeResponder.v. *)
From Stdlib Require Import ZArith Lia.
From stdpp Require Import base list gmap.
From S2P Require Import Prelude Routes Packet Shape Admission Pump IkeMessage IkeSA IkeBodies Crypto IkeSuite Dh Fragment Esp Eap IkeCookie IkeCert IkeSession IkeIntermediate Secured.

(** ** Interfaces *)

(** [DataPath] with the optional [peerAddrUpdater]; a data path without it ignores the call. *)
Class DataPath (DP : Type) := {
  AddChild : ChildState -> DP -> DP;
  RemoveChild : ChildState -> DP -> DP;
  UpdatePeerAddr : gset Z -> UDPAddr -> DP -> DP;
}.

(** The callbacks [AssignAddr] and [ReleaseAddr] over the state they close over. *)
Class Leases (LS : Type) := {
  AssignAddr : AddressRequest -> LS -> option Assignment * LS;
  ReleaseAddr : Assignment -> LS -> LS;
}.

(** ** State *)

(** What the sockets are handed: port 500, port 4500, or a peer's stream. *)
Inductive outgoing := Out500 (pkt : bytes) (to : UDPAddr) | Out4500 (pkt : bytes) (to : UDPAddr) | OutStream (to : UDPAddr) (pkt : bytes).

(** The random draws of one datagram and the clock when it is handled. *)
Record draws := mkDraws {
  d_now : Z; d_spi : list bytes; d_child : list bytes; d_nonce : nat -> bytes; d_dh : dh_draw;
  d_eap : bytes; d_kem : bytes; d_sig : bytes; d_ivs : nat -> bytes; d_cookie : option bytes }.

Section Server.
Context {Priv CertPool DP LS : Type}.

(** [Config], of which the listening addresses, the logger and the observer are not used here. *)
Record Config := mkConfig {
  cPSK : bytes; LocalID : IDPayload; ClientCAs : option CertPool; EAPCredentials : option (bytes -> option bytes); EAPServerName : bytes;
  PublicIP : bytes; Port500 : Z; Port4500 : Z; RequirePostQuantum : bool; RequirePostQuantumAuth : bool; classicalOnly : bool;
  hasAssignAddr : bool; hasReleaseAddr : bool; IPTFSRate : Z; IPTFS : bool }.

Record Server := mkServer {
  cfg : Config; serverCred : option (@certCredential Priv); gate : Gate; cookies : cookieJar;
  byRSPI : gmap Z nat; byRemote : gmap (option Addr * Z) nat; sas : gmap nat IKESA;
  dataPath : option DP; leases : LS; streams : gset (option Addr * Z); out : list outgoing }.
#[export] Instance eta_Server : Eta Server := fun s =>
  mkServer (cfg s) (serverCred s) (gate s) (cookies s) (byRSPI s) (byRemote s) (sas s) (dataPath s) (leases s) (streams s) (out s).

(** ** Sending *)

Abbreviation nonESPMarker := [0; 0; 0; 0] (only parsing).

Definition sendIKE (s : Server) (pkt : bytes) (to : UDPAddr) (on4500 : bool) : outgoing :=
  if bool_decide (addr_key to ∈ streams s) then OutStream to pkt
  else if on4500 then Out4500 (nonESPMarker ++ pkt) to
  else Out500 pkt to.

Definition send_pkt (pkt : bytes) (remote : UDPAddr) (on4500 : bool) (s : Server) : Server := s <| out := out s ++ [sendIKE s pkt remote on4500] |>.

Definition udpEncap (s : Server) (sa : IKESA) (remote : UDPAddr) : bool :=
  if bool_decide (addr_key remote ∈ streams s) then false else natDetected (NAT sa) || OnPort4500 sa.

(** ** The indices *)

Definition lookupByRSPI (s : Server) (rspi : Z) : option nat := byRSPI s !! rspi.

(** [p] points to [sa], whose fields are those of the argument. *)
Definition storeSA (p : nat) (sa : IKESA) (s : Server) : Server :=
  let s := s <| sas := <[p := sa]> (sas s) |> <| byRSPI := <[SAResponderSPI sa := p]> (byRSPI s) |> in
  match RemoteAddr sa with
  | Some a => s <| byRemote := <[addr_key a := p]> (byRemote s) |>
  | None => s
  end.

Context {DI : DataPath DP} {LI : Leases LS}.

Definition deleteSA (p : nat) (sa : IKESA) (s : Server) : Server :=
  let s := s <| byRSPI := delete (SAResponderSPI sa) (byRSPI s) |> in
  let s :=
    match RemoteAddr sa with
    | Some a => if bool_decide (byRemote s !! addr_key a = Some p) then s <| byRemote := delete (addr_key a) (byRemote s) |> else s
    | None => s
    end in
  if hasReleaseAddr (cfg s) && (negb (bool_decide (ClientIP sa = [])) || negb (bool_decide (ClientIP6 sa = [])))
  then s <| leases := ReleaseAddr (assigned sa) (leases s) |>
  else s.

(** A pointer no SA has. *)
Definition new_ptr (s : Server) : nat := fresh (dom (sas s)).

(** ** Unencrypted answers *)

Definition sendUnauthNotifyData (reqHdr : Header) (remote : UDPAddr) (on4500 : bool) (nt : Z) (data : bytes) (s : Server) : Server :=
  let b := addNotify NewBuilder nt data in
  let h := mkHeader (InitiatorSPI reqHdr) (ResponderSPI reqHdr) (FirstType b) 0x20 (ExchangeType reqHdr) FlagResponse (MessageID reqHdr)
             (wrap 32 (Z.of_nat (IkeHeaderLen + length (Bytes b)))) in
  send_pkt (MarshalHeader h [] ++ Bytes b) remote on4500 s.

Definition sendUnauthNotify (reqHdr : Header) (remote : UDPAddr) (on4500 : bool) (nt : Z) (s : Server) : Server :=
  sendUnauthNotifyData reqHdr remote on4500 nt [] s.

Definition ourPort (s : Server) (on4500 : bool) : Z := wrap 16 (if on4500 then Port4500 (cfg s) else Port500 (cfg s)).

Section Exchanges.
Context {P : Prims} {DG : Digests} {C : Curves}.

(** The first COOKIE notify of a retry decides. *)
Definition checkCookie (d : draws) (msg : Message) (hdr : Header) (nonce : bytes) (remote : UDPAddr) (on4500 : bool) (s : Server) : bool * Server :=
  if HalfOpen (gate s) <? cookieThreshold then (true, s)
  else
    let ok :=
      match findNotify (Payloads msg) CookieNotify with
      | Some n => valid (cookies s) (NData n) (InitiatorSPI hdr) nonce (Some remote)
      | None => false
      end in
    if ok then (true, s)
    else
      let '(cookie, jar) := issue (cookies s) (d_cookie d) (d_now d) (InitiatorSPI hdr) nonce (Some remote) in
      let s := s <| cookies := jar |> in
      if (length cookie =? 0)%nat then (true, s) else (false, sendUnauthNotifyData hdr remote on4500 CookieNotify cookie s).

(** The ADDKE method of the accepted proposal, and that proposal with its transform. *)
Fixpoint negotiate_addke (ps : list Proposal) (accepted : Proposal) : Z * Proposal :=
  match ps with
  | [] => (0, accepted)
  | p :: ps =>
      if negb (Num p =? Num accepted) then negotiate_addke ps accepted
      else
        match SelectADDKE p with
        | Some group => (group, mkProposal (Num accepted) (Protocol accepted) (SPI accepted) (Transforms accepted ++ [mkTransform TransformADDKE1 group 0]))
        | None => (0, accepted)
        end
  end.

(** The SA of an accepted request, before its keys. *)
Definition init_sa (d : draws) (pkt : bytes) (hdr : Header) (msg : Message) (nonce shared : bytes) (suite : Suite) (remote : UDPAddr) (on4500 : bool) (s : Server) : IKESA :=
  let sa := newIKESA (d_now d) in
  sa <| SAInitiatorSPI := InitiatorSPI hdr |> <| SAResponderSPI := newIKESPI (d_spi d) |> <| WeAreInitiator := false |>
    <| SASuite := suite |> <| RemoteAddr := Some remote |> <| OnPort4500 := on4500 |>
    <| SANi := ParseNonce nonce |> <| SANr := randomNonce (PreferredKeyLen (SuitePRF suite)) (d_nonce d) |> <| SharedKey := shared |>
    <| InitiatorSAInit := pkt |>
    <| NAT := detectNAT (PublicIP (cfg s)) (ourPort s on4500) (FindAll msg TypeNotify) (InitiatorSPI hdr) (ResponderSPI hdr) remote |>
    <| fragEnabled := findFragSupported (Payloads msg) |> <| peerSigHashes := findSigHashes (Payloads msg) |>.

(** The response, whose octets the SA keeps. *)
Definition init_response (sa : IKESA) (accepted : Proposal) (ourPub : bytes) (remote : UDPAddr) (on4500 : bool) (s : Server) : bytes :=
  let b := Add NewBuilder TypeSA false (MarshalSA (mkSA [accepted])) in
  let b := Add b TypeKE false (MarshalKE (mkKE (DHID (SASuite sa)) ourPub)) in
  let b := Add b TypeNonce false (MarshalNonce (SANr sa)) in
  let b := addNATDetection b (PublicIP (cfg s)) (ourPort s on4500) (SAInitiatorSPI sa) (SAResponderSPI sa) remote in
  let b := if fragEnabled sa then addFragSupported b else b in
  let b := if negb (ADDKEGroup sa =? 0) then addIntermediateNotify b else b in
  let b :=
    match serverCred s, ClientCAs (cfg s) with
    | None, None => b
    | _, _ => Add (addSigHashNotify b) TypeCERTREQ false (MarshalCertReq (mkCertReq CertX509Signature []))
    end in
  let h := mkHeader (SAInitiatorSPI sa) (SAResponderSPI sa) (FirstType b) 0x20 IKE_SA_INIT FlagResponse 0
             (wrap 32 (Z.of_nat (IkeHeaderLen + length (Bytes b)))) in
  MarshalHeader h [] ++ Bytes b.

(** From the admission on. *)
Definition initExchange (d : draws) (pkt : bytes) (hdr : Header) (msg : Message) (saBody keBody nonce : bytes) (remote : UDPAddr) (on4500 : bool) (s : Server) : Server :=
  let refuse nt := sendUnauthNotify hdr remote on4500 nt s in
  match parsed (ParseSA saBody) with
  | None => refuse InvalidSyntax
  | Some reqSA =>
      match SelectIKESuite reqSA with
      | Err _ => refuse NoProposalChosen
      | Ok (suite, accepted) =>
          match ParseKE keBody with
          | Err _ => refuse InvalidSyntax
          | Ok ke =>
              if negb (Group ke =? DHID suite) then
                sendUnauthNotifyData hdr remote on4500 InvalidKEPayload [wrap 8 (Z.shiftr (DHID suite) 8); wrap 8 (DHID suite)] s
              else
                match transformDH (DHID suite) with
                | Err _ => refuse NoProposalChosen
                | Ok dh =>
                    let '(ourPub, dh) := Generate dh (d_dh d) in
                    match ComputeSecret dh (KeyData ke) with
                    | Err _ => refuse InvalidSyntax
                    | Ok shared =>
                        let sa := init_sa d pkt hdr msg nonce shared suite remote on4500 s in
                        let '(group, accepted) :=
                          if hasIntermediateSupport msg && negb (classicalOnly (cfg s)) then negotiate_addke (Proposals reqSA) accepted else (0, accepted) in
                        let sa := sa <| ADDKEGroup := group |> in
                        if RequirePostQuantum (cfg s) && (ADDKEGroup sa =? 0) then refuse NoProposalChosen
                        else
                          let keys := default zero_keys (snd <$> DeriveIKEKeys (SuitePRF suite) shared (SANi sa) (SANr sa) (SAInitiatorSPI sa) (SAResponderSPI sa)
                                        (encKeyLen suite) (integKeyLen suite)) in
                          let sa := sa <| Keys := keys |> <| State := StateSAInitDone |> in
                          let resp := init_response sa accepted ourPub remote on4500 s in
                          let sa := sa <| ResponderSAInit := resp |> <| RecvMsgID := 1 |> in
                          send_pkt resp remote on4500 (storeSA (new_ptr s) sa s)
                    end
                end
          end
      end
  end.

Definition handleIKESAInit (d : draws) (pkt : bytes) (hdr : Header) (remote : UDPAddr) (on4500 : bool) (s : Server) : Server :=
  if IsResponse hdr then s
  else
    match parsed (ParseMessage pkt) with
    | None => s
    | Some msg =>
        match Find msg TypeSA, Find msg TypeKE, Find msg TypeNonce with
        | Some saPay, Some kePay, Some noncePay =>
            let '(go, s) := checkCookie d msg hdr (Body noncePay) remote on4500 s in
            if negb go then s
            else
              let '(r, g) := Admit (gate s) (Admission.UDPAddr (udpIP remote)) (d_now d) in
              let s := s <| gate := g |> in
              match r with
              | HandshakeAdmitted =>
                  let s := initExchange d pkt hdr msg (Body saPay) (Body kePay) (Body noncePay) remote on4500 s in
                  s <| gate := Done (gate s) |>
              | _ => s
              end
        | _, _, _ => sendUnauthNotify hdr remote on4500 InvalidSyntax s
        end
    end.

(** ** Encrypted answers, [secured.go] *)

Definition respondEncrypted (d : draws) (sa : IKESA) (ex msgID firstInner : Z) (innerChain : bytes) (remote : UDPAddr) (s : Server) : Server :=
  let hdr := mkHeader (SAInitiatorSPI sa) (SAResponderSPI sa) 0 0 ex FlagResponse msgID 0 in
  match sealMaybeFragment hdr (SASuite sa) (Keys sa) (dirForOutbound sa) firstInner innerChain (fragEnabled sa) (d_ivs d) with
  | Err _ => s
  | Ok pkts => fold_left (fun s pkt => send_pkt pkt remote (OnPort4500 sa) s) pkts s
  end.

Definition respondEncryptedNotify (d : draws) (sa : IKESA) (ex msgID nt : Z) (remote : UDPAddr) (s : Server) : Server :=
  let b := addNotify NewBuilder nt [] in
  respondEncrypted d sa ex msgID (FirstType b) (Bytes b) remote s.
End Exchanges.
End Server.

Arguments Config : clear implicits.
Arguments Server : clear implicits.
