(* ===== verification/IkeAuth.v ===== *)
(** * The responder's IKE_AUTH, [internal/ikev2/ike/ike_auth.go]

    The three ways a peer authenticates -- shared key, certificate, EAP-MSCHAPv2 -- and
    what follows each of them: the address assignment, the Child SA with its keys and
    narrowed selectors, AGGFRAG, MOBIKE.  Every handler takes the SA it runs on and the
    server, and returns both. *)
From Stdlib Require Import ZArith Lia.
From stdpp Require Import base list gmap.
From S2P Require Import Prelude Aggfrag Routes Packet Shape Admission Pump IkeMessage IkeSA IkeBodies Crypto IkeSuite Dh Fragment Esp Eap IkeCookie IkeCert IkeSession IkeIntermediate Secured IkeServer.

(** ** Child SAs *)

Section Child.
Context {P : Prims}.

(** The directional keys: initiator's, then responder's; an expansion always returns. *)
Definition child_keys (prf : PRF) (skd ni nr : bytes) (es : ESPSuite) : bytes * bytes * bytes * bytes :=
  let encLen := Crypto.KeyLen (ECipher es) in
  let integLen := match EInteg es with Some i => IntegKeyLen i | None => 0%nat end in
  let km := default [] (DeriveChildKeys prf skd [] ni nr (2 * encLen + 2 * integLen)) in
  let '(encI, km) := take_km km encLen in
  let '(integI, km) := take_km km integLen in
  let '(encR, km) := take_km km encLen in
  let '(integR, _) := take_km km integLen in
  (encI, integI, encR, integR).

Definition setupChildSA (childDraws : list bytes) (sa : IKESA) (es : ESPSuite) (accepted : Proposal) (tsiBody tsrBody : bytes) : ChildState * Proposal :=
  let outboundSPI := if (length (SPI accepted) =? 4)%nat then beU32 (SPI accepted) else 0 in
  let inboundSPI := newChildSPI childDraws in
  let accepted := mkProposal (Num accepted) (Protocol accepted) (u32BE inboundSPI) (Transforms accepted) in
  let '(encI, integI, encR, integR) := child_keys (SuitePRF (SASuite sa)) (SKd (Keys sa)) (SANi sa) (SANr sa) es in
  (mkChildState (mkChildSA inboundSPI outboundSPI es encR integR encI integI)
     (parseTS_selectors tsiBody) (parseTS_selectors tsrBody) false [] [] None false 0 0, accepted).
End Child.

(** ** Config mode *)

Definition cp_reply (a : Assignment) : CPPayload :=
  let ip4 :=
    if bool_decide (IP4 a = []) then []
    else mkAttr CFGInternalIP4Address (To4 (IP4 a)) ::
         (if bool_decide (Netmask a = []) then [] else [mkAttr CFGInternalIP4Netmask (To4 (Netmask a))]) in
  let ip6 := if bool_decide (IP6 a = []) then [] else [mkAttr CFGInternalIP6Address (To16 (IP6 a) ++ [wrap 8 (Prefix6 a)])] in
  let dns := concat ((fun d => if negb (bool_decide (To4 d = [])) then [mkAttr CFGInternalIP4DNS (To4 d)]
                               else if negb (bool_decide (To16 d = [])) then [mkAttr CFGInternalIP6DNS (To16 d)] else []) <$> DNS a) in
  mkCP CFGReply (ip4 ++ ip6 ++ dns).

Section Auth.
Context {Priv CertPool DP LS : Type} {DI : DataPath DP} {LI : Leases LS}.
Context {P : Prims} {DG : Digests} {SG : Signing Priv} {X : X509 CertPool} {DE : Des}.
Abbreviation Srv := (Server Priv CertPool DP LS).

Definition buildCPReply (sa : IKESA) (cpBody : bytes) (s : Srv) : option CPPayload * IKESA * Srv :=
  match parsed (ParseCP cpBody) with
  | None => (None, sa, s)
  | Some req =>
      if negb (CPType req =? CFGRequest) then (None, sa, s)
      else
        let '(a, l) := AssignAddr (requestedFamilies req) (leases s) in
        let s := s <| leases := l |> in
        match a with
        | None => (None, sa, s)
        | Some a =>
            if bool_decide (IP4 a = []) && bool_decide (IP6 a = []) then (None, sa, s)
            else (Some (cp_reply a), sa <| ClientIP := IP4 a |> <| ClientIP6 := IP6 a |> <| assigned := a |>, s)
        end
  end.

Definition acceptAggFrag (inners : list RawPayload) : option Z :=
  match findNotify inners UseAggFrag with
  | None => None
  | Some n =>
      match ParseFlags (NData n) with
      | Err _ => None
      | Ok flags => if Unsupported flags then None else Some flags
      end
  end.

(** A payload of the final request, or the one saved from the first. *)
Definition or_saved (p : option RawPayload) (saved : option bytes) : option bytes :=
  match p with Some p => Some (Body p) | None => saved end.

(** The Child SA of the response with the payloads it adds, from the request's bodies. *)
Definition negotiate_child (d : draws) (sa : IKESA) (saBody tsiBody tsrBody : bytes) : option (ChildState * Proposal) :=
  match parsed (ParseSA saBody) with
  | None => None
  | Some espSA =>
      match SelectESPSuite espSA with
      | Err _ => None
      | Ok (es, accepted) => Some (setupChildSA (d_child d) sa es accepted tsiBody tsrBody)
      end
  end.

Definition add_child (b : Builder) (sa : IKESA) (child : ChildState) (accepted : Proposal) (tsiBody tsrBody : bytes) (inners : list RawPayload) (s : Srv) : Builder * ChildState :=
  let b := Add b TypeSA false (MarshalSA (mkSA [accepted])) in
  let '(narrowed, ok) := narrowTSiToAssignment (ch_TSi child) sa in
  let '(child, tsiBody) := if ok then (child <| ch_TSi := narrowed |>, MarshalTS narrowed) else (child, tsiBody) in
  let b := Add b TypeTSi false tsiBody in
  let b := Add b TypeTSr false tsrBody in
  if IPTFS (cfg s) then
    match acceptAggFrag inners with
    | Some flags =>
        (addNotify b UseAggFrag (NotifyData OurFlags),
         child <| ch_AggFrag := true |> <| ch_AggFragFlags := flags |> <| ch_IPTFSRate := IPTFSRate (cfg s) |>)
    | None => (b, child)
    end
  else (b, child).

(** The address assignment. *)
Definition assign_address (sa : IKESA) (cpPay : option bytes) (s : Srv) : option CPPayload * IKESA * Srv :=
  match cpPay with
  | Some cp => if hasAssignAddr (cfg s) then buildCPReply sa cp s else (None, sa, s)
  | None => (None, sa, s)
  end.

(** The Child SA's payloads, or the refusal of one that was asked for. *)
Definition child_payloads (d : draws) (sa : IKESA) (b : Builder) (saPay tsiPay tsrPay : option bytes) (inners : list RawPayload) (s : Srv) : Builder * option ChildState :=
  match saPay, tsiPay, tsrPay with
  | Some sap, Some tsi, Some tsr =>
      match negotiate_child d sa sap tsi tsr with
      | Some (child, accepted) => let '(b, child) := add_child b sa child accepted tsi tsr inners s in (b, Some child)
      | None => (addNotify b TSUnacceptable [], None)
      end
  | _, _, _ => (b, None)
  end.

(** The path and the addresses of a Child SA about to be announced. *)
Definition place_child (s : Srv) (sa : IKESA) (remote : UDPAddr) (c : ChildState) : ChildState :=
  c <| ch_UDPEncap := udpEncap s sa remote |> <| ch_ClientIP := ClientIP sa |> <| ch_ClientIP6 := ClientIP6 sa |> <| ch_PeerAddr := Some remote |>.

Definition install_child (sa : IKESA) (c : ChildState) (s : Srv) : IKESA * Srv :=
  (sa <| Children := <[InboundSPI (ch_esp c) := c]> (Children sa) |>, s <| dataPath := AddChild c <$> dataPath s |>).

Definition finishIKEAuth (d : draws) (sa : IKESA) (hdr : Header) (inners : list RawPayload) (b : Builder) (remote : UDPAddr) (s : Srv) : IKESA * Srv :=
  let saPay := or_saved (findInner inners TypeSA) (eapSApay sa) in
  let tsiPay := or_saved (findInner inners TypeTSi) (eapTSipay sa) in
  let tsrPay := or_saved (findInner inners TypeTSr) (eapTSrpay sa) in
  let cpPay := or_saved (findInner inners TypeCP) (eapCPpay sa) in
  let sa := if peerMobike sa then sa <| MobikeEnabled := true |> else sa in
  let b := if peerMobike sa then addMobikeSupported b else b in
  let '(reply, sa, s) := assign_address sa cpPay s in
  let b := match reply with Some cp => Add b TypeCP false (MarshalCP cp) | None => b end in
  let '(b, child) := child_payloads d sa b saPay tsiPay tsrPay inners s in
  let sa := sa <| State := StateEstablished |> <| RecvMsgID := wrap 32 (MessageID hdr + 1) |> in
  let child := place_child s sa remote <$> child in
  let s := respondEncrypted d sa IKE_AUTH (MessageID hdr) (FirstType b) (Bytes b) remote s in
  match child with
  | None => (sa, s)
  | Some c => install_child sa c s
  end.

(** ** EAP *)

Definition initiatorOctets (sa : IKESA) : bytes :=
  AuthOctets (SuitePRF (SASuite sa)) (InitiatorSAInit sa) (SANr sa) (SKpi (Keys sa)) (IDiForAuth sa) (intAuth sa (IKEAuthMsgID sa)).
Definition responderOctets (sa : IKESA) (localIDBody : bytes) : bytes :=
  AuthOctets (SuitePRF (SASuite sa)) (ResponderSAInit sa) (SANi sa) (SKpr (Keys sa)) localIDBody (intAuth sa (IKEAuthMsgID sa)).

Definition saved_body (p : option RawPayload) (old : option bytes) : option bytes := match p with Some p => Some (Body p) | None => old end.

(** The SA with its EAP server and the child payloads kept for the final message. *)
Definition eap_begun (sa : IKESA) (inners : list RawPayload) (srv : EapServer) : IKESA :=
  sa <| eapEAPID := 1 |> <| eapServer := Some srv |>
     <| eapSApay := saved_body (findInner inners TypeSA) (eapSApay sa) |> <| eapTSipay := saved_body (findInner inners TypeTSi) (eapTSipay sa) |>
     <| eapTSrpay := saved_body (findInner inners TypeTSr) (eapTSrpay sa) |> <| eapCPpay := saved_body (findInner inners TypeCP) (eapCPpay sa) |>.

Definition handleEAPStart (d : draws) (sa : IKESA) (hdr : Header) (inners : list RawPayload) (creds : bytes -> option bytes) (remote : UDPAddr) (s : Srv) : IKESA * Srv :=
  let localIDBody := idPayloadBody (LocalID (cfg s)) in
  let ourAuth := PSKAuth (SuitePRF (SASuite sa)) (cPSK (cfg s)) (responderOctets sa localIDBody) in
  let '(challenge, srv) := Begin (NewEapServer creds (EAPServerName (cfg s))) 1 (d_eap d) in
  let sa := eap_begun sa inners srv in
  let b := Add NewBuilder TypeIDr false localIDBody in
  let b := Add b TypeAUTH false (MarshalAuth (mkAuth AuthSharedKeyMIC ourAuth)) in
  let b := Add b TypeEAP false (MarshalEAP challenge) in
  let sa := sa <| RecvMsgID := wrap 32 (MessageID hdr + 1) |> in
  (sa, respondEncrypted d sa IKE_AUTH (MessageID hdr) (FirstType b) (Bytes b) remote s).

Definition handleEAPFinalAuth (d : draws) (sa : IKESA) (hdr : Header) (inners : list RawPayload) (msk : bytes) (remote : UDPAddr) (s : Srv) : IKESA * Srv :=
  let refuse nt := (sa, respondEncryptedNotify d sa IKE_AUTH (MessageID hdr) nt remote s) in
  match findInner inners TypeAUTH with
  | None => refuse AuthenticationFailed
  | Some authPay =>
      match ParseAuth (Body authPay) with
      | Err _ => refuse InvalidSyntax
      | Ok auth =>
          if negb (bool_decide (PSKAuth (SuitePRF (SASuite sa)) msk (initiatorOctets sa) = AData auth)) then refuse AuthenticationFailed
          else
            let ourAuth := PSKAuth (SuitePRF (SASuite sa)) msk (responderOctets sa (idPayloadBody (LocalID (cfg s)))) in
            let b := Add NewBuilder TypeAUTH false (MarshalAuth (mkAuth AuthSharedKeyMIC ourAuth)) in
            finishIKEAuth d sa hdr inners b remote s
      end
  end.

Definition handleEAPContinue (d : draws) (sa : IKESA) (hdr : Header) (inners : list RawPayload) (srv : EapServer) (remote : UDPAddr) (s : Srv) : IKESA * Srv :=
  let sa := sa <| RecvMsgID := wrap 32 (MessageID hdr + 1) |> in
  let refuse nt := (sa, respondEncryptedNotify d sa IKE_AUTH (MessageID hdr) nt remote s) in
  match eapMSK sa with
  | Some msk => handleEAPFinalAuth d sa hdr inners msk remote s
  | None =>
      match findInner inners TypeEAP with
      | None => refuse AuthenticationFailed
      | Some eapPay =>
          match ParseEAP (Body eapPay) with
          | Err _ => refuse AuthenticationFailed
          | Ok resp =>
              let '(next, done, err, srv) := HandlePeer srv resp in
              let sa := sa <| eapServer := Some srv |> in
              let b := Add NewBuilder TypeEAP false (MarshalEAP next) in
              let s := respondEncrypted d sa IKE_AUTH (MessageID hdr) (FirstType b) (Bytes b) remote s in
              match err with
              | Some _ => (sa, s)
              | None =>
                  if done && Success (Outcome srv)
                  then (sa <| eapMSK := Some (MSK (Outcome srv)) |> <| EAPIdentity := Username (Outcome srv) |>, s)
                  else (sa, s)
              end
          end
      end
  end.

(** ** Certificates *)

Definition handleCertAuth (d : draws) (sa : IKESA) (hdr : Header) (inners : list RawPayload) (auth : AuthPayload) (remote : UDPAddr) (s : Srv) : IKESA * Srv :=
  let refuse := (sa, respondEncryptedNotify d sa IKE_AUTH (MessageID hdr) AuthenticationFailed remote s) in
  match ClientCAs (cfg s), serverCred s with
  | Some cas, Some cred =>
      match findAllInner inners TypeCERT with
      | [] => refuse
      | certs =>
          match parseCertChain certs with
          | Err _ => refuse
          | Ok (leafDER, intermediates) =>
              match verifyPeerCertChain leafDER intermediates cas with
              | Err _ => refuse
              | Ok leaf =>
                  if negb (is_ok (certMatchesID leaf (PeerID sa))) then refuse
                  else if RequirePostQuantumAuth (cfg s) && negb (is_ok (requirePostQuantumKey (PublicKey leaf))) then refuse
                  else if negb (is_ok (verifyAuth (PublicKey leaf) (AMethod auth) (initiatorOctets sa) (AData auth))) then refuse
                  else
                    let localIDBody := idPayloadBody (LocalID (cfg s)) in
                    match signAuth cred (responderOctets sa localIDBody) (peerSigHashes sa) (d_sig d) with
                    | Err _ => refuse
                    | Ok (method, authData) =>
                        let b := Add NewBuilder TypeIDr false localIDBody in
                        let b := fold_left (fun b der => Add b TypeCERT false (MarshalCert (mkCert CertX509Signature der))) (chain cred) b in
                        let b := Add b TypeAUTH false (MarshalAuth (mkAuth method authData)) in
                        finishIKEAuth d sa hdr inners b remote s
                    end
              end
          end
      end
  | _, _ => refuse
  end.

(** ** The exchange *)

Definition pskAuth (d : draws) (sa : IKESA) (hdr : Header) (inners : list RawPayload) (auth : AuthPayload) (remote : UDPAddr) (s : Srv) : IKESA * Srv :=
  let refuse := (sa, respondEncryptedNotify d sa IKE_AUTH (MessageID hdr) AuthenticationFailed remote s) in
  if negb (AMethod auth =? AuthSharedKeyMIC) then refuse
  else if negb (is_ok (verifyPeerPSKAuth (SuitePRF (SASuite sa)) (cPSK (cfg s)) (InitiatorSAInit sa) (SANr sa) (SKpi (Keys sa)) (IDiForAuth sa)
                         (intAuth sa (IKEAuthMsgID sa)) (AData auth))) then refuse
  else
    let localIDBody := idPayloadBody (LocalID (cfg s)) in
    let ourAuth := computePSKAuth (SuitePRF (SASuite sa)) (cPSK (cfg s)) (ResponderSAInit sa) (SANi sa) (SKpr (Keys sa)) localIDBody (intAuth sa (IKEAuthMsgID sa)) in
    let b := Add NewBuilder TypeIDr false localIDBody in
    let b := Add b TypeAUTH false (MarshalAuth (mkAuth AuthSharedKeyMIC ourAuth)) in
    finishIKEAuth d sa hdr inners b remote s.

Definition handleIKEAuth (d : draws) (sa : IKESA) (hdr : Header) (inners : list RawPayload) (remote : UDPAddr) (s : Srv) : IKESA * Srv :=
  match eapServer sa with
  | Some srv => handleEAPContinue d sa hdr inners srv remote s
  | None =>
      let sa := sa <| IKEAuthMsgID := MessageID hdr |> in
      let refuse sa nt := (sa, respondEncryptedNotify d sa IKE_AUTH (MessageID hdr) nt remote s) in
      match findInner inners TypeIDi with
      | None => refuse sa AuthenticationFailed
      | Some idiPay =>
          match ParseID (Body idiPay) with
          | Err _ => refuse sa InvalidSyntax
          | Ok idi =>
              let sa := sa <| PeerID := idi |> <| IDiForAuth := idPayloadBody idi |> <| peerMobike := findMobikeSupported inners |> in
              match findInner inners TypeAUTH with
              | None =>
                  if RequirePostQuantumAuth (cfg s) then refuse sa AuthenticationFailed
                  else
                    match EAPCredentials (cfg s) with
                    | None => refuse sa AuthenticationFailed
                    | Some creds =>
                        if (length (cPSK (cfg s)) =? 0)%nat then refuse sa AuthenticationFailed
                        else handleEAPStart d sa hdr inners creds remote s
                    end
              | Some authPay =>
                  match ParseAuth (Body authPay) with
                  | Err _ => refuse sa InvalidSyntax
                  | Ok auth =>
                      if (AMethod auth =? AuthDigitalSig) || (AMethod auth =? AuthRSASig) then
                        if RequirePostQuantumAuth (cfg s) && (AMethod auth =? AuthRSASig) then refuse sa AuthenticationFailed
                        else handleCertAuth d sa hdr inners auth remote s
                      else pskAuth d sa hdr inners auth remote s
                  end
              end
          end
      end
  end.
End Auth.
