(* ===== verification/IkeChild.v ===== *)
(** * The responder's exchanges on a running SA, [internal/ikev2/ike/{child_info,mobike,intermediate}.go]

    IKE_INTERMEDIATE; CREATE_CHILD_SA, for a Child SA and for the rekey of the IKE SA
    itself; INFORMATIONAL with deletion and MOBIKE. *)
From Stdlib Require Import ZArith Lia.
From stdpp Require Import base list gmap.
From S2P Require Import Prelude Aggfrag Routes Packet Shape Admission Pump IkeMessage IkeSA IkeBodies Crypto IkeSuite Dh Fragment Esp Eap IkeCookie IkeCert IkeSession IkeIntermediate Secured IkeServer IkeAuth.

Section ChildInfo.
Context {Priv CertPool DP LS : Type} {DI : DataPath DP} {LI : Leases LS}.
Context {P : Prims} {DG : Digests} {C : Curves} {K : Kem}.
Abbreviation Srv := (Server Priv CertPool DP LS).

(** ** IKE_INTERMEDIATE *)

(** The first KE payload; [None] when there is none, an error when it does not parse. *)
Definition first_ke (inners : list RawPayload) : option (result payload_error KEPayload) :=
  match findInner inners TypeKE with Some p => Some (ParseKE (Body p)) | None => None end.

Definition handleIKEIntermediate (d : draws) (sa : IKESA) (hdr : Header) (inners : list RawPayload) (remote : UDPAddr) (s : Srv) : IKESA * Srv :=
  let refuse := (sa, respondEncryptedNotify d sa IKE_INTERMEDIATE (MessageID hdr) InvalidSyntax remote s) in
  if negb (bool_decide (State sa = StateSAInitDone)) && negb (bool_decide (State sa = StateIntermediate)) then (sa, s)
  else if ADDKEGroup sa =? 0 then refuse
  else
    match first_ke inners with
    | None => refuse
    | Some (Err _) => (sa, s)
    | Some (Ok ke) =>
        if negb (Group ke =? ADDKEGroup sa) then refuse
        else
          match kemEncapsulate (Group ke) (KeyData ke) (d_kem d) with
          | Err _ => refuse
          | Ok (ct, shared) =>
              match reencodeInners inners with
              | None => (sa, s)
              | Some reqInner =>
                  let reqHdr := mkHeader (InitiatorSPI hdr) (ResponderSPI hdr) (NextPayload hdr) (Version hdr) (ExchangeType hdr) FlagInitiator (MessageID hdr) (Length hdr) in
                  let prf := SuitePRF (SASuite sa) in
                  let sa := sa <| IntAuthI := chainIntAuth prf (SKpi (Keys sa)) (IntAuthI sa)
                                                (intAuthBlob reqHdr (match inners with p :: _ => Type_ p | [] => 0 end) reqInner) |> in
                  let b := Add NewBuilder TypeKE false (MarshalKE (mkKE (Group ke) ct)) in
                  let respHdr := mkHeader (SAInitiatorSPI sa) (SAResponderSPI sa) 0 0x20 IKE_INTERMEDIATE FlagResponse (MessageID hdr) 0 in
                  let sa := sa <| IntAuthR := chainIntAuth prf (SKpr (Keys sa)) (IntAuthR sa) (intAuthBlob respHdr (FirstType b) (Bytes b)) |> in
                  let s := respondEncrypted d sa IKE_INTERMEDIATE (MessageID hdr) (FirstType b) (Bytes b) remote s in
                  (sa <| Keys := rekeyFromAdditionalExchange (SASuite sa) (Keys sa) shared (SANi sa) (SANr sa) (SAInitiatorSPI sa) (SAResponderSPI sa) |>
                      <| State := StateIntermediate |> <| RecvMsgID := wrap 32 (RecvMsgID sa + 1) |>, s)
              end
          end
    end.

(** ** CREATE_CHILD_SA *)

(** The replacement of [sa] under the new keys. *)
Definition rekeyed_sa (d : draws) (sa : IKESA) (spiI spiR : Z) (suite : Suite) (keys : SAKeys) (remote : UDPAddr) : IKESA :=
  let n := newIKESA (d_now d) in
  n <| SAInitiatorSPI := spiI |> <| SAResponderSPI := spiR |> <| WeAreInitiator := false |> <| SASuite := suite |> <| Keys := keys |>
    <| State := StateEstablished |> <| RemoteAddr := Some remote |> <| OnPort4500 := OnPort4500 sa |> <| NAT := NAT sa |>
    <| MobikeEnabled := MobikeEnabled sa |> <| fragEnabled := fragEnabled sa |> <| ClientIP := ClientIP sa |> <| ClientIP6 := ClientIP6 sa |>
    <| assigned := assigned sa |> <| PeerID := PeerID sa |> <| RecvMsgID := 0 |> <| SendMsgID := 0 |> <| Children := Children sa |>.

(** [reqSA] has a first proposal. *)
Definition handleRekeyIKE (d : draws) (sa : IKESA) (hdr : Header) (inners : list RawPayload) (remote : UDPAddr) (reqSA : SAPayload) (p0 : Proposal) (s : Srv) : IKESA * Srv :=
  let refuse nt := (sa, respondEncryptedNotify d sa CREATE_CHILD_SA (MessageID hdr) nt remote s) in
  match findInner inners TypeNonce, findInner inners TypeKE with
  | Some noncePay, Some kePay =>
      if negb (length (SPI p0) =? 8)%nat then refuse InvalidSyntax
      else
        match SelectIKESuite reqSA with
        | Err _ => refuse NoProposalChosen
        | Ok (suite, accepted) =>
            match ParseKE (Body kePay) with
            | Err _ => refuse InvalidSyntax
            | Ok ke =>
                if negb (Group ke =? DHID suite) then refuse InvalidKEPayload
                else
                  match transformDH (DHID suite) with
                  | Err _ => refuse NoProposalChosen
                  | Ok dh =>
                      let '(ourPub, dh) := Generate dh (d_dh d) in
                      match ComputeSecret dh (KeyData ke) with
                      | Err _ => refuse InvalidSyntax
                      | Ok shared =>
                          let newSPIi := beU64 (SPI p0) in
                          let newSPIr := newIKESPI (d_spi d) in
                          let ni := ParseNonce (Body noncePay) in
                          let nr := randomNonce (PreferredKeyLen (SuitePRF suite)) (d_nonce d) in
                          let newKeys := default zero_keys (DeriveRekeyedIKEKeys (SuitePRF suite) (SKd (Keys sa)) shared ni nr newSPIi newSPIr
                                           (encKeyLen suite) (integKeyLen suite)) in
                          let newSA := rekeyed_sa d sa newSPIi newSPIr suite newKeys remote in
                          let sa := sa <| Children := ∅ |> <| ClientIP := [] |> <| State := StateDeleting |> in
                          let accepted := mkProposal (Num accepted) (Protocol accepted) (u64BE newSPIr) (Transforms accepted) in
                          let b := Add NewBuilder TypeSA false (MarshalSA (mkSA [accepted])) in
                          let b := Add b TypeNonce false (MarshalNonce nr) in
                          let b := Add b TypeKE false (MarshalKE (mkKE (DHID suite) ourPub)) in
                          let s := respondEncrypted d sa CREATE_CHILD_SA (MessageID hdr) (FirstType b) (Bytes b) remote s in
                          (sa, storeSA (new_ptr s) newSA s)
                      end
                  end
            end
        end
  | _, _ => refuse InvalidSyntax
  end.

Definition handleCreateChildSA (d : draws) (sa : IKESA) (hdr : Header) (inners : list RawPayload) (remote : UDPAddr) (s : Srv) : IKESA * Srv :=
  let sa := sa <| RecvMsgID := wrap 32 (MessageID hdr + 1) |> in
  let refuse nt := (sa, respondEncryptedNotify d sa CREATE_CHILD_SA (MessageID hdr) nt remote s) in
  match findInner inners TypeSA with
  | None => refuse InvalidSyntax
  | Some saPay =>
      match parsed (ParseSA (Body saPay)) with
      | None => refuse InvalidSyntax
      | Some reqSA =>
          match List.filter (fun p => Protocol p =? ProtoIKE) (take 1 (Proposals reqSA)) with
          | p0 :: _ => handleRekeyIKE d sa hdr inners remote reqSA p0 s
          | [] =>
              match findInner inners TypeNonce, findInner inners TypeTSi, findInner inners TypeTSr with
              | Some noncePay, Some tsiPay, Some tsrPay =>
                  match ParseTS (Body tsiPay) with
                  | Err _ => refuse TSUnacceptable
                  | Ok tsi =>
                      if negb (tsiCoversLease tsi sa) then refuse TSUnacceptable
                      else
                        match SelectESPSuite reqSA with
                        | Err _ => refuse NoProposalChosen
                        | Ok (es, accepted) =>
                            let respNonce := randomNonce (PreferredKeyLen (SuitePRF (SASuite sa))) (d_nonce d) in
                            let withNonces := sa <| SANi := ParseNonce (Body noncePay) |> <| SANr := respNonce |> in
                            let '(child, acceptedESP) := setupChildSA (d_child d) withNonces es accepted (Body tsiPay) (Body tsrPay) in
                            let b := Add NewBuilder TypeSA false (MarshalSA (mkSA [acceptedESP])) in
                            let b := Add b TypeNonce false (MarshalNonce respNonce) in
                            let '(narrowed, ok) := narrowTSiToAssignment (ch_TSi child) sa in
                            let '(child, tsiBody) := if ok then (child <| ch_TSi := narrowed |>, MarshalTS narrowed) else (child, Body tsiPay) in
                            let b := Add b TypeTSi false tsiBody in
                            let b := Add b TypeTSr false (Body tsrPay) in
                            let child := place_child s sa remote child in
                            let s := respondEncrypted d sa CREATE_CHILD_SA (MessageID hdr) (FirstType b) (Bytes b) remote s in
                            install_child sa child s
                        end
                  end
              | _, _, _ => refuse InvalidSyntax
              end
          end
      end
  end.

(** ** INFORMATIONAL *)

Definition handleMobikeInformational (sa : IKESA) (inners : list RawPayload) (remote : UDPAddr) (b : Builder) (s : Srv) : IKESA * Builder * Srv :=
  let cookie2 := findNotify inners Cookie2 in
  let update := findNotify inners UpdateSAAddresses in
  let b := match cookie2 with Some n => addNotify b Cookie2 (NData n) | None => b end in
  match update with
  | None => (sa, b, s)
  | Some _ =>
      if negb (MobikeEnabled sa) then (sa, b, s)
      else
        let sa := sa <| RemoteAddr := Some remote |> in
        let sa := sa <| NAT := detectNAT (PublicIP (cfg s)) (ourPort s (OnPort4500 sa)) inners (SAInitiatorSPI sa) (SAResponderSPI sa) remote |> in
        let encap := natDetected (NAT sa) || OnPort4500 sa in
        let sa := sa <| Children := (fun c => c <| ch_PeerAddr := Some remote |> <| ch_UDPEncap := encap |>) <$> Children sa |> in
        let s := s <| dataPath := UpdatePeerAddr (dom (Children sa)) remote <$> dataPath s |> in
        (sa, addNATDetection b (PublicIP (cfg s)) (ourPort s (OnPort4500 sa)) (SAInitiatorSPI sa) (SAResponderSPI sa) remote, s)
  end.

(** The Child SAs that one SPI of a DELETE names; [range] meets them in some order. *)
Definition delete_spi (acc : gmap Z ChildState * option DP * list bytes) (spi : bytes) : gmap Z ChildState * option DP * list bytes :=
  if negb (length spi =? 4)%nat then acc
  else
    fold_left (fun '(children, dp, deleted) '(inn, c) =>
        if OutboundSPI (ch_esp c) =? beU32 spi
        then (delete inn children, RemoveChild c <$> dp, deleted ++ [u32BE (InboundSPI (ch_esp c))])
        else (children, dp, deleted))
      (map_to_list acc.1.1) acc.

(** One payload: whether the IKE SA goes, and the Child SAs that are left. *)
Definition delete_payload (acc : bool * (gmap Z ChildState * option DP * list bytes)) (p : RawPayload) : bool * (gmap Z ChildState * option DP * list bytes) :=
  if negb (Type_ p =? TypeDelete) then acc
  else
    match ParseDelete (Body p) with
    | Err _ => acc
    | Ok del =>
        if DProtocol del =? ProtoIKE then (true, acc.2)
        else if DProtocol del =? ProtoESP then (acc.1, fold_left delete_spi (SPIs del) acc.2)
        else acc
    end.

(** [ptr] is the SA's own pointer. *)
Definition handleInformational (d : draws) (ptr : nat) (sa : IKESA) (hdr : Header) (inners : list RawPayload) (remote : UDPAddr) (s : Srv) : IKESA * Srv :=
  let sa := sa <| RecvMsgID := wrap 32 (MessageID hdr + 1) |> in
  match inners with
  | [] => (sa, respondEncrypted d sa INFORMATIONAL (MessageID hdr) NoNextPayload [] remote s)
  | _ =>
      let '(sa, b, s) := handleMobikeInformational sa inners remote NewBuilder s in
      let '(deleteIKE, (children, dp, deleted)) := fold_left delete_payload inners (false, (Children sa, dataPath s, [])) in
      let sa := sa <| Children := children |> in
      let s := s <| dataPath := dp |> in
      let b := if (0 <? length deleted)%nat then Add b TypeDelete false (MarshalDelete (mkDelete ProtoESP 4 deleted)) else b in
      let s := respondEncrypted d sa INFORMATIONAL (MessageID hdr) (FirstType b) (Bytes b) remote s in
      if deleteIKE then
        let sa := sa <| State := StateClosed |> in
        let s := s <| dataPath := (fun dp => fold_left (fun dp c => RemoveChild c.2 dp) (map_to_list (Children sa)) dp) <$> dataPath s |> in
        (sa, deleteSA ptr sa s)
      else (sa, s)
  end.
End ChildInfo.
