(* ===== verification/IkeResponder.v ===== *)
(** * The responder's dispatch, [internal/ikev2/ike/{server,secured,transport}.go]

    [handleSecured] and [handlePacket] over the handlers of IkeServer.v, IkeAuth.v and
    IkeChild.v, and the turns of the socket loops.  Handlers of one SA hold its lock from
    the lookup to their end, so a datagram is one step.

    The theorems: an SA becomes established only through a request that opened under its
    keys and carried a valid shared-key, certificate or EAP authentication, and every
    established SA goes back to one; SAs that have not authenticated hold no Child SA and
    no address. *)
From Stdlib Require Import ZArith Lia.
From Stdlib Require String.
Import String.StringSyntax.
From stdpp Require Import base list gmap.
From S2P Require Import Prelude Aggfrag Routes Packet Shape Admission Pump IkeMessage IkeSA IkeBodies Crypto IkeSuite Dh Fragment Esp Eap IkeCookie IkeCert IkeSession IkeIntermediate Secured IkeServer IkeAuth IkeChild.

Section Responder.
Context {Priv CertPool DP LS : Type} {DI : DataPath DP} {LI : Leases LS}.
Context {P : Prims} {DG : Digests} {C : Curves} {K : Kem} {SG : Signing Priv} {X : X509 CertPool} {DE : Des}.
Abbreviation Srv := (Server Priv CertPool DP LS).
Implicit Types (s : Srv) (sa : IKESA) (d : draws).

Definition put_sa (p : nat) (sa : IKESA) (s : Srv) : Srv := s <| sas := <[p := sa]> (sas s) |>.

(** The switch of [handleSecured]. *)
Definition dispatch_exchange (d : draws) (p : nat) (sa : IKESA) (hdr : Header) (ex : Z) (inners : list RawPayload) (remote : UDPAddr) (s : Srv) : IKESA * Srv :=
  if ex =? IKE_AUTH then handleIKEAuth d sa hdr inners remote s
  else if ex =? IKE_INTERMEDIATE then handleIKEIntermediate d sa hdr inners remote s
  else if ex =? CREATE_CHILD_SA then handleCreateChildSA d sa hdr inners remote s
  else if ex =? INFORMATIONAL then handleInformational d p sa hdr inners remote s
  else (sa, s).

(** A pointer of the index always has its SA in the store. *)
Definition handleSecured (d : draws) (pkt : bytes) (hdr : Header) (remote : UDPAddr) (ex : Z) (on4500 : bool) (s : Srv) : Srv :=
  if IsResponse hdr then s
  else
    match lookupByRSPI s (ResponderSPI hdr) with
    | None => s
    | Some p =>
        match sas s !! p with
        | None => s
        | Some sa =>
            match openRequest sa pkt hdr remote ex (d_now d) on4500 with
            | (None, sa) => put_sa p sa s
            | (Some x, sa) => let '(sa, s) := dispatch_exchange d p sa hdr (dExchange x) (dPayloads x) remote s in put_sa p sa s
            end
        end
    end.

Definition handlePacket (d : draws) (pkt : bytes) (remote : UDPAddr) (on4500 : bool) (s : Srv) : Srv :=
  if (length pkt <? IkeHeaderLen)%nat then s
  else
    match IkeMessage.ParseHeader pkt with
    | Err _ => s
    | Ok hdr =>
        if negb (Z.shiftr (Version hdr) 4 =? 2) then s
        else if ExchangeType hdr =? IKE_SA_INIT then handleIKESAInit d pkt hdr remote on4500 s
        else if (ExchangeType hdr =? IKE_AUTH) || (ExchangeType hdr =? IKE_INTERMEDIATE) || (ExchangeType hdr =? CREATE_CHILD_SA) || (ExchangeType hdr =? INFORMATIONAL)
        then handleSecured d pkt hdr remote (ExchangeType hdr) on4500 s
        else s
    end.

(** ** What the handlers leave alone *)

(** The answers change nothing but [out]. *)
Definition only_out (s s' : Srv) : Prop :=
  cfg s' = cfg s /\ serverCred s' = serverCred s /\ gate s' = gate s /\ cookies s' = cookies s /\ byRSPI s' = byRSPI s /\ byRemote s' = byRemote s /\
  sas s' = sas s /\ dataPath s' = dataPath s /\ leases s' = leases s /\ streams s' = streams s.

Lemma respondEncrypted_out d sa ex id f c r s : only_out s (respondEncrypted d sa ex id f c r s).
Proof.
  unfold respondEncrypted. destruct (sealMaybeFragment _ _ _ _ _ _ _ _) as [pkts|]; [|done].
  revert s. induction pkts as [|p pkts IH]; intros s; [done|]. cbn [fold_left]. unfold only_out in *.
  destruct (IH (send_pkt p r (OnPort4500 sa) s)) as (->&->&->&->&->&->&->&->&->&->). done.
Qed.

Lemma respond_sas d sa ex id f c r s : sas (respondEncrypted d sa ex id f c r s) = sas s.
Proof. apply respondEncrypted_out. Qed.
Lemma respond_cfg d sa ex id f c r s : cfg (respondEncrypted d sa ex id f c r s) = cfg s.
Proof. apply respondEncrypted_out. Qed.
Lemma respond_cred d sa ex id f c r s : serverCred (respondEncrypted d sa ex id f c r s) = serverCred s.
Proof. apply respondEncrypted_out. Qed.

(** What every handler keeps of the server. *)
Definition kept (s s' : Srv) : Prop := cfg s' = cfg s /\ serverCred s' = serverCred s /\ sas s' = sas s.

Lemma respond_kept d sa ex id f c r s : kept s (respondEncrypted d sa ex id f c r s).
Proof. unfold kept. by rewrite respond_cfg, respond_cred, respond_sas. Qed.
Lemma notify_kept d sa ex id nt r s : kept s (respondEncryptedNotify d sa ex id nt r s).
Proof. apply respond_kept. Qed.

(** ** Authentication *)

(** What a request says to prove an identity to the responder: an AUTH payload over the
    first message, the responder's nonce and the identity, under the shared key; signed
    by a certificate of the identity; or under the key of an EAP exchange in which a user
    proved their password. *)
Inductive proves_identity (s : Srv) (sa : IKESA) (inners : list RawPayload) (id : IDPayload) : Prop :=
| by_psk ap auth : findInner inners TypeAUTH = Some ap -> ParseAuth (Body ap) = Ok auth -> cPSK (cfg s) <> [] ->
    AData auth = PSKAuth (SuitePRF (SASuite sa)) (cPSK (cfg s)) (initiatorOctets sa) ->
    proves_identity s sa inners id
| by_certificate ap auth cas leafDER inter leaf : findInner inners TypeAUTH = Some ap -> ParseAuth (Body ap) = Ok auth ->
    ClientCAs (cfg s) = Some cas -> parseCertChain (findAllInner inners TypeCERT) = Ok (leafDER, inter) ->
    verifyPeerCertChain leafDER inter cas = Ok leaf -> certMatchesID leaf id = Ok () ->
    verifyAuth (PublicKey leaf) (AMethod auth) (initiatorOctets sa) (AData auth) = Ok () ->
    (RequirePostQuantumAuth (cfg s) = true -> exists params k, PublicKey leaf = MLDSAKey params k) ->
    proves_identity s sa inners id
| by_eap ap auth msk creds challenge r resp : findInner inners TypeAUTH = Some ap -> ParseAuth (Body ap) = Ok auth ->
    eapMSK sa = Some msk -> AData auth = PSKAuth (SuitePRF (SASuite sa)) msk (initiatorOctets sa) ->
    EAPCredentials (cfg s) = Some creds -> MSK r = msk -> proves creds challenge r resp ->
    proves_identity s sa inners id.

(** What an SA keeps from IKE_SA_INIT to the end of IKE_AUTH. *)
Definition material (sa : IKESA) : Suite * SAKeys * bytes * bytes := (SASuite sa, Keys sa, InitiatorSAInit sa, SANr sa).

(** The fields the signed octets are made of, and the identity. *)
Definition same_octets (sa sa' : IKESA) : Prop :=
  initiatorOctets sa' = initiatorOctets sa /\ SASuite sa' = SASuite sa /\ PeerID sa' = PeerID sa /\ IDiForAuth sa' = IDiForAuth sa /\ eapMSK sa' = eapMSK sa /\ eapServer sa' = eapServer sa /\
  material sa' = material sa.

Lemma buildCPReply_spec sa cp s :
  let '(_, sa', s') := buildCPReply sa cp s in kept s s' /\ same_octets sa sa' /\ peerMobike sa' = peerMobike sa /\ State sa' = State sa /\ Children sa' = Children sa.
Proof.
  unfold buildCPReply. destruct (parsed _); [|done]. destruct (negb _); [done|].
  destruct (AssignAddr _ _) as [[a|] l]; [|done]. by destruct (_ && _).
Qed.

Lemma assign_address_spec sa cp s :
  let '(_, sa', s') := assign_address sa cp s in kept s s' /\ same_octets sa sa' /\ State sa' = State sa /\ Children sa' = Children sa.
Proof.
  unfold assign_address. destruct cp as [cp|]; [|done]. destruct (hasAssignAddr _); [|done].
  pose proof (buildCPReply_spec sa cp s) as H. destruct (buildCPReply sa cp s) as [[? ?] ?]. naive_solver.
Qed.

Lemma finishIKEAuth_spec d sa hdr inners b remote s :
  let '(sa', s') := finishIKEAuth d sa hdr inners b remote s in kept s s' /\ same_octets sa sa' /\ State sa' = StateEstablished.
Proof.
  unfold finishIKEAuth. cbv zeta. set (sa1 := if peerMobike sa then _ else _).
  assert (same_octets sa sa1) as Hm by (subst sa1; by destruct (peerMobike sa)). clearbody sa1.
  match goal with |- context [assign_address ?x ?y s] => pose proof (assign_address_spec x y s) as Ha; destruct (assign_address x y s) as [[reply sa2] s2] end.
  destruct Ha as (Hk & Hc & _). destruct (child_payloads _ _ _ _ _ _ _ _) as [b3 child].
  set (sa3 := sa2 <| State := StateEstablished |> <| RecvMsgID := _ |>).
  assert (same_octets sa2 sa3 /\ State sa3 = StateEstablished) as [Ho Hst] by done. clearbody sa3.
  match goal with |- context [respondEncrypted ?d ?x ?e ?i ?f ?c ?r ?s] => pose proof (respond_kept d x e i f c r s) as Hr; set (s4 := respondEncrypted d x e i f c r s) in * end.
  clearbody s4.
  assert (forall sa5, same_octets sa3 sa5 -> kept s s4 /\ same_octets sa sa5) as Hall.
  { intros sa5. unfold kept, same_octets in *. destruct_and!. intros. destruct_and!. split_and!; congruence. }
  destruct (place_child s2 sa3 remote <$> child) as [c|]; cbn [install_child].
  - destruct (Hall (sa3 <| Children := <[InboundSPI (ch_esp c) := c]> (Children sa3) |>)) as [H1 H2]; [done|]. split_and!; done.
  - destruct (Hall sa3) as [H1 H2]; [done|]. by split_and!.
Qed.

(** Who an EAP exchange in progress has convinced the server of. *)
Definition eap_sound (s : Srv) (sa : IKESA) : Prop :=
  match eapServer sa with
  | None => eapMSK sa = None
  | Some srv => IDiForAuth sa = idPayloadBody (PeerID sa) /\ exists creds challenge seen, EAPCredentials (cfg s) = Some creds /\ eap_inv creds challenge seen srv /\
      (forall msk, eapMSK sa = Some msk -> exists r resp, MSK r = msk /\ proves creds challenge r resp)
  end.

(** What an SA that has not authenticated does not have. *)
Definition holdings (sa : IKESA) : gmap Z ChildState * bytes * bytes * Assignment := (Children sa, ClientIP sa, ClientIP6 sa, assigned sa).

(** The outcome of IKE_AUTH: the SA is where it was, or it is established and proven. *)
Definition auth_outcome (s : Srv) (sa : IKESA) (inners : list RawPayload) (res : IKESA * Srv) : Prop :=
  kept s res.2 /\ eap_sound s res.1 /\ material res.1 = material sa /\
  ((State res.1 = State sa /\ holdings res.1 = holdings sa) \/
   (State res.1 = StateEstablished /\ proves_identity s res.1 inners (PeerID res.1) /\ IDiForAuth res.1 = idPayloadBody (PeerID res.1))).

(** A refusal or an EAP step. *)
Lemma auth_outcome_stay s sa inners sa' s' :
  kept s s' -> eap_sound s sa' -> material sa' = material sa -> State sa' = State sa -> holdings sa' = holdings sa ->
  auth_outcome s sa inners (sa', s').
Proof. intros H1 H2 H3 H4 H5. split; [done|]. split; [done|]. split; [done|]. by left. Qed.

Lemma proves_same s sa sa' inners id : same_octets sa sa' -> proves_identity s sa inners id -> proves_identity s sa' inners id.
Proof.
  intros (Ho & Hs & Hp & Hi & Hm & He & _) [].
  - eapply by_psk; try done. by rewrite Hs, Ho.
  - eapply by_certificate; try done. by rewrite Ho.
  - eapply by_eap; try done; [by rewrite Hm|by rewrite Hs, Ho].
Qed.

Lemma eap_sound_same s sa sa' : same_octets sa sa' -> eap_sound s sa -> eap_sound s sa'.
Proof. intros (Ho & Hs & Hp & Hi & Hm & He & _). unfold eap_sound. by rewrite Hp, Hi, Hm, He. Qed.

Lemma auth_outcome_finish d sa0 sa hdr inners b remote s :
  material sa = material sa0 -> eap_sound s sa -> IDiForAuth sa = idPayloadBody (PeerID sa) -> proves_identity s sa inners (PeerID sa) ->
  auth_outcome s sa0 inners (finishIKEAuth d sa hdr inners b remote s).
Proof.
  intros Hmat He Hid Hp. pose proof (finishIKEAuth_spec d sa hdr inners b remote s) as H. destruct (finishIKEAuth _ _ _ _ _ _ _) as [sa' s'].
  destruct H as (Hk & Ho & Hst). split; [done|]. cbn [fst snd]. split; [by eapply eap_sound_same|].
  pose proof Ho as (_ & _ & Hpi & Hii & _ & _ & Hm). split; [congruence|]. right. rewrite Hpi, Hii. split_and!; try done. by eapply proves_same.
Qed.

Lemma handleEAPFinalAuth_spec d sa hdr inners msk remote s :
  eap_sound s sa -> eapMSK sa = Some msk -> auth_outcome s sa inners (handleEAPFinalAuth d sa hdr inners msk remote s).
Proof.
  intros He Hm. unfold handleEAPFinalAuth. cbv zeta.
  destruct (findInner inners TypeAUTH) as [ap|] eqn:Ea; [|apply auth_outcome_stay; try done; apply notify_kept].
  destruct (ParseAuth (Body ap)) as [auth|] eqn:Ep; [|apply auth_outcome_stay; try done; apply notify_kept].
  case_bool_decide as Hd; cbn [negb]; [|apply auth_outcome_stay; try done; apply notify_kept].
  pose proof He as He'. unfold eap_sound in He'. destruct (eapServer sa) as [srv|]; [|congruence].
  destruct He' as (Hid & creds & challenge & seen & Hcr & _ & Hall). destruct (Hall msk Hm) as (r & resp & Hr & Hpr).
  apply auth_outcome_finish; [done|done|done|]. by eapply by_eap.
Qed.

Lemma handleEAPContinue_spec d sa hdr inners srv remote s :
  eap_sound s sa -> eapServer sa = Some srv -> auth_outcome s sa inners (handleEAPContinue d sa hdr inners srv remote s).
Proof.
  intros He Hsrv. unfold handleEAPContinue. cbv zeta. set (sa1 := sa <| RecvMsgID := _ |>).
  assert (eap_sound s sa1) as He1 by done. change (eapMSK sa) with (eapMSK sa1).
  destruct (eapMSK sa1) as [msk|] eqn:Em; [by apply (handleEAPFinalAuth_spec d sa1 hdr inners msk)|].
  destruct (findInner inners TypeEAP) as [ep|]; [|apply auth_outcome_stay; try done; apply notify_kept].
  destruct (ParseEAP (Body ep)) as [resp|]; [|apply auth_outcome_stay; try done; apply notify_kept].
  destruct (HandlePeer srv resp) as [[[next dn] err] srv'] eqn:Eh.
  assert (eap_sound s sa1 -> exists creds challenge seen, EAPCredentials (cfg s) = Some creds /\ eap_inv creds challenge seen srv') as Hinv.
  { unfold eap_sound. change (eapServer sa1) with (eapServer sa). rewrite Hsrv. intros (_ & creds & challenge & seen & Hcr & Hi & _).
    apply (eap_inv_handle creds challenge seen srv resp) in Hi. rewrite Eh in Hi. eauto. }
  destruct (Hinv He1) as (creds & challenge & seen & Hcr & Hi).
  assert (IDiForAuth sa1 = idPayloadBody (PeerID sa1)) as Hid.
  { unfold eap_sound in He1. change (eapServer sa1) with (eapServer sa) in He1. rewrite Hsrv in He1. apply He1. }
  set (sa2 := sa1 <| eapServer := Some srv' |>). set (b := Add NewBuilder TypeEAP false _).
  pose proof (respond_kept d sa2 IKE_AUTH (MessageID hdr) (FirstType b) (Bytes b) remote s) as Hk.
  assert (eap_sound s sa2) as He2.
  { split; [exact Hid|]. exists creds, challenge, seen. split_and!; try done. intros msk Hmsk. change (eapMSK sa2) with (eapMSK sa1) in Hmsk. congruence. }
  destruct err; [by apply auth_outcome_stay|]. destruct (dn && Success (Outcome srv')) eqn:Eok; [|by apply auth_outcome_stay].
  apply andb_true_iff in Eok as [_ Hok]. apply auth_outcome_stay; try done. split; [exact Hid|].
  exists creds, challenge, seen. split_and!; try done. intros msk [= <-]. destruct Hi as (_ & _ & Hs). destruct (Hs Hok) as [_ Hex].
  apply Exists_exists in Hex as (pk & _ & Hpk). by exists (Outcome srv'), pk.
Qed.

Lemma eap_begun_fields sa inners srv :
  let sa' := eap_begun sa inners srv in
  State sa' = State sa /\ holdings sa' = holdings sa /\ material sa' = material sa /\ PeerID sa' = PeerID sa /\ IDiForAuth sa' = IDiForAuth sa /\ eapMSK sa' = eapMSK sa /\
  eapServer sa' = Some srv.
Proof. by destruct sa. Qed.

Lemma handleEAPStart_eq d sa hdr inners creds remote s challenge srv :
  Begin (NewEapServer creds (EAPServerName (cfg s))) 1 (d_eap d) = (challenge, srv) ->
  exists f c, let sa' := (eap_begun sa inners srv) <| RecvMsgID := wrap 32 (MessageID hdr + 1) |> in
    handleEAPStart d sa hdr inners creds remote s = (sa', respondEncrypted d sa' IKE_AUTH (MessageID hdr) f c remote s).
Proof. intros H. unfold handleEAPStart. rewrite H. eexists _, _. reflexivity. Qed.

Lemma handleEAPStart_spec d sa hdr inners creds remote s :
  IDiForAuth sa = idPayloadBody (PeerID sa) -> eapMSK sa = None -> EAPCredentials (cfg s) = Some creds ->
  auth_outcome s sa inners (handleEAPStart d sa hdr inners creds remote s).
Proof.
  intros Hid Hm Hcr. pose proof (eap_inv_begin creds (EAPServerName (cfg s)) 1 (d_eap d)) as Hi.
  destruct (Begin _ 1 (d_eap d)) as [challenge srv] eqn:Eb. destruct (handleEAPStart_eq d sa hdr inners creds remote s _ _ Eb) as (f & c & ->).
  destruct (eap_begun_fields sa inners srv) as (Hst & Hh & Hmat & Hpi & Hii & Hmk & Hsrv). generalize dependent (eap_begun sa inners srv). intros sa1 Hst Hh Hmat Hpi Hii Hmk Hsrv.
  apply auth_outcome_stay; [apply respond_kept| |done|done|done].
  unfold eap_sound. cbn [eapServer IDiForAuth PeerID eapMSK set_field]. unfold set_field. cbn. rewrite Hsrv, Hii, Hpi, Hmk. split; [done|].
  exists creds, (d_eap d), []. split_and!; [done|exact Hi|congruence].
Qed.

Lemma handleCertAuth_spec d sa hdr inners ap auth remote s :
  IDiForAuth sa = idPayloadBody (PeerID sa) -> eap_sound s sa -> findInner inners TypeAUTH = Some ap -> ParseAuth (Body ap) = Ok auth ->
  auth_outcome s sa inners (handleCertAuth d sa hdr inners auth remote s).
Proof.
  intros Hid He Ha Hp. unfold handleCertAuth. cbv zeta.
  set (refused := (sa, _)). assert (auth_outcome s sa inners refused) as Hr by (apply auth_outcome_stay; try done; apply notify_kept). clearbody refused.
  destruct (ClientCAs (cfg s)) as [cas|] eqn:Eca; [|done]. destruct (serverCred s) as [cred|]; [|done].
  destruct (findAllInner inners TypeCERT) as [|c certs] eqn:Ec; [done|].
  destruct (parseCertChain (c :: certs)) as [[leafDER inter]|] eqn:Epc; [|done].
  destruct (verifyPeerCertChain leafDER inter cas) as [leaf|] eqn:Ev; [|done].
  destruct (certMatchesID leaf (PeerID sa)) as [[]|] eqn:Em; cbn [is_ok negb]; [|done].
  destruct (RequirePostQuantumAuth (cfg s) && negb (is_ok (requirePostQuantumKey (PublicKey leaf)))) eqn:Epq; [done|].
  destruct (verifyAuth _ _ _ _) as [[]|] eqn:Eva; cbn [is_ok negb]; [|done].
  destruct (signAuth _ _ _ _) as [[method data]|]; [|done].
  apply auth_outcome_finish; [done|done|done|]. eapply by_certificate; try done; [by rewrite Ec|].
  intros Hq. rewrite Hq in Epq. cbn [andb] in Epq. apply negb_false_iff in Epq. destruct (PublicKey leaf); try done. eauto.
Qed.

Lemma pskAuth_spec d sa hdr inners ap auth remote s :
  IDiForAuth sa = idPayloadBody (PeerID sa) -> eap_sound s sa -> findInner inners TypeAUTH = Some ap -> ParseAuth (Body ap) = Ok auth ->
  auth_outcome s sa inners (pskAuth d sa hdr inners auth remote s).
Proof.
  intros Hid He Ha Hp. unfold pskAuth. cbv zeta. destruct (negb (AMethod auth =? _)); [apply auth_outcome_stay; try done; apply notify_kept|].
  destruct (verifyPeerPSKAuth _ _ _ _ _ _ _ _) as [[]|] eqn:Ev; cbn [is_ok negb]; [|apply auth_outcome_stay; try done; apply notify_kept].
  apply verifyPeerPSKAuth_iff in Ev as [Hn Hd]. apply auth_outcome_finish; [done|done|done|]. by eapply by_psk.
Qed.

(** IKE_AUTH leaves the SA where it was or establishes it on proof. *)
Lemma handleIKEAuth_spec d sa hdr inners remote s :
  eap_sound s sa -> auth_outcome s sa inners (handleIKEAuth d sa hdr inners remote s).
Proof.
  intros He. unfold handleIKEAuth. destruct (eapServer sa) as [srv|] eqn:Esrv; [by apply handleEAPContinue_spec|]. cbv zeta.
  assert (eapMSK sa = None) as Hm by (unfold eap_sound in He; by rewrite Esrv in He).
  set (sa1 := sa <| IKEAuthMsgID := _ |>).
  assert (auth_outcome s sa inners (sa1, respondEncryptedNotify d sa1 IKE_AUTH (MessageID hdr) AuthenticationFailed remote s) /\
          auth_outcome s sa inners (sa1, respondEncryptedNotify d sa1 IKE_AUTH (MessageID hdr) InvalidSyntax remote s)) as [R1 R2].
  { split; apply auth_outcome_stay; try done; apply notify_kept. }
  destruct (findInner inners TypeIDi) as [ip|]; [|done]. destruct (ParseID (Body ip)) as [idi|]; [|done].
  set (sa2 := sa1 <| PeerID := idi |> <| IDiForAuth := _ |> <| peerMobike := _ |>).
  assert (eap_sound s sa2) as He2 by (unfold eap_sound; change (eapServer sa2) with (eapServer sa); by rewrite Esrv).
  assert (forall nt, auth_outcome s sa inners (sa2, respondEncryptedNotify d sa2 IKE_AUTH (MessageID hdr) nt remote s)) as R3.
  { intros nt. apply auth_outcome_stay; try done. apply notify_kept. }
  assert (IDiForAuth sa2 = idPayloadBody (PeerID sa2)) as Hid by done. assert (eapMSK sa2 = None) as Hm2 by exact Hm.
  assert (forall res, auth_outcome s sa2 inners res -> auth_outcome s sa inners res) as Hw by done. clearbody sa2.
  destruct (findInner inners TypeAUTH) as [ap|] eqn:Ea.
  - destruct (ParseAuth (Body ap)) as [auth|] eqn:Ep; [|done]. destruct (_ || _).
    + destruct (_ && _); [done|]. apply Hw. by eapply handleCertAuth_spec.
    + apply Hw. by eapply pskAuth_spec.
  - destruct (RequirePostQuantumAuth _); [done|]. destruct (EAPCredentials (cfg s)) as [creds|] eqn:Ecr; [|done].
    destruct (_ =? _)%nat; [done|]. apply Hw. by apply handleEAPStart_spec.
Qed.

(** ** A server's life *)

(** An SA whose peer has not authenticated yet. *)
Definition unproven (sa : IKESA) : Prop := State sa = StateSAInitDone \/ State sa = StateIntermediate.

(** What holds of each SA of the store. *)
Definition sa_inv (s : Srv) (sa : IKESA) : Prop :=
  eap_sound s sa /\ (unproven sa -> holdings sa = (∅, [], [], zeroAssignment)).

Definition server_inv (s : Srv) : Prop := map_Forall (fun _ => sa_inv s) (sas s).

(** The outcome of one exchange: the server's other SAs are those it had, but for the
    replacement of an established one; it is established as before, or by [proof]. *)
Definition exchange_outcome (proof : IKESA -> Prop) (s : Srv) (sa : IKESA) (res : IKESA * Srv) : Prop :=
  cfg res.2 = cfg s /\ sa_inv s res.1 /\
  (sas res.2 = sas s \/
   exists q n, sas res.2 = <[q := n]> (sas s) /\ sas s !! q = None /\ sa_inv s n /\ State sa = StateEstablished /\ PeerID n = PeerID sa) /\
  (State res.1 = StateEstablished ->
   (State sa = StateEstablished /\ PeerID res.1 = PeerID sa) \/ proof res.1).

(** The handlers of a running SA change none of these. *)
Definition same_peer (sa sa' : IKESA) : Prop :=
  PeerID sa' = PeerID sa /\ IDiForAuth sa' = IDiForAuth sa /\ eapMSK sa' = eapMSK sa /\ eapServer sa' = eapServer sa.

Lemma eap_sound_peer s sa sa' : same_peer sa sa' -> eap_sound s sa -> eap_sound s sa'.
Proof. intros (Hp & Hi & Hm & He). unfold eap_sound. by rewrite Hp, Hi, Hm, He. Qed.

Lemma exchange_outcome_running pr s sa sa' s' :
  sa_inv s sa -> cfg s' = cfg s -> sas s' = sas s -> same_peer sa sa' ->
  ((State sa' = State sa \/ unproven sa /\ unproven sa') /\ holdings sa' = holdings sa) \/ (~ unproven sa' /\ (State sa' = StateEstablished -> State sa = StateEstablished)) ->
  exchange_outcome pr s sa (sa', s').
Proof.
  intros [He Hh] Hc Hsas Hp Hst. split; [done|]. cbn [fst snd]. split; [split; [by eapply eap_sound_peer|]|split; [by left|]].
  - intros Hu. destruct Hst as [[[Hs|[Hs _]] ->]|[Hn _]]; [|by apply Hh|done]. apply Hh. unfold unproven in *. by rewrite Hs in Hu.
  - intros Hs'. left. destruct Hp as (Hp & _). split; [|done]. destruct Hst as [[[Hs|[_ Hu]] _]|[_ Hs]]; unfold unproven in *; naive_solver congruence.
Qed.

Lemma auth_exchange s sa inners res : sa_inv s sa -> auth_outcome s sa inners res -> unproven sa -> exchange_outcome (fun sa' => proves_identity s sa' inners (PeerID sa') /\ IDiForAuth sa' = idPayloadBody (PeerID sa') /\ material sa' = material sa) s sa res.
Proof.
  intros [He Hh] ((Hc & _ & Hsas) & He' & Hmat & Hst) Hu. split; [done|]. split; [split; [done|]|split; [by left|]].
  - intros Hu'. destruct Hst as [[_ ->]|[Hs _]]; [by apply Hh|]. unfold unproven in Hu'. rewrite Hs in Hu'. naive_solver.
  - intros Hs'. destruct Hst as [[Hs _]|(_ & Hp & Hid)]; [|by right]. unfold unproven in Hu. naive_solver congruence.
Qed.

Lemma exchange_refused pr s sa sa' s' :
  sa_inv s sa -> same_peer sa sa' -> State sa' = State sa -> holdings sa' = holdings sa -> kept s s' -> exchange_outcome pr s sa (sa', s').
Proof. intros Hi Hp Hst Hh (Hc & _ & Hs). apply exchange_outcome_running; try done. left. by split; [left|]. Qed.

Lemma handleIKEIntermediate_spec pr d sa hdr inners remote s :
  sa_inv s sa -> unproven sa -> exchange_outcome pr s sa (handleIKEIntermediate d sa hdr inners remote s).
Proof.
  intros Hi Hu. unfold handleIKEIntermediate.
  assert (forall nt, exchange_outcome pr s sa (sa, respondEncryptedNotify d sa IKE_INTERMEDIATE (MessageID hdr) nt remote s)) as Hr.
  { intros nt. apply exchange_refused; try done. apply notify_kept. }
  assert (exchange_outcome pr s sa (sa, s)) as H0 by (by apply exchange_refused).
  destruct (_ && _); [done|]. destruct (_ =? 0); [apply Hr|]. destruct (first_ke inners) as [[ke|]|]; [|done|apply Hr].
  destruct (negb _); [apply Hr|]. destruct (kemEncapsulate _ _ _) as [[ct shared]|]; [|apply Hr]. destruct (reencodeInners inners); [|done].
  cbv zeta.
  match goal with |- context [respondEncrypted ?d ?x ?e ?i ?f ?c ?r ?s] => destruct (respond_kept d x e i f c r s) as (Hc & _ & Hs); set (s4 := respondEncrypted d x e i f c r s) in *; clearbody s4 end.
  apply exchange_outcome_running; [done|done|done|by destruct sa|]. left. split; [|by destruct sa]. right. split; [done|by right].
Qed.

Lemma rekeyed_sa_fields d sa i r su k remote :
  let n := rekeyed_sa d sa i r su k remote in
  State n = StateEstablished /\ PeerID n = PeerID sa /\ eapServer n = None /\ eapMSK n = None /\ holdings n = holdings sa.
Proof. by destruct sa. Qed.

Lemma storeSA_sas p sa s : sas (storeSA p sa s) = <[p := sa]> (sas s).
Proof. unfold storeSA. by destruct (RemoteAddr sa). Qed.
Lemma storeSA_cfg p sa s : cfg (storeSA p sa s) = cfg s.
Proof. unfold storeSA. by destruct (RemoteAddr sa). Qed.

Lemma new_ptr_fresh s : sas s !! new_ptr s = None.
Proof. apply not_elem_of_dom. apply is_fresh. Qed.

(** A rekey: the old SA is on its way out and the new one takes its place. *)
Lemma exchange_rekeyed pr d s sa sa' i r su k remote s' :
  sa_inv s sa -> State sa = StateEstablished -> same_peer sa sa' -> State sa' = StateDeleting -> kept s s' ->
  forall old, PeerID old = PeerID sa -> exchange_outcome pr s sa (sa', storeSA (new_ptr s') (rekeyed_sa d old i r su k remote) s').
Proof.
  intros [He _] Hst Hp Hd (Hc & _ & Hs) old Hold. destruct (rekeyed_sa_fields d old i r su k remote) as (H1 & H2 & H3 & H4 & _).
  generalize dependent (rekeyed_sa d old i r su k remote). intros n H1 H2 H3 H4.
  split; cbn [fst snd]; [by rewrite storeSA_cfg|]. split; [split; [by eapply eap_sound_peer|unfold unproven; rewrite Hd; naive_solver]|]. split.
  - right. exists (new_ptr s'), n. rewrite storeSA_sas, <- Hs. split; [done|]. split; [by apply new_ptr_fresh|]. split; [|split; [done|congruence]].
    split; [unfold eap_sound; by rewrite H3|unfold unproven; rewrite H1; naive_solver].
  - rewrite Hd. done.
Qed.

Lemma handleRekeyIKE_spec pr d sa0 sa hdr inners remote reqSA p0 s :
  sa_inv s sa0 -> State sa0 = StateEstablished -> same_peer sa0 sa -> State sa = State sa0 -> holdings sa = holdings sa0 ->
  exchange_outcome pr s sa0 (handleRekeyIKE d sa hdr inners remote reqSA p0 s).
Proof.
  intros Hi Hst Hp Hs Hh. unfold handleRekeyIKE.
  assert (forall nt, exchange_outcome pr s sa0 (sa, respondEncryptedNotify d sa CREATE_CHILD_SA (MessageID hdr) nt remote s)) as Hr.
  { intros nt. apply exchange_refused; try done. apply notify_kept. }
  destruct (findInner inners TypeNonce); [|apply Hr]. destruct (findInner inners TypeKE); [|apply Hr]. destruct (negb _); [apply Hr|].
  destruct (SelectIKESuite reqSA) as [[suite accepted]|]; [|apply Hr]. destruct (ParseKE _); [|apply Hr]. destruct (negb _); [apply Hr|].
  destruct (transformDH _) as [dh|]; [|apply Hr]. destruct (Generate dh (d_dh d)) as [ourPub dh']. destruct (ComputeSecret dh' _); [|apply Hr].
  cbv zeta. apply exchange_rekeyed; try done; [apply respond_kept|by destruct Hp].
Qed.
(** The handler of an authenticated SA may do what it likes with its children and addresses. *)
Lemma exchange_established pr s sa sa' s' :
  sa_inv s sa -> cfg s' = cfg s /\ sas s' = sas s -> same_peer sa sa' -> ~ unproven sa -> State sa' = State sa \/ State sa' = StateClosed ->
  exchange_outcome pr s sa (sa', s').
Proof.
  intros Hi [Hc Hs] Hp Hu Hst. apply exchange_outcome_running; try done. right. unfold unproven in *. destruct Hst as [->| ->]; naive_solver.
Qed.

Lemma install_child_spec sa c s :
  let '(sa', s') := install_child sa c s in cfg s' = cfg s /\ sas s' = sas s /\ State sa' = State sa /\ same_peer sa sa'.
Proof. by destruct sa. Qed.

Lemma handleCreateChildSA_spec pr d sa hdr inners remote s :
  sa_inv s sa -> State sa = StateEstablished -> exchange_outcome pr s sa (handleCreateChildSA d sa hdr inners remote s).
Proof.
  intros Hi Hst. unfold handleCreateChildSA. cbv zeta. set (sa1 := sa <| RecvMsgID := _ |>).
  assert (same_peer sa sa1 /\ State sa1 = State sa /\ holdings sa1 = holdings sa) as (Hp & Hs & Hh) by done. clearbody sa1.
  assert (forall nt, exchange_outcome pr s sa (sa1, respondEncryptedNotify d sa1 CREATE_CHILD_SA (MessageID hdr) nt remote s)) as Hr.
  { intros nt. apply exchange_refused; try done. apply notify_kept. }
  destruct (findInner inners TypeSA); [|apply Hr]. destruct (parsed _) as [reqSA|]; [|apply Hr].
  destruct (List.filter _ _) as [|p0]; [|by apply handleRekeyIKE_spec].
  destruct (findInner inners TypeNonce); [|apply Hr]. destruct (findInner inners TypeTSi); [|apply Hr]. destruct (findInner inners TypeTSr); [|apply Hr].
  destruct (ParseTS _); [|apply Hr]. destruct (negb _); [apply Hr|]. destruct (SelectESPSuite reqSA) as [[es accepted]|]; [|apply Hr].
  destruct (setupChildSA _ _ _ _ _ _) as [child acceptedESP]. destruct (narrowTSiToAssignment _ _) as [narrowed ok].
  set (cb := if ok then _ else _). destruct cb as [child' tsiBody]. 
  match goal with |- context [respondEncrypted ?d ?x ?e ?i ?f ?c ?r ?s] => destruct (respond_kept d x e i f c r s) as (Hc & _ & Hss); set (s4 := respondEncrypted d x e i f c r s) in *; clearbody s4 end.
  match goal with |- context [install_child ?a ?b ?c] => pose proof (install_child_spec a b c) as Hin; destruct (install_child a b c) as [sa5 s5] end.
  destruct Hin as (Hc5 & Hs5 & Hst5 & Hp5). apply exchange_established; [done|split; congruence|unfold same_peer in *; naive_solver congruence|unfold unproven; naive_solver congruence|left; congruence].
Qed.

Lemma deleteSA_spec p sa s : cfg (deleteSA p sa s) = cfg s /\ sas (deleteSA p sa s) = sas s.
Proof. unfold deleteSA. destruct (RemoteAddr sa); [case_bool_decide|]; cbn; by destruct (_ && _). Qed.

Lemma handleMobikeInformational_spec sa inners remote b s :
  let '(sa', _, s') := handleMobikeInformational sa inners remote b s in cfg s' = cfg s /\ sas s' = sas s /\ State sa' = State sa /\ same_peer sa sa'.
Proof. unfold handleMobikeInformational. destruct (findNotify inners UpdateSAAddresses); [|done]. destruct (negb _); [done|]. by destruct sa. Qed.

Lemma handleInformational_spec pr d p sa hdr inners remote s :
  sa_inv s sa -> State sa = StateEstablished \/ State sa = StateDeleting -> exchange_outcome pr s sa (handleInformational d p sa hdr inners remote s).
Proof.
  intros Hi Hst. unfold handleInformational. cbv zeta. set (sa1 := sa <| RecvMsgID := _ |>).
  assert (same_peer sa sa1 /\ State sa1 = State sa /\ holdings sa1 = holdings sa) as (Hp & Hs & Hh) by done. clearbody sa1.
  destruct inners as [|p0 ps] eqn:Ein; [apply exchange_refused; try done; apply respond_kept|]. rewrite <- Ein. clear Ein p0 ps.
  pose proof (handleMobikeInformational_spec sa1 inners remote NewBuilder s) as Hm. destruct (handleMobikeInformational _ _ _ _ _) as [[sa2 b] s2].
  destruct Hm as (Hc2 & Hs2 & Hst2 & Hp2). destruct (fold_left delete_payload inners _) as [deleteIKE [[children dp] deleted]].
  set (sa3 := sa2 <| Children := children |>). assert (same_peer sa2 sa3 /\ State sa3 = State sa2) as [Hp3 Hst3] by done. clearbody sa3.
  set (s3 := s2 <| dataPath := dp |>). assert (cfg s3 = cfg s2 /\ sas s3 = sas s2) as [Hc3 Hs3] by done. clearbody s3.
  match goal with |- context [respondEncrypted ?d ?x ?e ?i ?f ?c ?r s3] => destruct (respond_kept d x e i f c r s3) as (Hc4 & _ & Hs4); set (s4 := respondEncrypted d x e i f c r s3) in *; clearbody s4 end.
  assert (same_peer sa sa3 /\ ~ unproven sa) as [Hps Hu] by (unfold same_peer, unproven in *; naive_solver congruence).
  destruct deleteIKE; [|apply exchange_established; [done|split; congruence|done|done|left; congruence]].
  match goal with |- context [deleteSA p ?x ?y] => destruct (deleteSA_spec p x y) as [Hc5 Hs5]; set (s5 := deleteSA p x y) in *; clearbody s5 end.
  apply exchange_established; [done| |done|done|by right]. split; [rewrite Hc5|rewrite Hs5]; cbn; congruence.
Qed.

(** *** IKE_SA_INIT *)

(** Only a new SA, that holds nothing, comes out of IKE_SA_INIT. *)
Definition init_outcome (s s' : Srv) : Prop :=
  cfg s' = cfg s /\ (sas s' = sas s \/ exists q n, sas s' = <[q := n]> (sas s) /\ sas s !! q = None /\ sa_inv s n /\ unproven n).

Lemma init_sa_fields d pkt hdr msg nonce shared suite remote on4500 s :
  let sa := init_sa d pkt hdr msg nonce shared suite remote on4500 s in
  eapServer sa = None /\ eapMSK sa = None /\ holdings sa = (∅, [], [], zeroAssignment).
Proof. done. Qed.

Lemma initExchange_spec d pkt hdr msg saBody keBody nonce remote on4500 s :
  init_outcome s (initExchange d pkt hdr msg saBody keBody nonce remote on4500 s).
Proof.
  unfold initExchange. cbv zeta. destruct (parsed _) as [reqSA|]; [|by split; [|left]]. destruct (SelectIKESuite reqSA) as [[suite accepted]|]; [|by split; [|left]].
  destruct (ParseKE keBody); [|by split; [|left]]. destruct (negb _); [by split; [|left]|]. destruct (transformDH _) as [dh|]; [|by split; [|left]].
  destruct (Generate dh (d_dh d)) as [ourPub dh']. destruct (ComputeSecret dh' _) as [shared|]; [|by split; [|left]].
  destruct (init_sa_fields d pkt hdr msg nonce shared suite remote on4500 s) as (He & Hm & Hh). generalize dependent (init_sa d pkt hdr msg nonce shared suite remote on4500 s).
  intros sa He Hm Hh. destruct (if _ && _ then _ else _) as [group accepted']. destruct (_ && _); [by split; [|left]|].
  match goal with |- context [storeSA (new_ptr s) ?x s] => set (n := x) end.
  assert (eapServer n = None /\ eapMSK n = None /\ holdings n = (∅, [], [], zeroAssignment) /\ State n = StateSAInitDone) as (He' & Hm' & Hh' & Hs') by (subst n; by destruct sa).
  clearbody n. split; [apply storeSA_cfg|]. right. exists (new_ptr s), n. split; [apply storeSA_sas|]. split; [apply new_ptr_fresh|]. split; [|by left].
  split; [unfold eap_sound; by rewrite He'|done].
Qed.

Lemma checkCookie_kept d msg hdr nonce remote on4500 s : kept s (checkCookie d msg hdr nonce remote on4500 s).2.
Proof.
  unfold checkCookie. destruct (_ <? _); [done|]. cbv zeta. destruct (match findNotify _ _ with Some _ => _ | None => _ end); [done|].
  destruct (issue _ _ _ _ _ _) as [cookie jar]. by destruct (_ =? 0)%nat.
Qed.

Lemma sa_inv_cfg s s' sa : cfg s' = cfg s -> sa_inv s sa <-> sa_inv s' sa.
Proof. intros E. unfold sa_inv, eap_sound. by rewrite E. Qed.

Lemma handleIKESAInit_spec d pkt hdr remote on4500 s : init_outcome s (handleIKESAInit d pkt hdr remote on4500 s).
Proof.
  unfold handleIKESAInit. destruct (IsResponse hdr); [by split; [|left]|]. destruct (parsed _) as [msg|]; [|by split; [|left]].
  destruct (Find msg TypeSA); [|by split; [|left]]. destruct (Find msg TypeKE); [|by split; [|left]]. destruct (Find msg TypeNonce) as [np|]; [|by split; [|left]].
  pose proof (checkCookie_kept d msg hdr (Body np) remote on4500 s) as Hk. destruct (checkCookie _ _ _ _ _ _ _) as [go s1]. destruct Hk as (Hc & _ & Hs). cbn [snd] in *.
  destruct go; cbn [negb]; [|by split; [|left]]. destruct (Admit _ _ _) as [verdict g]. destruct verdict; try by split; [|left].
  set (s2 := s1 <| gate := g |>). assert (cfg s2 = cfg s /\ sas s2 = sas s) as [Hc2 Hs2] by done. clearbody s2.
  match goal with |- context [initExchange ?a ?b ?c ?d ?e ?f ?g ?h ?i s2] => destruct (initExchange_spec a b c d e f g h i s2) as [Hc3 H3]; set (s3 := initExchange a b c d e f g h i s2) in *; clearbody s3 end.
  split; [cbn; congruence|]. destruct H3 as [H3|(q & n & H3 & Hq & Hi & Hu)]; [left; cbn; congruence|].
  right. exists q, n. cbn. rewrite H3, <- Hs2. split_and!; try done; by apply (sa_inv_cfg s2 s).
Qed.

(** *** Datagrams *)

(** One datagram: its octets, its source, the socket it came in on and its draws. *)
Record datagram := mkDatagram { g_pkt : bytes; g_from : UDPAddr; g_4500 : bool; g_draws : draws }.

Definition receive (s : Srv) (g : datagram) : Srv := handlePacket (g_draws g) (g_pkt g) (g_from g) (g_4500 g) s.
Definition serve (gs : list datagram) (s : Srv) : Srv := fold_left receive gs s.

(** The datagram is an IKE_AUTH request that opens under the keys of an SA of the server
    and proves [id] over that SA's first message and nonce. *)
Definition admits (s : Srv) (g : datagram) (id : IDPayload) : Prop :=
  exists hdr p sa sa1 x sa2,
    IkeMessage.ParseHeader (g_pkt g) = Ok hdr /\ lookupByRSPI s (ResponderSPI hdr) = Some p /\ sas s !! p = Some sa /\
    openRequest sa (g_pkt g) hdr (g_from g) IKE_AUTH (d_now (g_draws g)) (g_4500 g) = (Some x, sa1) /\
    proves_identity s sa2 (dPayloads x) id /\ IDiForAuth sa2 = idPayloadBody id /\ material sa2 = material sa.

Lemma openRequest_same sa pkt hdr remote ex now on4500 :
  let '(o, sa') := openRequest sa pkt hdr remote ex now on4500 in
  same_peer sa sa' /\ State sa' = State sa /\ holdings sa' = holdings sa /\ material sa' = material sa /\
  (forall x, o = Some x -> exchangeAllowed (State sa) ex = true /\ dExchange x = ex).
Proof.
  unfold openRequest. destruct (IsResponse hdr); [done|]. destruct (negb _); [done|]. destruct (openSecured _ _ _ _ _ _ _ _) as [o r].
  destruct o; [|by destruct sa..]. destruct (parseInnerPayloads _ _) as [[ps|]|]; [|by destruct sa..].
  change (State (authenticated (sa <| fragReasm := r |>) now remote on4500)) with (State sa).
  destruct (exchangeAllowed (State sa) ex); cbn [negb]; [|by destruct sa]. split_and!; try by destruct sa. by intros x [= <-].
Qed.

Lemma sa_inv_same s sa sa' : same_peer sa sa' -> State sa' = State sa -> holdings sa' = holdings sa -> sa_inv s sa -> sa_inv s sa'.
Proof. intros Hp Hs Hh [He Hi]. split; [by eapply eap_sound_peer|]. unfold unproven. rewrite Hs, Hh. apply Hi. Qed.

Lemma exchangeAllowed_cases st ex : exchangeAllowed st ex = true ->
  ((ex = IKE_AUTH \/ ex = IKE_INTERMEDIATE) /\ (st = StateSAInitDone \/ st = StateIntermediate)) \/
  (ex = CREATE_CHILD_SA /\ st = StateEstablished) \/ (ex = INFORMATIONAL /\ (st = StateEstablished \/ st = StateDeleting)).
Proof.
  unfold exchangeAllowed.
  repeat match goal with |- context [ex =? ?n] => destruct (Z.eqb_spec ex n); [rewrite ?orb_true_iff, ?bool_decide_eq_true; naive_solver|] end. done.
Qed.

(** The switch, on an SA that a request opened. *)
Lemma dispatch_exchange_spec d p sa hdr ex inners remote s :
  sa_inv s sa -> exchangeAllowed (State sa) ex = true ->
  exchange_outcome (fun sa' => ex = IKE_AUTH /\ proves_identity s sa' inners (PeerID sa') /\ IDiForAuth sa' = idPayloadBody (PeerID sa') /\ material sa' = material sa)
    s sa (dispatch_exchange d p sa hdr ex inners remote s).
Proof.
  intros Hi Ha. unfold dispatch_exchange. destruct (exchangeAllowed_cases _ _ Ha) as [[[-> | ->] Hu]|[[-> Hst]|[-> Hst]]]; cbn [Z.eqb Pos.eqb].
  - destruct (auth_exchange s sa inners _ Hi (handleIKEAuth_spec d sa hdr inners remote s (proj1 Hi)) Hu) as (H1 & H2 & H3 & H4).
    split; [done|]. split; [done|]. split; [done|]. intros Hs. destruct (H4 Hs); [by left|by right].
  - by apply handleIKEIntermediate_spec.
  - by apply handleCreateChildSA_spec.
  - by apply handleInformational_spec.
Qed.

Definition proven_before (s : Srv) (id : IDPayload) : Prop :=
  exists q old, sas s !! q = Some old /\ State old = StateEstablished /\ id = PeerID old.

Definition step_ok (s s' : Srv) (g : datagram) : Prop :=
  server_inv s' /\ cfg s' = cfg s /\
  (forall p sa, sas s' !! p = Some sa -> State sa = StateEstablished -> proven_before s (PeerID sa) \/ admits s g (PeerID sa)).

Lemma server_inv_insert s s' q n : server_inv s -> cfg s' = cfg s -> sas s' = <[q := n]> (sas s) -> sa_inv s n -> server_inv s'.
Proof.
  intros Hinv Hc Hs Hn p sa. rewrite Hs. intros [[_ <-]|[_ Hp]]%lookup_insert_Some; apply (sa_inv_cfg s s'); try done. by apply (Hinv p).
Qed.

Lemma server_inv_kept s s' : server_inv s -> cfg s' = cfg s -> sas s' = sas s -> server_inv s'.
Proof. intros Hinv Hc Hs p sa. rewrite Hs. intros Hp. apply (sa_inv_cfg s s'); [done|]. by apply (Hinv p). Qed.

Lemma init_step s s' g : server_inv s -> init_outcome s s' -> step_ok s s' g.
Proof.
  intros Hinv [Hc [Hs|(q & n & Hs & Hq & Hn & Hu)]].
  - split_and!; [by eapply server_inv_kept|done|]. intros p sa. rewrite Hs. intros Hp Hst. left. by exists p, sa.
  - split_and!; [by eapply server_inv_insert|done|]. intros p sa. rewrite Hs. intros [[_ <-]|[_ Hp]]%lookup_insert_Some Hst.
    + unfold unproven in Hu. naive_solver congruence.
    + left. by exists p, sa.
Qed.

(** The handled SA is put back. *)
Lemma put_step s s2 p sa sa2 g :
  server_inv s -> sas s !! p = Some sa -> cfg s2 = cfg s -> sa_inv s sa2 ->
  (sas s2 = sas s \/ exists q n, sas s2 = <[q := n]> (sas s) /\ sas s !! q = None /\ sa_inv s n /\ proven_before s (PeerID n)) ->
  (State sa2 = StateEstablished -> proven_before s (PeerID sa2) \/ admits s g (PeerID sa2)) ->
  step_ok s (put_sa p sa2 s2) g.
Proof.
  intros Hinv Hp Hc Hi2 Hs Hest. split_and!; [|done|].
  - apply (server_inv_insert s2 _ p sa2); [|done|done|by apply (sa_inv_cfg s s2)].
    destruct Hs as [Hs|(q & n & Hs & _ & Hn & _)]; [by eapply server_inv_kept|by eapply server_inv_insert].
  - intros p' sa'. cbn. intros [[_ <-]|[_ Hp']]%lookup_insert_Some Hst'; [by apply Hest|].
    destruct Hs as [Hs|(q & n & Hs & _ & Hn & Hb)]; rewrite Hs in Hp'; [left; by exists p', sa'|].
    apply lookup_insert_Some in Hp' as [[_ <-]|[_ Hp']]; [by left|left; by exists p', sa'].
Qed.

(** One datagram keeps the invariant, and an SA that is established after it was
    established before it or is admitted by it. *)
Lemma receive_spec s g :
  server_inv s -> step_ok s (receive s g) g.
Proof.
  intros Hinv. unfold receive, handlePacket. cbv zeta. assert (step_ok s s g) as H0.
  { split_and!; try done. intros p sa Hp Hst. left. by exists p, sa. }
  destruct (_ <? _)%nat; [done|]. destruct (IkeMessage.ParseHeader (g_pkt g)) as [hdr|] eqn:Eh; [|done]. destruct (negb _); [done|].
  destruct (Z.eqb_spec (ExchangeType hdr) IKE_SA_INIT) as [_|_]; [by apply init_step, handleIKESAInit_spec|].
  destruct (_ || _); [|done]. unfold handleSecured. destruct (IsResponse hdr); [done|].
  destruct (lookupByRSPI s (ResponderSPI hdr)) as [p|] eqn:El; [|done]. destruct (sas s !! p) as [sa|] eqn:Ep; [|done].
  pose proof (openRequest_same sa (g_pkt g) hdr (g_from g) (ExchangeType hdr) (d_now (g_draws g)) (g_4500 g)) as Ho.
  destruct (openRequest _ _ _ _ _ _ _) as [o sa1] eqn:Eo. destruct Ho as (Hp & Hst & Hh & Hm & Hx).
  pose proof (sa_inv_same s sa sa1 Hp Hst Hh (Hinv p sa Ep)) as Hi1. destruct Hp as (Hpid & _).
  destruct o as [x|]; [|apply (put_step s s p sa sa1); try done; [by left|]; intros Hs1; left; exists p, sa; split_and!; congruence].
  destruct (Hx x eq_refl) as [Ha Hex]. rewrite <- Hst, <- Hex in Ha.
  pose proof (dispatch_exchange_spec (g_draws g) p sa1 hdr (dExchange x) (dPayloads x) (g_from g) s Hi1 Ha) as Hd.
  destruct (dispatch_exchange _ _ _ _ _ _ _ _) as [sa2 s2]. destruct Hd as (Hc & Hi2 & Hsas & Hest). cbn [fst snd] in *.
  apply (put_step s s2 p sa sa2); try done.
  - destruct Hsas as [?|(q & n & ? & ? & ? & Hs1 & Hn)]; [by left|right]. exists q, n. split_and!; try done. exists p, sa. split_and!; congruence.
  - intros Hs2. destruct (Hest Hs2) as [[Hs1 Hid]|(Hauth & Hpr & Hid & Hmat)]; [left; exists p, sa; split_and!; congruence|right].
    rewrite Hex in Hauth. rewrite Hauth in Eo. exists hdr, p, sa, sa1, x, sa2. split_and!; try done. congruence.
Qed.
Lemma serve_app gs gs' s : serve (gs ++ gs') s = serve gs' (serve gs s).
Proof. apply fold_left_app. Qed.

Lemma serve_spec gs s0 :
  sas s0 = ∅ ->
  server_inv (serve gs s0) /\
  (forall p sa, sas (serve gs s0) !! p = Some sa -> State sa = StateEstablished ->
     exists pre g post, gs = pre ++ g :: post /\ admits (serve pre s0) g (PeerID sa)).
Proof.
  intros H0. induction gs as [|g gs [IHi IH]] using rev_ind.
  - split; intros p sa; cbn [serve fold_left]; by rewrite H0, lookup_empty.
  - rewrite serve_app. cbn [serve fold_left]. destruct (receive_spec (serve gs s0) g IHi) as (Hi & _ & Hest). split; [done|].
    intros p sa Hp Hst. destruct (Hest p sa Hp Hst) as [(q & old & Hq & Ho & ->)|Ha]; [|by exists gs, g, []].
    destruct (IH q old Hq Ho) as (pre & g' & post & -> & Hadm). exists pre, g', (post ++ [g]). split; [|done]. by rewrite <- app_assoc.
Qed.

(** C1: the responder's authentication is sound.  Whatever datagrams it receives,
    an IKE SA is established only for an identity that one of them proved: an IKE_AUTH
    request that opened under the keys of the SA it named and carried a valid AUTH over
    that SA's IKE_SA_INIT, the responder's nonce and that identity, keyed by the shared
    secret, signed by a certificate of the identity that the configured CAs vouch for
    (a post-quantum one where the configuration asks), or keyed by an EAP exchange that
    proved a user's password.  A rekeyed SA keeps the identity it replaces.  Until then
    an SA holds no Child SA and no address. *)
Theorem responder_authenticates (gs : list datagram) (s0 : Srv) :
  sas s0 = ∅ ->
  let s := serve gs s0 in
  forall p sa, sas s !! p = Some sa ->
    (State sa = StateEstablished -> exists pre g post, gs = pre ++ g :: post /\ admits (serve pre s0) g (PeerID sa)) /\
    (unproven sa -> Children sa = ∅ /\ ClientIP sa = [] /\ ClientIP6 sa = [] /\ assigned sa = zeroAssignment).
Proof.
  intros H0 s p sa Hp. destruct (serve_spec gs s0 H0) as [Hi Hest]. split; [by apply (Hest p)|].
  intros Hu. destruct (Hi p sa Hp) as [_ Hh]. specialize (Hh Hu). unfold holdings in Hh. by simplify_eq.
Qed.
End Responder.
(** ** An instance *)

(** A data path that counts its children and a pool of one address. *)
#[export] Instance toy_datapath : DataPath nat := {| AddChild _ := S; RemoveChild _ := pred; UpdatePeerAddr _ _ n := n |}.
#[export] Instance toy_leases : Leases (option Assignment) := {|
  AssignAddr _ l := (l, None);
  ReleaseAddr a _ := Some a;
|}.

Definition demo_assignment : Assignment := mkAssignment [10; 0; 0; 2] [255; 255; 255; 0] [] 0 [].

(** A server with a shared key, over the toy primitives. *)
Definition demo_server : Server unit unit nat (option Assignment) :=
  mkServer (mkConfig (str "secret") (mkID IDFQDN (str "gw")) None None [] [127; 0; 0; 1] 500 4500 false false false true true 0 false)
    None (NewGate (mkAdmissionConfig 0 (f64_of_int 0) (f64_of_int 0)) 0) (mkJar [] [] 0 0) ∅ ∅ ∅ (Some 0%nat) (Some demo_assignment) ∅ [].

Definition demo_draws : draws :=
  mkDraws 0 [be_enc 8 77] [be_enc 4 88] (fun n => replicate n 3) (mkDraw [9] 2) [] [] [] (fun _ => replicate 16 0) None.

Definition demo_from : UDPAddr := mkUDPAddr (Some (IPv4 3232235777)) 500.

Abbreviation demo_receive := (@receive unit unit nat (option Assignment) toy_datapath toy_leases toy_prims toy_digests toy_curves toy_kem toy_signing toy_x509 toy_des).
Abbreviation demo_serve := (@serve unit unit nat (option Assignment) toy_datapath toy_leases toy_prims toy_digests toy_curves toy_kem toy_signing toy_x509 toy_des).

(** IKE_SA_INIT, and the IKE_AUTH request for the SA the server made of it. *)
Definition demo_init : datagram :=
  let b := Add NewBuilder TypeSA false (MarshalSA (mkSA DefaultIKEProposals)) in
  let b := Add b TypeKE false (MarshalKE (mkKE DH_CURVE25519 (replicate 32 1))) in
  let b := Add b TypeNonce false (replicate 32 2) in
  let h := mkHeader 55 0 (FirstType b) 0x20 IKE_SA_INIT FlagInitiator 0 (Z.of_nat (28 + length (Bytes b))) in
  mkDatagram (MarshalHeader h [] ++ Bytes b) demo_from false demo_draws.

Definition demo_auth : datagram :=
  let s := demo_receive demo_server demo_init in
  match lookupByRSPI s 77 ≫= (sas s !!.) with
  | None => demo_init
  | Some sa =>
      let id := mkID IDFQDN (str "client") in
      let sa := sa <| IDiForAuth := idPayloadBody id |> <| IKEAuthMsgID := 1 |> in
      let auth := PSKAuth (P := toy_prims) (SuitePRF (SASuite sa)) (str "secret") (initiatorOctets (P := toy_prims) sa) in
      let b := Add NewBuilder TypeIDi false (MarshalID id) in
      let b := Add b TypeAUTH false (MarshalAuth (mkAuth AuthSharedKeyMIC auth)) in
      let h := mkHeader 55 77 0 0x20 IKE_AUTH FlagInitiator 1 0 in
      match buildEncryptedMessage (P := toy_prims) h (SASuite sa) (Keys sa) dirInitiatorToResponder (FirstType b) (Bytes b) (replicate (IVLen (Cipher (SASuite sa))) 0) with
      | Ok pkt => mkDatagram pkt demo_from true demo_draws
      | Err _ => demo_init
      end
  end.

Lemma responder_authenticates_witness :
  let s := demo_serve [demo_init; demo_auth] demo_server in
  exists p sa, sas s !! p = Some sa /\ State sa = StateEstablished /\
    exists pre g post, [demo_init; demo_auth] = pre ++ g :: post /\
      @admits unit unit nat (option Assignment) toy_prims toy_digests toy_signing toy_x509 toy_des (demo_serve pre demo_server) g (PeerID sa).
Proof.
  pose proof (@responder_authenticates unit unit nat (option Assignment) toy_datapath toy_leases toy_prims toy_digests toy_curves toy_kem toy_signing toy_x509 toy_des
    [demo_init; demo_auth] demo_server eq_refl) as H. cbv zeta in H |- *.
  assert (State <$> sas (demo_serve [demo_init; demo_auth] demo_server) !! 0%nat = Some StateEstablished) as Hs by (vm_compute; reflexivity).
  generalize dependent (demo_serve [demo_init; demo_auth] demo_server). intros s H Hs. destruct (sas s !! 0%nat) as [sa|] eqn:E; [|done].
  injection Hs as Hs. exists 0%nat, sa. split; [done|]. split; [done|]. apply (H 0%nat sa E). done.
Defined.
