(* ===== verification/IkeClient.v ===== *)
(** * The IKE initiator, [internal/ikev2/ike/{client,rekey,liveness,intermediate}.go]

    [Client] with its configuration and the result of a handshake; the handshake itself
    (IKE_SA_INIT, IKE_INTERMEDIATE, IKE_AUTH by shared key, certificate or EAP), and the
    exchanges of a client that is up: dead-peer detection, the rekey of a Child SA and of
    the IKE SA, deletion, and MOBIKE.

    An operation runs in the monad [IO] over the client: it may fail, and the client it
    leaves behind is there either way.  The socket is the list [reads] of datagrams that
    will arrive on it, in order, and [written]; reading an exhausted list is the read that
    fails, by deadline or by a closed socket.  Writes succeed.  An operation's random draws
    are its [cdraws]. *)
From Stdlib Require Import ZArith Lia.
From stdpp Require Import base list gmap.
From S2P Require Import Prelude Aggfrag Routes Packet Shape Pump IkeMessage IkeSA IkeBodies Crypto IkeSuite Dh Fragment Esp Eap IkeCookie IkeCert IkeDataPath IkeSession IkeIntermediate IkeServer IkeAuth.

(** ** State *)

Inductive client_error :=
| CErrAuthFailed | CErrNotAttached | CErrClosed | CErrRead | CErrParse | CErrNotify (n : Z) | CErrMissing | CErrSuite | CErrPostQuantum
| CErrDH | CErrSeal | CErrOpen | CErrMsgID | CErrExchange | CErrIdentity | CErrCert | CErrEAP | CErrNoAddress | CErrNoChild | CErrCookie2 | CErrMobike.

#[export] Instance client_error_eq_dec : EqDecision client_error.
Proof. solve_decision. Defined.

(** The outcome of a handshake; [r_child] holds the SPIs, the suite and the keys. *)
Record ClientResult := mkClientResult {
  AssignedIP : bytes; RNetmask : bytes; AssignedIP6 : bytes; RPrefix6 : Z; RDNS : list bytes; ServerAddr : UDPAddr; RUDPEncap : bool;
  r_child : ChildSA; RAggFrag : bool; RAggFragFlags : Z; RIPTFSRate : Z }.
#[export] Instance eta_ClientResult : Eta ClientResult := fun r =>
  mkClientResult (AssignedIP r) (RNetmask r) (AssignedIP6 r) (RPrefix6 r) (RDNS r) (ServerAddr r) (RUDPEncap r) (r_child r)
    (RAggFrag r) (RAggFragFlags r) (RIPTFSRate r).

(** The random draws of one operation; a message's IVs are indexed by its ID. *)
Record cdraws := mkCDraws {
  cd_now : Z; cd_spi : list bytes; cd_child : list bytes; cd_nonce : nat -> bytes; cd_dh : dh_draw; cd_kem : bytes;
  cd_sig : bytes; cd_peer : bytes; cd_ivs : Z -> nat -> bytes }.

Section Types.
Context {Priv CertPool : Type}.

(** [ClientConfig].  [ClientCert] is [Some None] when the certificate does not load;
    [SystemCertPool] is the host's; [ServerIP] is what [net.ParseIP] makes of [ServerHost]. *)
Record ClientConfig := mkClientConfig {
  ServerHost : bytes; ServerIP : option bytes; NATTPort : Z; ccPSK : bytes; ccLocalID : IDPayload; RemoteID : option IDPayload;
  EAPUsername : bytes; EAPPassword : bytes; ClientCert : option (option (@certCredential Priv)); CARoots : option CertPool; SystemCertPool : option CertPool;
  PostQuantum : bool; PostQuantumAuth : bool; ccRequirePostQuantum : bool; ccIPTFS : bool; ccIPTFSRate : Z; TCP : bool }.

Record Client := mkClient {
  ccfg : ClientConfig; localAddr : UDPAddr; remoteAddr : UDPAddr;
  spiI : Z; spiR : Z; csuite : Suite; cdh : DHGroup; ni : bytes; nr : bytes; ckeys : SAKeys; saInitReq : bytes; saInitResp : bytes; sendMsgID : Z;
  on4500 : bool; cmobike : bool; peerIntermediate : bool; addkeGroup : Z; intAuthI : bytes; intAuthR : bytes; authMsgID : Z;
  frag : bool; cfragReasm : fragReassembler; cresult : option ClientResult;
  certCred : option (@certCredential Priv); caRoots : option CertPool; cpeerSigHashes : list Z; serverIDBody : bytes;
  closed : bool; attached : bool; inbox : list bytes; reads : list bytes; written : list bytes }.
#[export] Instance eta_Client : Eta Client := fun c =>
  mkClient (ccfg c) (localAddr c) (remoteAddr c) (spiI c) (spiR c) (csuite c) (cdh c) (ni c) (nr c) (ckeys c) (saInitReq c) (saInitResp c) (sendMsgID c)
    (on4500 c) (cmobike c) (peerIntermediate c) (addkeGroup c) (intAuthI c) (intAuthR c) (authMsgID c) (frag c) (cfragReasm c) (cresult c)
    (certCred c) (caRoots c) (cpeerSigHashes c) (serverIDBody c) (closed c) (attached c) (inbox c) (reads c) (written c).

(** Before [dial]: the addresses are those of the socket it will open. *)
Definition NewClient (cfg : ClientConfig) (loc rem : UDPAddr) : Client :=
  mkClient cfg loc rem 0 0 zero_suite NewMODP2048 [] [] zero_keys [] [] 0 false false false 0 [] [] 0 false newReassembler None
    (match ClientCert cfg with Some (Some cred) => Some cred | _ => None end)
    (match ClientCert cfg with Some _ => CARoots cfg | None => None end) [] [] false false [] [] [].

(** *** The monad *)

Definition IO (A : Type) : Type := Client -> result client_error A * Client.
End Types.

Arguments ClientConfig : clear implicits.
Arguments Client : clear implicits.
Arguments IO : clear implicits.

#[export] Instance IO_ret {Priv CertPool} : MRet (IO Priv CertPool) := fun A a c => (Ok a, c).
#[export] Instance IO_bind {Priv CertPool} : MBind (IO Priv CertPool) := fun A B f m c =>
  match m c with
  | (Ok a, c) => f a c
  | (Err e, c) => (Err e, c)
  end.

Section Monad.
Context {Priv CertPool : Type}.
Abbreviation io := (IO Priv CertPool).

Definition fail {A} (e : client_error) : io A := fun c => (Err e, c).
Definition cget : io (Client Priv CertPool) := fun c => (Ok c, c).
Definition cmodify (f : Client Priv CertPool -> Client Priv CertPool) : io () := fun c => (Ok (), f c).

(** An error of another kind. *)
Definition need {A} (e : client_error) (o : option A) : io A := fun c => match o with Some a => (Ok a, c) | None => (Err e, c) end.
Definition lift_result {E A} (e : client_error) (r : result E A) : io A := fun c => match r with Ok a => (Ok a, c) | Err _ => (Err e, c) end.
Definition guard_io (b : bool) (e : client_error) : io () := fun c => if b then (Ok (), c) else (Err e, c).
End Monad.

Section Client.
Context {Priv CertPool : Type}.
Context {P : Prims} {DG : Digests} {C : Curves} {K : Kem} {SG : Signing Priv} {X : X509 CertPool} {DE : Des}.
Abbreviation Cl := (Client Priv CertPool).
Abbreviation io := (IO Priv CertPool).
Implicit Types (d : cdraws) (c : Cl).

(** ** The transport *)

(** Over TCP the stream frames the message itself. *)
Definition writeIKE (pkt : bytes) : io () :=
  cmodify (fun c => c <| written := written c ++ [if negb (TCP (ccfg c)) && on4500 c then [0; 0; 0; 0] ++ pkt else pkt] |>).

Fixpoint writeIKEAll (pkts : list bytes) : io () :=
  match pkts with
  | [] => mret ()
  | p :: pkts => writeIKE p;; writeIKEAll pkts
  end.

Definition strip_marker (pkt : bytes) : bytes :=
  if (4 <=? length pkt)%nat && bool_decide (take 4 pkt = [0; 0; 0; 0]) then drop 4 pkt else pkt.

(** What one read yields of a datagram. *)
Definition read_as (tcp : bool) (pkt : bytes) : bytes := if tcp then pkt else strip_marker pkt.

Definition readMessage : io bytes := fun c =>
  match reads c with
  | [] => (Err CErrRead, c)
  | pkt :: rest => (Ok (read_as (TCP (ccfg c)) pkt), c <| reads := rest |>)
  end.

(** The redial to the NAT-T port; [loc] is the new socket's address. *)
Definition floatToNATT (loc : UDPAddr) : io () := fun c =>
  if closed c then (Err CErrClosed, c)
  else (Ok (), c <| localAddr := loc |> <| remoteAddr := mkUDPAddr (udpIP (remoteAddr c)) (NATTPort (ccfg c)) |> <| on4500 := true |>).

(** ** Protected messages *)

(** The first error notify (below 16384), or 0. *)
Fixpoint findNotifyError (ps : list RawPayload) : Z :=
  match ps with
  | [] => 0
  | p :: ps =>
      if negb (Type_ p =? TypeNotify) then findNotifyError ps
      else
        match ParseNotify (Body p) with
        | Ok n => if (NType n <? 16384) && negb (NType n =? 0) then NType n else findNotifyError ps
        | Err _ => findNotifyError ps
        end
  end.

Definition findInnerNotifyError (inners : list RawPayload) : Z := findNotifyError inners.

Definition seal (d : cdraws) (ex msgID first : Z) (inner : bytes) : io (list bytes) := fun c =>
  let hdr := mkHeader (spiI c) (spiR c) 0 0x20 ex FlagInitiator msgID 0 in
  match sealMaybeFragment hdr (csuite c) (ckeys c) dirInitiatorToResponder first inner (frag c) (cd_ivs d msgID) with
  | Ok pkts => (Ok pkts, c)
  | Err _ => (Err CErrSeal, c)
  end.

(** One request: sealed and written. *)
Definition sendSealed (d : cdraws) (ex msgID first : Z) (inner : bytes) : io () :=
  pkts ← seal d ex msgID first inner;
  writeIKEAll pkts.

(** What one datagram of a response is: the inner payloads, a fragment that leaves the
    message incomplete, or an error. *)
Inductive received := GotInners (first : Z) (inner : bytes) | GotFragment | GotError (e : client_error).

Definition open_response (now : Z) (raw : bytes) (msg : Message) (c : Cl) : received * Cl :=
  match Find msg TypeSKF with
  | Some skf =>
      if negb (frag c) then (GotError CErrExchange, c)
      else
        match decryptSKF raw skf (csuite c) (ckeys c) dirResponderToInitiator with
        | Err _ => (GotError CErrOpen, c)
        | Ok f =>
            match add (cfragReasm c) now (MessageID (MHeader msg)) f with
            | (Err _, r) => (GotError CErrOpen, c <| cfragReasm := r |>)
            | (Ok None, r) => (GotFragment, c <| cfragReasm := r |>)
            | (Ok (Some (inner, first)), r) => (GotInners first inner, c <| cfragReasm := r |>)
            end
        end
  | None =>
      match Find msg TypeSK with
      | None => (GotError CErrMissing, c)
      | Some sk =>
          match decryptSK raw sk (csuite c) (ckeys c) dirResponderToInitiator with
          | Err _ => (GotError CErrOpen, c)
          | Ok (first, inner) => (GotInners first inner, c)
          end
      end
  end.

(** The inner payloads of a complete message; an error notify among them is an error. *)
Definition inner_result (first : Z) (inner : bytes) : result client_error (list RawPayload) :=
  match parseInnerPayloads first inner with
  | Some (Ok inners) =>
      let n := findInnerNotifyError inners in
      if n =? 0 then Ok inners else if n =? AuthenticationFailed then Err CErrAuthFailed else Err (CErrNotify n)
  | _ => Err CErrParse
  end.

(** The loop of [recvInnersFrom] over the datagrams its source will yield; what it leaves
    unread is returned. *)
Fixpoint recv_loop (now : Z) (src : list bytes) (c : Cl) : result client_error (list RawPayload) * list bytes * Cl :=
  match src with
  | [] => (Err CErrRead, [], c)
  | raw :: src =>
      match ParseMessage raw with
      | Some (Ok msg) =>
          let n := findNotifyError (Payloads msg) in
          if negb (n =? 0) then (Err (CErrNotify n), src, c)
          else
            match open_response now raw msg c with
            | (GotInners first inner, c) => (inner_result first inner, src, c)
            | (GotFragment, c) => recv_loop now src c
            | (GotError e, c) => (Err e, src, c)
            end
      | _ => (Err CErrParse, src, c)
      end
  end.

(** [recvInners] reads the socket, [recvControlInners] what the data path delivered. *)
Definition recvInners (d : cdraws) : io (list RawPayload) := fun c =>
  let tcp := TCP (ccfg c) in
  let '(r, rest, c) := recv_loop (cd_now d) (read_as tcp <$> reads c) c in
  (r, c <| reads := drop (length (reads c) - length rest) (reads c) |>).

Definition recvControlInners (d : cdraws) : io (list RawPayload) := fun c =>
  let '(r, rest, c) := recv_loop (cd_now d) (inbox c) c in
  (r, c <| inbox := rest |>).

(** [decryptAndParseInners]: one whole message. *)
Definition decryptAndParseInners (raw : bytes) (s : Suite) (keys : SAKeys) (dir : keyDir) : result client_error (list RawPayload) :=
  match ParseMessage raw with
  | Some (Ok msg) =>
      match Find msg TypeSK with
      | None => Err CErrMissing
      | Some sk =>
          match decryptSK raw sk s keys dir with
          | Err _ => Err CErrOpen
          | Ok (first, inner) => match parseInnerPayloads first inner with Some (Ok inners) => Ok inners | _ => Err CErrParse end
          end
      end
  | _ => Err CErrParse
  end.

(** ** IKE_SA_INIT *)

(** Every proposal carries the additional key exchange, or none. *)
Definition offered_proposals (c : Cl) : list Proposal :=
  if PostQuantum (ccfg c)
  then (fun p => mkProposal (Num p) (Protocol p) (SPI p) (Transforms p ++ [mkTransform TransformADDKE1 MLKEM768 0])) <$> DefaultIKEProposals
  else DefaultIKEProposals.

Definition saInit_request (d : cdraws) (c : Cl) : result client_error (bytes * Cl) :=
  let c := c <| spiI := newIKESPI (cd_spi d) |> in
  match transformDH DH_CURVE25519 with
  | Err _ => Err CErrDH
  | Ok dh =>
      let '(pub, dh) := Generate dh (cd_dh d) in
      let c := c <| cdh := dh |> <| ni := cd_nonce d 32 |> in
      let b := Add NewBuilder TypeSA false (MarshalSA (mkSA (offered_proposals c))) in
      let b := Add b TypeKE false (MarshalKE (mkKE DH_CURVE25519 pub)) in
      let b := Add b TypeNonce false (MarshalNonce (ni c)) in
      let b := addNotify b NATDetectionSourceIP (natDetectionHash (spiI c) 0 (ip_octets (udpIP (localAddr c))) (wrap 16 (udpPort (localAddr c)))) in
      let b := addNotify b NATDetectionDestinationIP (natDetectionHash (spiI c) 0 (v4_mapped_prefix ++ [0; 0; 0; 0]) 0) in
      let b := addFragSupported b in
      let b := match certCred c with Some _ => addSigHashNotify b | None => b end in
      let b := if PostQuantum (ccfg c) then addIntermediateNotify b else b in
      let hdr := mkHeader (spiI c) 0 (FirstType b) 0x20 IKE_SA_INIT FlagInitiator 0 (wrap 32 (Z.of_nat (IkeHeaderLen + length (Bytes b)))) in
      let req := MarshalHeader hdr [] ++ Bytes b in
      Ok (req, c <| saInitReq := req |>)
  end.

(** The additional key exchange of the first IKE proposal of the response. *)
Fixpoint accepted_addke (ps : list Proposal) : Z :=
  match ps with
  | [] => 0
  | p :: ps => if negb (Protocol p =? ProtoIKE) then accepted_addke ps else default 0 (SelectADDKE p)
  end.

Definition saInit_response (resp : bytes) : io () :=
  cmodify (fun c => c <| saInitResp := resp |>);;
  msg ← need CErrParse (parsed (ParseMessage resp));
  let n := findNotifyError (Payloads msg) in
  guard_io (n =? 0) (CErrNotify n);;
  cmodify (fun c => c <| spiR := ResponderSPI (MHeader msg) |> <| frag := findFragSupported (Payloads msg) |>
                      <| cpeerSigHashes := findSigHashes (Payloads msg) |> <| peerIntermediate := hasIntermediateSupport msg |>);;
  saPay ← need CErrMissing (Find msg TypeSA);
  kePay ← need CErrMissing (Find msg TypeKE);
  noncePay ← need CErrMissing (Find msg TypeNonce);
  sa ← need CErrParse (parsed (ParseSA (Body saPay)));
  '(suite, _) ← lift_result CErrSuite (SelectIKESuite sa);
  cmodify (fun c => c <| csuite := suite |>);;
  cmodify (fun c => if PostQuantum (ccfg c) && peerIntermediate c then
                      let g := accepted_addke (Proposals sa) in c <| addkeGroup := if g =? 0 then addkeGroup c else g |>
                    else c);;
  c ← cget;
  guard_io (negb (PostQuantum (ccfg c) && (addkeGroup c =? 0) && ccRequirePostQuantum (ccfg c))) CErrPostQuantum;;
  let ke := match ParseKE (Body kePay) with Ok ke => ke | Err _ => mkKE 0 [] end in
  shared ← lift_result CErrDH (ComputeSecret (cdh c) (KeyData ke));
  cmodify (fun c => c <| nr := ParseNonce (Body noncePay) |>);;
  cmodify (fun c => c <| ckeys := default zero_keys (snd <$> DeriveIKEKeys (SuitePRF suite) shared (ni c) (nr c) (spiI c) (spiR c)
                                                       (encKeyLen suite) (integKeyLen suite)) |>).

Definition saInit (d : cdraws) : io () :=
  c ← cget;
  '(req, c) ← lift_result CErrDH (saInit_request d c);
  cmodify (fun _ => c);;
  writeIKE req;;
  resp ← readMessage;
  saInit_response resp.

(** ** IKE_INTERMEDIATE *)

Definition cl_intAuth (c : Cl) (ikeAuthMsgID : Z) : bytes := finalIntAuth (intAuthI c) (intAuthR c) ikeAuthMsgID.

(** The first KE payload decides. *)
Definition intermediate_answer (dk : bytes) (inners : list RawPayload) : io () :=
  kePay ← need CErrMissing (findInner inners TypeKE);
  ke ← lift_result CErrParse (ParseKE (Body kePay));
  c ← cget;
  guard_io (Group ke =? addkeGroup c) CErrExchange;;
  shared ← need CErrOpen (kem_decap dk (KeyData ke));
  cmodify (fun c => c <| ckeys := rekeyFromAdditionalExchange (csuite c) (ckeys c) shared (ni c) (nr c) (spiI c) (spiR c) |>).

Definition sendIntermediateExchange (d : cdraws) : io () :=
  let dk := kem_dk (cd_kem d) in
  c ← cget;
  let b := Add NewBuilder TypeKE false (MarshalKE (mkKE (addkeGroup c) (kem_ek dk))) in
  let msgID := sendMsgID c in
  cmodify (fun c => c <| sendMsgID := wrap 32 (sendMsgID c + 1) |>);;
  let hdr := mkHeader (spiI c) (spiR c) 0 0x20 IKE_INTERMEDIATE FlagInitiator msgID 0 in
  pkt ← lift_result CErrSeal (buildEncryptedMessage hdr (csuite c) (ckeys c) dirInitiatorToResponder (FirstType b) (Bytes b) (cd_ivs d msgID 0));
  cmodify (fun c => c <| intAuthI := chainIntAuth (SuitePRF (csuite c)) (SKpi (ckeys c)) (intAuthI c) (intAuthBlob hdr (FirstType b) (Bytes b)) |>);;
  writeIKE pkt;;
  raw ← readMessage;
  respHdr ← lift_result CErrParse (IkeMessage.ParseHeader raw);
  guard_io (MessageID respHdr =? msgID) CErrMsgID;;
  guard_io (ExchangeType respHdr =? IKE_INTERMEDIATE) CErrExchange;;
  c ← cget;
  inners ← (fun st => (decryptAndParseInners raw (csuite c) (ckeys c) dirResponderToInitiator, st));
  let n := findInnerNotifyError inners in
  guard_io (n =? 0) (CErrNotify n);;
  respInner ← need CErrParse (reencodeInners inners);
  cmodify (fun c => c <| intAuthR := chainIntAuth (SuitePRF (csuite c)) (SKpr (ckeys c)) (intAuthR c)
                                       (intAuthBlob respHdr (match inners with p :: _ => Type_ p | [] => 0 end) respInner) |>);;
  intermediate_answer dk inners.

(** ** IKE_AUTH: what is sent *)

Definition dualStackTS : list TrafficSelector := [allTrafficV4; allTrafficV6].
Definition dualStackCPRequest : CPPayload :=
  mkCP CFGRequest [mkAttr CFGInternalIP4Address []; mkAttr CFGInternalIP4Netmask []; mkAttr CFGInternalIP4DNS []; mkAttr CFGInternalIP6Address []; mkAttr CFGInternalIP6DNS []].

Definition buildAuthInner (d : cdraws) (c : Cl) (idBody : bytes) (auth : option AuthPayload) : Builder * Z :=
  let childOutSPI := newChildSPI (cd_child d) in
  let b := Add NewBuilder TypeIDi false idBody in
  let b := match auth with Some a => Add b TypeAUTH false (MarshalAuth a) | None => b end in
  let b := Add b TypeCP false (MarshalCP dualStackCPRequest) in
  let b := Add b TypeSA false (MarshalSA (mkSA (DefaultESPProposals (u32BE childOutSPI)))) in
  let b := Add b TypeTSi false (MarshalTS dualStackTS) in
  let b := Add b TypeTSr false (MarshalTS dualStackTS) in
  let b := if negb (TCP (ccfg c)) then addMobikeSupported b else b in
  let b := if ccIPTFS (ccfg c) then addNotify b UseAggFrag (NotifyData OurFlags) else b in
  (b, childOutSPI).

Definition buildCertAuthInner (d : cdraws) (c : Cl) (cred : @certCredential Priv) (idBody : bytes) (method : Z) (authData : bytes) : Builder * Z :=
  let childOutSPI := newChildSPI (cd_child d) in
  let b := Add NewBuilder TypeIDi false idBody in
  let b := fold_left (fun b der => Add b TypeCERT false (MarshalCert (mkCert CertX509Signature der))) (chain cred) b in
  let b := Add b TypeCERTREQ false (MarshalCertReq (mkCertReq CertX509Signature [])) in
  let b := Add b TypeAUTH false (MarshalAuth (mkAuth method authData)) in
  let b := Add b TypeCP false (MarshalCP dualStackCPRequest) in
  let b := Add b TypeSA false (MarshalSA (mkSA (DefaultESPProposals (u32BE childOutSPI)))) in
  let b := Add b TypeTSi false (MarshalTS dualStackTS) in
  let b := Add b TypeTSr false (MarshalTS dualStackTS) in
  let b := if negb (TCP (ccfg c)) then addMobikeSupported b else b in
  (b, childOutSPI).

Definition cl_initiatorOctets (c : Cl) (idBody : bytes) : bytes :=
  AuthOctets (SuitePRF (csuite c)) (saInitReq c) (nr c) (SKpi (ckeys c)) idBody (cl_intAuth c (authMsgID c)).
Definition cl_responderOctets (c : Cl) (idBody : bytes) : bytes :=
  AuthOctets (SuitePRF (csuite c)) (saInitResp c) (ni c) (SKpr (ckeys c)) idBody (cl_intAuth c (authMsgID c)).

(** ** IKE_AUTH: what comes back *)

(** The proposals read before an error, which [ParseSA] returns with it. *)
Fixpoint leading_proposals (fuel : nat) (buf : bytes) : list Proposal :=
  match fuel with
  | O => []
  | S fuel =>
      let plen := Z.to_nat (be_dec (slice buf 2 4)) in
      let spiSize := Z.to_nat (at_ buf 6) in
      if ((length buf <? 8) || (plen <? 8) || (length buf <? plen) || (plen <? 8 + spiSize))%nat then []
      else
        match parseTransforms (slice buf (8 + spiSize) plen) (Z.to_nat (at_ buf 7)) with
        | Some (Ok trs) =>
            mkProposal (at_ buf 4) (at_ buf 5) (slice buf 8 (8 + spiSize)) trs ::
            (if at_ buf 0 =? 0 then [] else leading_proposals fuel (drop plen buf))
        | _ => []
        end
  end.

Definition sa_proposals (buf : bytes) : SAPayload := mkSA (leading_proposals (S (length buf)) buf).

Definition cl_acceptAggFrag (inners : list RawPayload) : bool * Z :=
  match acceptAggFrag inners with Some flags => (true, flags) | None => (false, 0) end.

Definition same_id (a b : IDPayload) : bool := (IDType a =? IDType b) && bool_decide (IDData a = IDData b).

(** The IDr of this message, or the one captured earlier. *)
Definition server_id (inners : list RawPayload) : io bytes :=
  c ← cget;
  match findInner inners TypeIDr with
  | Some idrPay =>
      let idr := match ParseID (Body idrPay) with Ok id => id | Err _ => mkID 0 [] end in
      guard_io (match RemoteID (ccfg c) with Some want => same_id idr want | None => true end) CErrIdentity;;
      cmodify (fun c => c <| serverIDBody := idPayloadBody idr |>);;
      mret (idPayloadBody idr)
  | None => if bool_decide (serverIDBody c = []) then fail CErrMissing else mret (serverIDBody c)
  end.

Definition verifyServerAuth (inners : list RawPayload) (key : bytes) (eapMSK : bool) : io () :=
  authPay ← need CErrMissing (findInner inners TypeAUTH);
  auth ← lift_result CErrParse (ParseAuth (Body authPay));
  peerIDBody ← server_id inners;
  c ← cget;
  if eapMSK then guard_io (bool_decide (PSKAuth (SuitePRF (csuite c)) key (cl_responderOctets c peerIDBody) = AData auth)) CErrAuthFailed
  else lift_result CErrAuthFailed
         (verifyPeerPSKAuth (SuitePRF (csuite c)) key (saInitResp c) (ni c) (SKpr (ckeys c)) peerIDBody (cl_intAuth c (authMsgID c)) (AData auth)).

Definition expectedServerID (c : Cl) : IDPayload :=
  match RemoteID (ccfg c) with
  | Some id => id
  | None => match ServerIP (ccfg c) with Some ip => IPIdentity ip | None => FQDNIdentity (ServerHost (ccfg c)) end
  end.

Definition verifyServerCertAuth (inners : list RawPayload) : io () :=
  idrPay ← need CErrMissing (findInner inners TypeIDr);
  authPay ← need CErrMissing (findInner inners TypeAUTH);
  idr ← lift_result CErrParse (ParseID (Body idrPay));
  c ← cget;
  guard_io (match RemoteID (ccfg c) with Some want => same_id idr want | None => true end) CErrIdentity;;
  let certs := findAllInner inners TypeCERT in
  guard_io (0 <? length certs)%nat CErrMissing;;
  '(leafDER, intermediates) ← lift_result CErrCert (parseCertChain certs);
  roots ← need CErrCert (match caRoots c with Some r => Some r | None => SystemCertPool (ccfg c) end);
  leaf ← lift_result CErrAuthFailed (verifyPeerCertChain leafDER intermediates roots);
  let expected := expectedServerID c in
  guard_io (checkableIDType (IDType expected) && checkableIDType (IDType idr)) CErrAuthFailed;;
  lift_result CErrAuthFailed (certMatchesID leaf expected);;
  lift_result CErrAuthFailed (certMatchesID leaf idr);;
  lift_result CErrAuthFailed (requireServerUsage leaf);;
  auth ← lift_result CErrParse (ParseAuth (Body authPay));
  guard_io (negb (PostQuantumAuth (ccfg c)) || is_ok (requirePostQuantumKey (PublicKey leaf))) CErrCert;;
  lift_result CErrAuthFailed (verifyAuth (PublicKey leaf) (AMethod auth) (cl_responderOctets c (idPayloadBody idr)) (AData auth));;
  cmodify (fun c => c <| serverIDBody := idPayloadBody idr |>).

(** The address configuration of a CFG_REPLY. *)
Definition cp_result (cp : CPPayload) (res : ClientResult) : ClientResult :=
  let val t (n : nat) := match AttrValue cp t with Some v => if (length v =? n)%nat then Some v else None | None => None end in
  let res := res <| AssignedIP := default (AssignedIP res) (To4 <$> val CFGInternalIP4Address 4%nat) |> in
  let res := res <| RNetmask := default (RNetmask res) (To4 <$> val CFGInternalIP4Netmask 4%nat) |> in
  let res := match val CFGInternalIP6Address 17%nat with
             | Some v => res <| AssignedIP6 := take 16 v |> <| RPrefix6 := at_ v 16 |>
             | None => res
             end in
  res <| RDNS := RDNS res ++ concat ((fun a =>
     if (CAType a =? CFGInternalIP4DNS) && (length (CAValue a) =? 4)%nat then [To4 (CAValue a)]
     else if (CAType a =? CFGInternalIP6DNS) && (length (CAValue a) =? 16)%nat then [CAValue a] else []) <$> Attrs cp) |>.

Definition no_child : ChildSA := mkChildSA 0 0 (mkESPSuite 0 0 0 (AeadCipher AesGCM 0) None) [] [] [] [].

Definition applyAuthResult (inners : list RawPayload) (childOutSPI : Z) : io () :=
  cmodify (fun c => c <| cmobike := findMobikeSupported inners |>);;
  c ← cget;
  let res := mkClientResult [] [] [] 0 [] (remoteAddr c) (negb (TCP (ccfg c))) no_child false 0 0 in
  let res := match findInner inners TypeCP with
             | Some cpPay => match parsed (ParseCP (Body cpPay)) with Some cp => cp_result cp res | None => res end
             | None => res
             end in
  guard_io (negb (bool_decide (AssignedIP res = []) && bool_decide (AssignedIP6 res = []))) CErrNoAddress;;
  saPay ← need CErrNoChild (findInner inners TypeSA);
  let espSA := sa_proposals (Body saPay) in
  '(es, _) ← lift_result CErrSuite (SelectESPSuite espSA);
  let out := match Proposals espSA with p :: _ => if (length (SPI p) =? 4)%nat then beU32 (SPI p) else 0 | [] => 0 end in
  let res := if ccIPTFS (ccfg c) then
               let '(ok, flags) := cl_acceptAggFrag inners in res <| RAggFrag := ok |> <| RAggFragFlags := flags |> <| RIPTFSRate := ccIPTFSRate (ccfg c) |>
             else res in
  let '(encI, integI, encR, integR) := child_keys (SuitePRF (csuite c)) (SKd (ckeys c)) (ni c) (nr c) es in
  cmodify (fun c => c <| cresult := Some (res <| r_child := mkChildSA childOutSPI out es encI integI encR integR |>) |>).

Definition finishAuth (inners : list RawPayload) (childOutSPI : Z) (authKey : bytes) (eapMSK : bool) : io () :=
  verifyServerAuth inners authKey eapMSK;;
  applyAuthResult inners childOutSPI.

(** ** The three ways to authenticate *)

(** The request of [authPSK] and the SPI it proposes. *)
Definition authPSK_request (d : cdraws) : io Z :=
  c ← cget;
  let idBody := idPayloadBody (ccLocalID (ccfg c)) in
  let authData := PSKAuth (SuitePRF (csuite c)) (ccPSK (ccfg c)) (cl_initiatorOctets c idBody) in
  let '(inner, childOutSPI) := buildAuthInner d c idBody (Some (mkAuth AuthSharedKeyMIC authData)) in
  sendSealed d IKE_AUTH (authMsgID c) (FirstType inner) (Bytes inner);;
  mret childOutSPI.

Definition authPSK_response (d : cdraws) (childOutSPI : Z) : io () :=
  inners ← recvInners d;
  cmodify (fun c => c <| sendMsgID := wrap 32 (authMsgID c + 1) |>);;
  c ← cget;
  finishAuth inners childOutSPI (ccPSK (ccfg c)) false.

Definition authPSK (d : cdraws) : io () :=
  childOutSPI ← authPSK_request d;
  authPSK_response d childOutSPI.

Definition authCert (d : cdraws) (cred : @certCredential Priv) : io () :=
  c ← cget;
  let idBody := idPayloadBody (ccLocalID (ccfg c)) in
  '(method, authData) ← lift_result CErrCert (signAuth cred (cl_initiatorOctets c idBody) (cpeerSigHashes c) (cd_sig d));
  let '(inner, childOutSPI) := buildCertAuthInner d c cred idBody method authData in
  sendSealed d IKE_AUTH (authMsgID c) (FirstType inner) (Bytes inner);;
  inners ← recvInners d;
  cmodify (fun c => c <| sendMsgID := wrap 32 (authMsgID c + 1) |>);;
  verifyServerCertAuth inners;;
  applyAuthResult inners childOutSPI.

Definition sendEAP (d : cdraws) (msgID : Z) (p : Eap.Packet) : io () :=
  let b := Add NewBuilder TypeEAP false (MarshalEAP p) in
  sendSealed d IKE_AUTH msgID (FirstType b) (Bytes b).

(** An unreadable packet is the zero packet. *)
Definition eap_parse (b : bytes) : Eap.Packet := match ParseEAP b with Ok p => p | Err _ => zero_packet end.

Definition authEAP (d : cdraws) : io () :=
  c ← cget;
  let idBody := idPayloadBody (ccLocalID (ccfg c)) in
  let id n := wrap 32 (authMsgID c + n) in
  let '(inner, childOutSPI) := buildAuthInner d c idBody None in
  sendSealed d IKE_AUTH (authMsgID c) (FirstType inner) (Bytes inner);;
  inners ← recvInners d;
  verifyServerAuth inners (ccPSK (ccfg c)) false;;
  eapPay ← need CErrEAP (findInner inners TypeEAP);
  eapReq ← lift_result CErrParse (ParseEAP (Body eapPay));
  ch ← need CErrEAP (ParseChallenge (EData eapReq));
  let '(respData, msk) := BuildResponse ch (EAPUsername (ccfg c)) (EAPPassword (ccfg c)) (cd_peer d) in
  sendEAP d (id 1) (Eap.mkPacket CodeResponse (Identifier eapReq) TypeMSCHAPv2 respData);;
  inners ← recvInners d;
  eapPay ← need CErrEAP (findInner inners TypeEAP);
  let successReq := eap_parse (Body eapPay) in
  guard_io (negb ((Eap.Code successReq =? CodeRequest) && (0 <? length (EData successReq))%nat && (at_ (EData successReq) 0 =? 4))) CErrAuthFailed;;
  sendEAP d (id 2) (Eap.mkPacket CodeResponse (Identifier successReq) TypeMSCHAPv2 SuccessResponseData);;
  inners ← recvInners d;
  guard_io (match findInner inners TypeEAP with Some p => Eap.Code (eap_parse (Body p)) =? CodeSuccess | None => true end) CErrEAP;;
  c ← cget;
  let authData := PSKAuth (SuitePRF (csuite c)) msk (cl_initiatorOctets c idBody) in
  let b := Add NewBuilder TypeAUTH false (MarshalAuth (mkAuth AuthSharedKeyMIC authData)) in
  sendSealed d IKE_AUTH (id 3) (FirstType b) (Bytes b);;
  inners ← recvInners d;
  cmodify (fun c => c <| sendMsgID := id 4 |>);;
  finishAuth inners childOutSPI msk true.

(** ** Connecting *)

Definition Close : io () := cmodify (fun c => c <| closed := true |>).

(** From the opened socket on; [loc] is the local address after the float. *)
Definition Connect (d : cdraws) (loc : UDPAddr) : io ClientResult :=
  saInit d;;
  cmodify (fun c => c <| sendMsgID := 1 |>);;
  c ← cget;
  (if TCP (ccfg c) then mret () else floatToNATT loc);;
  c ← cget;
  (if addkeGroup c =? 0 then mret () else sendIntermediateExchange d);;
  cmodify (fun c => c <| authMsgID := sendMsgID c |>);;
  c ← cget;
  (if negb (bool_decide (EAPUsername (ccfg c) = [])) then authEAP d
   else match ClientCert (ccfg c) with
        | Some _ => match certCred c with None => fail CErrCert | Some cred => authCert d cred end
        | None => authPSK d
        end);;
  c ← cget;
  need CErrMissing (cresult c).

Definition BuildTunnel (r : ClientResult) : result bridge_error espTunnel :=
  match BuildESPSA (r_child r) with
  | Err e => Err e
  | Ok sa =>
      let t := mkEspTunnel sa (InboundSPI (r_child r)) (defaultRoute ++ defaultRoute6) (Some (ServerAddr r)) false
                 NewPacker NewReassembler None in
      Ok (if negb (RAggFrag r) then t
          else let af := newAggfragTunnel t in
               if 0 <? RIPTFSRate r then newPacedTunnel af (RIPTFSRate r) iptfsPayloadSize else af)
  end.

(** ** The exchanges of a client that is up *)

Definition Attach : io () := cmodify (fun c => c <| inbox := [] |> <| attached := true |>).

(** The inbox is a channel of 32. *)
Definition Deliver (pkt : bytes) (c : Cl) : Cl :=
  if negb (attached c) then c else if (length (inbox c) <? 32)%nat then c <| inbox := inbox c ++ [pkt] |> else c.

Definition SendDPD (d : cdraws) : io () :=
  c ← cget;
  guard_io (attached c) CErrNotAttached;;
  let msgID := sendMsgID c in
  sendSealed d INFORMATIONAL msgID NoNextPayload [];;
  recvControlInners d;;
  cmodify (fun c => c <| sendMsgID := wrap 32 (msgID + 1) |>).

Definition DeleteChildSA (d : cdraws) (inSPI : Z) : io () :=
  c ← cget;
  guard_io (attached c) CErrNotAttached;;
  let b := Add NewBuilder TypeDelete false (MarshalDelete (mkDelete ProtoESP 4 [u32BE inSPI])) in
  let msgID := sendMsgID c in
  sendSealed d INFORMATIONAL msgID (FirstType b) (Bytes b);;
  recvControlInners d;;
  cmodify (fun c => c <| sendMsgID := wrap 32 (msgID + 1) |>).

Definition rekeyChild_request (d : cdraws) (c : Cl) (r : ClientResult) : Builder * Z * bytes :=
  let newInSPI := newChildSPI (cd_child d) in
  let ni := cd_nonce d 32 in
  let b := Add NewBuilder TypeNotify false (MarshalNotify (mkNotify ProtoESP RekeySA (u32BE (OutboundSPI (r_child r))) [])) in
  let b := Add b TypeSA false (MarshalSA (mkSA (DefaultESPProposals (u32BE newInSPI)))) in
  let b := Add b TypeNonce false (MarshalNonce ni) in
  let b := Add b TypeTSi false (MarshalTS [allTrafficV4]) in
  let b := Add b TypeTSr false (MarshalTS [allTrafficV4]) in
  (b, newInSPI, ni).

Definition RekeyChild (d : cdraws) : io (ClientResult * Z) :=
  c ← cget;
  guard_io (attached c) CErrNotAttached;;
  r ← need CErrNoChild (cresult c);
  let '(b, newInSPI, ni) := rekeyChild_request d c r in
  let msgID := sendMsgID c in
  sendSealed d CREATE_CHILD_SA msgID (FirstType b) (Bytes b);;
  inners ← recvControlInners d;
  saPay ← need CErrMissing (findInner inners TypeSA);
  noncePay ← need CErrMissing (findInner inners TypeNonce);
  espSA ← need CErrParse (parsed (ParseSA (Body saPay)));
  '(es, _) ← lift_result CErrSuite (SelectESPSuite espSA);
  let nr := ParseNonce (Body noncePay) in
  let newOutSPI := match Proposals espSA with p :: _ => if (length (SPI p) =? 4)%nat then beU32 (SPI p) else 0 | [] => 0 end in
  guard_io (negb (newOutSPI =? 0)) CErrMissing;;
  let '(encI, integI, encR, integR) := child_keys (SuitePRF (csuite c)) (SKd (ckeys c)) ni nr es in
  let res := r <| r_child := mkChildSA newInSPI newOutSPI es encI integI encR integR |> in
  cmodify (fun c => c <| sendMsgID := wrap 32 (msgID + 1) |> <| cresult := Some res |>);;
  mret (res, InboundSPI (r_child r)).

Definition deleteOldIKESA (d : cdraws) (msgID : Z) : io () :=
  let b := Add NewBuilder TypeDelete false (MarshalDelete (mkDelete ProtoIKE 0 [])) in
  sendSealed d INFORMATIONAL msgID (FirstType b) (Bytes b);;
  recvControlInners d;;
  mret ().

Definition rekeyIKE_request (c : Cl) (pub ni : bytes) (newSPIi : Z) : Builder :=
  let props := (fun p => mkProposal (Num p) (Protocol p) (u64BE newSPIi) (Transforms p)) <$> DefaultIKEProposals in
  let b := Add NewBuilder TypeSA false (MarshalSA (mkSA props)) in
  let b := Add b TypeNonce false (MarshalNonce ni) in
  Add b TypeKE false (MarshalKE (mkKE (DHID (csuite c)) pub)).

Definition RekeyIKE (d : cdraws) : io () :=
  c ← cget;
  guard_io (attached c) CErrNotAttached;;
  dh ← lift_result CErrDH (transformDH (DHID (csuite c)));
  let '(pub, dh) := Generate dh (cd_dh d) in
  let ni' := cd_nonce d 32 in
  let newSPIi := newIKESPI (cd_spi d) in
  let b := rekeyIKE_request c pub ni' newSPIi in
  let msgID := sendMsgID c in
  sendSealed d CREATE_CHILD_SA msgID (FirstType b) (Bytes b);;
  inners ← recvControlInners d;
  saPay ← need CErrMissing (findInner inners TypeSA);
  noncePay ← need CErrMissing (findInner inners TypeNonce);
  kePay ← need CErrMissing (findInner inners TypeKE);
  respSA ← need CErrParse (parsed (ParseSA (Body saPay)));
  '(newSuite, _) ← lift_result CErrSuite (SelectIKESuite respSA);
  p0 ← need CErrMissing (head (Proposals respSA));
  guard_io (length (SPI p0) =? 8)%nat CErrMissing;;
  let newSPIr := beU64 (SPI p0) in
  let nr' := ParseNonce (Body noncePay) in
  ke ← lift_result CErrParse (ParseKE (Body kePay));
  guard_io (Group ke =? DHID newSuite) CErrExchange;;
  shared ← lift_result CErrDH (ComputeSecret dh (KeyData ke));
  let newKeys := default zero_keys (DeriveRekeyedIKEKeys (SuitePRF newSuite) (SKd (ckeys c)) shared ni' nr' newSPIi newSPIr (encKeyLen newSuite) (integKeyLen newSuite)) in
  deleteOldIKESA d (wrap 32 (msgID + 1));;
  cmodify (fun c => c <| spiI := newSPIi |> <| spiR := newSPIr |> <| csuite := newSuite |> <| ckeys := newKeys |> <| cdh := dh |>
                      <| ni := ni' |> <| nr := nr' |> <| sendMsgID := 0 |>).

(** ** MOBIKE *)

Definition MobikeEnabled (c : Cl) : bool := cmobike c && negb (TCP (ccfg c)).

Definition sendUpdateSAAddresses (d : cdraws) (srv : UDPAddr) : io () :=
  c ← cget;
  let cookie2 := cd_nonce d 16 in
  let b := addNotify NewBuilder UpdateSAAddresses [] in
  let b := addNotify b NATDetectionSourceIP (natDetectionHash (spiI c) (spiR c) (ip_octets (udpIP (localAddr c))) (wrap 16 (udpPort (localAddr c)))) in
  let b := addNotify b NATDetectionDestinationIP (natDetectionHash (spiI c) (spiR c) (ip_octets (udpIP srv)) (wrap 16 (udpPort srv))) in
  let b := addNotify b Cookie2 cookie2 in
  let msgID := sendMsgID c in
  sendSealed d INFORMATIONAL msgID (FirstType b) (Bytes b);;
  inners ← recvInners d;
  guard_io (match findNotify inners Cookie2 with Some n => bool_decide (NData n = cookie2) && negb (bool_decide (NData n = [])) | None => false end) CErrCookie2;;
  cmodify (fun c => c <| sendMsgID := wrap 32 (msgID + 1) |>).

(** [loc] is the new socket's address; a failed update puts the old socket back. *)
Definition Roam (d : cdraws) (loc : UDPAddr) : io () := fun c =>
  if closed c then (Err CErrClosed, c)
  else if TCP (ccfg c) || negb (cmobike c) then (Err CErrMobike, c)
  else
    let '(r, c') := sendUpdateSAAddresses d (remoteAddr c) (c <| localAddr := loc |>) in
    match r with
    | Ok _ => (Ok (), c')
    | Err e => (Err e, c' <| localAddr := localAddr c |>)
    end.
End Client.
