(* ===== verification/IkeConnect.v ===== *)
(** * Initiator and responder, end to end

    IkeClient.v against IkeResponder.v, over the messages they exchange.

    [ike_connect]: a client and a server that hold one shared key complete IKE_SA_INIT and
    IKE_AUTH with each other's actual messages; the SA is established for the client's
    identity, the client has the address the server assigned, and the two ends of the Child
    SA mirror each other. *)
From Stdlib Require Import ZArith Lia.
From Stdlib Require String.
Import String.StringSyntax.
From stdpp Require Import base list gmap.
From S2P Require Import Prelude Aggfrag Routes Packet Shape Admission Pump IkeMessage IkeSA IkeBodies Crypto IkeSuite Dh Fragment Esp Eap IkeCookie IkeCert IkeDataPath IkeSession IkeIntermediate Secured IkeServer IkeAuth IkeChild IkeResponder IkeClient.

(** ** Messages as lists of payloads *)

Abbreviation IKEFragmentationSupported := 16430 (only parsing).

Definition raw (t : Z) (b : bytes) : RawPayload := mkRaw t false b.
Definition note (t : Z) (data : bytes) : RawPayload := raw TypeNotify (MarshalNotify (mkNotify ProtoNone t [] data)).
Definition wire (h : Header) (ps : list RawPayload) : bytes := MarshalHeader h [] ++ Bytes (build ps).

Lemma findNotify_note t data ps t' : uint16 t ->
  findNotify (note t data :: ps) t' = if t =? t' then Some (mkNotify ProtoNone t [] data) else findNotify ps t'.
Proof. intros Ht. unfold note. cbn [findNotify raw Type_ Body]. rewrite Z.eqb_refl. cbn [negb]. by rewrite ParseNotify_marshal by (cbn; done || lia). Qed.

Lemma findNotify_raw t b ps t' : t <> TypeNotify -> findNotify (raw t b :: ps) t' = findNotify ps t'.
Proof. intros Ht. cbn [findNotify raw Type_]. by rewrite (proj2 (Z.eqb_neq t TypeNotify)). Qed.

Lemma findNotifyError_note t data ps : uint16 t -> 16384 <= t -> findNotifyError (note t data :: ps) = findNotifyError ps.
Proof.
  intros Ht H. unfold note. cbn [findNotifyError raw Type_ Body]. rewrite Z.eqb_refl. cbn [negb].
  rewrite ParseNotify_marshal by (cbn; done || lia). cbn [NType]. by rewrite (proj2 (Z.ltb_ge _ _)).
Qed.

Lemma findNotifyError_raw t b ps : t <> TypeNotify -> findNotifyError (raw t b :: ps) = findNotifyError ps.
Proof. intros Ht. cbn [findNotifyError raw Type_]. by rewrite (proj2 (Z.eqb_neq t TypeNotify)). Qed.

Lemma findFrag_note t data ps : uint16 t -> findFragSupported (note t data :: ps) = (t =? IKEFragmentationSupported) || findFragSupported ps.
Proof.
  intros Ht. unfold note. cbn [findFragSupported raw Type_ Body]. rewrite Z.eqb_refl. cbn [negb].
  rewrite ParseNotify_marshal by (cbn; done || lia). cbn [NType]. by destruct (t =? _).
Qed.

Lemma findFrag_raw t b ps : t <> TypeNotify -> findFragSupported (raw t b :: ps) = findFragSupported ps.
Proof. intros Ht. cbn [findFragSupported raw Type_]. by rewrite (proj2 (Z.eqb_neq t TypeNotify)). Qed.

(** Looks through a list of payloads of known types. *)
Ltac payloads :=
  repeat first
    [ rewrite findNotify_note by by_decision | rewrite findNotify_raw by done
    | rewrite findNotifyError_note by (by_decision || done) | rewrite findNotifyError_raw by done
    | rewrite findFrag_note by by_decision | rewrite findFrag_raw by done ];
  cbn [Z.eqb Pos.eqb orb].

(** A message of well-formed payloads parses to them, and so does its header. *)
Lemma wire_parses h ps :
  wf_header h -> Forall wf_payload ps -> stops_last ends_chain ps -> Z.of_nat (length (Bytes (build ps))) < 2 ^ 31 ->
  NextPayload h = FirstType (build ps) -> Length h = wrap 32 (Z.of_nat (IkeHeaderLen + length (Bytes (build ps)))) ->
  ParseMessage (wire h ps) = Some (Ok (mkMessage h ps)) /\ IkeMessage.ParseHeader (wire h ps) = Ok h /\ (length (wire h ps) <? IkeHeaderLen)%nat = false.
Proof.
  intros Hh Hps Hs Hlen Hn Hl. split_and!.
  - apply ike_message_roundtrip; try done. rewrite Hl. apply wrap_small. unfold uint. lia.
  - by apply ParseHeader_marshal.
  - apply Nat.ltb_ge. unfold wire. rewrite length_app. cbn. lia.
Qed.

Lemma ParseKE_marshal ke : uint16 (Group ke) -> ParseKE (MarshalKE ke) = Ok ke.
Proof. intros H. pose proof (payload_bodies_roundtrip (BKE ke) H) as E. cbn [parse_like marshal_body] in E. destruct (ParseKE _); cbn in E; by simplify_eq. Qed.

Lemma length_build ps : length (Bytes (build ps)) = extent ps.
Proof.
  destruct (build_spec ps) as (Hb & _). unfold Bytes. rewrite Hb. clear Hb. generalize 0. intros f.
  induction ps as [|p ps IH]; [done|]. rewrite extent_cons. cbn [encode]. rewrite !length_app, length_generic_header, IH. lia.
Qed.

(** Payloads of known types and moderate bodies. *)
Definition moderate (p : RawPayload) : Prop := 0 < Type_ p < 256 /\ ends_chain (Type_ p) = false /\ (length (Body p) <= 4000)%nat.

Lemma moderate_wf ps : Forall moderate ps -> Forall wf_payload ps /\ stops_last ends_chain ps /\ (extent ps <= 4004 * length ps)%nat.
Proof.
  induction 1 as [|p ps (Ht & He & Hl) _ (IH1 & IH2 & IH3)]; [done|]. rewrite extent_cons. cbn [length]. split_and!; [|by destruct ps|lia].
  constructor; [|done]. split; [done|lia].
Qed.

(** A message whose first SPI has a bit above 2^32 is not taken for a marked one. *)
Lemma strip_marker_none spi rest : uint64 spi -> 2 ^ 32 <= spi -> strip_marker (be_enc 8 spi ++ rest) = be_enc 8 spi ++ rest.
Proof.
  intros Hu Hs. unfold strip_marker. rewrite (bool_decide_eq_false_2 (take 4 _ = _)); [by rewrite andb_false_r|]. intros E.
  rewrite take_app_le in E by (rewrite length_be_enc; lia). pose proof (be_dec_enc_small 8 spi Hu) as Hd.
  rewrite <- (take_drop 4 (be_enc 8 spi)), E, be_dec_app in Hd.
  pose proof (be_dec_range (drop 4 (be_enc 8 spi)) ltac:(apply Forall_drop, be_enc_ok)) as Hr. rewrite length_drop, length_be_enc in *. cbn [be_dec Nat.sub length Z.of_nat] in Hd, Hr. lia.
Qed.

Lemma strip_marker_some pkt : strip_marker ([0; 0; 0; 0] ++ pkt) = pkt.
Proof. done. Qed.

(** ** Sealed messages *)

Section Connect.
Context {Priv CertPool DP LS : Type} {DI : DataPath DP} {LI : Leases LS}.
Context {P : Prims} {DG : Digests} {C : Curves} {K : Kem} {SG : Signing Priv} {X : X509 CertPool} {DE : Des}.
Context {PO : PrimsOk P} {DO : DigestsOk DG} {CO : CurvesOk C}.
Abbreviation Srv := (Server Priv CertPool DP LS).
Abbreviation Cl := (Client Priv CertPool).
Implicit Types (s : Srv) (sa : IKESA) (c : Cl).

(** What a party sends that seals [ps] in one datagram. *)
Lemma sealed_one h su keys dir ps fr ivs :
  wf_header h -> wf_suite su -> keys_ok su keys -> length (ivs 0%nat) = IVLen (Cipher su) -> Forall wf_payload ps ->
  wouldExceedThreshold su (length (Bytes (build ps))) = false ->
  exists pkt sk n, sealMaybeFragment h su keys dir (FirstType (build ps)) (Bytes (build ps)) fr ivs = Ok [pkt] /\
    let h' := with_payload h TypeSK n in
    IkeMessage.ParseHeader pkt = Ok h' /\ (length pkt <? IkeHeaderLen)%nat = false /\ ParseMessage pkt = Some (Ok (mkMessage h' [sk])) /\ Type_ sk = TypeSK /\
    exists first inner, decryptSK pkt sk su keys dir = Ok (first, inner) /\ parseInnerPayloads first inner = Some (Ok ps).
Proof.
  intros Hh Hs Hk Hiv Hps Hth. unfold sealMaybeFragment. rewrite Hth, andb_false_r.
  assert (Z.of_nat (length (Bytes (build ps))) <= 65000) as Hl.
  { unfold wouldExceedThreshold in Hth. apply Nat.ltb_ge in Hth. destruct (1 <? _)%nat in Hth; lia. }
  destruct (buildEncryptedMessage_spec h su keys dir (FirstType (build ps)) (Bytes (build ps)) (ivs 0%nat) Hh Hs Hk Hiv Hl)
    as (pkt & h' & sk & E & Hp & Ht & _ & Hd).
  rewrite E. cbn [rbind]. unfold buildEncryptedMessage in E. destruct (encryptKeys keys dir) as [ek ik]. cbv zeta in E.
  set (n := (IkeHeaderLen + _)%nat) in E. apply rbind_ok in E as (sealed & _ & E). destruct (negb _); [done|].
  assert (exists rest, pkt = MarshalHeader (with_payload h TypeSK n) [] ++ rest) as (rest & Hr).
  { match type of E with Ok ?x = Ok pkt => assert (pkt = x) as -> by congruence end. rewrite <- app_assoc. eauto. } clear E.
  assert (IkeMessage.ParseHeader pkt = Ok (with_payload h TypeSK n)) as Hph.
  { rewrite Hr. apply ParseHeader_marshal. by apply wf_with_payload. }
  exists pkt, sk, n. split; [done|]. cbv zeta. split; [done|]. split; [rewrite Hr; apply Nat.ltb_ge; rewrite length_app; cbn; lia|].
  split; [|split; [done|]].
  - rewrite Hp. pose proof Hp as Hp'. unfold ParseMessage in Hp'. rewrite Hph in Hp'.
    destruct (negb _) in Hp'; [done|]. destruct (parsePayloadChain _ _) as [[?|]|]; [|done..]. by simplify_eq.
  - eexists _, _. split; [exact Hd|]. unfold parseInnerPayloads. destruct (build_spec ps) as (Hb & Hf & _). unfold Bytes in *.
    rewrite Hf, Hb, walk_encode; [done|done|by apply stops_never|lia].
Qed.

Lemma openRequest_sealed sa pkt h' sk first inner ps hdr remote ex now on4500 :
  WeAreInitiator sa = false -> IsResponse hdr = false -> MessageID hdr = RecvMsgID sa -> exchangeAllowed (State sa) ex = true ->
  ParseMessage pkt = Some (Ok (mkMessage h' [sk])) -> Type_ sk = TypeSK ->
  decryptSK pkt sk (SASuite sa) (Keys sa) dirInitiatorToResponder = Ok (first, inner) -> parseInnerPayloads first inner = Some (Ok ps) ->
  openRequest sa pkt hdr remote ex now on4500 = (Some (mkDispatch ex ps), authenticated (sa <| fragReasm := fragReasm sa |>) now remote on4500).
Proof.
  intros Hi Hr Hid Hex Hp Ht Hd Hin. unfold openRequest. rewrite Hr, Hid, Z.eqb_refl. cbn [negb].
  unfold openSecured, Find. rewrite Hp. cbn [Payloads find_type]. rewrite Ht. cbn [Z.eqb Pos.eqb].
  unfold dirForInbound. rewrite Hi, Hd, Hin.
  change (State (authenticated (sa <| fragReasm := fragReasm sa |>) now remote on4500)) with (State sa). by rewrite Hex.
Qed.

(** ** The server's IKE_SA_INIT, without an additional key exchange *)

Definition init_keyed (suite : Suite) (x : bytes) (sa : IKESA) : IKESA :=
  let sa := sa <| ADDKEGroup := 0 |> in
  let keys := default zero_keys (snd <$> DeriveIKEKeys (SuitePRF suite) x (SANi sa) (SANr sa) (SAInitiatorSPI sa) (SAResponderSPI sa) (encKeyLen suite) (integKeyLen suite)) in
  sa <| Keys := keys |> <| State := StateSAInitDone |>.

Lemma initExchange_eq ds pkt h msg saBody keBody nonce loc on4500 s reqSA suite accepted ke dh pub dh' x :
  parsed (ParseSA saBody) = Some reqSA -> SelectIKESuite reqSA = Ok (suite, accepted) -> ParseKE keBody = Ok ke -> (Group ke =? DHID suite) = true ->
  transformDH (DHID suite) = Ok dh -> Generate dh (d_dh ds) = (pub, dh') -> ComputeSecret dh' (KeyData ke) = Ok x -> hasIntermediateSupport msg = false -> RequirePostQuantum (cfg s) = false ->
  forall sa resp, sa = init_keyed suite x (init_sa ds pkt h msg nonce x suite loc on4500 s) -> resp = init_response sa accepted pub loc on4500 s ->
  initExchange ds pkt h msg saBody keBody nonce loc on4500 s = send_pkt resp loc on4500 (storeSA (new_ptr s) (sa <| ResponderSAInit := resp |> <| RecvMsgID := 1 |>) s).
Proof.
  intros H1 H2 H3 H4 H5 H6 H7 H8 H9 sa resp -> ->. unfold initExchange. rewrite H1, H2, H3, H4, H5, H6, H7, H8, H9. reflexivity.
Qed.

(** One step of the client's monad. *)
Lemma io_bind {A B} (m : IO Priv CertPool A) (f : A -> IO Priv CertPool B) c x c' : m c = (Ok x, c') -> (m ≫= f) c = f x c'.
Proof. unfold mbind, IO_bind. by intros ->. Qed.

Ltac io_step := erewrite io_bind by reflexivity; cbv beta iota.

(** ** The server's IKE_AUTH, with a shared key *)

(** What the request says of the peer. *)
Definition auth_noted (hdr : Header) (idi : IDPayload) (inners : list RawPayload) (sa : IKESA) : IKESA :=
  let sa := sa <| IKEAuthMsgID := MessageID hdr |> in
  sa <| PeerID := idi |> <| IDiForAuth := idPayloadBody idi |> <| peerMobike := findMobikeSupported inners |>.

Lemma handleIKEAuth_eq ds sa hdr inners remote s idiPay idi ap auth :
  eapServer sa = None -> findInner inners TypeIDi = Some idiPay -> ParseID (Body idiPay) = Ok idi -> findInner inners TypeAUTH = Some ap -> ParseAuth (Body ap) = Ok auth ->
  AMethod auth = AuthSharedKeyMIC -> handleIKEAuth ds sa hdr inners remote s = pskAuth ds (auth_noted hdr idi inners sa) hdr inners auth remote s.
Proof.
  intros H1 H2 H3 H4 H5 H6. unfold handleIKEAuth. rewrite H1, H2, H3, H4, H5, H6. reflexivity.
Qed.

Lemma pskAuth_eq ds sa hdr inners auth remote s :
  AMethod auth = AuthSharedKeyMIC -> cPSK (cfg s) <> [] ->
  AData auth = computePSKAuth (SuitePRF (SASuite sa)) (cPSK (cfg s)) (InitiatorSAInit sa) (SANr sa) (SKpi (Keys sa)) (IDiForAuth sa) (intAuth sa (IKEAuthMsgID sa)) ->
  let ours := computePSKAuth (SuitePRF (SASuite sa)) (cPSK (cfg s)) (ResponderSAInit sa) (SANi sa) (SKpr (Keys sa)) (idPayloadBody (LocalID (cfg s))) (intAuth sa (IKEAuthMsgID sa)) in
  pskAuth ds sa hdr inners auth remote s =
  finishIKEAuth ds sa hdr inners (build [raw TypeIDr (idPayloadBody (LocalID (cfg s))); raw TypeAUTH (MarshalAuth (mkAuth AuthSharedKeyMIC ours))]) remote s.
Proof.
  intros H1 H2 H3. unfold pskAuth. rewrite H1, (proj2 (verifyPeerPSKAuth_iff _ _ _ _ _ _ _ _) (conj H2 H3)). reflexivity.
Qed.

Lemma finishIKEAuth_eq ds sa hdr inners b remote s saP tsiP tsrP cpP cp sa2 s2 child accepted b2 child2 :
  findInner inners TypeSA = Some saP -> findInner inners TypeTSi = Some tsiP -> findInner inners TypeTSr = Some tsrP -> findInner inners TypeCP = Some cpP -> peerMobike sa = true ->
  assign_address (sa <| IkeSession.MobikeEnabled := true |>) (Some (Body cpP)) s = (Some cp, sa2, s2) ->
  negotiate_child ds sa2 (Body saP) (Body tsiP) (Body tsrP) = Some (child, accepted) ->
  add_child (Add (addMobikeSupported b) TypeCP false (MarshalCP cp)) sa2 child accepted (Body tsiP) (Body tsrP) inners s2 = (b2, child2) ->
  let sa3 := sa2 <| State := StateEstablished |> <| RecvMsgID := wrap 32 (MessageID hdr + 1) |> in
  finishIKEAuth ds sa hdr inners b remote s =
  install_child sa3 (place_child s2 sa3 remote child2) (respondEncrypted ds sa3 IKE_AUTH (MessageID hdr) (FirstType b2) (Bytes b2) remote s2).
Proof.
  intros H1 H2 H3 H4 H5 H6 H7 H8. unfold finishIKEAuth. rewrite H1, H2, H3, H4. cbn [or_saved]. rewrite H5.
  replace (peerMobike (sa <| IkeSession.MobikeEnabled := true |>)) with true by (by destruct sa). rewrite H6. unfold child_payloads. rewrite H7, H8. reflexivity.
Qed.

(** ** The client's IKE_SA_INIT, without an additional key exchange *)

(** What stays of a client through an exchange. *)
Definition client_base (c : Cl) := (ccfg c, remoteAddr c, closed c, certCred c, intAuthI c, intAuthR c, addkeGroup c, cfragReasm c).

(** What the response adds to the client. *)
Definition init_noted (resp : bytes) (msg : Message) (suite : Suite) (c : Cl) : Cl :=
  let c := c <| saInitResp := resp |> in
  let c := c <| spiR := ResponderSPI (MHeader msg) |> <| frag := findFragSupported (Payloads msg) |>
             <| cpeerSigHashes := findSigHashes (Payloads msg) |> <| peerIntermediate := hasIntermediateSupport msg |> in
  c <| csuite := suite |>.

Definition init_secret (suite : Suite) (nonce x : bytes) (c : Cl) : Cl :=
  let c := c <| nr := ParseNonce nonce |> in
  c <| ckeys := default zero_keys (snd <$> DeriveIKEKeys (SuitePRF suite) x (ni c) (nr c) (spiI c) (spiR c) (encKeyLen suite) (integKeyLen suite)) |>.

Lemma init_noted_fields resp msg suite c :
  let c' := init_noted resp msg suite c in
  spiI c' = spiI c /\ spiR c' = ResponderSPI (MHeader msg) /\ csuite c' = suite /\ ni c' = ni c /\ cdh c' = cdh c /\ saInitReq c' = saInitReq c /\ saInitResp c' = resp /\
  frag c' = findFragSupported (Payloads msg) /\ client_base c' = client_base c /\ ccfg c' = ccfg c /\ reads c' = reads c /\ written c' = written c.
Proof. by destruct c. Qed.

Lemma init_secret_fields suite nonce x c :
  let c' := init_secret suite nonce x c in
  spiI c' = spiI c /\ spiR c' = spiR c /\ csuite c' = csuite c /\ ni c' = ni c /\ nr c' = nonce /\ saInitReq c' = saInitReq c /\ saInitResp c' = saInitResp c /\
  frag c' = frag c /\ client_base c' = client_base c /\ reads c' = reads c /\ written c' = written c /\
  ckeys c' = default zero_keys (snd <$> DeriveIKEKeys (SuitePRF suite) x (ni c) nonce (spiI c) (spiR c) (encKeyLen suite) (integKeyLen suite)).
Proof. by destruct c. Qed.

Lemma saInit_response_eq resp msg saPay kePay noncePay reqSA suite accepted ke x c :
  parsed (ParseMessage resp) = Some msg -> findNotifyError (Payloads msg) = 0 -> Find msg TypeSA = Some saPay -> Find msg TypeKE = Some kePay -> Find msg TypeNonce = Some noncePay ->
  parsed (ParseSA (Body saPay)) = Some reqSA -> SelectIKESuite reqSA = Ok (suite, accepted) -> ParseKE (Body kePay) = Ok ke -> PostQuantum (ccfg c) = false -> ComputeSecret (cdh c) (KeyData ke) = Ok x ->
  saInit_response resp c = (Ok (), init_secret suite (Body noncePay) x (init_noted resp msg suite c)).
Proof.
  intros H1 H2 H3 H4 H5 H6 H7 H8 H9 H10. unfold saInit_response. io_step. rewrite H1. io_step. rewrite H2. do 2 io_step. rewrite H3, H4, H5. do 3 io_step. rewrite H6. io_step. rewrite H7. do 3 io_step.
  fold (init_noted resp msg suite c). destruct (init_noted_fields resp msg suite c) as (_ & _ & _ & _ & E5 & _ & _ & _ & _ & E10 & _).
  generalize dependent (init_noted resp msg suite c). intros c3 E5 E10. rewrite E10, H9. cbn [andb]. io_step. rewrite E10, H9. cbn [andb negb]. io_step. rewrite H8, E5, H10. io_step. reflexivity.
Qed.

(** ** The client's IKE_AUTH, with a shared key *)

(** A sealed answer that is read whole. *)
Lemma recvInners_sealed dr c pkt rest h sk first inner ps :
  TCP (ccfg c) = false -> reads c = pkt :: rest -> ParseMessage (strip_marker pkt) = Some (Ok (mkMessage h [sk])) -> Type_ sk = TypeSK ->
  decryptSK (strip_marker pkt) sk (csuite c) (ckeys c) dirResponderToInitiator = Ok (first, inner) -> parseInnerPayloads first inner = Some (Ok ps) -> findNotifyError ps = 0 ->
  recvInners dr c = (Ok ps, c <| reads := rest |>).
Proof.
  intros Ht Hr Hp Hty Hd Hi Hn. unfold recvInners. rewrite Ht, Hr. cbn [fmap list_fmap recv_loop read_as]. rewrite Hp. cbn [Payloads findNotifyError]. rewrite Hty. cbn [Z.eqb Pos.eqb negb].
  unfold open_response, Find. cbn [Payloads find_type]. rewrite Hty. cbn [Z.eqb Pos.eqb]. rewrite Hd. unfold inner_result, findInnerNotifyError. rewrite Hi, Hn. cbn [Z.eqb]. rewrite length_fmap, Hr.
  by replace (length (pkt :: rest) - length rest)%nat with 1%nat by (cbn [length]; lia).
Qed.

Lemma verifyServerAuth_eq c inners key ap auth idrPay idr :
  findInner inners TypeAUTH = Some ap -> ParseAuth (Body ap) = Ok auth -> findInner inners TypeIDr = Some idrPay -> ParseID (Body idrPay) = Ok idr ->
  match RemoteID (ccfg c) with Some want => want = idr | None => True end -> key <> [] ->
  AData auth = computePSKAuth (SuitePRF (csuite c)) key (saInitResp c) (ni c) (SKpr (ckeys c)) (idPayloadBody idr) (finalIntAuth (intAuthI c) (intAuthR c) (authMsgID c)) ->
  verifyServerAuth inners key false c = (Ok (), c <| serverIDBody := idPayloadBody idr |>).
Proof.
  intros H1 H2 H3 H4 H5 H6 H7. unfold verifyServerAuth. rewrite H1. io_step. rewrite H2. io_step.
  rewrite (io_bind (server_id inners) _ c (idPayloadBody idr) (c <| serverIDBody := idPayloadBody idr |>)).
  - io_step. set (c' := c <| serverIDBody := _ |>).
    assert (csuite c' = csuite c /\ saInitResp c' = saInitResp c /\ ni c' = ni c /\ ckeys c' = ckeys c /\ intAuthI c' = intAuthI c /\ intAuthR c' = intAuthR c /\ authMsgID c' = authMsgID c)
      as (E1 & E2 & E3 & E4 & E5 & E6 & E7) by done. clearbody c'.
    unfold lift_result, cl_intAuth. by rewrite E1, E2, E3, E4, E5, E6, E7, (proj2 (verifyPeerPSKAuth_iff _ _ _ _ _ _ _ _) (conj H6 H7)).
  - unfold server_id. io_step. rewrite H3, H4. unfold guard_io. destruct (RemoteID (ccfg c)) as [want|]; [|done]. subst want.
    unfold same_id. rewrite Z.eqb_refl, bool_decide_eq_true_2 by done. done.
Qed.

Lemma applyAuthResult_eq c inners spi cpPay cp saPay es acc p ps :
  findInner inners TypeCP = Some cpPay -> parsed (ParseCP (Body cpPay)) = Some cp -> findInner inners TypeSA = Some saPay -> sa_proposals (Body saPay) = mkSA (p :: ps) ->
  SelectESPSuite (mkSA (p :: ps)) = Ok (es, acc) -> length (SPI p) = 4%nat -> TCP (ccfg c) = false ->
  let res := cp_result cp (mkClientResult [] [] [] 0 [] (remoteAddr c) true no_child false 0 0) in
  AssignedIP res <> [] ->
  exists r c', applyAuthResult inners spi c = (Ok (), c') /\ cresult c' = Some r /\ AssignedIP r = AssignedIP res /\ RNetmask r = RNetmask res /\ RDNS r = RDNS res /\
    (let '(encI, integI, encR, integR) := child_keys (SuitePRF (csuite c)) (SKd (ckeys c)) (ni c) (nr c) es in r_child r = mkChildSA spi (beU32 (SPI p)) es encI integI encR integR) /\
    written c' = written c /\ reads c' = reads c /\ sendMsgID c' = sendMsgID c.
Proof.
  intros H1 H2 H3 H4 H5 H6 H7 res Hip. unfold applyAuthResult. io_step.
  set (c1 := c <| cmobike := _ |>). assert (remoteAddr c1 = remoteAddr c /\ ccfg c1 = ccfg c) as [E1 E2] by done. io_step. rewrite H1, H2, E1, E2, H7. change (negb false) with true. fold res.
  rewrite bool_decide_eq_false_2 by done. cbn [andb negb]. io_step. rewrite H3. io_step. rewrite H4, H5. io_step. cbn [Proposals]. rewrite H6. cbn [Nat.eqb]. clearbody res.
  change (csuite c1) with (csuite c). change (ckeys c1) with (ckeys c). change (ni c1) with (ni c). change (nr c1) with (nr c).
  destruct (child_keys _ _ _ _ _) as [[[encI integI] encR] integR].
  destruct (ccIPTFS (ccfg c)); [destruct (cl_acceptAggFrag inners)|]; eexists _, _; (split; [reflexivity|]); by destruct res.
Qed.

(** ** The setting *)

#[local] Set Implicit Arguments.

(** What both ends of a plain shared-key handshake over UDP have in common. *)
Record psk_setting (d : cdraws) (ds1 ds2 : draws) (cc : ClientConfig Priv CertPool) (loc rem loc2 : UDPAddr) (s : Srv) (a : Assignment) (l : LS) : Prop := {
  ps_psk : ccPSK cc = cPSK (cfg s) /\ cPSK (cfg s) <> [];
  ps_client : PostQuantum cc = false /\ ClientCert cc = None /\ EAPUsername cc = [] /\ TCP cc = false;
  ps_remote : match RemoteID cc with Some want => want = LocalID (cfg s) | None => True end;
  ps_server : RequirePostQuantum (cfg s) = false /\ hasAssignAddr (cfg s) = true;
  ps_open : HalfOpen (gate s) < cookieThreshold /\ (Admit (gate s) (Admission.UDPAddr (udpIP loc)) (d_now ds1)).1 = HandshakeAdmitted;
  ps_ids : (length (IDData (ccLocalID cc)) <= 255)%nat /\ (length (IDData (LocalID (cfg s))) <= 255)%nat;
  ps_spis : uint64 (newIKESPI (cd_spi d)) /\ uint64 (newIKESPI (d_spi ds1)) /\ uint32 (newChildSPI (cd_child d)) /\ uint32 (newChildSPI (d_child ds2));
  ps_marker : 2 ^ 32 <= newIKESPI (cd_spi d);
  ps_nonces : length (cd_nonce d 32) = 32%nat /\ length (d_nonce ds1 32) = 32%nat;
  ps_ivs : length (cd_ivs d 1 0%nat) = 8%nat /\ length (d_ivs ds2 0%nat) = 8%nat;
  ps_udp : addr_key loc ∉ streams s /\ addr_key loc2 ∉ streams s;
  ps_lease : AssignAddr (mkRequest true true) (leases s) = (Some a, l);
  ps_address : length (IP4 a) = 4%nat /\ length (Netmask a) = 4%nat /\ IP6 a = [] /\ Forall (fun x => length x = 4%nat) (DNS a) /\ (length (DNS a) <= 16)%nat;
}.

#[local] Unset Implicit Arguments.

Definition psk_suite : Suite := mkSuite 20 256 5 0 31 (AeadCipher AesGCM 32) (NewHMACPRF SHA256) None.
Definition psk_accepted : Proposal := mkProposal 1 ProtoIKE [] [tr_len TransformENCR ENCR_AES_GCM_16 256; tr TransformPRF PRF_HMAC_SHA2_256; tr TransformDH DH_CURVE25519].

(** *** The messages of IKE_SA_INIT *)

Definition init_payloads (spi : Z) (pub nonce : bytes) (loc : UDPAddr) : list RawPayload := [
  raw TypeSA (MarshalSA (mkSA DefaultIKEProposals)); raw TypeKE (MarshalKE (mkKE DH_CURVE25519 pub)); raw TypeNonce nonce;
  note NATDetectionSourceIP (natDetectionHash spi 0 (ip_octets (udpIP loc)) (wrap 16 (udpPort loc)));
  note NATDetectionDestinationIP (natDetectionHash spi 0 (v4_mapped_prefix ++ [0; 0; 0; 0]) 0);
  note IKEFragmentationSupported []].

Definition init_hdr (spi spiR flags : Z) (ps : list RawPayload) : Header :=
  mkHeader spi spiR (FirstType (build ps)) 0x20 IKE_SA_INIT flags 0 (wrap 32 (Z.of_nat (IkeHeaderLen + length (Bytes (build ps))))).

Definition cert_payloads (s : Srv) : list RawPayload :=
  match serverCred s, ClientCAs (cfg s) with
  | None, None => []
  | _, _ => [note SignatureHashAlgorithms (flat_map (be_enc 2) sigHashList); raw TypeCERTREQ (MarshalCertReq (mkCertReq CertX509Signature []))]
  end.

Definition reply_payloads (spi spiR : Z) (pub nonce : bytes) (loc : UDPAddr) (s : Srv) : list RawPayload := [
  raw TypeSA (MarshalSA (mkSA [psk_accepted])); raw TypeKE (MarshalKE (mkKE DH_CURVE25519 pub)); raw TypeNonce nonce;
  note NATDetectionSourceIP (natDetectionHash spi spiR (if bool_decide (PublicIP (cfg s) = []) then v4_mapped_prefix ++ [0; 0; 0; 0] else PublicIP (cfg s)) (ourPort s false));
  note NATDetectionDestinationIP (natDetectionHash spi spiR (ip_octets (udpIP loc)) (wrap 16 (udpPort loc)));
  note IKEFragmentationSupported []] ++ cert_payloads s.

Section Handshake.
Context (d : cdraws) (ds1 ds2 : draws) (cc : ClientConfig Priv CertPool) (loc rem loc2 : UDPAddr) (s0 : Srv) (a : Assignment) (l : LS).
Context (S : psk_setting d ds1 ds2 cc loc rem loc2 s0 a l).

Abbreviation SPIi := (newIKESPI (cd_spi d)).
Abbreviation SPIr := (newIKESPI (d_spi ds1)).
Abbreviation Ni := (cd_nonce d 32).
Abbreviation Nr := (d_nonce ds1 32).

Definition pubI : bytes := (Generate (NewECDH X25519 false) (cd_dh d)).1.
Definition pubR : bytes := (Generate (NewECDH X25519 false) (d_dh ds1)).1.
Definition request1 : bytes := wire (init_hdr SPIi 0 FlagInitiator (init_payloads SPIi pubI Ni loc)) (init_payloads SPIi pubI Ni loc).
Definition reply1 : bytes := wire (init_hdr SPIi SPIr FlagResponse (reply_payloads SPIi SPIr pubR Nr loc s0)) (reply_payloads SPIi SPIr pubR Nr loc s0).

(** A new client, with what the network will bring it, and as its request leaves it. *)
Definition c0 (rs : list bytes) : Cl := (NewClient cc loc rem) <| reads := rs |>.
Definition c1 (rs : list bytes) : Cl :=
  let c := c0 rs in
  c <| spiI := SPIi |> <| cdh := (Generate (NewECDH X25519 false) (cd_dh d)).2 |> <| ni := Ni |> <| saInitReq := request1 |>.

Lemma saInit_sends rs : saInit_request d (c0 rs) = Ok (request1, c1 rs).
Proof.
  destruct (ps_client S) as (Hpq & Hcert & _).
  assert (transformDH DH_CURVE25519 = Ok (NewECDH X25519 false)) as Hdh by reflexivity.
  unfold saInit_request. rewrite Hdh. unfold c1, request1, pubI. destruct (Generate _ _) as [pub dh]. cbn [fst snd].
  set (c := _ <| ni := Ni |>). assert (certCred c = None) as Hc by (unfold c; cbn; by rewrite Hcert).
  unfold offered_proposals. change (ccfg c) with cc. rewrite Hc, Hpq.
  change (spiI c) with SPIi. change (ni c) with Ni. change (localAddr c) with loc.
  clearbody c.
  cbv beta iota zeta delta [wire init_hdr init_payloads build fold_left raw note Type_ Critical Body addNotify addFragSupported MarshalNonce].
reflexivity.
Qed.

Lemma length_notify t data : length (Body (note t data)) = (4 + length data)%nat.
Proof. unfold note, raw. cbn [Body]. unfold MarshalNotify. cbn. lia. Qed.

Lemma length_offer : (length (MarshalSA (mkSA DefaultIKEProposals)) <= 4000)%nat.
Proof. apply Nat.leb_le. by vm_compute. Qed.
Lemma length_accept : (length (MarshalSA (mkSA [psk_accepted])) <= 4000)%nat.
Proof. apply Nat.leb_le. by vm_compute. Qed.

(** Payloads whose bodies have known lengths. *)
Ltac by_moderate :=
  repeat (apply Forall_cons; split); try apply Forall_nil_2; (split; [done|split; [done|]]); rewrite ?length_notify; cbn [raw Body];
  first [ apply length_offer | apply length_accept
        | unfold MarshalKE, MarshalNonce, natDetectionHash; autorewrite with wire; rewrite ?length_digest; cbn [KeyData];
          repeat match goal with H : length _ = _ |- _ => rewrite H end; cbn; lia ].

Lemma init_moderate : Forall moderate (init_payloads SPIi pubI Ni loc).
Proof.
  destruct (ps_nonces S) as [Hn _]. assert (length pubI = 32%nat) as Hp by apply (ec_pub_len X25519).
  unfold init_payloads. by_moderate.
Qed.

Lemma cert_moderate : Forall moderate (cert_payloads s0) /\ (length (cert_payloads s0) <= 2)%nat.
Proof. unfold cert_payloads. destruct (serverCred s0), (ClientCAs (cfg s0)); (split; [|done || (cbn; lia)]); by_moderate. Qed.

Lemma reply_moderate : Forall moderate (reply_payloads SPIi SPIr pubR Nr loc s0).
Proof.
  destruct (ps_nonces S) as [_ Hn]. assert (length pubR = 32%nat) as Hp by apply (ec_pub_len X25519).
  unfold reply_payloads. apply Forall_app. split; [|apply cert_moderate]. by_moderate.
Qed.

Lemma init_parses spi spiR' flags ps :
  uint64 spi -> uint64 spiR' -> Forall moderate ps -> (length ps <= 10)%nat ->
  let h := init_hdr spi spiR' flags ps in
  ParseMessage (wire h ps) = Some (Ok (mkMessage h ps)) /\ IkeMessage.ParseHeader (wire h ps) = Ok h /\ (length (wire h ps) <? IkeHeaderLen)%nat = false.
Proof.
  intros Hi Hr Hm Hn. destruct (moderate_wf _ Hm) as (H1 & H2 & H3). apply wire_parses; try done; [|rewrite length_build; lia].
  split; [done|done|done|by apply wrap_uint].
Qed.

(** *** The server's side of IKE_SA_INIT *)

Definition psk_secret : bytes := match ComputeSecret (Generate (NewECDH X25519 false) (d_dh ds1)).2 pubI with Ok x => x | Err _ => [] end.

Lemma secrets :
  ComputeSecret (Generate (NewECDH X25519 false) (d_dh ds1)).2 pubI = Ok psk_secret /\
  ComputeSecret (Generate (NewECDH X25519 false) (cd_dh d)).2 pubR = Ok psk_secret.
Proof.
  unfold psk_secret, pubI, pubR. pose proof (dh_agrees_spec (NewECDH X25519 false) (cd_dh d) (d_dh ds1)) as H.
  destruct (Generate _ (cd_dh d)) as [pa ga], (Generate _ (d_dh ds1)) as [pb gb]. cbn [fst snd].
  destruct H as (x & H1 & H2); [by right; left|done|done|]. by rewrite H2.
Qed.

Definition psk_keys : SAKeys :=
  default zero_keys (snd <$> DeriveIKEKeys (SuitePRF psk_suite) psk_secret Ni Nr SPIi SPIr (encKeyLen psk_suite) (integKeyLen psk_suite)).

(** What IKE_SA_INIT leaves in the SA. *)
Record init_done (sa : IKESA) : Prop := {
  id_spis : SAInitiatorSPI sa = SPIi /\ SAResponderSPI sa = SPIr; id_role : WeAreInitiator sa = false; id_suite : SASuite sa = psk_suite;
  id_nonces : SANi sa = Ni /\ SANr sa = Nr; id_keys : Keys sa = psk_keys; id_state : State sa = StateSAInitDone; id_msgs : InitiatorSAInit sa = request1 /\ ResponderSAInit sa = reply1;
  id_recv : RecvMsgID sa = 1; id_frag : fragEnabled sa = true; id_eap : eapServer sa = None; id_int : IntAuthI sa = [] /\ IntAuthR sa = [];
  id_children : Children sa = ∅; id_remote : RemoteAddr sa = Some loc; id_reasm : fragReasm sa = newReassembler;
  id_saved : eapSApay sa = None /\ eapTSipay sa = None /\ eapTSrpay sa = None /\ eapCPpay sa = None }.

Lemma init_response_eq sa s :
  SASuite sa = psk_suite -> SANr sa = Nr -> SAInitiatorSPI sa = SPIi -> SAResponderSPI sa = SPIr -> fragEnabled sa = true -> ADDKEGroup sa = 0 ->
  cfg s = cfg s0 -> serverCred s = serverCred s0 -> init_response sa psk_accepted pubR loc false s = reply1.
Proof.
  intros H1 H2 H3 H4 H5 H6 H7 H8. unfold init_response, reply1, reply_payloads, cert_payloads, ourPort, addNATDetection.
  rewrite H1, H2, H3, H4, H5, H6, H7, H8. cbn [Z.eqb negb DHID psk_suite].
  destruct (serverCred s0), (ClientCAs (cfg s0));
    cbv beta iota zeta delta [wire init_hdr build fold_left raw note Type_ Critical Body addNotify addFragSupported addSigHashNotify MarshalNonce app]; reflexivity.
Qed.

(** What the offer negotiates. *)
Lemma offer_accepted :
  parsed (ParseSA (MarshalSA (mkSA DefaultIKEProposals))) = Some (mkSA DefaultIKEProposals) /\
  SelectIKESuite (mkSA DefaultIKEProposals) = Ok (psk_suite, psk_accepted) /\ transformDH (DHID psk_suite) = Ok (NewECDH X25519 false).
Proof. split_and!; vm_compute; reflexivity. Qed.

Lemma init_has h : hasIntermediateSupport (mkMessage h (init_payloads SPIi pubI Ni loc)) = false /\ findFragSupported (init_payloads SPIi pubI Ni loc) = true.
Proof. unfold hasIntermediateSupport, init_payloads. cbn [Payloads]. split; by payloads. Qed.

(** What is true of the SA of a request, whatever its secret. *)
Record init_begun (sa : IKESA) : Prop := {
  ib_spis : SAInitiatorSPI sa = SPIi /\ SAResponderSPI sa = SPIr; ib_role : WeAreInitiator sa = false; ib_suite : SASuite sa = psk_suite;
  ib_nonces : SANi sa = Ni /\ SANr sa = Nr; ib_msg : InitiatorSAInit sa = request1; ib_frag : fragEnabled sa = true; ib_eap : eapServer sa = None;
  ib_int : IntAuthI sa = [] /\ IntAuthR sa = []; ib_children : Children sa = ∅; ib_remote : RemoteAddr sa = Some loc; ib_reasm : fragReasm sa = newReassembler;
  ib_saved : eapSApay sa = None /\ eapTSipay sa = None /\ eapTSrpay sa = None /\ eapCPpay sa = None }.

Lemma init_sa_begun h ps x s :
  InitiatorSPI h = SPIi -> findFragSupported ps = true -> init_begun (init_sa ds1 request1 h (mkMessage h ps) Ni x psk_suite loc false s).
Proof. intros Hi Hf. by split. Qed.

Lemma init_keyed_begun x sa : init_begun sa -> init_begun (init_keyed psk_suite x sa) /\ ADDKEGroup (init_keyed psk_suite x sa) = 0 /\ State (init_keyed psk_suite x sa) = StateSAInitDone.
Proof. intros []. by destruct sa. Qed.

Lemma init_keyed_keys sa : init_begun sa -> Keys (init_keyed psk_suite psk_secret sa) = psk_keys.
Proof.
  intros [[Hi Hr] _ _ [Hn Hm] _ _ _ _ _ _ _ _]. unfold psk_keys. rewrite <- Hi, <- Hr, <- Hn, <- Hm. clear. by destruct sa.
Qed.

Lemma init_done_of sa : init_begun sa -> Keys sa = psk_keys -> State sa = StateSAInitDone -> init_done (sa <| ResponderSAInit := reply1 |> <| RecvMsgID := 1 |>).
Proof. intros [] Hk Hs. split; done. Qed.

Lemma initExchange_reply s :
  cfg s = cfg s0 -> serverCred s = serverCred s0 ->
  let ps := init_payloads SPIi pubI Ni loc in let h := init_hdr SPIi 0 FlagInitiator ps in
  exists sa, init_done sa /\
    initExchange ds1 request1 h (mkMessage h ps) (MarshalSA (mkSA DefaultIKEProposals)) (MarshalKE (mkKE DH_CURVE25519 pubI)) Ni loc false s =
    send_pkt reply1 loc false (storeSA (new_ptr s) sa s).
Proof.
  intros Hcfg Hcred ps h. destruct offer_accepted as (H1 & H2 & H3), secrets as [Hs _], (init_has h) as [Hi Hfs], (ps_server S) as [Hpq _].
  pose proof (init_sa_begun h ps psk_secret s eq_refl Hfs) as Hb.
  pose proof (fun resp => initExchange_eq ds1 request1 h (mkMessage h ps) _ _ Ni loc false s _ _ _ _ _ _ _ _ H1 H2 (ParseKE_marshal (mkKE DH_CURVE25519 pubI) ltac:(by_decision)) eq_refl H3
    (surjective_pairing _) Hs Hi (eq_trans (f_equal _ Hcfg) Hpq) _ resp eq_refl) as E.
  destruct (init_keyed_begun psk_secret _ Hb) as (Hb' & Ha & Hst). pose proof (init_keyed_keys _ Hb) as Hk.
  generalize dependent (init_keyed psk_suite psk_secret (init_sa ds1 request1 h (mkMessage h ps) Ni psk_secret psk_suite loc false s)). intros sa E Hb' Ha Hst Hk.
  exists (sa <| ResponderSAInit := reply1 |> <| RecvMsgID := 1 |>). split; [by apply init_done_of|]. apply E. symmetry.
  destruct Hb' as [[? ?] _ ? [? ?] _ ? _ _ _ _ _ _]. by apply init_response_eq.
Qed.

(** The server as the request leaves it: one more SA, one more answer. *)
Record answered (s1 : Srv) (p : nat) (sa : IKESA) : Prop := {
  an_cfg : cfg s1 = cfg s0; an_leases : leases s1 = leases s0; an_streams : streams s1 = streams s0;
  an_out : out s1 = out s0 ++ [Out500 reply1 loc]; an_byRSPI : byRSPI s1 !! SPIr = Some p; an_sas : sas s1 !! p = Some sa }.

Lemma server_init : exists p sa, answered (handlePacket ds1 request1 loc false s0) p sa /\ init_done sa.
Proof.
  destruct (ps_spis S) as (Hsi & Hsr & _), (ps_udp S) as [Hudp _], (ps_open S) as [Ho Ha].
  destruct (init_parses SPIi 0 FlagInitiator _ Hsi ltac:(done) init_moderate ltac:(cbn; lia)) as (Hp & Hh & Hl). fold request1 in Hp, Hh, Hl.
  unfold handlePacket. rewrite Hl, Hh. change (negb (Z.shiftr (Version (init_hdr _ _ _ _)) 4 =? 2)) with false.
  change (ExchangeType (init_hdr _ _ _ _) =? IKE_SA_INIT) with true. cbv iota. unfold handleIKESAInit. rewrite Hp. cbn [parsed].
  set (ps := init_payloads SPIi pubI Ni loc) in *. set (h := init_hdr SPIi 0 FlagInitiator ps) in *.
  change (IsResponse h) with false. change (Find (mkMessage h ps) TypeSA) with (Some (raw TypeSA (MarshalSA (mkSA DefaultIKEProposals)))).
  change (Find (mkMessage h ps) TypeKE) with (Some (raw TypeKE (MarshalKE (mkKE DH_CURVE25519 pubI)))). change (Find (mkMessage h ps) TypeNonce) with (Some (raw TypeNonce Ni)).
  cbv iota. cbn [raw Body]. unfold checkCookie. rewrite (proj2 (Z.ltb_lt _ _) Ho). cbn [negb].
  destruct (Admit _ _ _) as [r g]. cbn [fst] in Ha. subst r.
  match goal with |- context [initExchange _ _ _ _ _ _ _ _ _ ?s] => destruct (initExchange_reply s eq_refl eq_refl) as (sa & Hd & E); fold ps h in E; rewrite E; clear E; exists (new_ptr s), sa; generalize (new_ptr s) end.
  intros p. split; [|done]. destruct Hd as [[_ Hspi] _ _ _ _ _ _ _ _ _ _ _ Hrem _ _].
  unfold storeSA. rewrite Hspi, Hrem. clear - Hudp. split; try done; cbn.
  - unfold sendIKE. cbn. by rewrite bool_decide_eq_false_2.
  - by rewrite lookup_insert_eq.
  - by rewrite lookup_insert_eq.
Qed.

(** *** The client's side of IKE_SA_INIT *)

(** The client after the response. *)
Record keyed (c : Cl) : Prop := {
  kd_spis : spiI c = SPIi /\ spiR c = SPIr; kd_suite : csuite c = psk_suite; kd_nonces : ni c = Ni /\ nr c = Nr; kd_keys : ckeys c = psk_keys;
  kd_msgs : saInitReq c = request1 /\ saInitResp c = reply1; kd_frag : frag c = true }.

Lemma reply_has : let ps := reply_payloads SPIi SPIr pubR Nr loc s0 in findNotifyError ps = 0 /\ findFragSupported ps = true.
Proof.
  unfold reply_payloads, cert_payloads. destruct (serverCred s0), (ClientCAs (cfg s0)); cbn [app]; split; by payloads.
Qed.

Lemma reply_accepted : parsed (ParseSA (MarshalSA (mkSA [psk_accepted]))) = Some (mkSA [psk_accepted]) /\ SelectIKESuite (mkSA [psk_accepted]) = Ok (psk_suite, psk_accepted).
Proof. split; vm_compute; reflexivity. Qed.

Lemma client_init_response c :
  PostQuantum (ccfg c) = false -> cdh c = (Generate (NewECDH X25519 false) (cd_dh d)).2 -> ni c = Ni -> spiI c = SPIi -> saInitReq c = request1 ->
  exists c', saInit_response reply1 c = (Ok (), c') /\ keyed c' /\ client_base c' = client_base c /\ reads c' = reads c /\ written c' = written c.
Proof.
  intros Hpq Hdh Hn Hs Hq. destruct (ps_spis S) as (Hsi & Hsr & _), reply_has as [Hne Hfs], reply_accepted as [Ha1 Ha2], secrets as [_ Hsec].
  destruct cert_moderate as [_ Hcl].
  destruct (init_parses SPIi SPIr FlagResponse _ Hsi Hsr reply_moderate ltac:(unfold reply_payloads; rewrite length_app; cbn; lia)) as (Hp & _). fold reply1 in Hp.
  set (ps := reply_payloads SPIi SPIr pubR Nr loc s0) in *. set (h := init_hdr SPIi SPIr FlagResponse ps) in *.
  pose proof (saInit_response_eq reply1 (mkMessage h ps) (raw TypeSA (MarshalSA (mkSA [psk_accepted]))) (raw TypeKE (MarshalKE (mkKE DH_CURVE25519 pubR))) (raw TypeNonce Nr)
    _ _ _ (mkKE DH_CURVE25519 pubR) psk_secret c ltac:(by rewrite Hp) Hne eq_refl eq_refl eq_refl Ha1 Ha2 ltac:(by apply ParseKE_marshal; by_decision) Hpq ltac:(by rewrite Hdh)) as E.
  cbn [raw Body] in E. rewrite E. clear E. eexists. split; [reflexivity|].
  destruct (init_noted_fields reply1 (mkMessage h ps) psk_suite c) as (E1 & E2 & E3 & E4 & E5 & E6 & E7 & E8 & E9 & E10 & E11 & E12).
  generalize dependent (init_noted reply1 (mkMessage h ps) psk_suite c). intros c3 E1 E2 E3 E4 E5 E6 E7 E8 E9 E10 E11 E12.
  destruct (init_secret_fields psk_suite Nr psk_secret c3) as (F1 & F2 & F3 & F4 & F5 & F6 & F7 & F8 & F9 & F11 & F12 & F13).
  generalize dependent (init_secret psk_suite Nr psk_secret c3). intros c4 F1 F2 F3 F4 F5 F6 F7 F8 F9 F11 F12 F13.
  change (ResponderSPI (MHeader (mkMessage h ps))) with SPIr in E2. cbn [Payloads] in E8.
  split; [|split_and!; congruence]. split; [split; congruence|congruence|split; congruence| |split; congruence|congruence].
  rewrite F13, E4, E1, E2, Hn, Hs. reflexivity.
Qed.

Lemma client_init rs :
  exists c, saInit d (c0 (reply1 :: rs)) = (Ok (), c) /\ keyed c /\ client_base c = client_base (c0 rs) /\ reads c = rs /\ written c = [request1].
Proof.
  destruct (ps_client S) as (Hpq & _ & _ & Htcp), (ps_spis S) as (Hsi & _). unfold saInit. io_step. rewrite saInit_sends. do 2 io_step.
  assert (exists c, c = c1 (reply1 :: rs) /\ ccfg c = cc /\ on4500 c = false /\ cdh c = (Generate (NewECDH X25519 false) (cd_dh d)).2 /\ ni c = Ni /\ spiI c = SPIi /\ saInitReq c = request1 /\
    client_base c = client_base (c0 rs) /\ reads c = reply1 :: rs /\ written c = []) as (c & <- & E1 & E2 & E3 & E4 & E5 & E6 & E7 & E8 & E9) by (eexists; split_and!; reflexivity).
  erewrite io_bind by (unfold writeIKE, cmodify; rewrite E1, E2, E9, Htcp; reflexivity). cbv beta.
  set (c2 := c <| written := _ |>). assert (reads c2 = reads c /\ ccfg c2 = ccfg c) as [F1 F2] by done.
  erewrite io_bind by (unfold readMessage; rewrite F1, F2, E1, E8, Htcp; reflexivity). cbv beta.
  replace (read_as false reply1) with reply1.
  2: { unfold read_as, reply1, wire, MarshalHeader. cbn [app]. rewrite <- !app_assoc. cbn [InitiatorSPI init_hdr]. symmetry. apply strip_marker_none; [done|apply (ps_marker S)]. }
  destruct (client_init_response (c2 <| reads := rs |>)) as (c' & H1 & H2 & H3 & H4 & H5); try (by rewrite <- ?E1, <- ?E3, <- ?E4, <- ?E5, <- ?E6 in *).
  exists c'. split_and!; try done. rewrite H3. exact E7.
Qed.

(** *** The client's IKE_AUTH request *)

Lemma psk_keys_ok : keys_ok psk_suite psk_keys.
Proof.
  unfold psk_keys, DeriveIKEKeys. cbv zeta.
  match goal with |- context [expandIKEKeys ?p ?k ?a ?b ?i ?r ?e ?n] => destruct (ike_keys_split p k a b i r e n) as (keys & km & -> & _ & _ & _ & _ & H) end.
  cbn. inversion_clear H as [|? ? H1 H2]. inversion_clear H2 as [|? ? H3 _]. split; [exact H1|exact H3].
Qed.

Definition childI : Z := newChildSPI (cd_child d).
Definition authI : bytes := computePSKAuth (SuitePRF psk_suite) (ccPSK cc) request1 Nr (SKpi psk_keys) (idPayloadBody (ccLocalID cc)) [].
Definition aggfrag_payloads (on : bool) : list RawPayload := if on then [note UseAggFrag (NotifyData OurFlags)] else [].
Definition auth_payloads : list RawPayload := [
  raw TypeIDi (idPayloadBody (ccLocalID cc)); raw TypeAUTH (MarshalAuth (mkAuth AuthSharedKeyMIC authI)); raw TypeCP (MarshalCP dualStackCPRequest);
  raw TypeSA (MarshalSA (mkSA (DefaultESPProposals (u32BE childI)))); raw TypeTSi (MarshalTS dualStackTS); raw TypeTSr (MarshalTS dualStackTS); note MobikeSupported []] ++ aggfrag_payloads (ccIPTFS cc).
Definition auth_hdr (flags : Z) (v : Z) : Header := mkHeader SPIi SPIr 0 v IKE_AUTH flags 1 0.

(** A message of [ps] as one end seals it. *)
Definition sealed_as (v : Z) (dir : keyDir) (flags : Z) (ivs : nat -> bytes) (ps : list RawPayload) : bytes :=
  match sealMaybeFragment (auth_hdr flags v) psk_suite psk_keys dir (FirstType (build ps)) (Bytes (build ps)) true ivs with Ok [pkt] => pkt | _ => [] end.

Lemma sealed_as_opens v dir flags ivs ps :
  length (ivs 0%nat) = 8%nat -> Forall wf_payload ps -> (extent ps <= 1200)%nat ->
  let pkt := sealed_as v dir flags ivs ps in
  sealMaybeFragment (auth_hdr flags v) psk_suite psk_keys dir (FirstType (build ps)) (Bytes (build ps)) true ivs = Ok [pkt] /\
  exists sk n, let h' := with_payload (auth_hdr flags v) TypeSK n in
    IkeMessage.ParseHeader pkt = Ok h' /\ (length pkt <? IkeHeaderLen)%nat = false /\ ParseMessage pkt = Some (Ok (mkMessage h' [sk])) /\ Type_ sk = TypeSK /\
    exists first inner, decryptSK pkt sk psk_suite psk_keys dir = Ok (first, inner) /\ parseInnerPayloads first inner = Some (Ok ps).
Proof.
  intros Hiv Hps Hx. destruct (ps_spis S) as (Hi & Hr & _).
  destruct (sealed_one (auth_hdr flags v) psk_suite psk_keys dir ps true ivs) as (pkt & sk & n & E & H); try done.
  - unfold wf_suite, wf_cipher. cbn. unfold aes_len. tauto.
  - apply psk_keys_ok.
  - rewrite length_build. unfold wouldExceedThreshold. apply Nat.ltb_ge. cbn. lia.
  - assert (sealed_as v dir flags ivs ps = pkt) as -> by (unfold sealed_as; by rewrite E). cbv zeta. split; [done|]. by exists sk, n.
Qed.

Definition request2 : bytes := sealed_as 0x20 dirInitiatorToResponder FlagInitiator (cd_ivs d 1) auth_payloads.

Lemma length_offer_esp spi : length spi = 4%nat -> (length (MarshalSA (mkSA (DefaultESPProposals spi))) <= 120)%nat.
Proof. intros H. destruct spi as [|a' [|b' [|c' [|d' [|]]]]]; try done. apply Nat.leb_le. by vm_compute. Qed.

Lemma length_psk_auth psk octets : length (PSKAuth (SuitePRF psk_suite) psk octets) = 32%nat.
Proof. apply (length_hmac SHA256). Qed.

Lemma auth_fits : Forall moderate auth_payloads /\ (extent auth_payloads <= 1200)%nat.
Proof.
  destruct (ps_ids S) as [Hid _]. pose proof (length_offer_esp (u32BE childI) ltac:(apply length_be_enc)) as Hsa.
  assert (length (MarshalID (ccLocalID cc)) <= 259)%nat as H1 by (unfold MarshalID; cbn; lia).
  assert (length (MarshalAuth (mkAuth AuthSharedKeyMIC authI)) = 36%nat) as H2 by (unfold MarshalAuth; rewrite length_app; cbn [AData]; by rewrite (length_psk_auth _ _ : length authI = _)).
  assert (length (MarshalCP dualStackCPRequest) = 24%nat) as H3 by reflexivity. assert (length (MarshalTS dualStackTS) = 60%nat) as H4 by reflexivity.
  unfold auth_payloads, aggfrag_payloads, idPayloadBody. split.
  - apply Forall_app. split; [|destruct (ccIPTFS cc)]; repeat (apply Forall_cons; split); try apply Forall_nil_2; (split; [done|split; [done|]]); rewrite ?length_notify; cbn [raw Body length]; try lia.
    apply Nat.leb_le. by vm_compute.
  - destruct (ccIPTFS cc); cbn [app]; rewrite !extent_cons, ?length_notify; cbn [raw Body]; rewrite H2, H3, H4;
      change (extent []) with 0%nat; try change (length (NotifyData OurFlags)) with 1%nat; cbn [length]; lia.
Qed.

Lemma buildAuthInner_eq c : ccfg c = cc -> buildAuthInner d c (idPayloadBody (ccLocalID cc)) (Some (mkAuth AuthSharedKeyMIC authI)) = (build auth_payloads, childI).
Proof.
  intros Hc. destruct (ps_client S) as (_ & _ & _ & Htcp). unfold buildAuthInner, auth_payloads, aggfrag_payloads. rewrite Hc, Htcp. cbn [negb]. fold childI.
  destruct (ccIPTFS cc); cbv beta iota zeta delta [build fold_left raw note Type_ Critical Body addNotify addMobikeSupported app]; reflexivity.
Qed.

Lemma request2_opens :
  sealMaybeFragment (auth_hdr FlagInitiator 0x20) psk_suite psk_keys dirInitiatorToResponder (FirstType (build auth_payloads)) (Bytes (build auth_payloads)) true (cd_ivs d 1) = Ok [request2] /\
  exists sk n, let h' := with_payload (auth_hdr FlagInitiator 0x20) TypeSK n in
    IkeMessage.ParseHeader request2 = Ok h' /\ (length request2 <? IkeHeaderLen)%nat = false /\ ParseMessage request2 = Some (Ok (mkMessage h' [sk])) /\ Type_ sk = TypeSK /\
    exists first inner, decryptSK request2 sk psk_suite psk_keys dirInitiatorToResponder = Ok (first, inner) /\ parseInnerPayloads first inner = Some (Ok auth_payloads).
Proof.
  destruct auth_fits as [Hm Hx], (ps_ivs S) as [Hiv _]. apply sealed_as_opens; [exact Hiv| |exact Hx]. by apply moderate_wf.
Qed.

Lemma client_auth_request c :
  keyed c -> ccfg c = cc -> authMsgID c = 1 -> on4500 c = true -> intAuthI c = [] -> intAuthR c = [] ->
  authPSK_request d c = (Ok childI, c <| written := written c ++ [[0; 0; 0; 0] ++ request2] |>).
Proof.
  intros [[K1 K2] K3 [K4 K5] K6 [K7 K8] K9] Hc Hm H4 Hi Hr. destruct (ps_client S) as (_ & _ & _ & Htcp).
  unfold authPSK_request. io_step. rewrite Hc. 
  assert (PSKAuth (SuitePRF (csuite c)) (ccPSK cc) (cl_initiatorOctets c (idPayloadBody (ccLocalID cc))) = authI) as ->.
  { unfold authI, computePSKAuth, cl_initiatorOctets, cl_intAuth. by rewrite K3, K7, K5, K6, Hi, Hr. }
  rewrite (buildAuthInner_eq c Hc). unfold sendSealed. rewrite Hm.
  assert (seal d IKE_AUTH 1 (FirstType (build auth_payloads)) (Bytes (build auth_payloads)) c = (Ok [request2], c)) as Hs.
  { unfold seal. rewrite K1, K2, K3, K6, K9. by rewrite (proj1 request2_opens : sealMaybeFragment (mkHeader _ _ _ _ _ _ _ _) _ _ _ _ _ _ _ = _). }
  rewrite (io_bind _ _ c () (c <| written := written c ++ [[0; 0; 0; 0] ++ request2] |>)); [done|]. rewrite (io_bind _ _ c _ c Hs). cbn [writeIKEAll].
  generalize request2. intros pkt. unfold writeIKE, cmodify, mbind, IO_bind, mret, IO_ret. by rewrite Hc, H4, Htcp.
Qed.

(** *** The server's side of IKE_AUTH *)

(** What IKE_AUTH uses of the SA. *)
Record auth_ready (sa : IKESA) : Prop := {
  ar_spis : SAInitiatorSPI sa = SPIi /\ SAResponderSPI sa = SPIr; ar_role : WeAreInitiator sa = false; ar_suite : SASuite sa = psk_suite;
  ar_nonces : SANi sa = Ni /\ SANr sa = Nr; ar_keys : Keys sa = psk_keys; ar_msgs : InitiatorSAInit sa = request1 /\ ResponderSAInit sa = reply1;
  ar_frag : fragEnabled sa = true; ar_eap : eapServer sa = None; ar_int : IntAuthI sa = [] /\ IntAuthR sa = []; ar_children : Children sa = ∅; ar_4500 : OnPort4500 sa = true }.

Lemma authenticated_ready sa now : init_done sa -> auth_ready (authenticated (sa <| fragReasm := fragReasm sa |>) now loc2 true).
Proof. intros []. split; try done. cbn. by destruct (OnPort4500 sa). Qed.

(** The SA between the check of the peer and the end of the exchange. *)
Record auth_proven (sa : IKESA) : Prop := {
  ap_ready : auth_ready sa; ap_peer : PeerID sa = ccLocalID cc; ap_idi : IDiForAuth sa = idPayloadBody (ccLocalID cc); ap_mobike : peerMobike sa = true }.

Lemma auth_noted_proven h sa : auth_ready sa -> auth_proven (auth_noted h (ccLocalID cc) auth_payloads sa).
Proof.
  intros []. split; [by split|done|done|]. change (findMobikeSupported auth_payloads = true). unfold findMobikeSupported, auth_payloads. cbn [app]. by payloads.
Qed.

Lemma ParseID_body id : ParseID (idPayloadBody id) = Ok id.
Proof. by destruct id. Qed.
Lemma ParseAuth_marshal x : ParseAuth (MarshalAuth x) = Ok x.
Proof. by destruct x. Qed.

(** The request proves the client's identity to the server. *)
Lemma server_auth_proves sa h s :
  auth_ready sa -> MessageID h = 1 -> cfg s = cfg s0 ->
  let sa1 := auth_noted h (ccLocalID cc) auth_payloads sa in
  let authR := computePSKAuth (SuitePRF psk_suite) (cPSK (cfg s0)) reply1 Ni (SKpr psk_keys) (idPayloadBody (LocalID (cfg s0))) [] in
  handleIKEAuth ds2 sa h auth_payloads loc2 s =
  finishIKEAuth ds2 sa1 h auth_payloads (build [raw TypeIDr (idPayloadBody (LocalID (cfg s0))); raw TypeAUTH (MarshalAuth (mkAuth AuthSharedKeyMIC authR))]) loc2 s.
Proof.
  intros Hr Hm Hc. cbv zeta. destruct (ps_psk S) as [Hk Hk0]. pose proof Hr as [_ _ _ _ _ _ _ He _ _ _].
  rewrite (handleIKEAuth_eq ds2 sa h auth_payloads loc2 s _ _ _ _ He eq_refl (ParseID_body _) eq_refl (ParseAuth_marshal _) eq_refl).
  pose proof (auth_noted_proven h sa Hr) as Hp. generalize dependent (auth_noted h (ccLocalID cc) auth_payloads sa). intros sa1 [[_ _ Hs [Hni Hnr] Hks [Hm1 Hm2] _ _ [Hi1 Hi2] _ _] _ Hidi _].
  assert (intAuth sa1 (IKEAuthMsgID sa1) = []) as Hia by (unfold intAuth; by rewrite Hi1, Hi2).
  rewrite pskAuth_eq; [by rewrite Hs, Hc, Hm2, Hni, Hks, Hia|done|by rewrite Hc|]. rewrite Hs, Hc, Hm1, Hnr, Hks, Hidi, Hia. cbn [AData]. unfold authI. by rewrite Hk.
Qed.

Definition psk_esp : ESPSuite := mkESPSuite 20 256 0 (AeadCipher AesGCM 32) None.
Definition esp_accepted (spi : bytes) : Proposal := mkProposal 1 ProtoESP spi [tr_len TransformENCR ENCR_AES_GCM_16 256; tr TransformESN ESN_NONE].
Definition childR : Z := newChildSPI (d_child ds2).

Definition child_of (client : bool) : ChildSA :=
  let '(encI, integI, encR, integR) := child_keys (SuitePRF psk_suite) (SKd psk_keys) Ni Nr psk_esp in
  if client then mkChildSA childI childR psk_esp encI integI encR integR else mkChildSA childR childI psk_esp encR integR encI integI.

Lemma child_of_spi client : InboundSPI (child_of client) = if client then childI else childR.
Proof. unfold child_of. destruct (child_keys _ _ _ _ _) as [[[? ?] ?] ?]. by destruct client. Qed.

Lemma child_of_mirrored : mirrored (child_of true) (child_of false) /\ mirrored (child_of false) (child_of true).
Proof. unfold child_of. by destruct (child_keys _ _ _ _ _) as [[[? ?] ?] ?]. Qed.

Lemma esp_offer spi : length spi = 4%nat ->
  parsed (ParseSA (MarshalSA (mkSA (DefaultESPProposals spi)))) = Some (mkSA (DefaultESPProposals spi)) /\ SelectESPSuite (mkSA (DefaultESPProposals spi)) = Ok (psk_esp, esp_accepted spi).
Proof. intros H. by destruct spi as [|a' [|b' [|c' [|d' [|]]]]]. Qed.

Lemma server_negotiates sa2 tsi tsr : auth_ready sa2 ->
  exists child, negotiate_child ds2 sa2 (MarshalSA (mkSA (DefaultESPProposals (u32BE childI)))) tsi tsr = Some (child, esp_accepted (u32BE childR)) /\
    ch_esp child = child_of false /\ ch_TSi child = parseTS_selectors tsi.
Proof.
  intros [_ _ Hs [Hni Hnr] Hks _ _ _ _ _ _]. destruct (ps_spis S) as (_ & _ & Hci & _). destruct (esp_offer (u32BE childI) ltac:(apply length_be_enc)) as [H1 H2].
  unfold negotiate_child. rewrite H1, H2. unfold setupChildSA. rewrite Hs, Hks, Hni, Hnr. unfold child_of. fold childR. cbn [SPI esp_accepted Num Protocol Transforms].
  replace (length (u32BE childI) =? 4)%nat with true by (symmetry; apply Nat.eqb_eq, length_be_enc).
  assert (beU32 (u32BE childI) = childI) as ->.
  { unfold beU32, u32BE. rewrite slice_all by (rewrite length_be_enc; lia). apply be_dec_enc_small. exact Hci. }
  destruct (child_keys _ _ _ _ _) as [[[encI integI] encR] integR]. eexists. split_and!; reflexivity.
Qed.

(** The address. *)
Definition leased (sa : IKESA) : IKESA := sa <| ClientIP := IP4 a |> <| ClientIP6 := IP6 a |> <| assigned := a |>.

Lemma server_assigns sa s :
  hasAssignAddr (cfg s) = true -> leases s = leases s0 -> assign_address sa (Some (MarshalCP dualStackCPRequest)) s = (Some (cp_reply a), leased sa, s <| leases := l |>).
Proof.
  intros Ha Hl. destruct (ps_address S) as (H4 & _). unfold assign_address. rewrite Ha. unfold buildCPReply.
  assert (parsed (ParseCP (MarshalCP dualStackCPRequest)) = Some dualStackCPRequest) as -> by (vm_compute; reflexivity).
  change (requestedFamilies dualStackCPRequest) with (mkRequest true true). change (negb (CPType dualStackCPRequest =? CFGRequest)) with false. cbv iota.
  rewrite Hl, (ps_lease S). rewrite bool_decide_eq_false_2; [done|]. by destruct (IP4 a).
Qed.

Definition tsi_narrowed : list TrafficSelector := [with_range allTrafficV4 (IP4 a); allTrafficV6].

Lemma narrows sa : ClientIP sa = IP4 a -> ClientIP6 sa = IP6 a -> narrowTSiToAssignment dualStackTS sa = (tsi_narrowed, true).
Proof.
  intros H1 H2. destruct (ps_address S) as (H4 & _ & H6 & _). unfold narrowTSiToAssignment, narrow_family. rewrite H1, H2, H6.
  rewrite (bool_decide_eq_false_2 (IP4 a = [])) by (by destruct (IP4 a)). rewrite (bool_decide_eq_true_2 ([] = [])) by done. cbn [andb negb].
  assert (template (IP4 a) TSIPv4AddrRange dualStackTS None = Some allTrafficV4) as -> by (unfold dualStackTS, template; cbn [TSType allTrafficV4 allTrafficV6 Z.eqb Pos.eqb negb]; by destruct (covers _ _)).
  reflexivity.
Qed.

Lemma request_aggfrag : acceptAggFrag auth_payloads = if ccIPTFS cc then Some OurFlags else None.
Proof. unfold acceptAggFrag, auth_payloads, aggfrag_payloads. by destruct (ccIPTFS cc); cbn [app]; payloads. Qed.

Definition authR : bytes := computePSKAuth (SuitePRF psk_suite) (cPSK (cfg s0)) reply1 Ni (SKpr psk_keys) (idPayloadBody (LocalID (cfg s0))) [].
Definition resp_payloads : list RawPayload := [
  raw TypeIDr (idPayloadBody (LocalID (cfg s0))); raw TypeAUTH (MarshalAuth (mkAuth AuthSharedKeyMIC authR)); note MobikeSupported []; raw TypeCP (MarshalCP (cp_reply a));
  raw TypeSA (MarshalSA (mkSA [esp_accepted (u32BE childR)])); raw TypeTSi (MarshalTS tsi_narrowed); raw TypeTSr (MarshalTS dualStackTS)] ++ aggfrag_payloads (IPTFS (cfg s0) && ccIPTFS cc).

Lemma server_adds_child sa2 child s :
  ClientIP sa2 = IP4 a -> ClientIP6 sa2 = IP6 a -> cfg s = cfg s0 -> ch_TSi child = parseTS_selectors (MarshalTS dualStackTS) ->
  exists child2, ch_esp child2 = ch_esp child /\
    add_child (Add (addMobikeSupported (build [raw TypeIDr (idPayloadBody (LocalID (cfg s0))); raw TypeAUTH (MarshalAuth (mkAuth AuthSharedKeyMIC authR))])) TypeCP false (MarshalCP (cp_reply a)))
      sa2 child (esp_accepted (u32BE childR)) (MarshalTS dualStackTS) (MarshalTS dualStackTS) auth_payloads s = (build resp_payloads, child2).
Proof.
  intros H1 H2 H3 H4. unfold add_child. rewrite H4, (parseTS_selectors_ok _ dualStackTS) by (vm_compute; reflexivity). rewrite (narrows sa2 H1 H2), H3, request_aggfrag.
  unfold resp_payloads, aggfrag_payloads. generalize authR (cp_reply a) (esp_accepted (u32BE childR)) tsi_narrowed. intros au cp acc ts.
  destruct (IPTFS (cfg s0)), (ccIPTFS cc); eexists; (split; [|cbv beta iota zeta delta [build fold_left raw note Type_ Critical Body addNotify addMobikeSupported app andb]; reflexivity]); reflexivity.
Qed.

Lemma To4_short ip : length ip = 4%nat -> To4 ip = ip.
Proof. intros H. unfold To4. by rewrite H. Qed.

Lemma cp_reply_eq : cp_reply a = mkCP CFGReply (mkAttr CFGInternalIP4Address (IP4 a) :: mkAttr CFGInternalIP4Netmask (Netmask a) :: (mkAttr CFGInternalIP4DNS <$> DNS a)).
Proof.
  destruct (ps_address S) as (H4 & Hn & H6 & Hd & _). unfold cp_reply. rewrite H6. rewrite (bool_decide_eq_false_2 (IP4 a = [])) by (by destruct (IP4 a)).
  rewrite (bool_decide_eq_false_2 (Netmask a = [])) by (by destruct (Netmask a)). rewrite (bool_decide_eq_true_2 ([] = [])) by done. rewrite !To4_short by done. cbn [app]. do 3 f_equal.
  induction Hd as [|x ds Hx _ IH]; [done|]. cbn [fmap list_fmap concat]. rewrite (To4_short x Hx), bool_decide_eq_false_2 by (by destruct x). cbn [negb app]. f_equal. exact IH.
Qed.

Lemma cp_reply_fits : (length (MarshalCP (cp_reply a)) <= 200)%nat /\ Forall wf_attr (Attrs (cp_reply a)).
Proof.
  rewrite cp_reply_eq. destruct (ps_address S) as (H4 & Hn & _ & Hd & Hl). cbn [Attrs].
  assert (Forall (fun x => (0 <= CAType x < 2 ^ 15) /\ length (CAValue x) = 4%nat) (mkAttr CFGInternalIP4Address (IP4 a) :: mkAttr CFGInternalIP4Netmask (Netmask a) :: (mkAttr CFGInternalIP4DNS <$> DNS a))) as Hall.
  { repeat (constructor; [done|]). apply Forall_fmap. eapply Forall_impl; [exact Hd|]. intros x Hx. by split. }
  split; [|eapply Forall_impl; [exact Hall|]; intros x [Ht Hx]; split; [done|rewrite Hx; done]].
  unfold MarshalCP. cbn [Attrs CPType]. set (l' := _ :: _ :: _) in *.
  assert (length l' <= 18)%nat as Hll by (subst l'; cbn [length]; rewrite length_fmap; lia). clearbody l'. rewrite length_app.
  assert (length (concat (marshalAttr <$> l')) = 8 * length l')%nat as ->; [|cbn; lia].
  clear Hll. induction Hall as [|x l'' [_ Hx] _ IH]; [done|]. cbn [fmap list_fmap concat length]. rewrite length_app. change (list_fmap _ _ marshalAttr l'') with (marshalAttr <$> l'').
  rewrite IH. unfold marshalAttr. autorewrite with wire. rewrite Hx. lia.
Qed.

Lemma resp_fits : Forall moderate resp_payloads /\ (extent resp_payloads <= 1200)%nat.
Proof.
  destruct (ps_ids S) as [_ Hid], (ps_address S) as (Hip & _), cp_reply_fits as [Hcp _].
  assert (length (MarshalID (LocalID (cfg s0))) <= 259)%nat as H1 by (unfold MarshalID; cbn; lia).
  assert (length (MarshalAuth (mkAuth AuthSharedKeyMIC authR)) = 36%nat) as H2 by (unfold MarshalAuth; rewrite length_app; cbn [AData]; by rewrite (length_psk_auth _ _ : length authR = _)).
  assert (length (MarshalTS tsi_narrowed) = 60%nat) as H3 by (unfold tsi_narrowed; destruct (IP4 a) as [|b1 [|b2 [|b3 [|b4 [|]]]]]; done).
  assert (length (MarshalTS dualStackTS) = 60%nat) as H4 by reflexivity.
  assert (length (MarshalSA (mkSA [esp_accepted (u32BE childR)])) = 32%nat) as H5 by reflexivity.
  unfold resp_payloads, aggfrag_payloads, idPayloadBody. split.
  - apply Forall_app. split; [|destruct (_ && _)]; repeat (apply Forall_cons; split); try apply Forall_nil_2; (split; [done|split; [done|]]); rewrite ?length_notify; cbn [raw Body length]; try lia.
    apply Nat.leb_le. by vm_compute.
  - destruct (_ && _); cbn [app]; rewrite !extent_cons, ?length_notify; cbn [raw Body]; rewrite H2, H3, H4, H5;
      change (extent []) with 0%nat; try change (length (NotifyData OurFlags)) with 1%nat; cbn [length]; lia.
Qed.

(** The established SA. *)
Record established (sa : IKESA) : Prop := {
  es_ready : auth_ready sa; es_peer : PeerID sa = ccLocalID cc; es_state : State sa = StateEstablished; es_recv : RecvMsgID sa = 2; es_ip : ClientIP sa = IP4 a }.

Lemma leased_proven sa : auth_proven sa ->
  let sa2 := leased (sa <| IkeSession.MobikeEnabled := true |>) in auth_proven sa2 /\ ClientIP sa2 = IP4 a /\ ClientIP6 sa2 = IP6 a.
Proof. intros [[]]. split; [|done]. split; [split; done|done..]. Qed.

Lemma established_of sa : auth_proven sa -> ClientIP sa = IP4 a -> established (sa <| State := StateEstablished |> <| RecvMsgID := wrap 32 (1 + 1) |>).
Proof. intros [[]] ?. split; [split; done|done..]. Qed.

Lemma server_finishes sa h s :
  auth_ready sa -> MessageID h = 1 -> cfg s = cfg s0 -> leases s = leases s0 ->
  exists sa3 ch, established sa3 /\ ch_esp ch = child_of false /\
    handleIKEAuth ds2 sa h auth_payloads loc2 s =
    install_child sa3 ch (respondEncrypted ds2 sa3 IKE_AUTH 1 (FirstType (build resp_payloads)) (Bytes (build resp_payloads)) loc2 (s <| leases := l |>)).
Proof.
  intros Hr Hm Hc Hl. rewrite (server_auth_proves sa h s Hr Hm Hc). fold authR. pose proof (auth_noted_proven h sa Hr) as Hp.
  generalize dependent (auth_noted h (ccLocalID cc) auth_payloads sa). intros sa1 Hp.
  destruct (leased_proven sa1 Hp) as (Hp2 & H4 & H6). pose proof (server_assigns (sa1 <| IkeSession.MobikeEnabled := true |>) s ltac:(rewrite Hc; apply (ps_server S)) Hl) as Ha.
  generalize dependent (leased (sa1 <| IkeSession.MobikeEnabled := true |>)). intros sa2 Hp2 H4 H6 Ha.
  destruct (server_negotiates sa2 (MarshalTS dualStackTS) (MarshalTS dualStackTS) (ap_ready _ Hp2)) as (child & Hn & Hch & Hts).
  destruct (server_adds_child sa2 child (s <| leases := l |>) H4 H6 Hc Hts) as (child2 & Hch2 & Hadd).
  pose proof (finishIKEAuth_eq ds2 sa1 h auth_payloads _ loc2 s _ _ _ _ _ _ _ _ _ _ _ eq_refl eq_refl eq_refl eq_refl (ap_mobike _ Hp) Ha Hn Hadd) as E. cbv zeta in E. rewrite Hm in E.
  pose proof (established_of sa2 Hp2 H4) as He. generalize dependent (sa2 <| State := StateEstablished |> <| RecvMsgID := wrap 32 (1 + 1) |>). intros sa3 E He.
  eexists sa3, _. split; [done|]. split; [|exact E]. change (ch_esp child2 = child_of false). congruence.
Qed.

Definition reply2 : bytes := sealed_as 0 dirResponderToInitiator FlagResponse (d_ivs ds2) resp_payloads.

Lemma reply2_opens :
  sealMaybeFragment (auth_hdr FlagResponse 0) psk_suite psk_keys dirResponderToInitiator (FirstType (build resp_payloads)) (Bytes (build resp_payloads)) true (d_ivs ds2) = Ok [reply2] /\
  exists sk n, let h' := with_payload (auth_hdr FlagResponse 0) TypeSK n in
    IkeMessage.ParseHeader reply2 = Ok h' /\ (length reply2 <? IkeHeaderLen)%nat = false /\ ParseMessage reply2 = Some (Ok (mkMessage h' [sk])) /\ Type_ sk = TypeSK /\
    exists first inner, decryptSK reply2 sk psk_suite psk_keys dirResponderToInitiator = Ok (first, inner) /\ parseInnerPayloads first inner = Some (Ok resp_payloads).
Proof.
  destruct resp_fits as [Hm Hx], (ps_ivs S) as [_ Hiv]. apply sealed_as_opens; [exact Hiv| |exact Hx]. by apply moderate_wf.
Qed.

Lemma server_responds sa s :
  established sa -> streams s = streams s0 ->
  respondEncrypted ds2 sa IKE_AUTH 1 (FirstType (build resp_payloads)) (Bytes (build resp_payloads)) loc2 s = s <| out := out s ++ [Out4500 ([0; 0; 0; 0] ++ reply2) loc2] |>.
Proof.
  intros [[[Hi Hr] Hro Hs _ Hks _ Hf _ _ _ H4] _ _ _ _] Hst. destruct (ps_udp S) as [_ Hu]. unfold respondEncrypted, dirForOutbound. rewrite Hi, Hr, Hro, Hs, Hks, Hf, H4.
  rewrite (proj1 reply2_opens : sealMaybeFragment (mkHeader _ _ _ _ _ _ _ _) _ _ _ _ _ _ _ = _). cbn [fold_left]. unfold send_pkt, sendIKE. by rewrite Hst, bool_decide_eq_false_2.
Qed.

(** The server after both requests. *)
Record served (s2 : Srv) (p : nat) (sa : IKESA) : Prop := {
  sv_out : out s2 = out s0 ++ [Out500 reply1 loc; Out4500 ([0; 0; 0; 0] ++ reply2) loc2]; sv_byRSPI : byRSPI s2 !! SPIr = Some p; sv_sas : sas s2 !! p = Some sa;
  sv_leases : leases s2 = l; sv_peer : PeerID sa = ccLocalID cc; sv_state : State sa = StateEstablished; sv_ip : ClientIP sa = IP4 a; sv_recv : RecvMsgID sa = 2;
  sv_child : exists ch, Children sa !! childR = Some ch /\ ch_esp ch = child_of false }.

Lemma server_auth s1 p sa : answered s1 p sa -> init_done sa -> exists sa', served (handlePacket ds2 request2 loc2 true s1) p sa'.
Proof.
  intros [Hc Hl Hst Ho Hp Hsa] Hd. destruct request2_opens as (_ & sk & n & Hh & Hlen & Hpm & Hty & first & inner & Hdec & Hin). cbv zeta in *.
  set (h := with_payload (auth_hdr FlagInitiator 0x20) TypeSK n) in *.
  assert (openRequest sa request2 h loc2 IKE_AUTH (d_now ds2) true = (Some (mkDispatch IKE_AUTH auth_payloads), authenticated (sa <| fragReasm := fragReasm sa |>) (d_now ds2) loc2 true)) as Hopen.
  { pose proof Hd as [_ Hro Hs _ Hks Hstt _ Hrm _ _ _ _ _ _ _]. eapply openRequest_sealed; rewrite ?Hrm, ?Hstt, ?Hs, ?Hks; done. }
  pose proof (authenticated_ready sa (d_now ds2) Hd) as Hr. set (sa1 := authenticated _ _ _ _) in *. clearbody sa1.
  destruct (server_finishes sa1 h s1 Hr eq_refl Hc Hl) as (sa3 & ch & He & Hch & Hfin). rewrite (server_responds sa3 _ He) in Hfin by exact Hst.
  exists (sa3 <| Children := <[InboundSPI (ch_esp ch) := ch]> (Children sa3) |>).
  unfold handlePacket. rewrite Hlen, Hh. change (negb (Z.shiftr (Version h) 4 =? 2)) with false. change (ExchangeType h) with IKE_AUTH. cbn [Z.eqb Pos.eqb orb]. cbv iota.
  unfold handleSecured. change (IsResponse h) with false. cbv iota. change (lookupByRSPI s1 (ResponderSPI h)) with (byRSPI s1 !! SPIr). rewrite Hp, Hsa, Hopen.
  cbn [dExchange dPayloads]. unfold dispatch_exchange. change (IKE_AUTH =? IKE_AUTH) with true. cbv iota. rewrite Hfin.
  destruct He as [_ He1 He2 He3 He4]. unfold install_child. cbv iota. split; try done.
  - change (out s1 ++ [Out4500 ([0; 0; 0; 0] ++ reply2) loc2] = out s0 ++ [Out500 reply1 loc; Out4500 ([0; 0; 0; 0] ++ reply2) loc2]). by rewrite Ho, <- app_assoc.
  - apply lookup_insert_eq.
  - exists ch. split; [|done]. rewrite <- (child_of_spi false), <- Hch. apply lookup_insert_eq.
Qed.

(** *** The end of the handshake at the client *)

Lemma esp_answer spi : length spi = 4%nat ->
  sa_proposals (MarshalSA (mkSA [esp_accepted spi])) = mkSA [esp_accepted spi] /\ SelectESPSuite (mkSA [esp_accepted spi]) = Ok (psk_esp, esp_accepted spi).
Proof. intros H. by destruct spi as [|a' [|b' [|c' [|d' [|]]]]]. Qed.

Lemma attr_value_dns t ds : t <> CFGInternalIP4DNS -> attr_value t (mkAttr CFGInternalIP4DNS <$> ds) = None.
Proof. intros Ht. induction ds as [|x ds IH]; [done|]. cbn [fmap list_fmap attr_value CAType]. by rewrite (proj2 (Z.eqb_neq _ _)). Qed.

Lemma dns_read ds : Forall (fun x => length x = 4%nat) ds ->
  concat ((fun x => if (CAType x =? CFGInternalIP4DNS) && (length (CAValue x) =? 4)%nat then [To4 (CAValue x)]
                    else if (CAType x =? CFGInternalIP6DNS) && (length (CAValue x) =? 16)%nat then [CAValue x] else []) <$> (mkAttr CFGInternalIP4DNS <$> ds)) = ds.
Proof.
  induction 1 as [|x ds Hx _ IH]; [done|]. cbn [fmap list_fmap concat CAType CAValue Z.eqb Pos.eqb andb]. rewrite Hx. cbn [Nat.eqb app]. rewrite (To4_short x Hx). f_equal. exact IH.
Qed.

Lemma cp_reply_result res : RDNS res = [] -> let r := cp_result (cp_reply a) res in AssignedIP r = IP4 a /\ RNetmask r = Netmask a /\ RDNS r = DNS a.
Proof.
  intros Hr. destruct (ps_address S) as (H4 & Hn & _ & Hd & _). rewrite cp_reply_eq. cbv zeta. unfold cp_result, AttrValue. cbn [Attrs].
  cbn [attr_value CAType CAValue Z.eqb Pos.eqb]. rewrite H4, Hn. cbn [Nat.eqb fmap option_fmap option_map default]. rewrite !To4_short, attr_value_dns by done.
  split_and!; [by destruct res|by destruct res|]. destruct res. cbn in Hr. subst. exact (dns_read (DNS a) Hd).
Qed.

Lemma response_has : findNotifyError resp_payloads = 0.
Proof. unfold resp_payloads, aggfrag_payloads. by destruct (_ && _); cbn [app]; payloads. Qed.

Lemma client_auth_response c :
  keyed c -> ccfg c = cc -> reads c = [[0; 0; 0; 0] ++ reply2] -> authMsgID c = 1 -> intAuthI c = [] -> intAuthR c = [] ->
  exists r c', authPSK_response d childI c = (Ok (), c') /\ cresult c' = Some r /\ AssignedIP r = IP4 a /\ RNetmask r = Netmask a /\ RDNS r = DNS a /\ r_child r = child_of true /\
    written c' = written c /\ reads c' = [] /\ sendMsgID c' = 2.
Proof.
  intros [_ K3 [K4 K5] K6 [_ K8] _] Hc Hrd Hm Hi Hr. destruct (ps_client S) as (_ & _ & _ & Htcp), (ps_psk S) as [Hk Hk0], (ps_spis S) as (_ & _ & _ & Hsr).
  destruct reply2_opens as (_ & sk & n & _ & _ & Hpm & Hty & first & inner & Hdec & Hin). cbv zeta in Hpm. unfold authPSK_response.
  rewrite (io_bind _ _ c resp_payloads (c <| reads := [] |>)).
  2: { eapply recvInners_sealed; [by rewrite Hc|exact Hrd|exact Hpm|exact Hty|rewrite K3, K6; exact Hdec|exact Hin|exact response_has]. }
  do 2 io_step. set (c2 := c <| reads := _ |> <| sendMsgID := _ |>).
  assert (csuite c2 = psk_suite /\ ni c2 = Ni /\ nr c2 = Nr /\ ckeys c2 = psk_keys /\ saInitResp c2 = reply1 /\ ccfg c2 = cc /\ authMsgID c2 = 1 /\ intAuthI c2 = [] /\ intAuthR c2 = [] /\
    reads c2 = [] /\ written c2 = written c /\ sendMsgID c2 = 2) as (E1 & E2 & E3 & E4 & E5 & E6 & E7 & E8 & E9 & E10 & E11 & E12).
  { split_and!; try done. change (wrap 32 (authMsgID c + 1) = 2). by rewrite Hm. }
  clearbody c2. unfold finishAuth. rewrite E6.
  rewrite (io_bind _ _ c2 () (c2 <| serverIDBody := idPayloadBody (LocalID (cfg s0)) |>)).
  2: { eapply verifyServerAuth_eq; [reflexivity|apply ParseAuth_marshal|reflexivity|apply ParseID_body|rewrite E6; apply (ps_remote S)|by rewrite Hk|].
       rewrite E1, E2, E4, E5, E7, E8, E9. cbn [AData]. unfold authR. by rewrite Hk. }
  cbv beta. set (c3 := c2 <| serverIDBody := _ |>).
  assert (csuite c3 = csuite c2 /\ ni c3 = ni c2 /\ nr c3 = nr c2 /\ ckeys c3 = ckeys c2 /\ ccfg c3 = ccfg c2 /\ reads c3 = reads c2 /\ written c3 = written c2 /\ sendMsgID c3 = sendMsgID c2)
    as (F1 & F2 & F3 & F4 & F5 & F6 & F7 & F8) by done. clearbody c3.
  destruct (esp_answer (u32BE childR) ltac:(apply length_be_enc)) as [Hsp Hes].
  destruct (cp_reply_result (mkClientResult [] [] [] 0 [] (remoteAddr c3) true no_child false 0 0) eq_refl) as (R1 & R2 & R3).
  pose proof (applyAuthResult_eq c3 resp_payloads childI (raw TypeCP (MarshalCP (cp_reply a))) (cp_reply a) (raw TypeSA (MarshalSA (mkSA [esp_accepted (u32BE childR)]))) psk_esp _ (esp_accepted (u32BE childR)) []
    eq_refl ltac:(cbn [raw Body]; by rewrite ParseCP_marshal by apply cp_reply_fits) eq_refl Hsp Hes (length_be_enc _ _) ltac:(by rewrite F5, E6)) as A. cbv zeta in A. rewrite R1, R2, R3 in A.
  destruct A as (r & c4 & A1 & A2 & A3 & A4 & A5 & A6 & A7 & A8 & A9); [destruct (ps_address S) as [H4 _]; by destruct (IP4 a)|].
  exists r, c4. split_and!; try congruence. rewrite F1, F2, F3, F4, E1, E2, E3, E4 in A6. unfold child_of. destruct (child_keys _ _ _ _ _) as [[[encI integI] encR] integR]. rewrite A6. f_equal.
  cbn [SPI esp_accepted]. unfold beU32, u32BE. rewrite slice_all by (rewrite length_be_enc; lia). by apply be_dec_enc_small.
Qed.

Lemma client_connects : exists r c', Connect d loc2 (c0 [reply1; [0; 0; 0; 0] ++ reply2]) = (Ok r, c') /\
  AssignedIP r = IP4 a /\ RNetmask r = Netmask a /\ RDNS r = DNS a /\ r_child r = child_of true /\ written c' = [request1; [0; 0; 0; 0] ++ request2] /\ sendMsgID c' = 2.
Proof.
  destruct (client_init [[0; 0; 0; 0] ++ reply2]) as (c & H1 & Hk & Hb & Hr & Hw). destruct (ps_client S) as (_ & Hcert & Heap & Htcp). unfold Connect. rewrite (io_bind _ _ _ _ _ H1).
  injection Hb as B1 B2 B3 B4 B5 B6 B7 B8. cbn in B1, B3, B5, B6, B7.
  do 2 io_step. set (c2 := c <| sendMsgID := 1 |>). change (ccfg c2) with (ccfg c). rewrite B1, Htcp.
  rewrite (io_bind _ _ c2 () (c2 <| localAddr := loc2 |> <| remoteAddr := mkUDPAddr (udpIP (remoteAddr c2)) (NATTPort (ccfg c2)) |> <| on4500 := true |>)).
  2: { unfold floatToNATT. change (closed c2) with (closed c). by rewrite B3. }
  cbv beta. set (c3 := c2 <| localAddr := _ |> <| remoteAddr := _ |> <| on4500 := _ |>).
  assert (addkeGroup c3 = 0) as E0 by exact B7. io_step. rewrite E0. cbn [Z.eqb]. do 3 io_step. set (c4 := c3 <| authMsgID := _ |>).
  assert (keyed c4 /\ ccfg c4 = cc /\ on4500 c4 = true /\ authMsgID c4 = 1 /\ intAuthI c4 = [] /\ intAuthR c4 = [] /\ reads c4 = [[0; 0; 0; 0] ++ reply2] /\ written c4 = [request1])
    as (E1 & E2 & E3 & E4 & E5 & E6 & E7 & E8).
  { split_and!; try done. destruct Hk as [? ? ? ? ? ?]. by split. }
  clearbody c4. rewrite E2, Hcert, Heap. rewrite bool_decide_eq_true_2 by done. cbn [negb].
  pose proof (client_auth_request c4 E1 E2 E4 E3 E5 E6) as Q. set (c5 := c4 <| written := _ |>) in Q.
  assert (keyed c5) as F1 by (destruct E1 as [? ? ? ? ? ?]; by split). assert (written c5 = [request1; [0; 0; 0; 0] ++ request2]) as F2 by (subst c5; change (written c4 ++ [[0; 0; 0; 0] ++ request2] = [request1] ++ [[0; 0; 0; 0] ++ request2]); by rewrite E8).
  assert (ccfg c5 = cc /\ reads c5 = [[0; 0; 0; 0] ++ reply2] /\ authMsgID c5 = 1 /\ intAuthI c5 = [] /\ intAuthR c5 = []) as (F3 & F4 & F5 & F6 & F7) by done. clearbody c5.
  destruct (client_auth_response c5 F1 F3 F4 F5 F6 F7) as (r & c6 & R1 & R2 & R3 & R4 & R5 & R6 & R7 & R8 & R9).
  rewrite (io_bind _ _ c4 () c6) by (unfold authPSK; by rewrite (io_bind _ _ _ _ _ Q)). io_step. exists r, c6. rewrite R2. split_and!; [done|congruence..].
Qed.
End Handshake.

(** C2: a client and a server that hold one shared key complete the handshake.  The
    client sends its IKE_SA_INIT request and, when the server's answer to it arrives, its
    IKE_AUTH request; the server answers each of the client's datagrams; the client, given
    the server's two datagrams as the server sent them, connects.  The SA on the server is
    established for the client's identity and holds the client's address, which is the one
    the client is given with its mask and resolvers, and the two ends' Child SAs mirror
    each other in both directions. *)
Theorem ike_connect d ds1 ds2 cc loc rem loc2 s a l :
  psk_setting d ds1 ds2 cc loc rem loc2 s a l ->
  exists req1 resp1 req2 resp2 r c p sa ch,
    let s1 := handlePacket ds1 req1 loc false s in
    let s2 := handlePacket ds2 req2 loc2 true s1 in
    Connect d loc2 ((NewClient cc loc rem) <| reads := [resp1; [0; 0; 0; 0] ++ resp2] |>) = (Ok r, c) /\
    written c = [req1; [0; 0; 0; 0] ++ req2] /\
    out s2 = out s ++ [Out500 resp1 loc; Out4500 ([0; 0; 0; 0] ++ resp2) loc2] /\
    byRSPI s2 !! newIKESPI (d_spi ds1) = Some p /\ sas s2 !! p = Some sa /\ State sa = StateEstablished /\ PeerID sa = ccLocalID cc /\
    leases s2 = l /\ ClientIP sa = IP4 a /\ AssignedIP r = IP4 a /\ RNetmask r = Netmask a /\ RDNS r = DNS a /\
    Children sa !! newChildSPI (d_child ds2) = Some ch /\ mirrored (r_child r) (ch_esp ch) /\ mirrored (ch_esp ch) (r_child r) /\
    sendMsgID c = RecvMsgID sa.
Proof.
  intros S. destruct (client_connects _ _ _ _ _ _ _ _ _ _ S) as (r & c & Hc & H1 & H2 & H3 & H4 & H5 & H6).
  destruct (server_init _ _ _ _ _ _ _ _ _ _ S) as (p & sa1 & Ha & Hd). destruct (server_auth _ _ _ _ _ _ _ _ _ _ S _ _ _ Ha Hd) as (sa & [V1 V2 V3 V4 V5 V6 V7 V8 (ch & V9 & V10)]).
  eexists _, _, _, _, r, c, p, sa, ch. cbv zeta. split; [exact Hc|]. split; [exact H5|]. split; [exact V1|]. split_and!; try done; [rewrite H4, V10; apply child_of_mirrored..|congruence].
Qed.
End Connect.

(** ** An instance *)

Definition demo_client_config : ClientConfig unit unit :=
  mkClientConfig (str "gw") None 4500 (str "secret") (mkID IDFQDN (str "client")) None [] [] None None None false false false true 0 false.

Definition demo_cdraws : cdraws :=
  mkCDraws 0 [be_enc 8 (2 ^ 60)] [be_enc 4 99] (fun n => replicate n 6) (mkDraw [7] 2) [] [] [] (fun _ _ => replicate 8 0).

Definition demo_draws8 : draws :=
  mkDraws 0 [be_enc 8 77] [be_enc 4 88] (fun n => replicate n 3) (mkDraw [9] 2) [] [] [] (fun _ => replicate 8 0) None.

Definition demo_from4500 : UDPAddr := mkUDPAddr (Some (IPv4 3232235777)) 4500.
Definition demo_gateway : UDPAddr := mkUDPAddr (Some (IPv4 2130706433)) 500.

Lemma demo_setting :
  psk_setting demo_cdraws demo_draws8 demo_draws8 demo_client_config demo_from demo_gateway demo_from4500 demo_server demo_assignment None.
Proof.
  split; try by_decision; try done.
  all: try (split_and!; try done; try by_decision; cbn; lia).
Qed.

Lemma ike_connect_witness :
  exists from_server r c,
    @Connect unit unit toy_prims toy_digests toy_curves toy_kem toy_signing toy_x509 toy_des demo_cdraws demo_from4500
      ((NewClient demo_client_config demo_from demo_gateway) <| reads := from_server |>) = (Ok r, c) /\
    AssignedIP r = [10; 0; 0; 2] /\ length (written c) = 2%nat.
Proof.
  destruct (@ike_connect unit unit nat (option Assignment) toy_datapath toy_leases toy_prims toy_digests toy_curves toy_kem toy_signing toy_x509 toy_des toy_prims_ok toy_digests_ok toy_curves_ok
    demo_cdraws demo_draws8 demo_draws8 demo_client_config demo_from demo_gateway demo_from4500 demo_server demo_assignment None demo_setting)
    as (req1 & resp1 & req2 & resp2 & r & c & p & sa & ch & Hc & Hw & _ & _ & _ & _ & _ & _ & _ & Hip & _).
  exists [resp1; [0; 0; 0; 0] ++ resp2], r, c. split; [exact Hc|]. split; [exact Hip|]. by rewrite Hw.
Defined.
