(* ===== verification/OvpnWire.v ===== *)
(** * OpenVPN control packets, [internal/openvpn/wire/wire.go]

    The opcode octet and the layout of control packets: session IDs, the array of
    acknowledgements, message ID and payload.  A [SessionID] is a byte string of
    length 8.  The theorems: a packet parses back to what was marshalled, and every
    datagram that parses is, up to what follows a pure acknowledgement, the encoding
    of what it parsed to. *)
From Stdlib Require Import ZArith Lia.
From stdpp Require Import base list.
From S2P Require Import Prelude.

Abbreviation PControlSoftResetV1 := 3 (only parsing).
Abbreviation PControlV1 := 4 (only parsing).
Abbreviation PACKV1 := 5 (only parsing).
Abbreviation PDataV1 := 6 (only parsing).
Abbreviation PControlHardResetClientV2 := 7 (only parsing).
Abbreviation PControlHardResetServerV2 := 8 (only parsing).
Abbreviation PDataV2 := 9 (only parsing).
Abbreviation PControlHardResetClientV3 := 10 (only parsing).
Abbreviation PControlWKCV1 := 11 (only parsing).
Abbreviation opcodeShift := 3 (only parsing).
Abbreviation SessionIDLen := 8%nat (only parsing).
Abbreviation PacketIDLen := 4%nat (only parsing).
Abbreviation maxACKs := 255%nat (only parsing).

Inductive ovpn_wire_error := ErrCtlMalformed | ErrCtlShort.

Definition Opcode (pkt : bytes) : option (Z * Z) :=
  match pkt with
  | [] => None
  | b :: _ => Some (Z.shiftr b opcodeShift, Z.land b 7)
  end.

Definition firstByte (opcode keyID : Z) : Z := Z.lor (wrap 8 (Z.shiftl opcode opcodeShift)) (Z.land keyID 7).

Definition IsControl (opcode : Z) : bool :=
  (opcode =? PControlSoftResetV1) || (opcode =? PControlV1) || (opcode =? PACKV1) ||
  (opcode =? PControlHardResetClientV2) || (opcode =? PControlHardResetServerV2) ||
  (opcode =? PControlHardResetClientV3) || (opcode =? PControlWKCV1).

Record ControlPacket := mkControl {
  cpOpcode : Z; cpKeyID : Z; cpSessionID : bytes; cpACKs : list Z; cpRemote : bytes; cpPacketID : Z; cpPayload : bytes }.

(** [hasMessageBody]. *)
Abbreviation has_body p := (negb (cpOpcode p =? PACKV1)) (only parsing).

Definition MarshalLen (p : ControlPacket) : nat :=
  1 + SessionIDLen + 1 + length (cpACKs p) * PacketIDLen
  + (if (0 <? length (cpACKs p))%nat then SessionIDLen else 0)
  + (if has_body p then PacketIDLen + length (cpPayload p) else 0).

(** [Marshal] into a buffer of [MarshalLen] octets or more, all of which it writes. *)
Definition Marshal (dst : bytes) (p : ControlPacket) : result ovpn_wire_error bytes :=
  if (maxACKs <? length (cpACKs p))%nat then Err ErrCtlMalformed
  else if (length dst <? MarshalLen p)%nat then Err ErrCtlShort
  else Ok (firstByte (cpOpcode p) (cpKeyID p) :: cpSessionID p ++ [Z.of_nat (length (cpACKs p))] ++
           concat (be_enc PacketIDLen <$> cpACKs p) ++
           (if (0 <? length (cpACKs p))%nat then cpRemote p else []) ++
           (if has_body p then be_enc PacketIDLen (cpPacketID p) ++ cpPayload p else [])).

(** The acknowledgements at [off]. *)
Fixpoint read_acks (pkt : bytes) (off n : nat) : list Z :=
  match n with
  | O => []
  | S n => be_dec (slice pkt off (off + PacketIDLen)) :: read_acks pkt (off + PacketIDLen) n
  end.

Definition ParseControl (pkt : bytes) : result ovpn_wire_error ControlPacket :=
  match Opcode pkt with
  | None => Err ErrCtlMalformed
  | Some (opcode, keyID) =>
      if negb (IsControl opcode) then Err ErrCtlMalformed
      else if (length pkt <? 1 + SessionIDLen + 1)%nat then Err ErrCtlMalformed
      else
        let sid := slice pkt 1 9 in
        let ackLen := Z.to_nat (at_ pkt 9) in
        let need := (ackLen * PacketIDLen + (if (0 <? ackLen)%nat then SessionIDLen else 0))%nat in
        if (length pkt <? 10 + need)%nat then Err ErrCtlMalformed
        else
          let acks := read_acks pkt 10 ackLen in
          let remote := if (0 <? ackLen)%nat then slice pkt (10 + ackLen * PacketIDLen) (10 + need) else replicate SessionIDLen 0 in
          let off := (10 + need)%nat in
          if opcode =? PACKV1 then Ok (mkControl opcode keyID sid acks remote 0 [])
          else if (length pkt <? off + PacketIDLen)%nat then Err ErrCtlMalformed
          else Ok (mkControl opcode keyID sid acks remote (be_dec (slice pkt off (off + PacketIDLen))) (drop (off + PacketIDLen) pkt))
  end.

(** A packet as the code builds one: what an acknowledgement or a packet without acknowledgements
    does not carry is zero. *)
Record wf_control (p : ControlPacket) : Prop := {
  wc_opcode : IsControl (cpOpcode p) = true;
  wc_keyID : 0 <= cpKeyID p < 8;
  wc_session : length (cpSessionID p) = SessionIDLen;
  wc_remote : length (cpRemote p) = SessionIDLen;
  wc_acks : (length (cpACKs p) <= maxACKs)%nat;
  wc_ids : Forall uint32 (cpACKs p);
  wc_noacks : cpACKs p = [] -> cpRemote p = replicate SessionIDLen 0;
  wc_packet : uint32 (cpPacketID p);
  wc_pure : cpOpcode p = PACKV1 -> cpPacketID p = 0 /\ cpPayload p = [];
}.

Lemma IsControl_range op : IsControl op = true -> 0 <= op < 32.
Proof. unfold IsControl. rewrite !orb_true_iff, !Z.eqb_eq. lia. Qed.

Lemma firstByte_split op k : 0 <= op < 32 -> 0 <= k < 8 ->
  Z.shiftr (firstByte op k) 3 = op /\ Z.land (firstByte op k) 7 = k /\ 0 <= firstByte op k < 256.
Proof.
  intros Ho Hk. unfold firstByte.
  assert (Forall (fun op => Forall (fun k => Z.shiftr (firstByte op k) 3 = op /\ Z.land (firstByte op k) 7 = k /\ 0 <= firstByte op k < 256)
    (Z.of_nat <$> seq 0 8)) (Z.of_nat <$> seq 0 32)) as H by by_decision.
  rewrite Forall_forall in H. specialize (H op). rewrite Forall_forall in H. apply H.
  - apply list_elem_of_fmap. exists (Z.to_nat op). rewrite elem_of_seq. lia.
  - apply list_elem_of_fmap. exists (Z.to_nat k). rewrite elem_of_seq. lia.
Qed.

Lemma length_acks acks : length (concat (be_enc 4 <$> acks)) = (length acks * 4)%nat.
Proof. induction acks as [|a acks IH]; [done|]. cbn [fmap list_fmap concat]. rewrite length_app, length_be_enc, IH. cbn. lia. Qed.

Lemma read_acks_app pre acks suf :
  Forall uint32 acks -> read_acks (pre ++ concat (be_enc 4 <$> acks) ++ suf) (length pre) (length acks) = acks.
Proof.
  revert pre. induction acks as [|a acks IH]; intros pre H; [done|]. apply Forall_cons in H as [Ha H].
  cbn [length read_acks fmap list_fmap concat]. f_equal.
  - rewrite slice_app_r, Nat.sub_diag by lia. replace (length pre + 4 - length pre)%nat with 4%nat by lia.
    rewrite <- app_assoc, slice_hd by apply length_be_enc. by apply be_dec_enc_small.
  - specialize (IH (pre ++ be_enc 4 a) H). rewrite length_app, length_be_enc, <- !app_assoc in IH. by rewrite <- !app_assoc.
Qed.

Lemma Marshal_ok p dst : (MarshalLen p <= length dst)%nat -> (length (cpACKs p) <= maxACKs)%nat ->
  exists out, Marshal dst p = Ok out /\
    out = firstByte (cpOpcode p) (cpKeyID p) :: cpSessionID p ++ [Z.of_nat (length (cpACKs p))] ++
      concat (be_enc PacketIDLen <$> cpACKs p) ++
      (if (0 <? length (cpACKs p))%nat then cpRemote p else []) ++
      (if has_body p then be_enc PacketIDLen (cpPacketID p) ++ cpPayload p else []).
Proof. intros H1 H2. eexists. split; [|done]. unfold Marshal. by rewrite (proj2 (Nat.ltb_ge 255 _)), (proj2 (Nat.ltb_ge _ _)) by lia. Qed.

(** Parsing a packet laid out field by field. *)
Lemma ParseControl_fields op k sid acks rem body :
  IsControl op = true -> 0 <= k < 8 -> length sid = SessionIDLen -> (length acks <= maxACKs)%nat -> Forall uint32 acks ->
  length rem = (if (0 <? length acks)%nat then SessionIDLen else 0%nat) ->
  ParseControl (firstByte op k :: sid ++ [Z.of_nat (length acks)] ++ concat (be_enc 4 <$> acks) ++ rem ++ body) =
    let remote := if (0 <? length acks)%nat then rem else replicate SessionIDLen 0 in
    if op =? PACKV1 then Ok (mkControl op k sid acks remote 0 [])
    else if (length body <? PacketIDLen)%nat then Err ErrCtlMalformed
    else Ok (mkControl op k sid acks remote (be_dec (take PacketIDLen body)) (drop PacketIDLen body)).
Proof.
  intros Ho Hk Hs Hn Hu Hr. destruct (firstByte_split op k (IsControl_range op Ho) Hk) as (F1 & F2 & F3).
  unfold ParseControl, Opcode. rewrite F1, F2, Ho. cbn [negb]. set (b0 := firstByte op k) in *.
  set (n := Z.of_nat (length acks)). set (pre := b0 :: sid ++ [n]).
  assert (length pre = 10%nat) as Lp by (subst pre; cbn; rewrite length_app, Hs; done).
  assert (b0 :: sid ++ [n] ++ concat (be_enc 4 <$> acks) ++ rem ++ body = pre ++ concat (be_enc 4 <$> acks) ++ rem ++ body) as -> by (subst pre; cbn; by rewrite <- app_assoc).
  set (pkt := pre ++ _). assert (length pkt = 10 + length acks * 4 + length rem + length body)%nat as L
    by (subst pkt; rewrite !length_app, length_acks; lia).
  assert (at_ pkt 9 = n) as -> by (subst pkt; rewrite at_app_l by lia; subst pre;
    change (at_ (sid ++ [n]) 8 = n); by rewrite at_app_r, Hs by lia).
  subst n. rewrite Nat2Z.id, <- Hr. rewrite !(proj2 (Nat.ltb_ge _ _)) by lia.
  assert (slice pkt 1 9 = sid) as -> by (subst pkt; rewrite slice_app_l by lia; subst pre;
    change (slice (b0 :: sid ++ [Z.of_nat (length acks)]) 1 9) with (slice (sid ++ [Z.of_nat (length acks)]) 0 8); by apply slice_hd).
  assert (read_acks pkt 10 (length acks) = acks) as -> by (subst pkt; rewrite <- Lp; by apply read_acks_app).
  assert (slice pkt (10 + length acks * 4) (10 + (length acks * 4 + length rem)) = rem) as ->.
  { subst pkt. rewrite <- (length_acks acks), app_assoc, slice_app_r, length_app by (rewrite length_app; lia).
    rewrite Lp, Nat.sub_diag. replace (_ - _)%nat with (length rem) by lia. by apply slice_hd. }
  assert (drop (10 + (length acks * 4 + length rem)) pkt = body) as Hd.
  { subst pkt. rewrite !app_assoc. apply drop_app_length'. rewrite !length_app, length_acks, Lp. lia. }
  destruct (op =? 5); [done|]. rewrite <- drop_drop, Hd.
  replace (length pkt <? 10 + (length acks * 4 + length rem) + 4)%nat with (length body <? 4)%nat
    by (destruct (Nat.ltb_spec (length body) 4), (Nat.ltb_spec (length pkt) (10 + (length acks * 4 + length rem) + 4)); lia || done).
  destruct (length body <? 4)%nat; [done|]. cbv zeta.
  rewrite <- (Nat.add_0_r (10 + (length acks * 4 + length rem))) at 1. rewrite slice_drop, Hd. by rewrite take_as_slice.
Qed.

Lemma Marshal_roundtrip_spec p dst :
  wf_control p -> (MarshalLen p <= length dst)%nat ->
  exists out, Marshal dst p = Ok out /\ ParseControl out = Ok p.
Proof.
  intros [Ho Hk Hs Hr Hn Hu Hz Hp Ha] Hd. destruct (Marshal_ok p dst Hd Hn) as (out & E & ->). eexists. split; [done|].
  rewrite ParseControl_fields; [|done..|by case_match].
  assert ((if (0 <? length (cpACKs p))%nat then if (0 <? length (cpACKs p))%nat then cpRemote p else [] else replicate 8 0) = cpRemote p) as ->
    by (destruct (cpACKs p); [by rewrite Hz|done]).
  destruct p as [op k sid acks rem id pl]. cbn [cpOpcode cpKeyID cpSessionID cpACKs cpRemote cpPacketID cpPayload] in *. destruct (Z.eqb_spec op 5) as [->|]; [by destruct Ha as [-> ->]|].
  cbn [negb]. rewrite (proj2 (Nat.ltb_ge _ _)) by (rewrite length_app, length_be_enc; lia).
  rewrite take_app_length', drop_app_length' by by rewrite length_be_enc. by rewrite be_dec_enc_small.
Qed.

Lemma length_read_acks pkt off n : length (read_acks pkt off n) = n.
Proof. revert off. induction n as [|n IH]; intros off; cbn; [done|]. by rewrite IH. Qed.

Lemma read_acks_ok pkt off n :
  bytes_ok pkt -> (off + n * 4 <= length pkt)%nat ->
  Forall uint32 (read_acks pkt off n) /\ concat (be_enc 4 <$> read_acks pkt off n) = slice pkt off (off + n * 4).
Proof.
  intros Hb. revert off. induction n as [|n IH]; intros off Hl; cbn [read_acks fmap list_fmap concat].
  { split; [constructor|]. unfold slice. by rewrite Nat.mul_0_l, Nat.add_0_r, Nat.sub_diag. }
  destruct (IH (off + 4)%nat) as [I1 I2]; [lia|].
  assert (length (slice pkt off (off + 4)) = 4%nat) as L by (rewrite length_slice; lia).
  pose proof (slice_ok pkt off (off + 4) Hb) as B. split.
  - constructor; [|done]. pose proof (be_dec_range _ B) as R. rewrite L in R. unfold uint. lia.
  - rewrite I2. rewrite <- L at 1. rewrite be_enc_dec by done. unfold slice.
    replace (off + S n * 4 - off)%nat with (4 + n * 4)%nat by lia. replace (off + 4 - off)%nat with 4%nat by lia.
    replace (off + 4 + n * 4 - (off + 4))%nat with (n * 4)%nat by lia. by rewrite <- drop_drop, take_take_drop.
Qed.

Lemma Opcode_firstByte b : 0 <= b < 256 -> firstByte (Z.shiftr b 3) (Z.land b 7) = b.
Proof.
  intros Hb. assert (Forall (fun b => firstByte (Z.shiftr b 3) (Z.land b 7) = b) (Z.of_nat <$> seq 0 256)) as H by by_decision.
  rewrite Forall_forall in H. apply H, list_elem_of_fmap. exists (Z.to_nat b). rewrite elem_of_seq. lia.
Qed.

(** What parses is laid out field by field. *)
Lemma ParseControl_inv pkt q :
  bytes_ok pkt -> ParseControl pkt = Ok q ->
  exists rem body, pkt = firstByte (cpOpcode q) (cpKeyID q) :: cpSessionID q ++ [Z.of_nat (length (cpACKs q))] ++
      concat (be_enc 4 <$> cpACKs q) ++ rem ++ body /\
    rem = (if (0 <? length (cpACKs q))%nat then cpRemote q else []) /\
    (has_body q = true -> body = be_enc 4 (cpPacketID q) ++ cpPayload q) /\ (length (cpACKs q) <= maxACKs)%nat.
Proof.
  intros Hb. unfold ParseControl. destruct pkt as [|b0 l] eqn:Ep; [done|]. cbn [Opcode]. rewrite <- Ep in *.
  destruct (negb _); [done|]. destruct (Nat.ltb_spec (length pkt) (1 + 8 + 1)) as [|L0]; [done|].
  set (n := Z.to_nat (at_ pkt 9)). set (r := (if (0 <? n)%nat then 8 else 0)%nat).
  destruct (Nat.ltb_spec (length pkt) (10 + (n * 4 + r))) as [|L1]; [done|].
  assert (0 <= b0 < 256 /\ 0 <= at_ pkt 9 < 256) as [Hb0 H9] by (split; [rewrite Ep in Hb; by apply Forall_cons in Hb as [? _]|by apply at_bytes_ok]).
  destruct (read_acks_ok pkt 10 n Hb ltac:(lia)) as [_ Ha].
  assert (pkt = b0 :: slice pkt 1 9 ++ [Z.of_nat n] ++ slice pkt 10 (10 + n * 4) ++ slice pkt (10 + n * 4) (10 + (n * 4 + r)) ++
    drop (10 + (n * 4 + r)) pkt) as Hp.
  { transitivity (slice pkt 0 1 ++ slice pkt 1 9 ++ slice pkt 9 10 ++ slice pkt 10 (10 + n * 4) ++ slice pkt (10 + n * 4) (10 + (n * 4 + r)) ++
      drop (10 + (n * 4 + r)) pkt).
    - assert (forall i j, (i <= j <= length pkt)%nat -> slice pkt i j ++ drop j pkt = drop i pkt) as K.
      { intros i j Hij. unfold slice. rewrite <- (take_drop (j - i) (drop i pkt)) at 2. rewrite drop_drop. do 2 f_equal. lia. }
      rewrite !K by lia. done.
    - assert (slice pkt 0 1 = [b0]) as -> by by rewrite Ep. assert (slice pkt 9 10 = [Z.of_nat n]) as ->; [|done].
      destruct (slice pkt 9 10) as [|y [|]] eqn:Es; apply (f_equal length) in Es as Ls; rewrite length_slice in Ls by lia; try done.
      apply (f_equal (fun l => at_ l 0)) in Es. rewrite at_slice in Es by lia. change (9 + 0)%nat with 9%nat in Es.
      cbn in Es. subst n. rewrite Z2Nat.id by lia. by rewrite Es. }
  assert (forall rem body op, op = Z.shiftr b0 3 -> rem = slice pkt (10 + n * 4) (10 + (n * 4 + r)) -> body = drop (10 + (n * 4 + r)) pkt ->
    pkt = firstByte op (Z.land b0 7) :: slice pkt 1 9 ++ [Z.of_nat (length (read_acks pkt 10 n))] ++
      concat (be_enc 4 <$> read_acks pkt 10 n) ++ rem ++ body) as Hp'.
  { intros rem body op -> -> ->. rewrite length_read_acks, Ha, Opcode_firstByte by done. exact Hp. }
  assert ((length (read_acks pkt 10 n) <= 255)%nat) as Hn by (rewrite length_read_acks; lia).
  assert (slice pkt (10 + n * 4) (10 + (n * 4 + r)) =
    if (0 <? length (read_acks pkt 10 n))%nat then if (0 <? n)%nat then slice pkt (10 + n * 4) (10 + (n * 4 + r)) else replicate 8 0 else []) as Hr.
  { rewrite length_read_acks. destruct (0 <? n)%nat eqn:En; [done|]. subst r. unfold slice. by replace (_ - _)%nat with 0%nat by lia. }
  destruct (Z.eqb_spec (Z.shiftr b0 3) 5) as [E5|E5].
  { intros [= <-]. cbn [cpOpcode cpKeyID cpSessionID cpACKs cpRemote cpPacketID cpPayload]. exists (slice pkt (10 + n * 4) (10 + (n * 4 + r))), (drop (10 + (n * 4 + r)) pkt). split_and!; try done. by apply Hp'. by rewrite E5. }
  destruct (Nat.ltb_spec (length pkt) (10 + (n * 4 + r) + 4)) as [|L2]; [done|]. intros [= <-]. cbn [cpOpcode cpKeyID cpSessionID cpACKs cpRemote cpPacketID cpPayload].
  exists (slice pkt (10 + n * 4) (10 + (n * 4 + r))), (drop (10 + (n * 4 + r)) pkt). split_and!; [by apply Hp'|done| |done].
  intros _. transitivity (take 4 (drop (10 + (n * 4 + r)) pkt) ++ drop 4 (drop (10 + (n * 4 + r)) pkt)); [by rewrite take_drop|].
  rewrite drop_drop. f_equal.
  replace (slice _ _ _) with (take 4 (drop (10 + (n * 4 + r)) pkt)) by (unfold slice; f_equal; lia).
  set (w := take 4 _). assert (length w = 4%nat) as <- by (subst w; rewrite length_take, length_drop; lia).
  symmetry. apply be_enc_dec. by apply Forall_take, Forall_drop.
Qed.

(** Control packets survive the wire.  Every packet the code builds marshals into a buffer of
    [MarshalLen] octets, to exactly that many, and parses back to itself; and a datagram that
    parses at all is the encoding of the packet it parsed to, followed by nothing unless it is a
    pure acknowledgement. *)
Theorem control_packet_roundtrip (p : ControlPacket) (pkt : bytes) :
  wf_control p -> bytes_ok pkt ->
  (exists out, Marshal (replicate (MarshalLen p) 0) p = Ok out /\ length out = MarshalLen p /\ ParseControl out = Ok p) /\
  (forall q, ParseControl pkt = Ok q ->
     exists out, Marshal (replicate (MarshalLen q) 0) q = Ok out /\
       (pkt = out \/ cpOpcode q = PACKV1 /\ out `prefix_of` pkt)).
Proof.
  intros Hp Hb. split.
  - destruct (Marshal_roundtrip_spec p (replicate (MarshalLen p) 0) Hp) as (out & E & E'); [by rewrite length_replicate|].
    exists out. split_and!; [done| |done]. destruct (Marshal_ok p (replicate (MarshalLen p) 0)) as (out' & E1 & E2); [by rewrite length_replicate|apply Hp|].
    assert (out = out') as -> by congruence. subst out'. unfold MarshalLen. cbn [length].
    rewrite !length_app, length_acks, (wc_session p Hp). cbn [length]. destruct (0 <? _)%nat, (has_body p);
      rewrite ?length_app, ?length_be_enc, ?(wc_remote p Hp); cbn [length]; lia.
  - intros q Hq. destruct (ParseControl_inv pkt q Hb Hq) as (rem & body & E & Er & Eb & Hn).
    destruct (Marshal_ok q (replicate (MarshalLen q) 0)) as (out & E1 & E2); [by rewrite length_replicate|done|].
    exists out. split; [done|]. rewrite E, E2, <- Er. destruct (Z.eqb_spec (cpOpcode q) 5) as [E5|E5]; cbn [negb].
    + right. split; [done|]. exists body. rewrite app_nil_r. cbn [app]. rewrite <- !app_assoc. cbn [app]. by rewrite <- !app_assoc.
    + left. by rewrite Eb.
Qed.

Lemma control_packet_roundtrip_witness :
  let p := mkControl 4 1 [1; 2; 3; 4; 5; 6; 7; 8] [9; 10] [8; 7; 6; 5; 4; 3; 2; 1] 77 [22; 3; 1] in
  (exists out, Marshal (replicate (MarshalLen p) 0) p = Ok out /\ length out = MarshalLen p /\ ParseControl out = Ok p) /\
  (forall q, ParseControl (40 :: replicate 8 1 ++ [0; 99]) = Ok q ->
     exists out, Marshal (replicate (MarshalLen q) 0) q = Ok out /\
       (40 :: replicate 8 1 ++ [0; 99] = out \/ cpOpcode q = PACKV1 /\ out `prefix_of` (40 :: replicate 8 1 ++ [0; 99]))).
Proof.
  intros p. apply (control_packet_roundtrip p (40 :: replicate 8 1 ++ [0; 99])); [|by_decision].
  split; try done; cbn; try lia; by_decision.
Defined.
