(* ===== verification/OvpnWrap.v ===== *)
(** * Control-channel wrapping of OpenVPN, [internal/openvpn/tlswrap/]

    The two protections of control packets under a static key: --tls-auth, an HMAC
    over packet ID, time and packet, and --tls-crypt, a synthetic-IV construction of
    HMAC-SHA256 and AES-256-CTR.  HMAC is a parameter ([Prims] of Crypto); so is
    AES-CTR ([StreamPrims]), with its documented law: the keystream applied twice is
    the identity.  The clock reading of [Wrap] is an argument.

    The theorem: two ends of a static key whose directions match exchange control
    packets at most once each and unchanged, over any network. *)
From Stdlib Require Import ZArith Lia.
From stdpp Require Import base list gmap.
From S2P Require Import Prelude AntiReplay BitWindows Crypto Sealed.

Abbreviation StaticKeyLen := 256%nat (only parsing).
Abbreviation keyLen := 128%nat (only parsing).
Abbreviation hmacOff := 64%nat (only parsing).
Abbreviation wrapHeaderLen := 9%nat (only parsing).
Abbreviation pidLen := 4%nat (only parsing).
Abbreviation replayLen := 8%nat (only parsing).
Abbreviation cryptTagLen := 32%nat (only parsing).
Abbreviation cryptKeyLen := 32%nat (only parsing).
Abbreviation cryptIVLen := 16%nat (only parsing).
Abbreviation cryptTagOff := 17%nat (only parsing).
Abbreviation cryptCipherOff := 49%nat (only parsing).

Class StreamPrims := { aesCTR : bytes -> bytes -> bytes -> bytes (* key iv data *) }.

Class StreamPrimsOk (C : StreamPrims) := {
  aesCTR_twice k iv d : aesCTR k iv (aesCTR k iv d) = d;
  length_aesCTR k iv d : length (aesCTR k iv d) = length d;
}.

(** ** Static keys, [key.go] *)

Inductive Direction := Bidirectional | Normal | Inverse.

Definition outSlot (d : Direction) : nat := match d with Inverse => 1 | _ => 0 end.

Definition inSlot (d : Direction) : nat := match d with Normal => 1 | _ => 0 end.

(** The 256 octets; [key], [hmacKey] and [cipherKey] slice them. *)
Definition StaticKey : Type := list Z.

Definition key (k : StaticKey) (slot : nat) : bytes := slice k (slot * keyLen) ((slot + 1) * keyLen).

Definition hmacKey (k : StaticKey) (slot n : nat) : bytes := slice (key k slot) hmacOff (hmacOff + n).

Definition cipherKey (k : StaticKey) (slot n : nat) : bytes := slice (key k slot) 0 n.

Inductive wrap_error := ErrAuth | ErrWrapReplay | ErrWrapShort.

(** [counter.next]. *)
Abbreviation next n := (wrap 32 (n + 1)) (only parsing).

Section Wrap.
Context {P : Prims} {C : StreamPrims}.

(** ** --tls-auth, [tlswrap.go] *)

Record authWrapper := mkAuth { aw_digest : hash_alg; aw_sendKey : bytes; aw_recvKey : bytes; aw_sendID : Z; aw_recvSeen : tlswrapWindow }.

Definition NewAuth (k : StaticKey) (dir : Direction) (digest : hash_alg) : authWrapper :=
  mkAuth digest (hmacKey k (outSlot dir) (hashSize digest)) (hmacKey k (inSlot dir) (hashSize digest)) 0 ar_init.

Definition auth_Wrap (now : Z) (pkt : bytes) (w : authWrapper) : result wrap_error bytes * authWrapper :=
  if (length pkt <? wrapHeaderLen)%nat then (Err ErrWrapShort, w)
  else
    let header := take wrapHeaderLen pkt in
    let body := drop wrapHeaderLen pkt in
    let id := next (aw_sendID w) in
    let replay := be_enc 4 id ++ be_enc 4 (wrap 32 now) in
    let tag := hmac (aw_digest w) (aw_sendKey w) (replay ++ header ++ body) in
    (Ok (header ++ tag ++ replay ++ body), mkAuth (aw_digest w) (aw_sendKey w) (aw_recvKey w) id (aw_recvSeen w)).

Definition auth_Unwrap (dg : bytes) (w : authWrapper) : result wrap_error bytes * authWrapper :=
  let size := hashSize (aw_digest w) in
  let fixed := (wrapHeaderLen + size + replayLen)%nat in
  if (length dg <? fixed)%nat then (Err ErrWrapShort, w)
  else
    let header := take wrapHeaderLen dg in
    let tag := slice dg wrapHeaderLen (wrapHeaderLen + size) in
    let replay := slice dg (wrapHeaderLen + size) fixed in
    let body := drop fixed dg in
    if negb (bool_decide (tag = hmac (aw_digest w) (aw_recvKey w) (replay ++ header ++ body))) then (Err ErrAuth, w)
    else
      let '(fresh, seen) := ar_step (aw_recvSeen w) (be_dec (take pidLen replay)) in
      (if fresh then Ok (header ++ body) else Err ErrWrapReplay,
       mkAuth (aw_digest w) (aw_sendKey w) (aw_recvKey w) (aw_sendID w) seen).

(** ** --tls-crypt, [tls_crypt.go] *)

Record cryptWrapper := mkCrypt { cw_sendKey : bytes; cw_sendMAC : bytes; cw_recvKey : bytes; cw_recvMAC : bytes; cw_sendID : Z; cw_recvSeen : tlswrapWindow }.

(** The AES keys have 32 octets, which [aes.NewCipher] accepts. *)
Definition NewCrypt (k : StaticKey) (dir : Direction) : cryptWrapper :=
  mkCrypt (cipherKey k (outSlot dir) cryptKeyLen) (hmacKey k (outSlot dir) cryptTagLen)
    (cipherKey k (inSlot dir) cryptKeyLen) (hmacKey k (inSlot dir) cryptTagLen) 0 ar_init.

Definition crypt_Wrap (now : Z) (pkt : bytes) (w : cryptWrapper) : result wrap_error bytes * cryptWrapper :=
  if (length pkt <? wrapHeaderLen)%nat then (Err ErrWrapShort, w)
  else
    let header := take wrapHeaderLen pkt in
    let body := drop wrapHeaderLen pkt in
    let id := next (cw_sendID w) in
    let replay := be_enc 4 id ++ be_enc 4 (wrap 32 now) in
    let tag := hmac SHA256 (cw_sendMAC w) (header ++ replay ++ body) in
    (Ok (header ++ replay ++ tag ++ aesCTR (cw_sendKey w) (take cryptIVLen tag) body),
     mkCrypt (cw_sendKey w) (cw_sendMAC w) (cw_recvKey w) (cw_recvMAC w) id (cw_recvSeen w)).

Definition crypt_Unwrap (dg : bytes) (w : cryptWrapper) : result wrap_error bytes * cryptWrapper :=
  if (length dg <? cryptCipherOff)%nat then (Err ErrWrapShort, w)
  else
    let header := take wrapHeaderLen dg in
    let replay := slice dg wrapHeaderLen cryptTagOff in
    let tag := slice dg cryptTagOff cryptCipherOff in
    let body := aesCTR (cw_recvKey w) (take cryptIVLen tag) (drop cryptCipherOff dg) in
    if negb (bool_decide (tag = hmac SHA256 (cw_recvMAC w) (header ++ replay ++ body))) then (Err ErrAuth, w)
    else
      let '(fresh, seen) := ar_step (cw_recvSeen w) (be_dec (take pidLen replay)) in
      (if fresh then Ok (header ++ body) else Err ErrWrapReplay,
       mkCrypt (cw_sendKey w) (cw_sendMAC w) (cw_recvKey w) (cw_recvMAC w) (cw_sendID w) seen).

(** ** The interface, [Wrapper] *)

Inductive Wrapper := AuthWrapper (w : authWrapper) | CryptWrapper (w : cryptWrapper).

Definition Wrap (now : Z) (pkt : bytes) (w : Wrapper) : result wrap_error bytes * Wrapper :=
  match w with
  | AuthWrapper w => let '(r, w) := auth_Wrap now pkt w in (r, AuthWrapper w)
  | CryptWrapper w => let '(r, w) := crypt_Wrap now pkt w in (r, CryptWrapper w)
  end.

Definition Unwrap (dg : bytes) (w : Wrapper) : result wrap_error bytes * Wrapper :=
  match w with
  | AuthWrapper w => let '(r, w) := auth_Unwrap dg w in (r, AuthWrapper w)
  | CryptWrapper w => let '(r, w) := crypt_Unwrap dg w in (r, CryptWrapper w)
  end.

(** ** Keys of a direction, and the datagrams under them *)

Inductive wrap_keys := AuthKeys (d : hash_alg) (mac : bytes) | CryptKeys (enc mac : bytes).

Definition send_keys (w : Wrapper) : wrap_keys :=
  match w with AuthWrapper w => AuthKeys (aw_digest w) (aw_sendKey w) | CryptWrapper w => CryptKeys (cw_sendKey w) (cw_sendMAC w) end.

Definition recv_keys (w : Wrapper) : wrap_keys :=
  match w with AuthWrapper w => AuthKeys (aw_digest w) (aw_recvKey w) | CryptWrapper w => CryptKeys (cw_recvKey w) (cw_recvMAC w) end.

Definition sendID (w : Wrapper) : Z := match w with AuthWrapper w => aw_sendID w | CryptWrapper w => cw_sendID w end.

Definition recvSeen (w : Wrapper) : tlswrapWindow := match w with AuthWrapper w => aw_recvSeen w | CryptWrapper w => cw_recvSeen w end.

(** The datagram of packet [pkt] under packet ID [id]. *)
Definition wrapped (k : wrap_keys) (id now : Z) (pkt : bytes) : bytes :=
  let header := take wrapHeaderLen pkt in
  let body := drop wrapHeaderLen pkt in
  let replay := be_enc 4 id ++ be_enc 4 (wrap 32 now) in
  match k with
  | AuthKeys d mac => header ++ hmac d mac (replay ++ header ++ body) ++ replay ++ body
  | CryptKeys enc mac =>
      let tag := hmac SHA256 mac (header ++ replay ++ body) in
      header ++ replay ++ tag ++ aesCTR enc (take cryptIVLen tag) body
  end.

Lemma Wrap_spec now pkt w :
  (wrapHeaderLen <= length pkt)%nat ->
  exists w', Wrap now pkt w = (Ok (wrapped (send_keys w) (next (sendID w)) now pkt), w') /\
    send_keys w' = send_keys w /\ recv_keys w' = recv_keys w /\ recvSeen w' = recvSeen w /\ sendID w' = next (sendID w).
Proof.
  intros Hl. destruct w as [w|w]; cbn [Wrap]; unfold auth_Wrap, crypt_Wrap; rewrite (proj2 (Nat.ltb_ge _ _)) by lia; by eexists.
Qed.

Context {PO : PrimsOk P} {CO : StreamPrimsOk C}.

(** A genuine datagram opens to its packet, if its ID is fresh. *)
Lemma Unwrap_spec id now pkt w :
  (wrapHeaderLen <= length pkt)%nat -> uint32 id ->
  exists w', Unwrap (wrapped (recv_keys w) id now pkt) w =
      (if (ar_step (recvSeen w) id).1 then Ok pkt else Err ErrWrapReplay, w') /\
    send_keys w' = send_keys w /\ recv_keys w' = recv_keys w /\ recvSeen w' = (ar_step (recvSeen w) id).2 /\ sendID w' = sendID w.
Proof.
  intros Hl Hid. set (header := take 9 pkt). set (body := drop 9 pkt). set (replay := be_enc 4 id ++ be_enc 4 (wrap 32 now)).
  assert (length header = 9%nat) as Lh by (subst header; rewrite length_take; lia).
  assert (length replay = 8%nat) as Lr by (subst replay; by rewrite length_app, !length_be_enc).
  assert (header ++ body = pkt) as Hp by apply take_drop.
  assert (be_dec (take 4 replay) = id) as Hi by (subst replay; rewrite take_app_length' by (by rewrite length_be_enc); by apply be_dec_enc_small).
  destruct w as [w|w]; cbn [Unwrap recv_keys recvSeen send_keys sendID wrapped]; fold header body replay.
  - set (tag := hmac _ _ _). assert (length tag = hashSize (aw_digest w)) as Lt by apply length_hmac.
    unfold auth_Unwrap. rewrite !length_app, Lh, Lt, Lr, (proj2 (Nat.ltb_ge _ _)) by lia.
    assert (take 9 (header ++ tag ++ replay ++ body) = header) as -> by by apply take_app_length'.
    assert (slice (header ++ tag ++ replay ++ body) 9 (9 + hashSize (aw_digest w)) = tag) as ->
      by (rewrite slice_app_r, Lh, Nat.sub_diag, Nat.add_comm, Nat.add_sub by lia; by apply slice_hd).
    assert (slice (header ++ tag ++ replay ++ body) (9 + hashSize (aw_digest w)) (9 + hashSize (aw_digest w) + 8) = replay) as ->.
    { rewrite app_assoc, slice_app_r, length_app, Lh, Lt, Nat.sub_diag by (rewrite length_app; lia).
      replace (_ - _)%nat with 8%nat by lia. by apply slice_hd. }
    assert (drop (9 + hashSize (aw_digest w) + 8) (header ++ tag ++ replay ++ body) = body) as ->
      by (rewrite !app_assoc; apply drop_app_length'; rewrite !length_app; lia).
    rewrite bool_decide_true by done. cbn [negb]. rewrite Hi, Hp. destruct (ar_step _ _) as [fresh seen]. by eexists.
  - set (tag := hmac _ _ _). assert (length tag = 32%nat) as Lt by apply length_hmac. set (ct := aesCTR _ _ body).
    unfold crypt_Unwrap. rewrite !length_app, Lh, Lt, Lr, (proj2 (Nat.ltb_ge _ _)) by lia.
    assert (take 9 (header ++ replay ++ tag ++ ct) = header) as -> by by apply take_app_length'.
    assert (slice (header ++ replay ++ tag ++ ct) 9 17 = replay) as -> by (cut_fields; done).
    assert (slice (header ++ replay ++ tag ++ ct) 17 49 = tag) as -> by (cut_fields; done).
    assert (drop 49 (header ++ replay ++ tag ++ ct) = ct) as -> by (rewrite !app_assoc; apply drop_app_length'; rewrite !length_app; lia).
    subst ct. rewrite aesCTR_twice, bool_decide_true by done. cbn [negb]. rewrite Hi, Hp.
    destruct (ar_step _ _) as [fresh seen]. by eexists.
Qed.

(** ** Sessions *)

(** [NewAuth] and [NewCrypt] by the mode of the connection. *)
Inductive Mode := ModeAuth (digest : hash_alg) | ModeCrypt.

Definition newWrapper (m : Mode) (k : StaticKey) (dir : Direction) : Wrapper :=
  match m with ModeAuth d => AuthWrapper (NewAuth k dir d) | ModeCrypt => CryptWrapper (NewCrypt k dir) end.

(** The n-th packet of a side carries packet ID n + 1. *)
Definition wrap_ctr (n : nat) : Z := Z.of_nat n + 1.

(** A packet and the clock reading at which it is wrapped. *)
Abbreviation wrap_send := (bytes * Z)%type.

Definition wrap_link (k : wrap_keys) :
  Link (fun (s : Wrapper) (x : wrap_send) => Wrap x.2 x.1 s) (fun r d => Unwrap d r) (W := tlswrapWindow)
    (dom := uint32) (fun x => (wrapHeaderLen <= length x.1)%nat) fst ErrWrapReplay wrap_ctr (2 ^ 32 - 1).
Proof.
  refine {| lk_packet n x := wrapped k (wrap_ctr n) x.2 x.1;
            lk_sender n s := send_keys s = k /\ sendID s = Z.of_nat n;
            lk_receiver r := recv_keys r = k;
            lk_window := recvSeen |}.
  - intros n Hn. unfold wrap_ctr, uint. lia.
  - intros n s [pkt now] [Hk Hs] Hl Hn. destruct (Wrap_spec now pkt s Hl) as (s' & E & H1 & _ & _ & H4).
    rewrite Hs, (wrap_small 32) in * by (unfold uint; lia). exists s'. split; [by rewrite <- Hk|]. split; [congruence|lia].
  - intros n r [pkt now] <- Hl Hn. destruct (Unwrap_spec (wrap_ctr n) now pkt r Hl) as (r' & E & _ & H2 & H3 & _);
      [unfold wrap_ctr, uint; lia|]. by exists r'.
Defined.

(** Octets that no wrapper with the receiving keys takes. *)
Definition unauthentic (k : wrap_keys) (d : bytes) : Prop := forall r, recv_keys r = k -> exists e, Unwrap d r = (Err e, r).


End Wrap.

(** ** An instance of the stream cipher *)

Definition toy_stream : StreamPrims := {| aesCTR := fun _ _ d => (fun b => Z.lxor b 0x5a) <$> d |}.

Lemma toy_stream_ok : StreamPrimsOk toy_stream.
Proof.
  split; cbn; intros; [|by rewrite length_fmap]. rewrite <- list_fmap_compose. rewrite <- (list_fmap_id d) at 2.
  apply list_fmap_ext. intros i x _. cbn. by rewrite Z.lxor_assoc, Z.lxor_nilpotent, Z.lxor_0_r.
Qed.

Definition demo_static : StaticKey := (fun i => wrap 8 (Z.of_nat i * 7)) <$> seq 0 256.

