(* ===== verification/OvpnControl.v ===== *)
(** * OpenVPN's control channel, [internal/openvpn/control/control.go]

    A [Channel] turns datagrams into the byte stream TLS runs over: writes are cut
    into messages of the reliability layer (Reliable), messages become control
    packets (OvpnWire), packets are wrapped (OvpnWrap), and on the way back the
    payloads the receiver releases in order are queued for reads.

    The goroutines of the channel meet at Go channels, so its state carries what
    is in them: the datagrams queued for the pump, the payloads queued for [Read],
    the payloads a blocked pump still has to hand over, and the rest of a [Write] in
    progress.  The steps of the second half are the atomic ones between those
    meeting points, in any order the scheduler and the network choose.

    The theorem: two channels joined by a network that loses, duplicates, reorders
    and, where the channel is wrapped, forges, give each reader a prefix of what the
    other side wrote, and all of it once nothing is in flight. *)
From Stdlib Require Import ZArith Lia.
From stdpp Require Import base list gmap sorting.
From S2P Require Import Prelude AntiReplay Reliable OvpnWire OvpnWrap Crypto.

Abbreviation maxControlPayload := 1200%nat (only parsing).
Abbreviation maxACKPerPacket := 4 (only parsing).
Abbreviation datagramQueue := 64%nat (only parsing).
Abbreviation inboundQueue := 64%nat (only parsing).

Section Control.
Context {P : Prims} {C : StreamPrims}.

(** [c_remote] is [remote] and [remoteSet]; [c_closed] the closed Go channel; [c_pumping] tells
    whether the pump goroutine still runs. *)
Record Channel := mkChannel {
  c_keyID : Z; c_local : bytes; c_hardReset : Z;
  c_sender : Sender; c_receiver : Receiver; c_wrap : option Wrapper; c_remote : option bytes;
  c_datagrams : list bytes; c_inbound : list bytes; c_blocked : list bytes;
  c_writing : bytes; c_readRem : bytes; c_closed : bool; c_pumping : bool }.

Definition set_sender (s : Sender) (c : Channel) : Channel :=
  mkChannel (c_keyID c) (c_local c) (c_hardReset c) s (c_receiver c) (c_wrap c) (c_remote c)
    (c_datagrams c) (c_inbound c) (c_blocked c) (c_writing c) (c_readRem c) (c_closed c) (c_pumping c).
Definition set_receiver (r : Receiver) (c : Channel) : Channel :=
  mkChannel (c_keyID c) (c_local c) (c_hardReset c) (c_sender c) r (c_wrap c) (c_remote c)
    (c_datagrams c) (c_inbound c) (c_blocked c) (c_writing c) (c_readRem c) (c_closed c) (c_pumping c).
Definition set_wrap (w : option Wrapper) (c : Channel) : Channel :=
  mkChannel (c_keyID c) (c_local c) (c_hardReset c) (c_sender c) (c_receiver c) w (c_remote c)
    (c_datagrams c) (c_inbound c) (c_blocked c) (c_writing c) (c_readRem c) (c_closed c) (c_pumping c).
Definition set_remote (r : option bytes) (c : Channel) : Channel :=
  mkChannel (c_keyID c) (c_local c) (c_hardReset c) (c_sender c) (c_receiver c) (c_wrap c) r
    (c_datagrams c) (c_inbound c) (c_blocked c) (c_writing c) (c_readRem c) (c_closed c) (c_pumping c).
Definition set_datagrams (d : list bytes) (c : Channel) : Channel :=
  mkChannel (c_keyID c) (c_local c) (c_hardReset c) (c_sender c) (c_receiver c) (c_wrap c) (c_remote c)
    d (c_inbound c) (c_blocked c) (c_writing c) (c_readRem c) (c_closed c) (c_pumping c).
(** The payloads between the receiver and the reader. *)
Definition set_stream (blocked inbound : list bytes) (rem : bytes) (c : Channel) : Channel :=
  mkChannel (c_keyID c) (c_local c) (c_hardReset c) (c_sender c) (c_receiver c) (c_wrap c) (c_remote c)
    (c_datagrams c) inbound blocked (c_writing c) rem (c_closed c) (c_pumping c).
Definition set_writing (p : bytes) (c : Channel) : Channel :=
  mkChannel (c_keyID c) (c_local c) (c_hardReset c) (c_sender c) (c_receiver c) (c_wrap c) (c_remote c)
    (c_datagrams c) (c_inbound c) (c_blocked c) p (c_readRem c) (c_closed c) (c_pumping c).
Definition set_life (closed pumping : bool) (c : Channel) : Channel :=
  mkChannel (c_keyID c) (c_local c) (c_hardReset c) (c_sender c) (c_receiver c) (c_wrap c) (c_remote c)
    (c_datagrams c) (c_inbound c) (c_blocked c) (c_writing c) (c_readRem c) closed pumping.

(** [newChannel], with the session ID it draws. *)
Definition newChannel (sid : bytes) (keyID timeout : Z) (wrap : option Wrapper) (hardReset : Z) : Channel :=
  mkChannel keyID sid hardReset (Queue (NewSender 0 timeout) []).2 NewReceiver wrap None [] [] [] [] [] false true.

(** [fail] records the error and closes; [Close] only closes. *)
Definition Close (c : Channel) : Channel := set_life true (c_pumping c) c.

Definition Deliver (datagram : bytes) (c : Channel) : Channel :=
  if (length (c_datagrams c) <? datagramQueue)%nat then set_datagrams (c_datagrams c ++ [datagram]) c else c.

(** ** Sending *)

Definition attachACKs (acks : list Z) (p : ControlPacket) (c : Channel) : ControlPacket :=
  match acks, c_remote c with
  | _ :: _, Some rsid => mkControl (cpOpcode p) (cpKeyID p) (cpSessionID p) acks rsid (cpPacketID p) (cpPayload p)
  | _, _ => p
  end.

(** What [writePacket] hands to [send], and the channel; [sendOk] tells which sends succeed. *)
Definition writePacket (unix : Z) (sendOk : bytes -> bool) (p : ControlPacket) (c : Channel) : list bytes * Channel :=
  match Marshal (replicate (MarshalLen p) 0) p with
  | Err _ => ([], Close c)
  | Ok out =>
      match c_wrap c with
      | None => ([out], if sendOk out then c else Close c)
      | Some w =>
          match Wrap unix out w with
          | (Err _, w) => ([], Close (set_wrap (Some w) c))
          | (Ok out, w) => ([out], if sendOk out then set_wrap (Some w) c else Close (set_wrap (Some w) c))
          end
      end
  end.

Definition sendMessage (unix : Z) (sendOk : bytes -> bool) (m : Message) (acks : list Z) (c : Channel) : list bytes * Channel :=
  let opcode := if ID m =? 0 then c_hardReset c else PControlV1 in
  let p := mkControl opcode (c_keyID c) (c_local c) [] (replicate SessionIDLen 0) (ID m) (Payload m) in
  writePacket unix sendOk (attachACKs acks p c) c.

Definition sendACK (unix : Z) (sendOk : bytes -> bool) (acks : list Z) (c : Channel) : list bytes * Channel :=
  let p := mkControl PACKV1 (c_keyID c) (c_local c) [] (replicate SessionIDLen 0) 0 [] in
  writePacket unix sendOk (attachACKs acks p c) c.

(** The loop of [transmit]: the acknowledgements go with the first message.  [unix i] is the clock when
    the i-th packet is wrapped. *)
Fixpoint send_due (unix : nat -> Z) (sendOk : bytes -> bool) (i : nat) (due : list Message) (acks : list Z) (c : Channel) : list bytes * Channel :=
  match due with
  | [] => ([], c)
  | m :: due =>
      let '(o1, c) := sendMessage (unix i) sendOk m acks c in
      let '(o2, c) := send_due unix sendOk (S i) due [] c in
      (o1 ++ o2, c)
  end.

Definition transmit (now : Z) (unix : nat -> Z) (sendOk : bytes -> bool) (c : Channel) : list bytes * Channel :=
  let '(due, s) := Due (c_sender c) now in
  let c := set_sender s c in
  let '(acks, c) := match c_remote c with
                    | Some _ => let '(acks, r) := TakeACKs (c_receiver c) maxACKPerPacket in (acks, set_receiver r c)
                    | None => ([], c)
                    end in
  match due with
  | [] => match acks with [] => ([], c) | _ => sendACK (unix 0%nat) sendOk acks c end
  | _ => send_due unix sendOk 0 due acks c
  end.

(** ** Receiving *)

Definition non_empty (p : bytes) : bool := (0 <? length p)%nat.

(** What [handleDatagram] does with a packet, up to the hand-over of the payloads, which then block
    the pump. *)
Definition handlePacket (p : ControlPacket) (c : Channel) : Channel :=
  let other := match c_remote c with None => false | Some r => negb (bool_decide (cpSessionID p = r)) end in
  if other then c
  else
    let c := set_remote (Some (cpSessionID p)) c in
    let c := set_sender (foldl Ack (c_sender c) (cpACKs p)) c in
    if cpOpcode p =? PACKV1 then c
    else
      match Receive (c_receiver c) (cpPacketID p) (cpPayload p) with
      | None => c
      | Some (out, r) => set_stream (filter (fun p => non_empty p = true) out) (c_inbound c) (c_readRem c) (set_receiver r c)
      end.

Definition handleDatagram (dg : bytes) (c : Channel) : Channel :=
  let '(plain, c) := match c_wrap c with
                     | None => (Some dg, c)
                     | Some w => match Unwrap dg w with
                                 | (Ok plain, w) => (Some plain, set_wrap (Some w) c)
                                 | (Err _, w) => (None, set_wrap (Some w) c)
                                 end
                     end in
  match plain with
  | None => c
  | Some dg =>
      match Opcode dg with
      | None => c
      | Some (op, _) =>
          if negb (IsControl op) then c
          else match ParseControl dg with Err _ => c | Ok p => handlePacket p c end
      end
  end.

(** [Read] into a buffer of [n] octets; [None] while it has to wait. *)
Definition Read (n : nat) (c : Channel) : option (bytes * Channel) :=
  match c_readRem c with
  | (_ :: _) as rem => Some (take n rem, set_stream (c_blocked c) (c_inbound c) (drop n rem) c)
  | [] =>
      match c_inbound c with
      | payload :: rest => Some (take n payload, set_stream (c_blocked c) rest (drop n payload) c)
      | [] => None
      end
  end.

(** One round of [Write]: the pump takes the next chunk, while the window has room. *)
Definition take_chunk (c : Channel) : option (bytes * Channel) :=
  if (Ready (c_sender c) && non_empty (c_writing c))%bool then
    let n := Nat.min (length (c_writing c)) maxControlPayload in
    let chunk := take n (c_writing c) in
    Some (chunk, set_writing (drop n (c_writing c)) (set_sender (Queue (c_sender c) chunk).2 c))
  else None.

(** ** Two channels and a network *)

(** An end of the connection, every datagram it sent, the octets [Write] has counted as written and
    the octets read. *)
Record endpoint := mkEnd { e_ch : Channel; e_net : list bytes; e_written : bytes; e_read : bytes }.

Definition upd (f : Channel -> Channel) (e : endpoint) : endpoint := mkEnd (f (e_ch e)) (e_net e) (e_written e) (e_read e).

(** Octets the wrapper of a channel refuses; without a wrapper there are none. *)
Definition forgery (c : Channel) (d : bytes) : Prop :=
  exists w, c_wrap c = Some w /\ unauthentic (recv_keys w) d.

(** The pump is between two meetings. *)
Definition idle (c : Channel) : Prop := c_pumping c = true /\ c_blocked c = [].

Inductive act (b : endpoint) : endpoint -> endpoint -> Prop :=
| act_transmit a now unix sendOk out c :
    idle (e_ch a) -> transmit now unix sendOk (e_ch a) = (out, c) -> act b a (mkEnd c (e_net a ++ out) (e_written a) (e_read a))
| act_deliver a d : d ∈ e_net b -> act b a (upd (Deliver d) a)
| act_forge a d : forgery (e_ch a) d -> act b a (upd (Deliver d) a)
| act_handle a d ds :
    idle (e_ch a) -> c_datagrams (e_ch a) = d :: ds -> act b a (upd (handleDatagram d ∘ set_datagrams ds) a)
| act_hand_over a p ps :
    c_blocked (e_ch a) = p :: ps -> (length (c_inbound (e_ch a)) < inboundQueue)%nat ->
    act b a (upd (fun c => set_stream ps (c_inbound c ++ [p]) (c_readRem c) c) a)
| act_abandon a :
    c_closed (e_ch a) = true -> act b a (upd (fun c => set_stream [] (c_inbound c) (c_readRem c) c) a)
| act_write a p : c_writing (e_ch a) = [] -> act b a (upd (set_writing p) a)
| act_write_fails a : c_closed (e_ch a) = true -> act b a (upd (set_writing []) a)
| act_chunk a chunk c :
    idle (e_ch a) -> take_chunk (e_ch a) = Some (chunk, c) -> act b a (mkEnd c (e_net a) (e_written a ++ chunk) (e_read a))
| act_read a n p c : Read n (e_ch a) = Some (p, c) -> act b a (mkEnd c (e_net a) (e_written a) (e_read a ++ p))
| act_close a : act b a (upd Close a)
| act_stop a : c_closed (e_ch a) = true -> act b a (upd (set_life true false) a).

Inductive ctl_step : endpoint * endpoint -> endpoint * endpoint -> Prop :=
| step_left a a' b : act b a a' -> ctl_step (a, b) (a', b)
| step_right a b b' : act a b b' -> ctl_step (a, b) (a, b').

(** ** What the network carries *)

(** A datagram that encodes packet [p], wrapped if there are keys. *)
Definition encodes (k : option wrap_keys) (p : ControlPacket) (d : bytes) : Prop :=
  exists out, Marshal (replicate (MarshalLen p) 0) p = Ok out /\
    match k with None => d = out | Some k => exists id now, uint32 id /\ d = wrapped k id now out end.

(** A packet of a channel that has sent the messages [M] and the acknowledgements [K]. *)
Record carries (c : Channel) (M : list Message) (K : list Z) (p : ControlPacket) : Prop := {
  ca_wf : wf_control p;
  ca_session : cpSessionID p = c_local c;
  ca_acks : Forall (.∈ K) (cpACKs p);
  ca_message : cpOpcode p = PACKV1 \/ mkMessage (cpPacketID p) (cpPayload p) ∈ M;
}.

Definition sent_ok (c : Channel) (M : list Message) (K : list Z) (d : bytes) : Prop :=
  exists p, encodes (send_keys <$> c_wrap c) p d /\ carries c M K p.

(** What never changes in a channel, and what sending leaves alone. *)
Definition fixed (c : Channel) : Z * bytes * Z * option wrap_keys * option wrap_keys :=
  (c_keyID c, c_local c, c_hardReset c, send_keys <$> c_wrap c, recv_keys <$> c_wrap c).

Definition kept_by_send (c : Channel) : option bytes * list bytes * list bytes * list bytes * bytes * bytes * bool :=
  (c_remote c, c_datagrams c, c_inbound c, c_blocked c, c_writing c, c_readRem c, c_pumping c).

Record unmoved (c c' : Channel) : Prop := {
  um_fixed : fixed c' = fixed c;
  um_kept : kept_by_send c' = kept_by_send c;
  um_sender : c_sender c' = c_sender c;
  um_receiver : c_receiver c' = c_receiver c;
  um_closed : c_closed c' = false -> c_closed c = false;
}.

Lemma unmoved_refl c : unmoved c c.
Proof. by split. Qed.

Lemma unmoved_trans c1 c2 c3 : unmoved c1 c2 -> unmoved c2 c3 -> unmoved c1 c3.
Proof. intros [A1 A2 A3 A4 A5] [B1 B2 B3 B4 B5]. split; [congruence..|auto]. Qed.

Lemma Marshal_header p out : wf_control p -> Marshal (replicate (MarshalLen p) 0) p = Ok out -> (9 <= length out)%nat.
Proof.
  intros Hp E. destruct (Marshal_ok p (replicate (MarshalLen p) 0)) as (out' & E' & ->); [by rewrite length_replicate|apply Hp|].
  rewrite E in E'. apply Ok_inj in E' as ->. cbn [length]. rewrite length_app, (wc_session p Hp). lia.
Qed.

Lemma writePacket_spec unix sendOk p c :
  wf_control p -> exists d c', writePacket unix sendOk p c = ([d], c') /\ encodes (send_keys <$> c_wrap c) p d /\ unmoved c c'.
Proof.
  intros Hp. destruct (Marshal_ok p (replicate (MarshalLen p) 0)) as (out & E & _); [by rewrite length_replicate|apply Hp|].
  pose proof (Marshal_header p out Hp E) as Ho. unfold writePacket. rewrite E. destruct (c_wrap c) as [w|] eqn:Ew.
  - destruct (Wrap_spec unix out w Ho) as (w' & -> & W1 & W2 & _). eexists _, _. split; [reflexivity|]. split.
    + exists out. split; [done|]. eexists _, unix. split; [by apply wrap_uint|done].
    + destruct (sendOk _); split; try done; unfold fixed; cbn; rewrite ?Ew; cbn; congruence.
  - eexists _, _. split; [reflexivity|]. split; [by exists out|]. destruct (sendOk _); by split.
Qed.

(** What a sender needs to know of its channel. *)
Record can_send (c : Channel) (rsid : bytes) : Prop := {
  cs_keyID : 0 <= c_keyID c < 8;
  cs_local : length (c_local c) = SessionIDLen;
  cs_reset : c_hardReset c = PControlHardResetClientV2 \/ c_hardReset c = PControlHardResetServerV2;
  cs_remote : c_remote c = None \/ c_remote c = Some rsid;
  cs_rsid : length rsid = SessionIDLen;
}.

Lemma can_send_unmoved c c' rsid : unmoved c c' -> can_send c rsid -> can_send c' rsid.
Proof.
  intros [H1 H2 _ _ _] [A1 A2 A3 A4 A5]. unfold fixed in H1. unfold kept_by_send in H2. split; try done; by simplify_eq; congruence.
Qed.

Lemma attachACKs_wf acks p c rsid :
  can_send c rsid -> (length acks <= maxACKs)%nat -> Forall uint32 acks -> cpACKs p = [] -> wf_control p ->
  wf_control (attachACKs acks p c) /\ Forall (.∈ acks) (cpACKs (attachACKs acks p c)) /\
  cpOpcode (attachACKs acks p c) = cpOpcode p /\ cpSessionID (attachACKs acks p c) = cpSessionID p /\
  cpPacketID (attachACKs acks p c) = cpPacketID p /\ cpPayload (attachACKs acks p c) = cpPayload p.
Proof.
  intros Hc Hn Hu Ha Hp. unfold attachACKs. destruct acks as [|x acks]; [rewrite Ha; by split_and!; [|constructor|..]|].
  destruct (c_remote c) as [r|] eqn:Er; [|rewrite Ha; by split_and!; [|constructor|..]].
  assert (length r = 8%nat) as Lr by (destruct (cs_remote c rsid Hc) as [E|E]; rewrite Er in E; simplify_eq; apply (cs_rsid c rsid Hc)).
  destruct Hp. split_and!; [by split|apply Forall_forall; by cbn|done..].
Qed.

(** More messages and acknowledgements, and a channel of the same identity. *)
Lemma sent_ok_mono c c' M M' K K' d :
  fixed c' = fixed c -> M ⊆ M' -> K ⊆ K' -> sent_ok c' M K d -> sent_ok c M' K' d.
Proof.
  intros H HM HK (p & E & [A1 A2 A3 A4]). unfold fixed in H. exists p. split; [by simplify_eq; congruence|].
  split; [done|congruence| |set_solver]. eapply Forall_impl; [exact A3|]. set_solver.
Qed.

Lemma sent_ok_fixed c c' M K d : fixed c' = fixed c -> sent_ok c' M K d -> sent_ok c M K d.
Proof. intros H. by apply sent_ok_mono. Qed.

Section Sending.
Context (unix : nat -> Z) (sendOk : bytes -> bool) (M : list Message) (K : list Z) (rsid : bytes).

Lemma sendMessage_spec u m acks c :
  can_send c rsid -> (length acks <= maxACKs)%nat -> Forall uint32 acks -> Forall (.∈ K) acks -> m ∈ M -> uint32 (ID m) ->
  exists d c', sendMessage u sendOk m acks c = ([d], c') /\ sent_ok c M K d /\ unmoved c c'.
Proof.
  intros Hc Hn Hu Hk Hm Hid. unfold sendMessage. set (p := mkControl _ _ _ _ _ _ _).
  assert (wf_control p /\ cpOpcode p <> PACKV1) as [Hp Ho].
  { destruct Hc as [C1 C2 C3 C4 C5]. subst p.
    assert (IsControl (if ID m =? 0 then c_hardReset c else 4) = true /\ (if ID m =? 0 then c_hardReset c else 4) <> 5) as [H1 H2]
      by (destruct (ID m =? 0); [destruct C3 as [-> | ->]|]; done).
    split; [split; try done|done]. cbn. lia. }
  destruct (attachACKs_wf acks p c rsid Hc Hn Hu eq_refl Hp) as (W & I & E1 & E2 & E3 & E4).
  destruct (writePacket_spec u sendOk _ c W) as (d & c' & E & He & Hu'). exists d, c'. split; [done|]. split; [|done].
  eexists. split; [done|]. split; [done|by rewrite E2| |right; rewrite E3, E4; by destruct m].
  rewrite Forall_forall in Hk, I |- *. auto.
Qed.

Lemma sendACK_spec u acks c :
  can_send c rsid -> (length acks <= maxACKs)%nat -> Forall uint32 acks -> Forall (.∈ K) acks ->
  exists d c', sendACK u sendOk acks c = ([d], c') /\ sent_ok c M K d /\ unmoved c c'.
Proof.
  intros Hc Hn Hu Hk. unfold sendACK. set (p := mkControl _ _ _ _ _ _ _).
  assert (wf_control p) as Hp by (destruct Hc as [C1 C2 C3 C4 C5]; subst p; split; try done; cbn; lia).
  destruct (attachACKs_wf acks p c rsid Hc Hn Hu eq_refl Hp) as (W & I & E1 & E2 & E3 & E4).
  destruct (writePacket_spec u sendOk _ c W) as (d & c' & E & He & Hu'). exists d, c'. split; [done|]. split; [|done].
  eexists. split; [done|]. split; [done|by rewrite E2| |by left].
  rewrite Forall_forall in Hk, I |- *. auto.
Qed.

Lemma send_due_spec i due acks c :
  can_send c rsid -> (length acks <= maxACKs)%nat -> Forall uint32 acks -> Forall (.∈ K) acks ->
  Forall (fun m => m ∈ M /\ uint32 (ID m)) due ->
  let '(out, c') := send_due unix sendOk i due acks c in Forall (sent_ok c M K) out /\ unmoved c c'.
Proof.
  intros Hc Hn Hu Hk Hd. revert i acks c Hc Hn Hu Hk.
  induction Hd as [|m due [Hm Hid] _ IH]; intros i acks c Hc Hn Hu Hk; cbn [send_due]; [split; [constructor|apply unmoved_refl]|].
  destruct (sendMessage_spec (unix i) m acks c Hc Hn Hu Hk Hm Hid) as (d & c1 & -> & Hs & H1).
  specialize (IH (S i) [] c1 (can_send_unmoved _ _ _ H1 Hc)). cbn in IH. destruct (send_due unix sendOk (S i) due [] c1) as [o2 c2].
  destruct IH as [IH1 IH2]; [lia|constructor..|]. split; [|by eapply unmoved_trans]. constructor; [done|].
  eapply Forall_impl; [exact IH1|]. intros x. apply sent_ok_fixed, H1.
Qed.
End Sending.

Lemma TakeACKs_bound r n acks r' (Q : Z -> Prop) :
  TakeACKs r n = (acks, r') -> Forall Q (pending r) -> (length acks <= Z.to_nat n)%nat /\ Forall Q acks.
Proof.
  unfold TakeACKs. destruct (_ || _); intros E H; simplify_eq; [split; [cbn; lia|constructor]|].
  split; [rewrite length_take; destruct (Z.ltb_spec (Z.of_nat (length (pending r))) n); lia|by apply Forall_take].
Qed.

(** [transmit] sends what is due and some of the acknowledgements pending. *)
Lemma transmit_spec now unix sendOk c rsid out c' M K :
  can_send c rsid -> transmit now unix sendOk c = (out, c') ->
  Forall uint32 (pending (c_receiver c)) -> Forall (fun m => uint32 (ID m)) (msg <$> inflight (c_sender c)) ->
  exists due acks, Due (c_sender c) now = (due, c_sender c') /\
    (exists n, TakeACKs (c_receiver c) n = (acks, c_receiver c')) /\
    Forall (sent_ok c (M ++ due) (K ++ acks)) out /\
    fixed c' = fixed c /\ kept_by_send c' = kept_by_send c /\ (c_closed c' = false -> c_closed c = false).
Proof.
  intros Hc. unfold transmit. destruct (Due (c_sender c) now) as [due s] eqn:Ed. pose proof (Due_msgs _ _ _ _ Ed) as (Hd & _ & _).
  intros H Hp Hf. set (c0 := set_sender s c) in *.
  assert (exists n acks rc, n <= 4 /\ TakeACKs (c_receiver c) n = (acks, rc) /\
    match c_remote c0 with
    | Some _ => let '(acks, r) := TakeACKs (c_receiver c0) 4 in (acks, set_receiver r c0)
    | None => ([], c0)
    end = (acks, set_receiver rc c0)) as (n & acks & rc & Hn4 & Ea & Em).
  { destruct (c_remote c0); [|by eexists 0, [], _]. change (c_receiver c0) with (c_receiver c).
    destruct (TakeACKs (c_receiver c) 4) as [acks rc] eqn:E. by exists 4, acks, rc. }
  rewrite Em in H. clear Em. set (c1 := set_receiver rc c0) in *.
  assert (can_send c1 rsid) as Hc1 by (destruct Hc; by split).
  destruct (TakeACKs_bound _ _ _ _ _ Ea Hp) as [Hn Hu].
  assert (length acks <= maxACKs)%nat as Hn' by lia.
  assert (Forall (.∈ K ++ acks) acks) as Hk by (apply Forall_forall; set_solver).
  assert (Forall (fun m => m ∈ M ++ due /\ uint32 (ID m)) due) as Hm.
  { rewrite Forall_forall in Hf |- *. intros m Hm. split; [set_solver|]. by apply Hf, Hd. }
  exists due, acks. assert (Forall (sent_ok c1 (M ++ due) (K ++ acks)) out /\ unmoved c1 c') as [H1 [U1 U2 U3 U4 U5]].
  { destruct due as [|m due].
    - destruct acks as [|x acks]; [injection H as <- <-; by split; [constructor|apply unmoved_refl]|].
      destruct (sendACK_spec sendOk (M ++ []) (K ++ x :: acks) rsid (unix 0%nat) (x :: acks) c1 Hc1 Hn' Hu Hk) as (d & c2 & E & Hs & Hu2).
      rewrite E in H. injection H as <- <-. split; [by apply Forall_singleton|done].
    - pose proof (send_due_spec unix sendOk (M ++ m :: due) (K ++ acks) rsid 0 (m :: due) acks c1 Hc1 Hn' Hu Hk Hm) as Hs. by rewrite H in Hs. }
  rewrite U3, U4. split_and!; [done|by exists n| |done|done|done].
  eapply Forall_impl; [exact H1|]. intros d. by apply sent_ok_fixed.
Qed.

(** ** What the receiving side does *)

Context {PO : PrimsOk P} {CO : StreamPrimsOk C}.

Lemma handleDatagram_forged d c : forgery c d -> handleDatagram d c = c.
Proof.
  intros (w & Ew & Hf). destruct (Hf w eq_refl) as [e E]. unfold handleDatagram. rewrite Ew, E.
  destruct c. by rewrite <- Ew.
Qed.

(** A datagram of the peer is a replay, or its packet is handled. *)
Lemma handleDatagram_genuine b M K d c :
  recv_keys <$> c_wrap c = send_keys <$> c_wrap b -> sent_ok b M K d ->
  exists w, fixed (set_wrap w c) = fixed c /\
    (handleDatagram d c = set_wrap w c \/ exists p, carries b M K p /\ handleDatagram d c = handlePacket p (set_wrap w c)).
Proof.
  intros Hk (p & (out & E & Ed) & Hp). pose proof (ca_wf _ _ _ _ Hp) as Hw.
  pose proof (Marshal_header p out Hw E) as Ho.
  destruct (Marshal_roundtrip_spec p (replicate (MarshalLen p) 0) Hw) as (out' & E' & Hparse); [by rewrite length_replicate|].
  rewrite E in E'. apply Ok_inj in E' as <-.
  assert (forall c, match Opcode out with
      | None => c
      | Some (op, _) => if negb (IsControl op) then c else match ParseControl out with Err _ => c | Ok p => handlePacket p c end
      end = handlePacket p c) as Hh.
  { intros c0. destruct (Marshal_ok p (replicate (MarshalLen p) 0)) as (out' & E' & Hout); [by rewrite length_replicate|apply Hw|].
    rewrite E in E'. apply Ok_inj in E' as <-.
    destruct (firstByte_split (cpOpcode p) (cpKeyID p)) as (F1 & F2 & _); [apply IsControl_range, Hw|apply Hw|].
    rewrite Hparse, Hout. unfold Opcode. by rewrite F1, (wc_opcode p Hw). }
  unfold handleDatagram. destruct (c_wrap c) as [w|] eqn:Ew; destruct (c_wrap b) as [wb|] eqn:Eb; cbn in Hk, Ed; try done.
  - injection Hk as Hk. destruct Ed as (id & now & Hid & ->). rewrite <- Hk.
    destruct (Unwrap_spec id now out w Ho Hid) as (w' & -> & W1 & W2 & _). exists (Some w').
    split; [unfold fixed; cbn; rewrite Ew; cbn; congruence|].
    destruct (ar_step _ _).1; [right; exists p; by rewrite Hh|by left].
  - subst d. exists None. split; [unfold fixed; cbn; by rewrite Ew|]. right. exists p. split; [done|].
    rewrite Hh. destruct c; cbn in *. by rewrite Ew.
Qed.

Lemma concat_non_empty (l : list bytes) : concat (filter (fun p => non_empty p = true) l) = concat l.
Proof. induction l as [|[|x p] l IH]; [done|by rewrite filter_cons|]. rewrite filter_cons, decide_True by done. cbn [concat]. by rewrite IH. Qed.

Lemma inv_fold_acks s r st d n a ids :
  sys_inv (mkSys s r st d n a) -> Forall (.∈ a) ids -> sys_inv (mkSys (foldl Ack s ids) r st d n a).
Proof.
  intros H Hf. revert s H. induction Hf as [|id ids Hid _ IH]; intros s H; [done|]. apply IH. by apply inv_step_ack.
Qed.

(** ** The invariant *)

(** Of end [a]: it has written the messages [W], transmitted messages [M] and acknowledgements [K],
    and received the payloads [D]. *)
Record end_inv (a b : endpoint) (M : list Message) (K : list Z) (W D : list bytes) : Prop := {
  ei_net : Forall (sent_ok (e_ch a) M K) (e_net a);
  ei_queue : Forall (fun d => d ∈ e_net b \/ forgery (e_ch a) d) (c_datagrams (e_ch a));
  ei_send : can_send (e_ch a) (c_local (e_ch b));
  ei_keys : recv_keys <$> c_wrap (e_ch a) = send_keys <$> c_wrap (e_ch b);
  ei_written : e_written a = concat W;
  ei_chunks : (length W <= length (e_written a) + 1)%nat;
  ei_read : c_closed (e_ch a) = false ->
    e_read a ++ c_readRem (e_ch a) ++ concat (c_inbound (e_ch a)) ++ concat (c_blocked (e_ch a)) = concat D;
}.

Definition joined (a b : endpoint) (M : list Message) (K : list Z) (W D : list bytes) : sys :=
  mkSys (c_sender (e_ch a)) (c_receiver (e_ch b)) W D M K.

Definition conn_with (a b : endpoint) Ma Ka Wa Da Mb Kb Wb Db : Prop :=
  end_inv a b Ma Ka Wa Da /\ end_inv b a Mb Kb Wb Db /\
  sys_inv (joined a b Ma Kb Wa Db) /\ sys_inv (joined b a Mb Ka Wb Da).

Definition conn_inv (a b : endpoint) : Prop :=
  exists Ma Ka Wa Da Mb Kb Wb Db, conn_with a b Ma Ka Wa Da Mb Kb Wb Db.

Lemma conn_inv_sym a b : conn_inv a b -> conn_inv b a.
Proof. intros (Ma & Ka & Wa & Da & Mb & Kb & Wb & Db & (H1 & H2 & H3 & H4)). by exists Mb, Kb, Wb, Db, Ma, Ka, Wa, Da. Qed.

(** What an end knows of the other survives the other's steps. *)
Lemma end_inv_other a b b' M K W D :
  fixed (e_ch b') = fixed (e_ch b) -> e_net b ⊆ e_net b' -> end_inv a b M K W D -> end_inv a b' M K W D.
Proof.
  intros Hf Hn [E1 E2 E3 E4 E5 E6 E7]. unfold fixed in Hf. split; try done.
  - eapply Forall_impl; [exact E2|]. intros d [?|?]; [left; set_solver|by right].
  - replace (c_local (e_ch b')) with (c_local (e_ch b)) by congruence. done.
  - simplify_eq. congruence.
Qed.

Lemma forgery_fixed c c' d : fixed c' = fixed c -> forgery c d -> forgery c' d.
Proof.
  unfold fixed, forgery. intros Hf (w & Ew & H). rewrite Ew in Hf.
  destruct (c_wrap c') as [w'|]; [|done]. exists w'. split; [done|]. cbn in Hf. by replace (recv_keys w') with (recv_keys w) by congruence.
Qed.

Lemma can_send_fixed c c' rsid :
  fixed c' = fixed c -> c_remote c' = c_remote c \/ c_remote c' = Some rsid -> can_send c rsid -> can_send c' rsid.
Proof.
  unfold fixed. intros Hf Hr [A1 A2 A3 A4 A5]. split; try done; try (by simplify_eq; congruence).
  destruct Hr as [-> | ->]; auto.
Qed.

(** The steps that leave the sender, the receiver and the network alone. *)
Lemma conn_with_local a a' b Ma Ka Wa Da Mb Kb Wb Db :
  fixed (e_ch a') = fixed (e_ch a) -> c_sender (e_ch a') = c_sender (e_ch a) -> c_receiver (e_ch a') = c_receiver (e_ch a) ->
  c_remote (e_ch a') = c_remote (e_ch a) -> e_net a' = e_net a -> e_written a' = e_written a ->
  Forall (fun d => d ∈ c_datagrams (e_ch a) \/ d ∈ e_net b \/ forgery (e_ch a) d) (c_datagrams (e_ch a')) ->
  (c_closed (e_ch a') = false -> c_closed (e_ch a) = false /\
    e_read a' ++ c_readRem (e_ch a') ++ concat (c_inbound (e_ch a')) ++ concat (c_blocked (e_ch a')) =
    e_read a ++ c_readRem (e_ch a) ++ concat (c_inbound (e_ch a)) ++ concat (c_blocked (e_ch a))) ->
  conn_with a b Ma Ka Wa Da Mb Kb Wb Db -> conn_with a' b Ma Ka Wa Da Mb Kb Wb Db.
Proof.
  intros Hf Hs Hr Hrem Hn Hw Hq Hd ([E1 E2 E3 E4 E5 E6 E7] & H2 & H3 & H4).
  unfold conn_with, joined. rewrite Hs, Hr. split_and!; [|by eapply end_inv_other; [done|by rewrite Hn|]|done|done].
  split; rewrite ?Hn, ?Hw; try done.
  - eapply Forall_impl; [exact E1|]. intros d. by apply sent_ok_fixed.
  - rewrite Forall_forall in E2, Hq |- *. intros d Hd'. destruct (Hq d Hd') as [Hx|[?|Hx]]; [|by left|right; by eapply forgery_fixed].
    destruct (E2 d Hx) as [?|?]; [by left|right; by eapply forgery_fixed].
  - eapply can_send_fixed; eauto.
  - unfold fixed in Hf. congruence.
  - intros Hc. destruct (Hd Hc) as [Hc' ->]. by apply E7.
Qed.

(** IDs are in range below the 32-bit ID space. *)
Lemma pending_uint32 y : sys_inv y -> Z.of_nat (length (sent y)) < 2 ^ 32 -> Forall uint32 (pending (rcv_ y)).
Proof.
  intros [_ _ _ Hr _ Hb Ha _] Hl. apply Forall_forall. intros id Hid. unfold uint.
  destruct (Ha id) as [?|[p Hp]]; [set_solver|lia|]. apply Hb in Hp as [? Hp%lookup_lt_Some]. lia.
Qed.

Lemma inflight_uint32 y :
  sys_inv y -> Z.of_nat (length (sent y)) < 2 ^ 32 -> Forall (fun m => uint32 (ID m)) (msg <$> inflight (snd_ y)).
Proof.
  intros [_ Hi _ _ _ _ _ _] Hl. apply Forall_forall. intros m Hm. destruct (Hi m Hm) as [? H%lookup_lt_Some]. unfold uint. lia.
Qed.

(** What [e_written] bounds. *)
Abbreviation within e := (Z.of_nat (length (e_written e)) + 1 < 2 ^ 32) (only parsing).

Lemma conn_transmit a b now unix sendOk out c :
  within a -> within b -> transmit now unix sendOk (e_ch a) = (out, c) -> conn_inv a b ->
  conn_inv (mkEnd c (e_net a ++ out) (e_written a) (e_read a)) b.
Proof.
  intros La Lb E (Ma & Ka & Wa & Da & Mb & Kb & Wb & Db & [E1 E2 E3 E4 E5 E6 E7] & H2 & H3 & H4).
  pose proof (ei_chunks _ _ _ _ _ _ H2) as Hb.
  destruct (transmit_spec now unix sendOk (e_ch a) (c_local (e_ch b)) out c Ma Ka E3 E) as (due & acks & Ed & [n Et] & Ho & Hf & Hkept & Hcl).
  { eapply (pending_uint32 _ H4). cbn. lia. }
  { eapply (inflight_uint32 _ H3). cbn. lia. }
  exists (Ma ++ due), (Ka ++ acks), Wa, Da, Mb, Kb, Wb, Db. unfold kept_by_send in Hkept. split_and!.
  - split; cbn [e_ch e_net e_written e_read].
    + apply Forall_app. split; (eapply Forall_impl; [eassumption|]; intros d; apply sent_ok_mono; [done|set_solver..]).
    + replace (c_datagrams c) with (c_datagrams (e_ch a)) by congruence. eapply Forall_impl; [exact E2|].
      intros d [?|?]; [by left|right; by eapply forgery_fixed].
    + eapply can_send_fixed; [done|left; congruence|done].
    + unfold fixed in Hf. congruence.
    + done.
    + done.
    + intros Hc. replace (c_readRem c) with (c_readRem (e_ch a)) by congruence.
      replace (c_inbound c) with (c_inbound (e_ch a)) by congruence. replace (c_blocked c) with (c_blocked (e_ch a)) by congruence. auto.
  - eapply end_inv_other; [done|cbn; set_solver|done].
  - by eapply inv_step_transmit.
  - by eapply inv_step_acks.
Qed.

Lemma conn_chunk a b chunk c :
  within (mkEnd c (e_net a) (e_written a ++ chunk) (e_read a)) -> take_chunk (e_ch a) = Some (chunk, c) -> conn_inv a b ->
  conn_inv (mkEnd c (e_net a) (e_written a ++ chunk) (e_read a)) b.
Proof.
  intros La E (Ma & Ka & Wa & Da & Mb & Kb & Wb & Db & [E1 E2 E3 E4 E5 E6 E7] & H2 & H3 & H4).
  unfold take_chunk in E. destruct (Ready (c_sender (e_ch a)) && non_empty (c_writing (e_ch a))) eqn:G; [|done].
  apply andb_true_iff in G as [G1 G2]. unfold non_empty in G2. apply Nat.ltb_lt in G2.
  set (ch := take _ _) in E. injection E as <- <-.
  assert (1 <= length ch)%nat as Hch by (subst ch; rewrite length_take; lia). clearbody ch. cbn [e_written] in La. rewrite length_app in La.
  destruct (Queue (c_sender (e_ch a)) ch) as [o s] eqn:EQ.
  assert (exists id, o = Some id) as [id ->] by (unfold Queue, Ready in *; case_match; simplify_eq; [lia|eauto]).
  exists Ma, Ka, (Wa ++ [ch]), Da, Mb, Kb, Wb, Db. split_and!.
  - split; cbn; try done.
    + eapply Forall_impl; [exact E1|]. intros d. by apply sent_ok_fixed.
    + by destruct E3; split.
    + rewrite E5, concat_app. cbn. by rewrite app_nil_r.
    + rewrite !length_app. cbn. lia.
  - by eapply end_inv_other; [..|exact H2].
  - unfold joined. cbn. eapply inv_step_queue; [done|done|]. rewrite length_app. cbn. lia.
  - done.
Qed.

(** Handling a packet of the peer. *)
Lemma conn_packet a b c p Ma Ka Wa Da Mb Kb Wb Db net rd :
  let a0 := mkEnd c net (e_written a) rd in
  within b -> carries (e_ch b) Mb Kb p -> c_blocked c = [] ->
  conn_with a0 b Ma Ka Wa Da Mb Kb Wb Db ->
  conn_inv (mkEnd (handlePacket p c) net (e_written a) rd) b.
Proof.
  intros a0 Lb [_ Hsid Hacks Hmsg] Hbl (H1 & H2 & H3 & H4). pose proof (ei_chunks _ _ _ _ _ _ H2) as Hlen.
  assert (conn_inv a0 b) as H0 by (by exists Ma, Ka, Wa, Da, Mb, Kb, Wb, Db).
  unfold handlePacket. destruct (match c_remote c with None => false | Some _ => _ end) eqn:Er; [done|]. clear H0 Er.
  cbv zeta. rewrite Hsid. set (c1 := set_sender _ _).
  assert (sys_inv (joined (mkEnd c1 net (e_written a) rd) b Ma Kb Wa Db)) as H3' by by apply inv_fold_acks.
  assert (forall c2 Da', fixed c2 = fixed c1 -> c_remote c2 = Some (c_local (e_ch b)) -> c_datagrams c2 = c_datagrams c -> c_closed c2 = c_closed c ->
    (c_closed c = false -> rd ++ c_readRem c2 ++ concat (c_inbound c2) ++ concat (c_blocked c2) = concat Da') ->
    end_inv (mkEnd c2 net (e_written a) rd) b Ma Ka Wa Da' /\ end_inv b (mkEnd c2 net (e_written a) rd) Mb Kb Wb Db) as Hown.
  { intros c2 Da' Hf Hr Hd Hc Hread. destruct H1 as [E1 E2 E3 E4 E5 E6 E7]. split; [|by eapply end_inv_other; [| |exact H2]].
    split; cbn in *; try done.
    - eapply Forall_impl; [exact E1|]. intros d. by apply sent_ok_fixed.
    - rewrite Hd. eapply Forall_impl; [exact E2|]. intros d [?|?]; [by left|right; by eapply forgery_fixed].
    - eapply can_send_fixed; [|by right|exact E3]. done.
    - unfold fixed in Hf. cbn in Hf. congruence.
    - by rewrite Hc. }
  destruct (Z.eqb_spec (cpOpcode p) 5) as [|Hop].
  { destruct (Hown c1 Da) as [Ha Hb]; [done..|apply (ei_read _ _ _ _ _ _ H1)|]. by exists Ma, Ka, Wa, Da, Mb, Kb, Wb, Db. }
  destruct Hmsg as [|Hmsg]; [done|].
  destruct (Receive (c_receiver c1) (cpPacketID p) (cpPayload p)) as [[out r]|] eqn:ER.
  - exists Ma, Ka, Wa, (Da ++ out), Mb, Kb, Wb, Db.
    destruct (Hown (set_stream (filter (fun p => non_empty p = true) out) (c_inbound c1) (c_readRem c1) (set_receiver r c1)) (Da ++ out)) as [Ha Hb]; [done..| |].
    { intros Hc. cbn. rewrite concat_non_empty, concat_app, <- (ei_read _ _ _ _ _ _ H1 Hc). cbn. rewrite Hbl. cbn.
      by rewrite app_nil_r, <- !app_assoc. }
    split_and!; [done|done|done|]. eapply (inv_step_receive _ _ _ _ _ _ _ _ _ H4 Hmsg ER). lia.
  - destruct (Receive_total (c_receiver c1) (cpPacketID p) (cpPayload p)) as (? & ? & ? & _). congruence.
Qed.

Lemma conn_handle a b d ds :
  within b -> idle (e_ch a) -> c_datagrams (e_ch a) = d :: ds -> conn_inv a b ->
  conn_inv (upd (handleDatagram d ∘ set_datagrams ds) a) b.
Proof.
  intros Lb [_ Hbl] Hd (Ma & Ka & Wa & Da & Mb & Kb & Wb & Db & H).
  assert (conn_with (upd (set_datagrams ds) a) b Ma Ka Wa Da Mb Kb Wb Db) as H0.
  { apply (conn_with_local a); [done..| |done|done]. cbn. rewrite Hd. apply Forall_forall. intros x Hx. left. by right. }
  destruct H as ([_ E2 _ _ _ _ _] & _). rewrite Hd in E2. apply Forall_cons in E2 as [Hor _].
  unfold upd in *. cbn [compose]. set (c := set_datagrams ds (e_ch a)) in *.
  destruct Hor as [Hin|Hf].
  - pose proof H0 as (H1 & H2 & _). pose proof (ei_net _ _ _ _ _ _ H2) as Hnet. rewrite Forall_forall in Hnet.
    destruct (handleDatagram_genuine (e_ch b) Mb Kb d c (ei_keys _ _ _ _ _ _ H1) (Hnet d Hin)) as (w & Hw & Hres).
    assert (conn_with (mkEnd (set_wrap w c) (e_net a) (e_written a) (e_read a)) b Ma Ka Wa Da Mb Kb Wb Db) as Hwinv.
    { apply (conn_with_local (mkEnd c (e_net a) (e_written a) (e_read a))); [exact Hw|done..| |done|exact H0]. apply Forall_forall. by left. }
    cbn. destruct Hres as [-> |(p & Hp & ->)]; [by exists Ma, Ka, Wa, Da, Mb, Kb, Wb, Db|by eapply conn_packet].
  - cbn. rewrite (handleDatagram_forged d c Hf). by exists Ma, Ka, Wa, Da, Mb, Kb, Wb, Db.
Qed.

Lemma conn_deliver a b d : d ∈ e_net b \/ forgery (e_ch a) d -> conn_inv a b -> conn_inv (upd (Deliver d) a) b.
Proof.
  intros Hd (Ma & Ka & Wa & Da & Mb & Kb & Wb & Db & HW). exists Ma, Ka, Wa, Da, Mb, Kb, Wb, Db.
  unfold upd, Deliver. destruct (length (c_datagrams (e_ch a)) <? 64)%nat;
    apply (conn_with_local a); try done; apply Forall_forall; [|by left].
  intros x [Hx| ->%list_elem_of_singleton]%elem_of_app; auto.
Qed.

Lemma conn_read a b n p c :
  Read n (e_ch a) = Some (p, c) -> conn_inv a b -> conn_inv (mkEnd c (e_net a) (e_written a) (e_read a ++ p)) b.
Proof.
  intros E (Ma & Ka & Wa & Da & Mb & Kb & Wb & Db & HW). exists Ma, Ka, Wa, Da, Mb, Kb, Wb, Db.
  unfold Read in E. destruct (c_readRem (e_ch a)) as [|x rem] eqn:Er.
  - destruct (c_inbound (e_ch a)) as [|pl rest] eqn:Ei; [done|]. injection E as <- <-.
    apply (conn_with_local a); try done; cbn; [apply Forall_forall; by left|]. intros Hc. split; [done|].
    rewrite Er, Ei. cbn. rewrite <- (take_drop n pl) at 3. by rewrite <- !app_assoc.
  - injection E as <- <-. apply (conn_with_local a); try done; [apply Forall_forall; by left|]. intros Hc. split; [done|].
    rewrite Er. cbn [e_read e_ch set_stream c_readRem c_inbound c_blocked]. set (rm := x :: rem). rewrite <- (take_drop n rm) at 3. by rewrite <- !app_assoc.
Qed.

(** The other steps move octets along the queues, or give up a closed channel. *)
Lemma conn_act a a' b : within a' -> within b -> act b a a' -> conn_inv a b -> conn_inv a' b.
Proof.
  intros La Lb Hact H. pose proof H as (Ma & Ka & Wa & Da & Mb & Kb & Wb & Db & HW).
  destruct Hact as [a now unix sendOk out c Hi E|a d Hd|a d Hd|a d ds Hi Hd|a p ps Hbl Hq|a Hc|a p Hw|a Hc|a chunk c Hi E|a n p c E|a|a Hc];
    [by eapply conn_transmit|apply conn_deliver; auto|apply conn_deliver; auto|by apply conn_handle| | | | |by eapply conn_chunk|by eapply conn_read|..];
    exists Ma, Ka, Wa, Da, Mb, Kb, Wb, Db; eapply (conn_with_local a); try exact HW; try done; cbn; try (apply Forall_forall; by left).
  - intros Hc. split; [done|]. rewrite Hbl, concat_app. cbn. by rewrite app_nil_r, <- !app_assoc.
  - congruence.
Qed.

Lemma act_written b a a' : act b a a' -> (length (e_written a) <= length (e_written a'))%nat.
Proof. destruct 1; cbn; rewrite ?length_app; lia. Qed.

(** ** The connection *)

(** An end before anything happened. *)
Definition opened (c : Channel) : endpoint := mkEnd c [] [] [].

Lemma conn_inv_start sa sb keyA keyB ta tb wa wb :
  length sa = SessionIDLen -> length sb = SessionIDLen -> 0 <= keyA < 8 -> 0 <= keyB < 8 ->
  recv_keys <$> wa = send_keys <$> wb -> recv_keys <$> wb = send_keys <$> wa ->
  conn_inv (opened (newChannel sa keyA ta wa PControlHardResetClientV2)) (opened (newChannel sb keyB tb wb PControlHardResetServerV2)).
Proof.
  intros La Lb Ka Kb Hab Hba. exists [], [], [[]], [], [], [], [[]], [].
  assert (forall t, exists id, Queue (NewSender 0 t) [] = (Some id, (Queue (NewSender 0 t) []).2)) as HQ by (intros t; by eexists).
  split_and!; try (split; cbn; try done; try lia; try (split; cbn; try done; auto); fail); unfold joined; cbn [e_ch opened newChannel c_sender c_receiver].
  - destruct (HQ ta) as [id E]. eapply (inv_step_queue (NewSender 0 ta) NewReceiver [] [] [] []); [apply (sys_inv_init 0 ta)|exact E|cbn; lia].
  - destruct (HQ tb) as [id E]. eapply (inv_step_queue (NewSender 0 tb) NewReceiver [] [] [] []); [apply (sys_inv_init 0 tb)|exact E|cbn; lia].
Qed.

Lemma conn_inv_reachable x y :
  rtc ctl_step x y -> within y.1 -> within y.2 -> conn_inv x.1 x.2 -> conn_inv y.1 y.2.
Proof.
  intros Hr La Lb Hx. revert y Hr La Lb. refine (rtc_ind_r _ _ _ _); [done|].
  intros y z _ Hs IH La Lb. destruct Hs as [a a' b Ha|a b b' Ha]; cbn in *; pose proof (act_written _ _ _ Ha).
  - eapply conn_act; [done|done|done|]. apply IH; lia.
  - apply conn_inv_sym. eapply conn_act; [done|done|done|]. apply conn_inv_sym, IH; lia.
Qed.

(** What the reader [b] has of the writer [a]. *)
Definition stream_ok (a b : endpoint) : Prop :=
  c_closed (e_ch b) = false ->
  e_read b `prefix_of` e_written a /\
  (inflight (c_sender (e_ch a)) = [] -> c_blocked (e_ch b) = [] -> c_inbound (e_ch b) = [] -> c_readRem (e_ch b) = [] ->
   e_read b = e_written a).

Lemma conn_inv_stream a b : conn_inv a b -> stream_ok a b.
Proof.
  intros (Ma & Ka & Wa & Da & Mb & Kb & Wb & Db & H1 & H2 & H3 & H4) Hc.
  rewrite (ei_written _ _ _ _ _ _ H1). pose proof (ei_read _ _ _ _ _ _ H2 Hc) as Hr. split.
  - pose proof (inv_delivered _ H3) as Hd. cbn in Hd.
    rewrite <- (take_drop (Z.to_nat (rnext (c_receiver (e_ch b)))) Wa), concat_app, <- Hd, <- Hr, <- !app_assoc. by eexists.
  - intros Hi E1 E2 E3. pose proof (inv_quiescent _ H3 Hi) as Hd. cbn in Hd. rewrite <- Hd, <- Hr, E1, E2, E3. cbn. by rewrite !app_nil_r.
Qed.


End Control.

(** ** A run *)

#[local] Ltac normalise :=
  match goal with |- rtc _ ?s _ => let s' := eval vm_compute in s in replace s with s' by (vm_compute; reflexivity) end.
#[local] Ltac go s := eapply rtc_l; [s|]; normalise.

Abbreviation demo_wrapper := (newWrapper ModeCrypt demo_static) (only parsing).
Abbreviation demo_client := (newChannel (replicate 8 1) 0 0 (Some (demo_wrapper Inverse)) PControlHardResetClientV2) (only parsing).
Abbreviation demo_server := (newChannel (replicate 8 2) 0 0 (Some (demo_wrapper Normal)) PControlHardResetServerV2) (only parsing).

(** The client writes; its reset and its octets arrive in reverse, and a second time; the server reads in two
    pieces and acknowledges. *)
Definition control_run :
  { ab | rtc (ctl_step (P := toy_prims) (C := toy_stream)) (opened demo_client, opened demo_server) ab /\
    c_closed (e_ch ab.2) = false /\ inflight (c_sender (e_ch ab.1)) = [] /\ e_written ab.1 = [1; 2; 3] /\ e_written ab.2 = [] }.
Proof.
  eexists. split.
  - normalise.
    go ltac:(eapply step_left, (act_write _ _ [1; 2; 3]); reflexivity).
    go ltac:(eapply step_left, act_chunk; [by split|vm_compute; reflexivity]).
    go ltac:(eapply step_left, (act_transmit _ _ 5 (fun _ => 1000) (fun _ => true)); [by split|vm_compute; reflexivity]).
    go ltac:(eapply step_right, act_deliver; do 1 apply list_elem_of_further; apply list_elem_of_here).
    go ltac:(eapply step_right, act_deliver; apply list_elem_of_here).
    go ltac:(eapply step_right, act_deliver; do 1 apply list_elem_of_further; apply list_elem_of_here).
    go ltac:(eapply step_right, act_handle; [by split|reflexivity]).
    go ltac:(eapply step_right, act_handle; [by split|reflexivity]).
    go ltac:(eapply step_right, act_hand_over; [reflexivity|cbn; lia]).
    go ltac:(eapply step_right, act_handle; [by split|reflexivity]).
    go ltac:(eapply step_right, (act_read _ _ 2); reflexivity).
    go ltac:(eapply step_right, (act_read _ _ 2); reflexivity).
    go ltac:(eapply step_right, (act_transmit _ _ 9 (fun _ => 1001) (fun _ => true)); [by split|vm_compute; reflexivity]).
    go ltac:(eapply step_left, act_deliver; apply list_elem_of_here).
    go ltac:(eapply step_left, act_handle; [by split|reflexivity]).
    apply rtc_refl.
  - by repeat split.
Defined.

