(* ===== verification/OvpnKeys.v ===== *)
(** * OpenVPN key method 2, [internal/openvpn/keys/]

    The two key-source messages exchanged over TLS, and the derivation of data keys
    from them: the TLS 1.0 PRF run twice, its block cut into the two directions.
    Go strings are byte strings; random draws are the fields of a [KeySource].

    The theorem: after each side has parsed the other's message, both derive the
    same key block and their directions mirror. *)
From Stdlib Require Import ZArith Lia.
From Stdlib Require String.
Import String.StringSyntax.
From stdpp Require Import base list.
From S2P Require Import Prelude Crypto.

Abbreviation preMasterLen := 48%nat (only parsing).
Abbreviation randomLen := 32%nat (only parsing).
Abbreviation keyMethod2 := 2 (only parsing).
Abbreviation keyBlockLen := 256%nat (only parsing).
Abbreviation cipherSlot := 64%nat (only parsing).
Abbreviation hmacSlot := 64%nat (only parsing).
Abbreviation GCMKeyLen := 32%nat (only parsing).
Abbreviation ImplicitIVLen := 8%nat (only parsing).
Abbreviation masterSecretLabel := (str "OpenVPN master secret") (only parsing).
Abbreviation keyExpansionLabel := (str "OpenVPN key expansion") (only parsing).

Inductive keys_error := ErrShortMessage | ErrBadKeyMethod.

(** Arrays of 48, 32 and 32 octets. *)
Record KeySource := mkKeySource { PreMaster : bytes; Random1 : bytes; Random2 : bytes }.

Record KeySource2 := mkKeySource2 { ksClient : KeySource; ksServer : KeySource }.

Record DataKeys := mkDataKeys { EncryptKey : bytes; EncryptIV : bytes; DecryptKey : bytes; DecryptIV : bytes }.

Record CBCKeys := mkCBCKeys { CBCEncryptKey : bytes; EncryptHMAC : bytes; CBCDecryptKey : bytes; DecryptHMAC : bytes }.

(** ** Derivation *)

Section Derive.
Context {P : Prims}.

(** The loop of [pHash]; every round appends a digest, so [n] rounds reach [n] octets ([pHash_total]). *)
Fixpoint phash_loop (fuel : nat) (h : hash_alg) (secret seed a out : bytes) (n : nat) : option bytes :=
  if (length out <? n)%nat then
    match fuel with
    | O => None
    | S fuel =>
        let a := hmac h secret a in
        phash_loop fuel h secret seed a (out ++ hmac h secret (a ++ seed)) n
    end
  else Some (take n out).

Definition pHash (h : hash_alg) (secret seed : bytes) (n : nat) : option bytes := phash_loop n h secret seed seed [] n.

Definition prf (secret seed : bytes) (n : nat) : option bytes :=
  let half := ((length secret + 1) / 2)%nat in
  let s1 := take half secret in
  let s2 := drop (length secret - half) secret in
  out ← pHash MD5 s1 seed n;
  sha ← pHash SHA1 s2 seed n;
  Some (zip_with Z.lxor out sha).

(** The two passes of the PRF. *)
Definition key_block (ks : KeySource2) (clientSID serverSID : bytes) : option bytes :=
  master ← prf (PreMaster (ksClient ks)) (masterSecretLabel ++ Random1 (ksClient ks) ++ Random1 (ksServer ks)) preMasterLen;
  prf master (keyExpansionLabel ++ Random2 (ksClient ks) ++ Random2 (ksServer ks) ++ clientSID ++ serverSID) keyBlockLen.

(** Send cipher and HMAC slot, receive cipher and HMAC slot. *)
Definition deriveSlots (ks : KeySource2) (clientSID serverSID : bytes) (isServer : bool) : option ((bytes * bytes) * (bytes * bytes)) :=
  block ← key_block ks clientSID serverSID;
  let slot0 := (slice block 0 cipherSlot, slice block cipherSlot (cipherSlot + hmacSlot)) in
  let slot1 := (slice block 128 (128 + cipherSlot), slice block (128 + cipherSlot) keyBlockLen) in
  Some (if isServer then (slot1, slot0) else (slot0, slot1)).

Definition Derive (ks : KeySource2) (clientSID serverSID : bytes) (isServer : bool) : option DataKeys :=
  '((sc, sh), (rc, rh)) ← deriveSlots ks clientSID serverSID isServer;
  Some (mkDataKeys (take GCMKeyLen sc) (take ImplicitIVLen sh) (take GCMKeyLen rc) (take ImplicitIVLen rh)).

Definition DeriveCBC (ks : KeySource2) (clientSID serverSID : bytes) (isServer : bool) : option CBCKeys :=
  '((sc, sh), (rc, rh)) ← deriveSlots ks clientSID serverSID isServer;
  Some (mkCBCKeys (take GCMKeyLen sc) sh (take GCMKeyLen rc) rh).

End Derive.

(** ** Messages *)

(** [appendString]: the length includes the trailing null. *)
Definition appendString (b s : bytes) : bytes := b ++ be_enc 2 (wrap 16 (Z.of_nat (length s) + 1)) ++ s ++ [0].

Definition MarshalClient (ks : KeySource) (options username password peerInfo : bytes) : bytes :=
  let b := [0; 0; 0; 0] ++ [keyMethod2] ++ PreMaster ks ++ Random1 ks ++ Random2 ks in
  let b := appendString b options in
  let b := appendString b username in
  let b := appendString b password in
  b ++ be_enc 2 (wrap 16 (Z.of_nat (length peerInfo))) ++ peerInfo.

Definition MarshalServer (ks : KeySource) (options : bytes) : bytes :=
  appendString ([0; 0; 0; 0] ++ [keyMethod2] ++ Random1 ks ++ Random2 ks) options.

Definition readString (b : bytes) (off : nat) : result keys_error (bytes * nat) :=
  if (length b <? off + 2)%nat then Err ErrShortMessage
  else
    let n := Z.to_nat (be_dec (slice b off (off + 2))) in
    let off := (off + 2)%nat in
    if ((n =? 0) || (length b <? off + n))%nat then Err ErrShortMessage
    else Ok (slice b off (off + n - 1), off + n)%nat.

(** A pre-master of zeros: the server sends none. *)
Definition ParseServer (b : bytes) : result keys_error (KeySource * bytes) :=
  if (length b <? 5 + 2 * randomLen + 2)%nat then Err ErrShortMessage
  else if negb (at_ b 4 =? keyMethod2) then Err ErrBadKeyMethod
  else
    let* s := readString b 69 in
    Ok (mkKeySource (replicate preMasterLen 0) (slice b 5 37) (slice b 37 69), s.1).

Definition readStringField (b : bytes) (off : nat) : result keys_error (bytes * nat) :=
  if (length b <? off + 2)%nat then Err ErrShortMessage
  else
    let n := Z.to_nat (be_dec (slice b off (off + 2))) in
    let off := (off + 2)%nat in
    if (n =? 0)%nat then Ok ([], off)
    else if (length b <? off + n)%nat then Err ErrShortMessage
    else Ok (slice b off (off + n - 1), off + n)%nat.

Record ClientHello := mkHello { hKeySource : KeySource; hOptions : bytes; hUsername : bytes; hPassword : bytes; hPeerInfo : bytes }.

Definition ParseClient (b : bytes) : result keys_error ClientHello :=
  if (length b <? 5 + preMasterLen + 2 * randomLen)%nat then Err ErrShortMessage
  else if negb (at_ b 4 =? keyMethod2) then Err ErrBadKeyMethod
  else
    let ks := mkKeySource (slice b 5 53) (slice b 53 85) (slice b 85 117) in
    let* r := readStringField b 117 in
    let '(options, off) := r in
    if (length b <=? off)%nat then Ok (mkHello ks options [] [] [])
    else
      let* r := readStringField b off in
      let '(username, off) := r in
      if (length b <=? off)%nat then Ok (mkHello ks options username [] [])
      else
        let* r := readStringField b off in
        let '(password, off) := r in
        if (off + 2 <=? length b)%nat then
          let n := Z.to_nat (be_dec (slice b off (off + 2))) in
          let off := (off + 2)%nat in
          let info := if ((0 <? n) && (off + n <=? length b))%nat then slice b off (off + n) else [] in
          Ok (mkHello ks options username password info)
        else Ok (mkHello ks options username password []).

(** ** What the derivation yields *)

Section Agreement.
Context {P : Prims} {PO : PrimsOk P}.

Lemma phash_loop_total fuel h secret seed a out n :
  (n <= length out + fuel)%nat -> exists r, phash_loop fuel h secret seed a out n = Some r /\ length r = n.
Proof.
  revert a out. induction fuel as [|fuel IH]; intros a out H; cbn [phash_loop]; destruct (Nat.ltb_spec (length out) n).
  - lia.
  - exists (take n out). split; [done|]. rewrite length_take. lia.
  - apply IH. rewrite length_app, length_hmac. destruct h; cbn [hashSize]; lia.
  - exists (take n out). split; [done|]. rewrite length_take. lia.
Qed.

Lemma prf_total secret seed n : exists r, prf secret seed n = Some r /\ length r = n.
Proof.
  unfold prf, pHash. destruct (phash_loop_total n MD5 (take ((length secret + 1) / 2) secret) seed seed [] n) as (r1 & E1 & L1); [cbn; lia|].
  destruct (phash_loop_total n SHA1 (drop (length secret - (length secret + 1) / 2) secret) seed seed [] n) as (r2 & E2 & L2); [cbn; lia|].
  rewrite E1, E2. cbn [mbind option_bind]. eexists. split; [done|]. rewrite length_zip_with. lia.
Qed.

Lemma key_block_total ks c s : exists b, key_block ks c s = Some b /\ length b = keyBlockLen.
Proof.
  unfold key_block. edestruct prf_total as (m & Em & _). rewrite Em. apply prf_total.
Qed.

(** The two ends get the same two slots, the other way round. *)
Lemma deriveSlots_mirror ks c s :
  exists slot0 slot1, deriveSlots ks c s false = Some (slot0, slot1) /\ deriveSlots ks c s true = Some (slot1, slot0) /\
    Forall (fun b => length b = 64%nat) [slot0.1; slot0.2; slot1.1; slot1.2].
Proof.
  unfold deriveSlots. destruct (key_block_total ks c s) as (b & Eb & Lb). rewrite Eb. cbn [mbind option_bind].
  eexists _, _. split_and!; [reflexivity|reflexivity|]. cbn [fst snd]. repeat constructor; rewrite length_slice; lia.
Qed.

(** Client keys and server keys of one session: what one encrypts with the other decrypts with. *)
Definition keys_mirror (c s : DataKeys) : Prop :=
  EncryptKey c = DecryptKey s /\ EncryptIV c = DecryptIV s /\ DecryptKey c = EncryptKey s /\ DecryptIV c = EncryptIV s.

Definition cbc_mirror (c s : CBCKeys) : Prop :=
  CBCEncryptKey c = CBCDecryptKey s /\ EncryptHMAC c = DecryptHMAC s /\ CBCDecryptKey c = CBCEncryptKey s /\ DecryptHMAC c = EncryptHMAC s.

Lemma Derive_mirror ks c s :
  exists dc ds, Derive ks c s false = Some dc /\ Derive ks c s true = Some ds /\ keys_mirror dc ds /\
    Forall (fun k => length k = GCMKeyLen) [EncryptKey dc; DecryptKey dc] /\ Forall (fun k => length k = ImplicitIVLen) [EncryptIV dc; DecryptIV dc].
Proof.
  unfold Derive. destruct (deriveSlots_mirror ks c s) as ([c0 h0] & [c1 h1] & -> & -> & L). cbn [mbind option_bind fst snd] in *.
  eexists _, _. split_and!; [done|done|done|..]; cbn; repeat apply Forall_cons in L as [? L]; repeat constructor; rewrite length_take; lia.
Qed.

Lemma DeriveCBC_mirror ks c s :
  exists dc ds, DeriveCBC ks c s false = Some dc /\ DeriveCBC ks c s true = Some ds /\ cbc_mirror dc ds /\
    Forall (fun k => length k = GCMKeyLen) [CBCEncryptKey dc; CBCDecryptKey dc] /\ Forall (fun k => length k = hmacSlot) [EncryptHMAC dc; DecryptHMAC dc].
Proof.
  unfold DeriveCBC. destruct (deriveSlots_mirror ks c s) as ([c0 h0] & [c1 h1] & -> & -> & L). cbn [mbind option_bind fst snd] in *.
  eexists _, _. split_and!; [done|done|done|..]; cbn; repeat apply Forall_cons in L as [? L]; repeat constructor; rewrite ?length_take; lia || done.
Qed.

(** ** The exchange *)

Abbreviation field s := (be_enc 2 (wrap 16 (Z.of_nat (length s) + 1)) ++ s ++ [0]) (only parsing).

Lemma readStringField_app pre s suf off :
  length pre = off -> Z.of_nat (length s) + 1 < 2 ^ 16 ->
  readStringField (pre ++ field s ++ suf) off = Ok (s, off + (length s + 3))%nat /\
  readString (pre ++ field s ++ suf) off = Ok (s, off + (length s + 3))%nat.
Proof.
  intros <- Hs. rewrite wrap_small by (unfold uint; lia). set (b := pre ++ _).
  assert (length b = length pre + (length s + 3) + length suf)%nat as L by (subst b; rewrite !length_app, length_be_enc; cbn [length]; lia).
  assert (slice b (length pre) (length pre + 2) = be_enc 2 (Z.of_nat (length s) + 1)) as E1.
  { subst b. rewrite slice_app_r, Nat.sub_diag, Nat.add_comm, Nat.add_sub, <- app_assoc by lia. apply slice_hd, length_be_enc. }
  assert (slice b (length pre + 2) (length pre + 2 + (length s + 1) - 1) = s) as E2.
  { subst b. rewrite slice_app_r, <- !app_assoc by lia. replace (length pre + 2 - length pre)%nat with 2%nat by lia.
    replace (length pre + 2 + (length s + 1) - 1 - length pre)%nat with (2 + length s)%nat by lia.
    erewrite slice_skip by (split; [apply length_be_enc|lia]). rewrite Nat.sub_diag, Nat.add_comm, Nat.add_sub. by apply slice_hd. }
  unfold readStringField, readString. rewrite E1, be_dec_enc_small by (unfold uint; cbn; lia).
  replace (Z.to_nat (Z.of_nat (length s) + 1)) with (length s + 1)%nat by lia.
  rewrite E2, (proj2 (Nat.ltb_ge _ (length pre + 2))), (proj2 (Nat.ltb_ge _ (length pre + 2 + (length s + 1)))), (proj2 (Nat.eqb_neq _ _)) by lia.
  cbn [orb]. split; do 2 f_equal; lia.
Qed.

Definition wf_source (ks : KeySource) : Prop :=
  length (PreMaster ks) = preMasterLen /\ length (Random1 ks) = randomLen /\ length (Random2 ks) = randomLen.

Definition short (s : bytes) : Prop := Z.of_nat (length s) + 1 < 2 ^ 16.

Lemma ParseServer_Marshal ks options :
  wf_source ks -> short options ->
  ParseServer (MarshalServer ks options) = Ok (mkKeySource (replicate preMasterLen 0) (Random1 ks) (Random2 ks), options).
Proof.
  intros (_ & L1 & L2) Hs. unfold ParseServer, MarshalServer, appendString. set (pre := [0; 0; 0; 0] ++ [2] ++ Random1 ks ++ Random2 ks).
  assert (length pre = 69%nat) as Lp by (subst pre; rewrite !length_app, L1, L2; done).
  destruct (readStringField_app pre options [] 69 Lp Hs) as [_ E]. rewrite app_nil_r in E. rewrite E.
  rewrite (proj2 (Nat.ltb_ge _ _)) by (rewrite !length_app, length_be_enc, Lp; cbn [length]; lia).
  assert (at_ (pre ++ field options) 4 = 2) as -> by done. cbn [negb Z.eqb Pos.eqb rbind fst].
  rewrite !slice_app_l by lia. subst pre. by do 2 f_equal; cut_fields.
Qed.

Lemma ParseClient_Marshal ks options username password info :
  wf_source ks -> Forall short [options; username; password; info] ->
  ParseClient (MarshalClient ks options username password info) = Ok (mkHello ks options username password info).
Proof.
  intros (L0 & L1 & L2) Hs. apply Forall_cons in Hs as [Ho Hs]. apply Forall_cons in Hs as [Hu Hs]. apply Forall_cons in Hs as [Hp Hs].
  apply Forall_cons in Hs as [Hi _]. unfold short in Hi. unfold MarshalClient, appendString. set (pre := [0; 0; 0; 0] ++ [2] ++ PreMaster ks ++ Random1 ks ++ Random2 ks).
  assert (length pre = 117%nat) as Lp by (subst pre; rewrite !length_app, L0, L1, L2; done).
  set (il := be_enc 2 (wrap 16 (Z.of_nat (length info)))). set (b := _ ++ il ++ info).
  assert (length il = 2%nat) as Li by apply length_be_enc.
  assert (forall s, length (field s) = length s + 3)%nat as Lf by (intros s; rewrite !length_app, length_be_enc; cbn [length]; lia).
  assert (b = pre ++ field options ++ (field username ++ field password ++ il ++ info)) as E1 by (subst b; by rewrite <- !app_assoc).
  assert (b = (pre ++ field options) ++ field username ++ (field password ++ il ++ info)) as E2 by (rewrite E1; by rewrite <- !app_assoc).
  assert (b = (pre ++ field options ++ field username) ++ field password ++ (il ++ info)) as E3 by (rewrite E1; by rewrite <- !app_assoc).
  assert (length b = 117 + (length options + 3) + (length username + 3) + (length password + 3) + 2 + length info)%nat as Lb.
  { rewrite E3, !length_app, Lp, Li, !length_be_enc. cbn [length]. lia. }
  destruct (readStringField_app pre options (field username ++ field password ++ il ++ info) 117 Lp Ho) as [R1 _]. rewrite <- E1 in R1.
  destruct (readStringField_app (pre ++ field options) username (field password ++ il ++ info) (117 + (length options + 3))) as [R2 _];
    [by rewrite length_app, Lf, Lp|done|]. rewrite <- E2 in R2.
  destruct (readStringField_app (pre ++ field options ++ field username) password (il ++ info)
    (117 + (length options + 3) + (length username + 3))) as [R3 _]; [rewrite (app_assoc pre), !(length_app (pre ++ _)), length_app, !Lf, Lp; lia|done|]. rewrite <- E3 in R3.
  unfold ParseClient. rewrite R1. cbn [rbind]. rewrite R2. cbn [rbind]. rewrite R3. cbn [rbind].
  rewrite (proj2 (Nat.ltb_ge _ _)), !(proj2 (Nat.leb_gt _ _)), (proj2 (Nat.leb_le _ _)) by lia.
  assert (at_ b 4 = 2) as -> by (rewrite E1; done). cbn [negb Z.eqb Pos.eqb].
  set (off := (117 + (length options + 3) + (length username + 3) + (length password + 3))%nat).
  set (q := pre ++ field options ++ field username ++ field password).
  assert (length q = off) as Lq by (subst q off; rewrite !length_app, Lp, !length_be_enc; cbn [length]; lia).
  assert (b = q ++ il ++ info) as Eq by (subst q; rewrite E1, <- !app_assoc; done).
  assert (slice b off (off + 2) = il) as -> by (rewrite Eq, slice_app_r, Lq, Nat.sub_diag, Nat.add_comm, Nat.add_sub by lia; by apply slice_hd).
  assert (slice b (off + 2) (off + 2 + length info) = info) as Hinfo.
  { rewrite Eq, app_assoc, slice_app_r by (rewrite length_app; lia). rewrite length_app, Lq, Li, Nat.sub_diag, Nat.add_comm, Nat.add_sub. by apply slice_all. }
  subst il. rewrite wrap_small, be_dec_enc_small, Nat2Z.id, Hinfo by (unfold uint; cbn; lia).
  rewrite (proj2 (Nat.leb_le (off + 2 + length info) _)), andb_true_r by lia.
  assert ((if (0 <? length info)%nat then info else []) = info) as -> by by destruct info.
  assert (slice b 5 53 = PreMaster ks /\ slice b 53 85 = Random1 ks /\ slice b 85 117 = Random2 ks) as (-> & -> & ->)
    by (rewrite E1, !slice_app_l by lia; subst pre; split_and!; cut_fields; done).
  by destruct ks.
Qed.

(** C27: both sides derive the same data keys.  A client and a server that exchange their key-method-2
    messages, with any options, credentials and peer information that fit their length fields, each
    recover what the other sent, and derive, for both data channels, keys of the right lengths
    where each side decrypts with what the other encrypts with. *)
Theorem key_exchange_agrees (ckey skey : KeySource) (options username password info soptions csid ssid : bytes) :
  wf_source ckey -> wf_source skey -> Forall short [options; username; password; info; soptions] ->
  exists hello spub,
    ParseClient (MarshalClient ckey options username password info) = Ok hello /\
    hKeySource hello = ckey /\ hUsername hello = username /\ hPassword hello = password /\ hPeerInfo hello = info /\
    ParseServer (MarshalServer skey soptions) = Ok (spub, soptions) /\
    (exists dc ds, Derive (mkKeySource2 ckey spub) csid ssid false = Some dc /\
       Derive (mkKeySource2 (hKeySource hello) skey) csid ssid true = Some ds /\ keys_mirror dc ds /\
       Forall (fun k => length k = GCMKeyLen) [EncryptKey dc; DecryptKey dc] /\ Forall (fun k => length k = ImplicitIVLen) [EncryptIV dc; DecryptIV dc]) /\
    (exists dc ds, DeriveCBC (mkKeySource2 ckey spub) csid ssid false = Some dc /\
       DeriveCBC (mkKeySource2 (hKeySource hello) skey) csid ssid true = Some ds /\ cbc_mirror dc ds /\
       Forall (fun k => length k = GCMKeyLen) [CBCEncryptKey dc; CBCDecryptKey dc] /\ Forall (fun k => length k = hmacSlot) [EncryptHMAC dc; DecryptHMAC dc]).
Proof.
  intros Hc Hs Hf. rewrite (ParseClient_Marshal ckey), (ParseServer_Marshal skey);
    [|done|by repeat apply Forall_cons in Hf as [? Hf]|done|by repeat (apply Forall_cons in Hf as [? Hf]; try (constructor; [done|]))].
  eexists _, _. split_and!; try done; [apply (Derive_mirror (mkKeySource2 ckey skey))|apply (DeriveCBC_mirror (mkKeySource2 ckey skey))].
Qed.

End Agreement.

Lemma key_exchange_agrees_witness :
  let ks := mkKeySource (replicate 48 1) (replicate 32 2) (replicate 32 3) in
  exists hello spub,
    ParseClient (MarshalClient ks [1] [] [7] [8; 9]) = Ok hello /\
    hKeySource hello = ks /\ hUsername hello = [] /\ hPassword hello = [7] /\ hPeerInfo hello = [8; 9] /\
    ParseServer (MarshalServer ks [5]) = Ok (spub, [5]).
Proof.
  intros ks. destruct (key_exchange_agrees (PO := toy_prims_ok) ks ks [1] [] [7] [8; 9] [5] [1] [2]) as (hello & spub & H1 & H2 & H3 & H4 & H5 & H6 & _);
    [by split_and!|by split_and!|repeat constructor; unfold short; cbn; lia|]. exists hello, spub. split_and!; assumption.
Defined.
