(* ===== verification/OvpnData.v ===== *)
(** * OpenVPN's data channel, [internal/openvpn/data/] and the tunnels over it

    The AES-256-GCM cipher, which carries the tag in front of the ciphertext and
    rotates it in place, the AES-256-CBC cipher with its own HMAC and PKCS#7 padding,
    and the tunnel of [session.go] and [server.go] that drops keepalives and trims
    shaping filler.  The compare-and-swap loop of [nextPacketID] is one atomic step;
    the random IV of a CBC packet is an argument.

    The theorem: under mirrored keys, what one side encapsulates the other
    decapsulates at most once, unchanged, with either cipher and any filler. *)
From Stdlib Require Import ZArith Lia.
From stdpp Require Import base list gmap.
From S2P Require Import Prelude AntiReplay BitWindows Packet Crypto OvpnWire OvpnKeys Sealed.

Abbreviation dataHeaderLen := 4%nat (only parsing).
Abbreviation packetIDLen := 4%nat (only parsing).
Abbreviation aadLen := 8%nat (only parsing).

Inductive data_error := errShort | errReplay | errCounterExhausted | errAuth | errOpen | errNotIP.

Definition makeHeader (peerID keyID : Z) : bytes :=
  [Z.lor (Z.shiftl PDataV2 opcodeShift) (Z.land keyID 7); wrap 8 (Z.shiftr peerID 16); wrap 8 (Z.shiftr peerID 8); wrap 8 peerID].

(** [Ping]. *)
Definition Ping : bytes :=
  [0x2a; 0x18; 0x7b; 0xf3; 0x64; 0x1e; 0xb4; 0xcb; 0x07; 0xed; 0x2d; 0x0a; 0x98; 0x1f; 0xc7; 0x48].

Definition IsPing (p : bytes) : bool := bool_decide (p = Ping).

Definition IsDataOpcode (op : Z) : bool := (op =? PDataV1) || (op =? PDataV2).

(** The packet ID claimed and the counter after it. *)
Definition nextPacketID (counter : Z) : option (Z * Z) :=
  if counter =? 2 ^ 32 - 1 then None else Some (counter + 1, counter + 1).

Section Data.
Context {P : Prims}.

(** ** AES-256-GCM, [data.go] *)

Record Cipher := mkCipher {
  g_send : bytes; g_recv : bytes; g_sendIV : bytes; g_recvIV : bytes; g_header : bytes; g_counter : Z; g_replay : ovpnWindow }.

(** The keys have 32 octets, which [aes.NewCipher] accepts. *)
Definition NewGCM (dk : DataKeys) (peerID keyID : Z) : Cipher :=
  mkCipher (EncryptKey dk) (DecryptKey dk) (EncryptIV dk) (DecryptIV dk) (makeHeader peerID keyID) 0 ar_init.

Definition sealExact (c : Cipher) (plaintext : bytes) (id : Z) : bytes :=
  let n := length plaintext in
  let aad := g_header c ++ be_enc 4 id in
  let nonce := be_enc 4 id ++ g_sendIV c in
  let sealed := aad ++ aeadSeal AesGCM (g_send c) nonce aad plaintext in
  let tag := drop (aadLen + n) sealed in
  let sealed := blit sealed (aadLen + tagLen) (slice sealed aadLen (aadLen + n)) in
  blit sealed aadLen tag.

(** [Seal] is [seal] with [minInner] 0, [SealPadded] passes it on; the plaintext is extended with zeros. *)
Definition gcm_seal (plaintext : bytes) (minInner : nat) (c : Cipher) : result data_error bytes * Cipher :=
  match nextPacketID (g_counter c) with
  | None => (Err errCounterExhausted, c)
  | Some (id, counter) =>
      let c := mkCipher (g_send c) (g_recv c) (g_sendIV c) (g_recvIV c) (g_header c) counter (g_replay c) in
      if (length plaintext <? minInner)%nat then (Ok (sealExact c (plaintext ++ replicate (minInner - length plaintext) 0) id), c)
      else (Ok (sealExact c plaintext id), c)
  end.

Definition gcm_Open (pkt : bytes) (c : Cipher) : result data_error bytes * Cipher :=
  if (length pkt <? aadLen + tagLen)%nat then (Err errShort, c)
  else
    let id := be_dec (slice pkt dataHeaderLen aadLen) in
    let n := (length pkt - aadLen - tagLen)%nat in
    let tag := slice pkt aadLen (aadLen + tagLen) in
    let pkt := blit pkt aadLen (drop (aadLen + tagLen) pkt) in
    let pkt := blit pkt (aadLen + n) tag in
    match aeadOpen AesGCM (g_recv c) (be_enc 4 id ++ g_recvIV c) (take aadLen pkt) (slice pkt aadLen (aadLen + n + tagLen)) with
    | None => (Err errOpen, c)
    | Some plaintext =>
        let '(ok, w) := ar_step (g_replay c) id in
        (if ok then Ok plaintext else Err errReplay,
         mkCipher (g_send c) (g_recv c) (g_sendIV c) (g_recvIV c) (g_header c) (g_counter c) w)
    end.

(** ** AES-256-CBC, [cbc.go] *)

Record CBCCipher := mkCBC {
  b_enc : bytes; b_dec : bytes; b_encHMAC : bytes; b_decHMAC : bytes; b_hash : hash_alg; b_header : bytes; b_counter : Z; b_replay : ovpnWindow }.

Definition NewCBC (k : CBCKeys) (h : hash_alg) (peerID keyID : Z) : CBCCipher :=
  mkCBC (CBCEncryptKey k) (CBCDecryptKey k) (take (hashSize h) (EncryptHMAC k)) (take (hashSize h) (DecryptHMAC k)) h
    (makeHeader peerID keyID) 0 ar_init.

Definition cbc_seal (iv plaintext : bytes) (minInner : nat) (c : CBCCipher) : result data_error bytes * CBCCipher :=
  match nextPacketID (b_counter c) with
  | None => (Err errCounterExhausted, c)
  | Some (id, counter) =>
      let plainLen := (packetIDLen + Nat.max (length plaintext) minInner)%nat in
      let pad := (blockSize - plainLen mod blockSize)%nat in
      let work := be_enc 4 id ++ plaintext ++ replicate (plainLen - packetIDLen - length plaintext) 0 ++ replicate pad (Z.of_nat pad) in
      let work := cbcEncrypt (b_enc c) iv work in
      let tag := hmac (b_hash c) (b_encHMAC c) (iv ++ work) in
      (Ok (b_header c ++ tag ++ iv ++ work),
       mkCBC (b_enc c) (b_dec c) (b_encHMAC c) (b_decHMAC c) (b_hash c) (b_header c) counter (b_replay c))
  end.

Definition pkcs7Unpad (b : bytes) : result data_error bytes :=
  if ((length b =? 0) || negb (length b mod blockSize =? 0))%nat then Err errShort
  else
    let pad := Z.to_nat (at_ b (length b - 1)) in
    if ((pad =? 0) || (blockSize <? pad) || (length b <? pad))%nat then Err errShort
    else if forallb (fun x => (Z.to_nat x =? pad)%nat) (drop (length b - pad) b) then Ok (take (length b - pad) b)
    else Err errShort.

Definition cbc_Open (pkt : bytes) (c : CBCCipher) : result data_error bytes * CBCCipher :=
  let size := hashSize (b_hash c) in
  let fixed := (dataHeaderLen + size + blockSize)%nat in
  if (length pkt <? fixed + blockSize)%nat then (Err errShort, c)
  else
    let tag := slice pkt dataHeaderLen (dataHeaderLen + size) in
    let iv := slice pkt (dataHeaderLen + size) fixed in
    let ct := drop fixed pkt in
    if negb (length ct mod blockSize =? 0)%nat then (Err errShort, c)
    else if negb (bool_decide (tag = hmac (b_hash c) (b_decHMAC c) (iv ++ ct))) then (Err errAuth, c)
    else
      match pkcs7Unpad (cbcDecrypt (b_dec c) iv ct) with
      | Err e => (Err e, c)
      | Ok work =>
          if (length work <? packetIDLen)%nat then (Err errShort, c)
          else
            let '(ok, w) := ar_step (b_replay c) (be_dec (take packetIDLen work)) in
            (if ok then Ok (drop packetIDLen work) else Err errReplay,
             mkCBC (b_enc c) (b_dec c) (b_encHMAC c) (b_decHMAC c) (b_hash c) (b_header c) (b_counter c) w)
      end.

(** ** The tunnel, [session.go] and [server.go] *)

(** [dataCipher]. *)
Inductive dataCipher := GCM (c : Cipher) | CBC (c : CBCCipher).

(** [SealPadded] of the cipher; [iv] is the IV a CBC packet draws. *)
Definition SealPadded (iv plaintext : bytes) (minInner : nat) (c : dataCipher) : result data_error bytes * dataCipher :=
  match c with
  | GCM c => let '(r, c) := gcm_seal plaintext minInner c in (r, GCM c)
  | CBC c => let '(r, c) := cbc_seal iv plaintext minInner c in (r, CBC c)
  end.

Definition Open (pkt : bytes) (c : dataCipher) : result data_error bytes * dataCipher :=
  match c with
  | GCM c => let '(r, c) := gcm_Open pkt c in (r, GCM c)
  | CBC c => let '(r, c) := cbc_Open pkt c in (r, CBC c)
  end.

(** [tunnel.Decapsulate]: [Ok None] is a keepalive. *)
Definition ovpn_Decapsulate (pkt : bytes) (c : dataCipher) : result data_error (option bytes) * dataCipher :=
  match Open pkt c with
  | (Err e, c) => (Err e, c)
  | (Ok pt, c) =>
      if IsPing pt then (Ok None, c)
      else match TrimToIP pt with None => (Err errNotIP, c) | Some inner => (Ok (Some inner), c) end
  end.

(** ** The n-th packet of a direction *)

Inductive dir_keys := GCMKeys (key iv : bytes) | CBCDirKeys (h : hash_alg) (key mac : bytes).

Definition send_dir (c : dataCipher) : dir_keys :=
  match c with GCM c => GCMKeys (g_send c) (g_sendIV c) | CBC c => CBCDirKeys (b_hash c) (b_enc c) (b_encHMAC c) end.

Definition recv_dir (c : dataCipher) : dir_keys :=
  match c with GCM c => GCMKeys (g_recv c) (g_recvIV c) | CBC c => CBCDirKeys (b_hash c) (b_dec c) (b_decHMAC c) end.

Definition header_of (c : dataCipher) : bytes := match c with GCM c => g_header c | CBC c => b_header c end.

Definition counter_of (c : dataCipher) : Z := match c with GCM c => g_counter c | CBC c => b_counter c end.

Definition window_of (c : dataCipher) : ovpnWindow := match c with GCM c => g_replay c | CBC c => b_replay c end.

Definition padded (pt : bytes) (minInner : nat) : bytes := pt ++ replicate (minInner - length pt) 0.

Definition pkcs7 (work : bytes) : bytes :=
  let pad := (blockSize - length work mod blockSize)%nat in work ++ replicate pad (Z.of_nat pad).

Definition data_packet (k : dir_keys) (header : bytes) (id : Z) (iv pt : bytes) : bytes :=
  match k with
  | GCMKeys key div =>
      let aad := header ++ be_enc 4 id in
      let s := aeadSeal AesGCM key (be_enc 4 id ++ div) aad pt in
      aad ++ drop (length pt) s ++ take (length pt) s
  | CBCDirKeys h key mac =>
      let ct := cbcEncrypt key iv (pkcs7 (be_enc 4 id ++ pt)) in
      header ++ hmac h mac (iv ++ ct) ++ iv ++ ct
  end.

Context {PO : PrimsOk P}.

Lemma sealExact_spec c pt id :
  length (g_header c) = 4%nat -> sealExact c pt id = data_packet (GCMKeys (g_send c) (g_sendIV c)) (g_header c) id [] pt.
Proof.
  intros Hh. unfold sealExact, data_packet. set (aad := g_header c ++ be_enc 4 id). set (s := aeadSeal _ _ _ _ pt).
  assert (length aad = 8%nat) as La by (subst aad; by rewrite length_app, length_be_enc, Hh).
  assert (length s = length pt + 16)%nat as Ls by apply length_aeadSeal.
  assert (slice (aad ++ s) 8 (8 + length pt) = take (length pt) s) as -> 
    by (rewrite slice_app_r, La, Nat.add_comm, Nat.add_sub, Nat.sub_diag by lia; by rewrite <- take_as_slice).
  assert (drop (8 + length pt) (aad ++ s) = drop (length pt) s) as -> by (rewrite drop_app_ge, La by lia; f_equal; lia).
  assert (length (drop (length pt) s) = 16%nat) as Ld by (rewrite length_drop; lia).
  assert (length (take (length pt) s) = length pt) as Lt by (rewrite length_take; lia).
  unfold blit at 2. rewrite Lt, drop_ge, app_nil_r by (rewrite length_app; cbn [tagLen]; unfold tagLen; lia).
  unfold blit. rewrite Ld. rewrite take_app_le, take_take, Nat.min_l, take_app_length' by (rewrite ?length_take, ?length_app; unfold tagLen; lia). f_equal. f_equal.
  by rewrite drop_app_length' by (rewrite length_take, length_app; unfold tagLen; lia).
Qed.

(** What a seal or an open leaves alone. *)
Definition same_session (c c' : dataCipher) : Prop :=
  send_dir c' = send_dir c /\ recv_dir c' = recv_dir c /\ header_of c' = header_of c.

Lemma SealPadded_spec iv pt m c :
  length (header_of c) = dataHeaderLen -> 0 <= counter_of c < 2 ^ 32 - 1 ->
  exists c', SealPadded iv pt m c = (Ok (data_packet (send_dir c) (header_of c) (counter_of c + 1) iv (padded pt m)), c') /\
    same_session c c' /\ counter_of c' = counter_of c + 1 /\ window_of c' = window_of c.
Proof.
  intros Hh Hc. destruct c as [c|c]; cbn [SealPadded header_of counter_of send_dir] in *; unfold gcm_seal, cbc_seal, nextPacketID;
    rewrite (proj2 (Z.eqb_neq _ _)) by lia.
  - assert ((if (length pt <? m)%nat then pt ++ replicate (m - length pt) 0 else pt) = padded pt m) as Hp.
    { unfold padded. destruct (Nat.ltb_spec (length pt) m); [done|]. replace (m - length pt)%nat with 0%nat by lia. by rewrite app_nil_r. }
    set (c1 := mkCipher _ _ _ _ _ _ _). exists (GCM c1). split; [|by repeat split].
    rewrite <- Hp. destruct (length pt <? m)%nat; by rewrite sealExact_spec.
  - cbn [data_packet]. unfold pkcs7, padded. rewrite !length_app, length_be_enc, length_replicate.
    replace (length pt + (m - length pt))%nat with (Nat.max (length pt) m) by lia.
    replace (4 + Nat.max (length pt) m - 4 - length pt)%nat with (m - length pt)%nat by lia. rewrite <- !app_assoc.
    eexists. split; [reflexivity|by repeat split].
Qed.

Lemma pkcs7_spec work : pkcs7Unpad (pkcs7 work) = Ok work /\ Nat.divide blockSize (length (pkcs7 work)) /\ (length work < length (pkcs7 work))%nat.
Proof.
  unfold pkcs7. pose proof (Nat.mod_upper_bound (length work) blockSize ltac:(done)) as Hm.
  pose proof (Nat.div_mod_eq (length work) blockSize) as Hd. set (pad := (blockSize - length work mod blockSize)%nat).
  set (b := work ++ _). assert (length b = length work + pad)%nat as Lb by (subst b; by rewrite length_app, length_replicate).
  unfold blockSize in *. assert (Nat.divide 16 (length b)) as Hdv by (exists (length work / 16 + 1)%nat; lia).
  split_and!; [|done|lia]. unfold pkcs7Unpad. rewrite (proj2 (Nat.eqb_neq (length b) 0)) by lia.
  assert (length b mod 16 = 0)%nat as E by (destruct Hdv as [k ->]; apply Nat.Div0.mod_mul). unfold blockSize. rewrite E. cbn [orb negb Nat.eqb].
  assert (at_ b (length b - 1) = Z.of_nat pad) as ->.
  { subst b. rewrite at_app_r by lia. unfold at_. rewrite lookup_replicate_2 by lia. done. }
  rewrite Nat2Z.id, (proj2 (Nat.eqb_neq pad 0)), (proj2 (Nat.ltb_ge 16 pad)), (proj2 (Nat.ltb_ge (length b) pad)) by lia. cbn [orb].
  rewrite Lb, Nat.add_sub. subst b. rewrite drop_app_length, take_app_length.
  rewrite (proj2 (forallb_forall _ _)); [done|]. intros x ->%list_elem_of_In%elem_of_replicate_inv. by rewrite Nat2Z.id, Nat.eqb_refl.
Qed.

Lemma gcm_Open_spec c header id pt :
  length header = dataHeaderLen -> uint32 id ->
  gcm_Open (data_packet (GCMKeys (g_recv c) (g_recvIV c)) header id [] pt) c =
    let '(ok, w) := ar_step (g_replay c) id in
    (if ok then Ok pt else Err errReplay, mkCipher (g_send c) (g_recv c) (g_sendIV c) (g_recvIV c) (g_header c) (g_counter c) w).
Proof.
  intros Hh Hid. unfold data_packet. set (aad := header ++ be_enc 4 id). set (s := aeadSeal _ _ _ _ pt).
  assert (length aad = 8%nat) as La by (subst aad; by rewrite length_app, length_be_enc, Hh).
  assert (length s = length pt + 16)%nat as Ls by apply length_aeadSeal.
  set (tag := drop (length pt) s). set (ct := take (length pt) s).
  assert (length tag = 16%nat) as Lt by (subst tag; rewrite length_drop; lia).
  assert (length ct = length pt) as Lc by (subst ct; rewrite length_take; lia).
  unfold gcm_Open, tagLen. set (pkt := aad ++ tag ++ ct). assert (length pkt = 24 + length pt)%nat as Lp by (subst pkt; rewrite !length_app; lia).
  rewrite Lp, (proj2 (Nat.ltb_ge _ _)) by lia. replace (24 + length pt - 8 - 16)%nat with (length pt) by lia.
  assert (be_dec (slice pkt 4 8) = id) as ->.
  { subst pkt aad. rewrite <- app_assoc. cut_fields. by apply be_dec_enc_small. }
  assert (slice pkt 8 (8 + 16) = tag) as -> by (subst pkt; by cut_fields).
  assert (drop (8 + 16) pkt = ct) as -> by (subst pkt; rewrite app_assoc; apply drop_app_length'; rewrite length_app; lia).
  assert (blit (blit pkt 8 ct) (8 + length pt) tag = aad ++ s) as ->.
  { subst pkt. unfold blit at 2. rewrite take_app_length' by lia. unfold blit. rewrite Lc, Lt.
    rewrite (app_assoc aad ct), (take_app_length' (aad ++ ct)) by (rewrite length_app; lia).
    rewrite (drop_ge (_ ++ _)), app_nil_r by (rewrite !length_app, length_drop, !length_app; lia).
    rewrite <- app_assoc. f_equal. apply take_drop. }
  rewrite take_app_length', slice_app_r, La by lia. rewrite Nat.sub_diag, <- take_as_slice, take_ge by lia.
  subst s. by rewrite aead_open_seal.
Qed.

Lemma cbc_Open_spec c header id iv pt :
  length header = dataHeaderLen -> length iv = blockSize -> uint32 id ->
  cbc_Open (data_packet (CBCDirKeys (b_hash c) (b_dec c) (b_decHMAC c)) header id iv pt) c =
    let '(ok, w) := ar_step (b_replay c) id in
    (if ok then Ok pt else Err errReplay, mkCBC (b_enc c) (b_dec c) (b_encHMAC c) (b_decHMAC c) (b_hash c) (b_header c) (b_counter c) w).
Proof.
  intros Hh Hiv Hid. cbn [data_packet]. destruct (pkcs7_spec (be_enc 4 id ++ pt)) as (U & D & L). rewrite length_app, length_be_enc in L.
  set (work := pkcs7 _) in *. set (ct := cbcEncrypt _ _ work). assert (length ct = length work) as Lc by apply length_cbcEncrypt.
  set (tag := hmac _ _ _). assert (length tag = hashSize (b_hash c)) as Lt by apply length_hmac. set (size := hashSize (b_hash c)) in *.
  unfold cbc_Open. fold size. unfold blockSize in *. assert (16 <= length work)%nat as L16 by (apply Nat.divide_pos_le; [lia|done]).
  set (pkt := header ++ tag ++ iv ++ ct). assert (length pkt = 4 + size + 16 + length work)%nat as Lp by (subst pkt; rewrite !length_app; lia).
  rewrite Lp, (proj2 (Nat.ltb_ge _ _)) by lia.
  assert (slice pkt 4 (4 + size) = tag) as -> by (subst pkt; rewrite slice_app_r, Hh, Nat.sub_diag, Nat.add_comm, Nat.add_sub by lia; by apply slice_hd).
  assert (slice pkt (4 + size) (4 + size + 16) = iv) as ->.
  { subst pkt. rewrite app_assoc, slice_app_r, length_app, Hh, Lt, Nat.sub_diag by (rewrite length_app; lia).
    replace (_ - _)%nat with 16%nat by lia. by apply slice_hd. }
  assert (drop (4 + size + 16) pkt = ct) as -> by (subst pkt; rewrite !app_assoc; apply drop_app_length'; rewrite !length_app; lia).
  rewrite Lc. assert (length work mod 16 = 0)%nat as -> by (destruct D as [k ->]; apply Nat.Div0.mod_mul).
  rewrite bool_decide_true by done. cbn [negb Nat.eqb]. subst ct. rewrite cbc_dec_enc by done. rewrite U.
  rewrite (proj2 (Nat.ltb_ge _ _)) by (rewrite length_app, length_be_enc; lia).
  rewrite take_app_length', drop_app_length', be_dec_enc_small by (done || by rewrite length_be_enc). by destruct (ar_step _ _).
Qed.

Lemma Open_spec c header id iv pt :
  length header = dataHeaderLen -> length iv = blockSize -> uint32 id ->
  exists c', Open (data_packet (recv_dir c) header id iv pt) c = (if (ar_step (window_of c) id).1 then Ok pt else Err errReplay, c') /\
    same_session c c' /\ window_of c' = (ar_step (window_of c) id).2.
Proof.
  intros Hh Hiv Hid. destruct c as [c|c]; cbn [Open recv_dir window_of].
  - change (data_packet (GCMKeys (g_recv c) (g_recvIV c)) header id iv pt) with (data_packet (GCMKeys (g_recv c) (g_recvIV c)) header id [] pt).
    rewrite gcm_Open_spec by done. destruct (ar_step (g_replay c) id) as [ok w]. by eexists.
  - rewrite cbc_Open_spec by done. destruct (ar_step (b_replay c) id) as [ok w]. by eexists.
Qed.

(** ** Sessions *)

(** A packet of the pump or a keepalive, the size it is padded to, and the IV a CBC packet draws. *)
Record ovpn_send := mkSend { x_pkt : bytes; x_min : nat; x_iv : bytes }.

Definition ovpn_good (x : ovpn_send) : Prop :=
  length (x_iv x) = blockSize /\ (TrimToIP (x_pkt x) = Some (x_pkt x) \/ x_pkt x = Ping /\ (x_min x <= length Ping)%nat).

Definition ovpn_payload (x : ovpn_send) : option bytes := if IsPing (x_pkt x) then None else Some (x_pkt x).

Definition data_ctr (n : nat) : Z := Z.of_nat n + 1.

Lemma TrimToIP_not_ping p : TrimToIP p = Some p -> p <> Ping.
Proof. by intros H ->. Qed.

Lemma padded_payload x : ovpn_good x ->
  (if IsPing (padded (x_pkt x) (x_min x)) then @Ok data_error _ None
   else match TrimToIP (padded (x_pkt x) (x_min x)) with None => Err errNotIP | Some inner => Ok (Some inner) end) = Ok (ovpn_payload x).
Proof.
  intros [_ H]. unfold ovpn_payload, IsPing, padded. destruct H as [H|[H Hm]].
  - rewrite (bool_decide_false (x_pkt x = Ping)) by by apply TrimToIP_not_ping.
    assert (TrimToIP (x_pkt x ++ replicate (x_min x - length (x_pkt x)) 0) = Some (x_pkt x)) as E.
    { apply (TrimToIP_ext (x_pkt x)); [done|rewrite length_app; lia|]. rewrite slice_app_l by lia. by apply slice_all. }
    rewrite E, bool_decide_false; [done|]. intros Hp. by rewrite Hp in E.
  - rewrite H. replace (x_min x - length Ping)%nat with 0%nat by lia. done.
Qed.

Definition data_link (k : dir_keys) (header : bytes) (Hh : length header = dataHeaderLen) :
  Link (fun (s : dataCipher) x => SealPadded (x_iv x) (x_pkt x) (x_min x) s) (fun r d => ovpn_Decapsulate d r) (W := ovpnWindow)
    (dom := uint32) ovpn_good ovpn_payload errReplay data_ctr (2 ^ 32 - 1).
Proof.
  refine {| lk_packet n x := data_packet k header (data_ctr n) (x_iv x) (padded (x_pkt x) (x_min x));
            lk_sender n s := send_dir s = k /\ header_of s = header /\ counter_of s = Z.of_nat n;
            lk_receiver r := recv_dir r = k;
            lk_window := window_of |}.
  - intros n Hn. unfold data_ctr, uint. lia.
  - intros n s x (Hk & Hs & Hc) _ Hn. destruct (SealPadded_spec (x_iv x) (x_pkt x) (x_min x) s) as (s' & E & (S1 & _ & S3) & Hc' & _);
      [congruence|lia|]. rewrite E, Hk, Hs, Hc. exists s'. split; [done|]. split_and!; [congruence..|lia].
  - intros n r x <- Hg Hn. pose proof (padded_payload x Hg) as Hp. destruct Hg as [Hiv _].
    destruct (Open_spec r header (data_ctr n) (x_iv x) (padded (x_pkt x) (x_min x)) Hh Hiv) as (r' & E & (_ & S2 & _) & Hw);
      [unfold data_ctr, uint; lia|]. unfold ovpn_Decapsulate. rewrite E. destruct (ar_step (window_of r) (data_ctr n)) as [ok w]. cbn [fst snd] in *.
    destruct ok; [|by exists r']. exists r'. split; [|done]. rewrite <- Hp.
    destruct (IsPing _); [done|]. by destruct (TrimToIP _).
Defined.

(** The cipher a side builds from the key sources of the exchange: [buildDataCipher], and the server's handshake. *)
Inductive data_kind := UseGCM | UseCBC (h : hash_alg).

Definition buildDataCipher (kind : data_kind) (ks : KeySource2) (clientSID serverSID : bytes) (isServer : bool) (peerID keyID : Z) : option dataCipher :=
  match kind with
  | UseGCM => dk ← Derive ks clientSID serverSID isServer; Some (GCM (NewGCM dk peerID keyID))
  | UseCBC h => ck ← DeriveCBC ks clientSID serverSID isServer; Some (CBC (NewCBC ck h peerID keyID))
  end.

Lemma buildDataCipher_pair kind ks csid ssid b pid1 kid1 pid2 kid2 :
  exists s r, buildDataCipher kind ks csid ssid b pid1 kid1 = Some s /\ buildDataCipher kind ks csid ssid (negb b) pid2 kid2 = Some r /\
    recv_dir r = send_dir s /\ header_of s = makeHeader pid1 kid1 /\ counter_of s = 0 /\ window_of r = ar_init.
Proof.
  destruct kind as [|h]; cbn [buildDataCipher].
  - destruct (Derive_mirror ks csid ssid) as (dc & ds & Ec & Es & (M1 & M2 & M3 & M4) & _).
    destruct b; cbn [negb]; rewrite Ec, Es; cbn [mbind option_bind]; eexists _, _; split_and!; try done; cbn; congruence.
  - destruct (DeriveCBC_mirror ks csid ssid) as (dc & ds & Ec & Es & (M1 & M2 & M3 & M4) & _).
    destruct b; cbn [negb]; rewrite Ec, Es; cbn [mbind option_bind]; eexists _, _; split_and!; try done; cbn; congruence.
Qed.

(** Octets that no cipher with the receiving keys opens. *)
Definition inauthentic (k : dir_keys) (d : bytes) : Prop := forall r, recv_dir r = k -> exists e, ovpn_Decapsulate d r = (Err e, r).


End Data.

