(* ===== verification/OvpnServer.v ===== *)
(** * The OpenVPN server, [internal/openvpn/server.go]

    One socket, a pool of addresses, an admission gate and a pump, shared by a read
    loop and two goroutines per client: the handshake, and the one that serves the
    client once it is up.  Clients and tunnels are pointers into stores; [cl_stage]
    tells where a client's goroutines are.  A step is what happens between two points
    at which a goroutine can wait, and steps interleave freely.  TLS is outside: what it
    reads, and whether its calls succeed, are arguments; so are random draws and
    clock readings.  The control channel of a client moves on its own (OvpnControl).

    The theorems: the resources of the server are in order in every reachable state,
    each address, inbound key, route and reservation belongs to exactly one client
    that still exists and is given back when the client ends; the IPv6 addresses
    derived from the pool's are distinct and inside the prefix; and the end of
    [serveClient] that gives nothing back. *)
From Stdlib Require Import ZArith Lia.
From Stdlib Require String.
Import String.StringSyntax.
From stdpp Require Import base list gmap fin_maps.
From S2P Require Import Prelude AntiReplay Routes Packet Shape Admission Pool Pump PumpGso Crypto OvpnWire OvpnWrap OvpnControl OvpnKeys OvpnData.

Abbreviation controlTimeout := 2000000000 (only parsing).
Abbreviation ovpnPingRestart := 60000000000 (only parsing).

(** ** The IPv6 half of a tunnel *)

Definition prefix6Fits (prefix network : Prefix) : bool :=
  let need := (32 - pBits network)%nat in negb (128 - pBits prefix <? need)%nat.

(** [As16]. *)
Definition As16 (a : Addr) : bytes :=
  match a with IPv4 x => replicate 10 0 ++ [0xff; 0xff] ++ be_enc 4 x | IPv6 x => be_enc 16 x end.

Definition derive6 (prefix network : Prefix) (ip : Addr) : option Addr :=
  match Unmap ip, Unmap (pAddr network) with
  | IPv4 v4, IPv4 base =>
      let offset := wrap 32 (v4 - base) in
      let addr := As16 (pAddr prefix) in
      Some (IPv6 (be_dec (take 12 addr ++ be_enc 4 (wrap 32 (be_dec (drop 12 addr) + offset)))))
  | _, _ => None
  end.

(** The 24 bits of the peer-id. *)
Definition serverDataDemux (pkt : bytes) : option Z :=
  match Opcode pkt with
  | None => None
  | Some (op, _) =>
      if (negb (op =? PDataV2) || (length pkt <? 4)%nat)%bool then None
      else Some (Z.lor (Z.lor (Z.shiftl (at_ pkt 1) 16) (Z.shiftl (at_ pkt 2) 8)) (at_ pkt 3))
  end.

Section Server.
Context {P : Prims} {C : StreamPrims}.

(** ** Tunnels *)

Record serverTunnel := mkServerTunnel { st_cipher : Cipher; st_peerID : Z; st_routes : list Prefix; st_peer : option UDPAddr }.

(** The tunnels by pointer, and the TUN device. *)
Record ovpn_world := mkOvpnWorld { st_tunnels : gmap nat serverTunnel; st_device : bytes -> bool }.

Definition put_tunnel (t : nat) (x : serverTunnel) (w : ovpn_world) : ovpn_world := mkOvpnWorld (<[t := x]> (st_tunnels w)) (st_device w).

(** A call of the cipher of the tunnel at a pointer. *)
Definition with_cipher {A} (t : nat) (w : ovpn_world) (f : dataCipher -> result data_error A * dataCipher) : option A * ovpn_world :=
  match st_tunnels w !! t with
  | None => (None, w)
  | Some x =>
      match f (GCM (st_cipher x)) with
      | (r, GCM c) => (match r with Ok a => Some a | Err _ => None end, put_tunnel t (mkServerTunnel c (st_peerID x) (st_routes x) (st_peer x)) w)
      | (r, CBC _) => (match r with Ok a => Some a | Err _ => None end, w)
      end
  end.

(** The methods of [serverTunnel]: it pads and checks sources, and does not roam. *)
#[export] Instance ovpn_tunnels : Tunnels nat ovpn_world (option UDPAddr) := {|
  InboundKey := fun t w => match st_tunnels w !! t with Some x => st_peerID x | None => 0 end;
  TRoutes := fun t w => match st_tunnels w !! t with Some x => st_routes x | None => [] end;
  PeerAddr := fun t w => st_tunnels w !! t ≫= st_peer;
  Encapsulate := fun t w p => with_cipher t w (SealPadded [] p 0);
  Decapsulate := fun t w p => with_cipher t w (fun c => let '(r, c) := ovpn_Decapsulate p c in
    (match r with Ok o => Ok (default [] o) | Err e => Err e end, c));
  isMulti := fun _ => false;
  DecapsulateMulti := fun _ w _ => (None, w);
  isPaced := fun _ => false;
  Enqueue := fun _ w _ => (false, w);
  StartPacing := fun _ w => w;
  StopPacing := fun _ w => w;
  isRoamer := fun _ => false;
  SetPeerAddr := fun _ w _ => w;
  isPadding := fun _ => true;
  EncapsulatePadded := fun t w p m => with_cipher t w (SealPadded [] p (Z.to_nat m));
  isAppend := fun _ => false;
  AppendEncapsulated := fun _ w _ _ => (None, w);
  isSourceChecked := fun _ => true;
  VerifyInboundSource := fun _ _ => true;
  tunWrite := fun w pkt => (st_device w pkt, w);
  vnetWrite := fun w pkt => (st_device w pkt, w);
  vnetWriteGSO := fun w _ frame => (st_device w frame, w);
  sendTo := fun w _ _ => w;
|}.

Abbreviation OvpnPump := (@Pump nat ovpn_world (option UDPAddr)).

(** ** State *)

(** Where the goroutines of a client are: in the handshake before an address is assigned, between the
    assignment and the push reply, in [serveClient]; or dropped or reaped; or gone from [serveClient]
    without reaping. *)
Inductive cl_at := Negotiating | Assigned (ip peerID : Z) (cipher : Cipher) | Up | Ended | Orphaned.

Record serverClient := mkClient {
  cl_ch : Channel; cl_addr : UDPAddr; cl_keyID : Z; cl_tunnel : option nat; cl_assignedIP : option Z; cl_upAt : Z; cl_reaped : bool;
  cl_stage : cl_at }.

(** [os_newWrapper] is what the wrapper factory returns; [os_heap] the clients ever created. *)
Record OvpnServer := mkOvpnServer {
  os_newWrapper : option Wrapper; os_pool : AddrPool; os_pool6 : option Prefix; os_gate : Gate; os_pump : OvpnPump;
  os_nextPeerID : Z; os_clients : gmap (option Addr * Z) nat; os_heap : gmap nat serverClient; os_closed : bool }.

Definition os_set_pool v s := mkOvpnServer (os_newWrapper s) v (os_pool6 s) (os_gate s) (os_pump s) (os_nextPeerID s) (os_clients s) (os_heap s) (os_closed s).
Definition os_set_gate v s := mkOvpnServer (os_newWrapper s) (os_pool s) (os_pool6 s) v (os_pump s) (os_nextPeerID s) (os_clients s) (os_heap s) (os_closed s).
Definition os_set_pump v s := mkOvpnServer (os_newWrapper s) (os_pool s) (os_pool6 s) (os_gate s) v (os_nextPeerID s) (os_clients s) (os_heap s) (os_closed s).
Definition os_set_next v s := mkOvpnServer (os_newWrapper s) (os_pool s) (os_pool6 s) (os_gate s) (os_pump s) v (os_clients s) (os_heap s) (os_closed s).
Definition os_set_clients v s := mkOvpnServer (os_newWrapper s) (os_pool s) (os_pool6 s) (os_gate s) (os_pump s) (os_nextPeerID s) v (os_heap s) (os_closed s).
Definition os_set_client cid cl s := mkOvpnServer (os_newWrapper s) (os_pool s) (os_pool6 s) (os_gate s) (os_pump s) (os_nextPeerID s) (os_clients s) (<[cid := cl]> (os_heap s)) (os_closed s).

Definition cl_set_ch v cl := mkClient v (cl_addr cl) (cl_keyID cl) (cl_tunnel cl) (cl_assignedIP cl) (cl_upAt cl) (cl_reaped cl) (cl_stage cl).
Definition cl_set_stage v cl := mkClient (cl_ch cl) (cl_addr cl) (cl_keyID cl) (cl_tunnel cl) (cl_assignedIP cl) (cl_upAt cl) (cl_reaped cl) v.

(** ** Creation *)

Inductive server_error := ErrPool (e : pool_error) | ErrPool6Not6 | ErrPool6Small | ErrPool6Derive.

(** [NewServer] from its parsed configuration, with the pump [ListenAndServe] starts. *)
Definition NewOvpnServer (wrapper : option Wrapper) (ipnet : Prefix) (pool6 : option Prefix) (isGSO : bool) (mtu now : Z) (device : bytes -> bool) :
  result server_error OvpnServer :=
  match NewAddrPool ipnet with
  | Err e => Err (ErrPool e)
  | Ok (pool, gateway) =>
      let* p6 := match pool6 with
                 | None => Ok None
                 | Some p6 =>
                     match Unmap (pAddr p6) with
                     | IPv4 _ => Err ErrPool6Not6
                     | IPv6 _ =>
                         let p6 := Masked p6 in
                         if negb (prefix6Fits p6 (network pool)) then Err ErrPool6Small
                         else match derive6 p6 (network pool) (IPv4 gateway) with None => Err ErrPool6Derive | Some _ => Ok (Some p6) end
                     end
                 end in
      let pump := SetInnerMTU mtu (NewPump (Some serverDataDemux) isGSO now (mkOvpnWorld ∅ device)) in
      Ok (mkOvpnServer wrapper pool p6 (NewGate (mkAdmissionConfig 0 (f64_of_int 0) (f64_of_int 0)) now) pump 0 ∅ ∅ false)
  end.

Definition client6 (pool6 : option Prefix) (network : Prefix) (ip : Addr) : option Addr := p ← pool6; derive6 p network ip.

(** The routes of a client: its address, and the one derived from it. *)
Definition client_routes (pool6 : option Prefix) (network : Prefix) (ip : Z) : list Prefix :=
  mkPrefix (IPv4 ip) 32 :: match client6 pool6 network (IPv4 ip) with Some a6 => [mkPrefix a6 128] | None => [] end.

(** ** The read loop *)

Definition authenticateOpener (s : OvpnServer) (pkt : bytes) : bool :=
  match os_newWrapper s with
  | None => true
  | Some w => match Unwrap pkt w with (Ok _, _) => true | (Err _, _) => false end
  end.

(** [sid] is the session ID drawn, [None] if the draw fails. *)
Definition newClient (s : OvpnServer) (from : UDPAddr) (keyID : Z) (sid : option bytes) : option serverClient :=
  sid ← sid;
  Some (mkClient (newChannel sid keyID controlTimeout (os_newWrapper s) PControlHardResetServerV2) from keyID None None 0 false Negotiating).

Definition handleControl (op keyID : Z) (pkt : bytes) (from : UDPAddr) (sid : option bytes) (now : Z) (s : OvpnServer) : OvpnServer :=
  let key := addr_key from in
  match os_clients s !! key with
  | Some cid =>
      match os_heap s !! cid with Some cl => os_set_client cid (cl_set_ch (Deliver pkt (cl_ch cl)) cl) s | None => s end
  | None =>
      if negb (op =? PControlHardResetClientV2) then s
      else if negb (authenticateOpener s pkt) then s
      else
        let '(r, g) := Admit (os_gate s) (Admission.UDPAddr (udpIP from)) now in
        let s := os_set_gate g s in
        match r with
        | HandshakeAdmitted =>
            match newClient s from keyID sid with
            | None => os_set_gate (Done (os_gate s)) s
            | Some cl =>
                let cid := fresh (dom (os_heap s)) in
                os_set_client cid (cl_set_ch (Deliver pkt (cl_ch cl)) cl) (os_set_clients (<[key := cid]> (os_clients s)) s)
            end
        | _ => s
        end
  end.

(** One batch: control packets are handled as they come, data packets collected. *)
Fixpoint ovpn_dispatch (draw : nat -> option bytes * Z) (i : nat) (dgrams : list (bytes * UDPAddr)) (s : OvpnServer) : list (bytes * option (option UDPAddr)) * OvpnServer :=
  match dgrams with
  | [] => ([], s)
  | (pkt, from) :: dgrams =>
      match Opcode pkt with
      | None => ovpn_dispatch draw (S i) dgrams s
      | Some (op, keyID) =>
          if IsDataOpcode op then
            let '(data, s) := ovpn_dispatch draw (S i) dgrams s in ((pkt, Some (Some from)) :: data, s)
          else if IsControl op then
            ovpn_dispatch draw (S i) dgrams (handleControl op keyID pkt from (draw i).1 (draw i).2 s)
          else ovpn_dispatch draw (S i) dgrams s
      end
  end.

Definition ovpn_readBatch (draw : nat -> option bytes * Z) (dgrams : list (bytes * UDPAddr)) (now : Z) (s : OvpnServer) : OvpnServer :=
  let '(data, s) := ovpn_dispatch draw 0 dgrams s in
  if (length data =? 0)%nat then s else os_set_pump (HandleInboundBatch data now (os_pump s)).2 s.

(** ** The handshake *)

Definition dropClient (cid : nat) (cl : serverClient) (s : OvpnServer) : OvpnServer :=
  os_set_clients (delete (addr_key (cl_addr cl)) (os_clients s))
    (os_set_client cid (cl_set_stage Ended (cl_set_ch (Close (cl_ch cl)) cl)) s).

(** The reservation is given back when the handshake returns. *)
Definition handshake_failed (cid : nat) (cl : serverClient) (s : OvpnServer) : OvpnServer :=
  let s := dropClient cid cl s in os_set_gate (Done (os_gate s)) s.

(** The key message out of what TLS reads; the rest of the last read is dropped with the buffer.  [None] when a
    read fails, the message is refused or grows too long. *)
Fixpoint readClientKeys (buf : bytes) (reads : list bytes) : option (ClientHello * list bytes) :=
  match reads with
  | [] => None
  | r :: reads =>
      let buf := buf ++ r in
      match ParseClient buf with
      | Ok h => Some (h, reads)
      | Err ErrShortMessage => if (8192 <? length buf)%nat then None else readClientKeys buf reads
      | Err _ => None
      end
  end.

Fixpoint indexByte (b : bytes) (c : Z) : option nat :=
  match b with [] => None | v :: b => if v =? c then Some O else S <$> indexByte b c end.

(** The control strings of a buffer up to the first PUSH_REQUEST: found, or the rest.  Every round drops
    at least the null it found, so the length of the buffer is enough fuel. *)
Fixpoint scan_strings (fuel : nat) (buf : bytes) : option bytes :=
  match fuel with
  | O => Some buf
  | S fuel =>
      match indexByte buf 0 with
      | None => Some buf
      | Some i => if bool_decide (take 12 (take i buf) = str "PUSH_REQUEST") then None else scan_strings fuel (drop (S i) buf)
      end
  end.

Fixpoint readPushRequest (buf : bytes) (reads : list bytes) : bool :=
  match reads with
  | [] => false
  | r :: reads =>
      match scan_strings (S (length (buf ++ r))) (buf ++ r) with
      | None => true
      | Some buf => if (4096 <? length buf)%nat then false else readPushRequest buf reads
      end
  end.

(** What the handshake sees of TLS: whether the handshake completes, what is read, the key source drawn and whether the
    keys could be written. *)
Record tls_run := mkTLS { tls_ok : bool; tls_reads : list bytes; tls_ks : option KeySource; tls_wrote : bool }.

Definition negotiate (t : tls_run) : option KeySource2 :=
  if negb (tls_ok t) then None
  else
    '(hello, reads) ← readClientKeys [] (tls_reads t);
    ks ← tls_ks t;
    if negb (tls_wrote t) then None
    else if negb (readPushRequest [] reads) then None
    else Some (mkKeySource2 (hKeySource hello) ks).

(** [handshake] up to the write of the push reply: an address and a peer-id are taken, and the data keys derived
    (their lengths are those [data.New] accepts). *)
Definition handshake_assign (t : tls_run) (cid : nat) (cl : serverClient) (s : OvpnServer) : option OvpnServer :=
  match negotiate t with
  | None => Some (handshake_failed cid cl s)
  | Some ks2 =>
      '(r, pool) ← Allocate (os_pool s);
      match r with
      | Err _ => Some (handshake_failed cid cl s)
      | Ok ip =>
          let peerID := wrap 32 (os_nextPeerID s + 1) in
          let clientSID := default (replicate 8 0) (c_remote (cl_ch cl)) in
          dk ← Derive ks2 clientSID (c_local (cl_ch cl)) true;
          let cipher := NewGCM dk peerID (cl_keyID cl) in
          Some (os_set_client cid (cl_set_stage (Assigned ip peerID cipher) cl) (os_set_next peerID (os_set_pool pool s)))
      end
  end.

(** The rest: [wrote] tells whether the push reply could be written. *)
Definition handshake_finish (wrote : bool) (now : Z) (cid : nat) (cl : serverClient) (ip peerID : Z) (cipher : Cipher) (s : OvpnServer) : OvpnServer :=
  if negb wrote then handshake_failed cid cl (os_set_pool (Release (os_pool s) (Some ip)) s)
  else
    let routes := client_routes (os_pool6 s) (network (os_pool s)) ip in
    let w := world (os_pump s) in
    let t := fresh (dom (st_tunnels w)) in
    let w := put_tunnel t (mkServerTunnel cipher peerID routes (Some (cl_addr cl))) w in
    let cl := mkClient (cl_ch cl) (cl_addr cl) (cl_keyID cl) (Some t) (Some ip) now (cl_reaped cl) Up in
    let s := os_set_client cid cl (os_set_pump (AddTunnel t (upd_world w (os_pump s))).2 s) in
    os_set_gate (Done (os_gate s)) s.

(** ** Serving a client *)

(** How long the client has been silent, and whether that is too long. *)
Definition silentFor (s : OvpnServer) (cl : serverClient) (t : nat) (now : Z) : Z * bool :=
  let last := match TunnelStatsOf (os_pump s) t ≫= LastSeen with Some seen => seen | None => cl_upAt cl end in
  let d := time_sub now last in
  (d, ovpnPingRestart <? d).

Definition reapClient (cid : nat) (cl : serverClient) (t : nat) (s : OvpnServer) : OvpnServer :=
  if cl_reaped cl then s
  else
    let cl' := mkClient (Close (cl_ch cl)) (cl_addr cl) (cl_keyID cl) (cl_tunnel cl) (cl_assignedIP cl) (cl_upAt cl) true Ended in
    let s := os_set_client cid cl' s in
    let s := os_set_pump (RemoveTunnel t (os_pump s)).2 s in
    let s := os_set_pool (Release (os_pool s) (cl_assignedIP cl)) s in
    if bool_decide (os_clients s !! addr_key (cl_addr cl) = Some cid)
    then os_set_clients (delete (addr_key (cl_addr cl)) (os_clients s)) s
    else s.

(** A tick of [serveClient]: the client is reaped, or pinged; when the ping cannot be sealed the
    goroutine returns. *)
Definition serve_tick (cid : nat) (cl : serverClient) (t : nat) (now : Z) (s : OvpnServer) : OvpnServer :=
  if (silentFor s cl t now).2 then reapClient cid cl t s
  else
    let '(r, w) := with_cipher t (world (os_pump s)) (SealPadded [] Ping 0) in
    let s := os_set_pump (upd_world w (os_pump s)) s in
    match r with
    | None => os_set_client cid (cl_set_stage Orphaned cl) s
    | Some _ => s
    end.

Definition os_Close (s : OvpnServer) : OvpnServer :=
  mkOvpnServer (os_newWrapper s) (os_pool s) (os_pool6 s) (os_gate s) (Pump.Close (os_pump s)) (os_nextPeerID s) (os_clients s) (os_heap s) true.

(** ** Steps *)

Inductive srv_step (s : OvpnServer) : OvpnServer -> Prop :=
| srv_read draw dgrams now : srv_step s (ovpn_readBatch draw dgrams now s)
| srv_tun pkt now : srv_step s (os_set_pump (routeOutbound pkt now (os_pump s)).2 s)
| srv_vnet batch buf now : srv_step s (os_set_pump (vnetRead batch buf now (os_pump s)).2 s)
| srv_channel cid cl c :
    os_heap s !! cid = Some cl -> (c_closed (cl_ch cl) = true -> c_closed c = true) -> srv_step s (os_set_client cid (cl_set_ch c cl) s)
| srv_assign t cid cl s' :
    os_heap s !! cid = Some cl -> cl_stage cl = Negotiating -> handshake_assign t cid cl s = Some s' -> srv_step s s'
| srv_finish wrote now cid cl ip peerID cipher :
    os_heap s !! cid = Some cl -> cl_stage cl = Assigned ip peerID cipher -> srv_step s (handshake_finish wrote now cid cl ip peerID cipher s)
| srv_tick cid cl t now :
    os_heap s !! cid = Some cl -> cl_stage cl = Up -> cl_tunnel cl = Some t -> srv_step s (serve_tick cid cl t now s)
| srv_control_closed cid cl t :
    os_heap s !! cid = Some cl -> cl_stage cl = Up -> cl_tunnel cl = Some t -> c_closed (cl_ch cl) = true -> srv_step s (reapClient cid cl t s)
| srv_stop cid cl :
    os_heap s !! cid = Some cl -> cl_stage cl = Up -> os_closed s = true -> srv_step s (os_set_client cid (cl_set_stage Orphaned cl) s)
| srv_close : srv_step s (os_Close s).

(** ** The derived addresses *)

(** A pool's network as [net.ParseCIDR] returns it, and an IPv6 prefix that was checked against it. *)
Record dual_stack (p6 net : Prefix) (x y : Z) (n b : nat) : Prop := {
  ds_net : net = mkPrefix (IPv4 x) n; ds_x : uint 32 x;
  ds_p6 : p6 = mkPrefix (IPv6 y) b; ds_y : uint 128 y; ds_b : (b <= 128)%nat; ds_masked : Masked p6 = p6;
  ds_fits : prefix6Fits p6 net = true;
}.

Lemma derive6_value p6 net x y n b a :
  dual_stack p6 net x y n b -> x <= a < x + 2 ^ (32 - Z.of_nat n) -> (n <= 32)%nat -> a < 2 ^ 32 ->
  derive6 p6 net (IPv4 a) = Some (IPv6 (y + (a - x))) /\ y + (a - x) < y / 2 ^ (128 - Z.of_nat b) * 2 ^ (128 - Z.of_nat b) + 2 ^ (128 - Z.of_nat b) /\
  y = y / 2 ^ (128 - Z.of_nat b) * 2 ^ (128 - Z.of_nat b).
Proof.
  intros [-> Hx -> Hy Hb Hm Hf] Ha Hn Ha32. set (k := 128 - Z.of_nat b).
  assert (y = y / 2 ^ k * 2 ^ k) as Hyk.
  { injection Hm as Hm. rewrite <- Hm at 1. cbn [BitLen addr_val]. replace (Z.of_nat (128 - b)) with k by lia.
    by rewrite Z.shiftl_mul_pow2, Z.shiftr_div_pow2 by lia. }
  assert (32 - Z.of_nat n <= k) as Hk.
  { unfold prefix6Fits in Hf. cbn in Hf. apply negb_true_iff, Nat.ltb_ge in Hf. lia. }
  assert (2 ^ (32 - Z.of_nat n) <= 2 ^ k) as Hp by (apply Z.pow_le_mono_r; lia).
  assert (2 ^ (32 - Z.of_nat n) <= 2 ^ 32) as Hp32 by (apply Z.pow_le_mono_r; lia).
  split_and!; [|lia|done]. unfold derive6. cbn [Unmap pAddr As16]. unfold uint in *.
  assert (be_dec (take 12 (be_enc 16 y)) * 2 ^ 32 + be_dec (drop 12 (be_enc 16 y)) = y) as Hs.
  { transitivity (be_dec (be_enc 16 y)); [|apply be_dec_enc_small; unfold uint; lia]. rewrite <- (take_drop 12 (be_enc 16 y)) at 3.
    by rewrite be_dec_app, length_drop, length_be_enc. }
  set (hi := be_dec (take 12 _)) in *. set (lo := be_dec (drop 12 _)) in *.
  assert (0 <= lo < 2 ^ 32) as Hlo.
  { subst lo. pose proof (be_dec_range (drop 12 (be_enc 16 y))) as H. rewrite length_drop, length_be_enc in H. apply H.
    apply Forall_drop, be_enc_ok. }
  assert (lo + (a - x) < 2 ^ 32) as Hsum.
  { destruct (Z.le_gt_cases 32 k) as [Hge|Hlt].
    - assert (lo = 0); [|lia]. rewrite <- Hs in Hyk at 1. replace k with (k - 32 + 32) in Hyk at 2 by lia.
      rewrite Z.pow_add_r in Hyk by lia. set (q := y / 2 ^ k) in *. set (r := 2 ^ (k - 32)) in *.
      assert (lo = (q * r - hi) * 2 ^ 32) by lia. nia.
    - assert (exists q, lo = q * 2 ^ k) as [q Hq].
      { exists (y / 2 ^ k - hi * 2 ^ (32 - k)). rewrite Z.mul_sub_distr_r, <- Hyk, <- Z.mul_assoc, <- Z.pow_add_r by lia.
        replace (32 - k + k) with 32 by lia. lia. }
      assert (2 ^ 32 = 2 ^ (32 - k) * 2 ^ k) as H32 by (rewrite <- Z.pow_add_r by lia; f_equal; lia).
      assert (q < 2 ^ (32 - k)) by (apply (Z.mul_lt_mono_pos_r (2 ^ k)); lia).
      assert ((q + 1) * 2 ^ k <= 2 ^ (32 - k) * 2 ^ k) by (apply Z.mul_le_mono_nonneg_r; lia). lia. }
  rewrite (wrap_small 32 (a - x)), (wrap_small 32 (lo + (a - x))) by (unfold uint; lia).
  f_equal. f_equal. rewrite be_dec_app, length_be_enc, be_dec_enc_small by (unfold uint; lia). fold hi. change (256 ^ Z.of_nat 4) with (2 ^ 32). lia.
Qed.

(** ** Counting entries of a map *)

Definition count {A} (f : A -> bool) (m : gmap nat A) : nat := size (filter (fun kv : nat * A => f kv.2 = true) m).

Lemma count_insert_new {A} (f : A -> bool) (m : gmap nat A) i x :
  m !! i = None -> count f (<[i := x]> m) = (count f m + (if f x then 1 else 0))%nat.
Proof.
  intros Hi. unfold count. destruct (f x) eqn:E.
  - rewrite map_filter_insert_True by done. rewrite map_size_insert_None; [lia|]. apply map_lookup_filter_None. by left.
  - rewrite map_filter_insert_not' by (cbn; congruence || (intros y; by rewrite Hi)). lia.
Qed.

Lemma count_insert {A} (f : A -> bool) (m : gmap nat A) i x y :
  m !! i = Some y -> (count f (<[i := x]> m) + (if f y then 1 else 0) = count f m + (if f x then 1 else 0))%nat.
Proof.
  intros Hi. assert (forall z, count f (<[i := z]> m) = (count f (delete i m) + (if f z then 1 else 0))%nat) as H
    by (intros z; rewrite <- insert_delete_eq; apply count_insert_new, lookup_delete_eq).
  pose proof (H y) as Hy. rewrite (insert_id m i y Hi) in Hy. rewrite H, Hy. lia.
Qed.

(** ** The resources *)

(** What a client holds: a place in the client table, a reservation of the gate, an address, a peer-id and
    a tunnel. *)
Record claim := mkClaim {
  k_key : option Addr * Z; k_live : bool; k_half : bool; k_ip : option Z; k_id : option Z; k_tun : option nat }.

(** Nothing has been assigned to the client yet. *)
Definition k_unassigned (c : claim) : bool := k_half c && bool_decide (k_id c = None).

(** Who holds what: the claims, and the tables they should agree with.  [b_tunnels] is peer-id and routes of
    every tunnel ever made. *)
Record book := mkBook {
  b_claims : gmap nat claim; b_clients : gmap (option Addr * Z) nat; b_pool : AddrPool; b_half : Z; b_next : Z;
  b_keys : gmap Z nat; b_routes : routeTable (option (@bound nat)); b_tunnels : gmap nat (Z * list Prefix) }.

(** The addresses of the pool have IPv6 counterparts, if there is a prefix. *)
Definition net_ok (pool6 : option Prefix) (p : AddrPool) : Prop :=
  forall p6, pool6 = Some p6 -> exists x y n b, dual_stack p6 (network p) x y n b /\ (n <= 32)%nat /\
    forall a, pbase p <= a <= plast p -> x <= a < x + 2 ^ (32 - Z.of_nat n).

Record book_ok (pool6 : option Prefix) (k : book) : Prop := {
  ok_pool : pool_inv (b_pool k);
  ok_net : net_ok pool6 (b_pool k);
  ok_clients : forall key cid, b_clients k !! key = Some cid <-> exists c, b_claims k !! cid = Some c /\ k_key c = key /\ k_live c = true;
  ok_used : forall ip, ip ∈ used (b_pool k) <-> exists cid c, b_claims k !! cid = Some c /\ k_ip c = Some ip;
  ok_ip_apart : forall i j c d ip, b_claims k !! i = Some c -> b_claims k !! j = Some d -> k_ip c = Some ip -> k_ip d = Some ip -> i = j;
  ok_half : b_half k = Z.of_nat (count k_half (b_claims k));
  ok_next : 0 <= b_next k <= Z.of_nat (count (fun c => negb (k_unassigned c)) (b_claims k));
  ok_ids : forall i c id, b_claims k !! i = Some c -> k_id c = Some id -> 1 <= id <= b_next k;
  ok_id_apart : forall i j c d id, b_claims k !! i = Some c -> b_claims k !! j = Some d -> k_id c = Some id -> k_id d = Some id -> i = j;
  ok_tun : forall i c t, b_claims k !! i = Some c -> k_tun c = Some t -> exists id ip, k_id c = Some id /\ k_ip c = Some ip /\
    b_tunnels k !! t = Some (id, client_routes pool6 (network (b_pool k)) ip);
  ok_keys : forall id t, b_keys k !! id = Some t <-> exists i c, b_claims k !! i = Some c /\ k_tun c = Some t /\ k_id c = Some id;
  ok_routes_of : forall q b, prefix_ok q -> installed (b_routes k) q = Some (Some b) ->
    exists i c ip, b_claims k !! i = Some c /\ k_tun c = Some (bt b) /\ k_ip c = Some ip /\
      Exists (fun r => Masked r = Masked q) (client_routes pool6 (network (b_pool k)) ip);
  ok_routes : forall i c t ip r, b_claims k !! i = Some c -> k_tun c = Some t -> k_ip c = Some ip ->
    r ∈ client_routes pool6 (network (b_pool k)) ip -> exists b, installed (b_routes k) r = Some (Some b) /\ bt b = t;
}.

(** *** Routes of clients *)

Lemma Masked_host a : Masked (mkPrefix a (BitLen a)) = mkPrefix a (BitLen a).
Proof. unfold Masked, mask_addr. cbn. rewrite Nat.sub_diag, Z.shiftr_0_r, Z.shiftl_0_r. by destruct a. Qed.

Section Book.
Context (pool6 : option Prefix).

Lemma client_routes_host p ip r :
  pool_inv p -> net_ok pool6 p -> pbase p <= ip <= plast p -> r ∈ client_routes pool6 (network p) ip ->
  exists a, r = mkPrefix a (BitLen a) /\ addr_ok a /\
    (a = IPv4 ip \/ exists p6 x y n b, pool6 = Some p6 /\ dual_stack p6 (network p) x y n b /\ a = IPv6 (y + (ip - x))).
Proof.
  intros Hp Hn Hip Hr. pose proof (pi_base p Hp). pose proof (pi_last p Hp). apply elem_of_cons in Hr as [->|Hr].
  { exists (IPv4 ip). split; [done|]. split; [unfold addr_ok, uint; cbn; lia|by left]. }
  unfold client6 in Hr. destruct pool6 as [p6|] eqn:E6; [|by apply elem_of_nil in Hr]. cbn [mbind option_bind] in Hr.
  destruct (Hn p6 eq_refl) as (x & y & n & b & D & Hn32 & Hrange). specialize (Hrange ip Hip).
  destruct (derive6_value _ _ _ _ _ _ ip D Hrange Hn32 ltac:(lia)) as (E & H1 & H2). rewrite E in Hr.
  apply list_elem_of_singleton in Hr as ->. exists (IPv6 (y + (ip - x))). split; [done|]. split; [|right; by exists p6, x, y, n, b].
  pose proof (ds_y _ _ _ _ _ _ D) as Hy. pose proof (ds_b _ _ _ _ _ _ D) as Hb. unfold addr_ok, uint in *. cbn.
  split; [lia|]. set (k := 128 - Z.of_nat b) in *. assert (2 ^ 128 = 2 ^ (128 - k) * 2 ^ k) as H128 by (rewrite <- Z.pow_add_r by lia; f_equal; lia).
  assert (y / 2 ^ k < 2 ^ (128 - k)) by (apply Z.div_lt_upper_bound; lia).
  assert ((y / 2 ^ k + 1) * 2 ^ k <= 2 ^ (128 - k) * 2 ^ k) by (apply Z.mul_le_mono_nonneg_r; lia). lia.
Qed.

Lemma client_routes_ok p ip :
  pool_inv p -> net_ok pool6 p -> pbase p <= ip <= plast p -> Forall prefix_ok (client_routes pool6 (network p) ip).
Proof.
  intros Hp Hn Hip. apply Forall_forall. intros r Hr. destruct (client_routes_host p ip r Hp Hn Hip Hr) as (a & -> & Ha & _). by split.
Qed.

(** Different addresses never share a route. *)
Lemma client_routes_apart p ip ip' r r' :
  pool_inv p -> net_ok pool6 p -> pbase p <= ip <= plast p -> pbase p <= ip' <= plast p ->
  r ∈ client_routes pool6 (network p) ip -> r' ∈ client_routes pool6 (network p) ip' -> Masked r = Masked r' -> ip = ip'.
Proof.
  intros Hp Hn Hip Hip' Hr Hr' Hm.
  destruct (client_routes_host p ip r Hp Hn Hip Hr) as (a & -> & _ & Ha).
  destruct (client_routes_host p ip' r' Hp Hn Hip' Hr') as (a' & -> & _ & Ha').
  rewrite !Masked_host in Hm. injection Hm as Hm _.
  destruct Ha as [->|(p6 & x & y & n & b & E & D & ->)], Ha' as [->|(p6' & x' & y' & n' & b' & E' & D' & ->)]; simplify_eq; [done|].
  pose proof (ds_net _ _ _ _ _ _ D). pose proof (ds_net _ _ _ _ _ _ D'). pose proof (ds_p6 _ _ _ _ _ _ D). pose proof (ds_p6 _ _ _ _ _ _ D').
  assert (x = x') as <- by congruence. assert (y = y') as <- by congruence. lia.
Qed.

(** *** The changes of the book *)

Context (k : book) (OK : book_ok pool6 k).

Lemma claim_range i c ip : b_claims k !! i = Some c -> k_ip c = Some ip -> pbase (b_pool k) <= ip <= plast (b_pool k).
Proof. intros Hc Hip. apply (pi_used _ (ok_pool _ _ OK)). apply (ok_used _ _ OK). eauto. Qed.

(** A client is admitted. *)
Lemma book_admit cid key :
  b_claims k !! cid = None -> b_clients k !! key = None ->
  book_ok pool6 (mkBook (<[cid := mkClaim key true true None None None]> (b_claims k)) (<[key := cid]> (b_clients k)) (b_pool k)
    (b_half k + 1) (b_next k) (b_keys k) (b_routes k) (b_tunnels k)).
Proof.
  intros Hc Hk. destruct OK as [O1 O2 O3 O4 O5 O6 O7 O8 O9 O10 O11 O12 O13].
  assert (forall (Q : claim -> Prop), ~ Q (mkClaim key true true None None None) ->
    forall i c, <[cid := mkClaim key true true None None None]> (b_claims k) !! i = Some c -> Q c -> b_claims k !! i = Some c) as Hold
    by (intros Q HQ i c [[<- <-]|[_ H]]%lookup_insert_Some Hq; done).
  assert (forall i c, b_claims k !! i = Some c -> <[cid := mkClaim key true true None None None]> (b_claims k) !! i = Some c) as Hin
    by (intros i c Hi; rewrite lookup_insert_ne; [done|congruence]).
  split; cbn [b_claims b_clients b_pool b_half b_next b_keys b_routes b_tunnels]; try done.
  - intros key' i. rewrite lookup_insert_Some. split.
    + intros [[<- <-]|[Hne Hi]]; [eexists; split; [apply lookup_insert_eq|done]|]. apply O3 in Hi as (c & Hi & ? & ?). eauto.
    + intros (c & [[<- <-]|[Hne Hi]]%lookup_insert_Some & <- & Hl); [by left|]. right. split; [|apply O3; eauto].
      intros ->. assert (b_clients k !! k_key c = Some i) by (apply O3; eauto). congruence.
  - intros ip. rewrite O4. split; intros (i & c & Hi & Hip); exists i, c; (split; [|done]); [by apply Hin|].
    by apply (Hold (fun c => k_ip c = Some ip)) in Hi.
  - intros i j c d ip Hi Hj Hc' Hd. apply (Hold (fun c => k_ip c = Some ip)) in Hi, Hj; eauto.
  - rewrite count_insert_new by done. cbn [k_half]. lia.
  - rewrite count_insert_new by done. cbn. lia.
  - intros i c id Hi Hid. apply (Hold (fun c => k_id c = Some id)) in Hi; eauto.
  - intros i j c d id Hi Hj Hc' Hd. apply (Hold (fun c => k_id c = Some id)) in Hi, Hj; eauto.
  - intros i c t Hi Ht. apply (Hold (fun c => k_tun c = Some t)) in Hi; eauto.
  - intros id t. rewrite O11. split; intros (i & c & Hi & Ht & Hid); exists i, c; (split; [|done]); [by apply Hin|].
    by apply (Hold (fun c => k_tun c = Some t)) in Hi.
  - intros q b Hq Hi. destruct (O12 q b Hq Hi) as (i & c & ip & Hc' & ?). eauto 10.
  - intros i c t ip r Hi Ht. apply (Hold (fun c => k_tun c = Some t)) in Hi; eauto.
Qed.

Lemma tun_apart i j c d t :
  b_claims k !! i = Some c -> b_claims k !! j = Some d -> k_tun c = Some t -> k_tun d = Some t -> i = j.
Proof.
  intros Hi Hj Hc Hd. destruct (ok_tun _ _ OK _ _ _ Hi Hc) as (id & ip & H1 & _ & H2).
  destruct (ok_tun _ _ OK _ _ _ Hj Hd) as (id' & ip' & H1' & _ & H2'). rewrite H2 in H2'. simplify_eq. by eapply (ok_id_apart _ _ OK).
Qed.

(** An address and a peer-id are assigned. *)
Lemma book_assign cid key ip pool :
  b_claims k !! cid = Some (mkClaim key true true None None None) ->
  pool_inv pool -> ip ∉ used (b_pool k) -> used pool = {[ip]} ∪ used (b_pool k) ->
  network pool = network (b_pool k) -> pbase pool = pbase (b_pool k) -> plast pool = plast (b_pool k) ->
  book_ok pool6 (mkBook (<[cid := mkClaim key true true (Some ip) (Some (b_next k + 1)) None]> (b_claims k)) (b_clients k) pool
    (b_half k) (b_next k + 1) (b_keys k) (b_routes k) (b_tunnels k)).
Proof.
  intros Hc Hp Hni Hu Hnet Hbase Hlast. destruct OK as [O1 O2 O3 O4 O5 O6 O7 O8 O9 O10 O11 O12 O13].
  set (c0 := mkClaim key true true None None None) in *. set (c1 := mkClaim key true true _ _ _).
  assert (forall i c, <[cid := c1]> (b_claims k) !! i = Some c -> (i = cid /\ c = c1) \/ (i <> cid /\ b_claims k !! i = Some c)) as Hcase
    by (intros i c [[<- <-]|[? ?]]%lookup_insert_Some; auto).
  assert (forall i c, b_claims k !! i = Some c -> k_ip c <> None \/ k_id c <> None \/ k_tun c <> None -> <[cid := c1]> (b_claims k) !! i = Some c) as Hin.
  { intros i c Hi Hnn. rewrite lookup_insert_ne; [done|]. intros <-. rewrite Hc in Hi. injection Hi as <-. cbn in Hnn. naive_solver. }
  split; cbn [b_claims b_clients b_pool b_half b_next b_keys b_routes b_tunnels]; rewrite ?Hnet; try done.
  - intros p6 E. destruct (O2 p6 E) as (x & y & n & b & D & Hn & Hr). exists x, y, n, b. rewrite Hnet, Hbase, Hlast. done.
  - intros key' i. rewrite O3. split; intros (c & Hi & H1 & H2).
    + destruct (decide (i = cid)) as [->|Hne]; [|exists c; by rewrite lookup_insert_ne].
      rewrite Hc in Hi. injection Hi as <-. exists c1. by rewrite lookup_insert_eq.
    + destruct (Hcase i c Hi) as [[-> ->]|[_ Hi']]; eauto.
  - intros a. rewrite Hu, elem_of_union, elem_of_singleton, O4. split.
    + intros [->|(i & c & Hi & Ha)]; [exists cid, c1; by rewrite lookup_insert_eq|]. exists i, c. split; [|done]. apply Hin; [done|left; congruence].
    + intros (i & c & Hi & Ha). destruct (Hcase i c Hi) as [[-> ->]|[_ Hi']]; [left; cbn in Ha; congruence|right; eauto].
  - assert (forall i c, b_claims k !! i = Some c -> k_ip c <> Some ip) as Hno by (intros i c Hi Ha; apply Hni, O4; eauto).
    intros i j c d a Hi Hj Ha Hb. destruct (Hcase i c Hi) as [[-> ->]|[_ Hi']], (Hcase j d Hj) as [[-> ->]|[_ Hj']]; cbn in *; simplify_eq; eauto.
    + by destruct (Hno j d Hj').
    + by destruct (Hno i c Hi').
  - pose proof (count_insert k_half (b_claims k) cid c1 c0 Hc) as H. cbn in H. lia.
  - pose proof (count_insert (fun c => negb (k_unassigned c)) (b_claims k) cid c1 c0 Hc) as H. cbn in H. lia.
  - intros i c id Hi Hid. destruct (Hcase i c Hi) as [[-> ->]|[_ Hi']]; [cbn in Hid; simplify_eq; lia|]. specialize (O8 i c id Hi' Hid). lia.
  - assert (forall i c, b_claims k !! i = Some c -> k_id c <> Some (b_next k + 1)) as Hno by (intros i c Hi Ha; specialize (O8 i c _ Hi Ha); lia).
    intros i j c d a Hi Hj Ha Hb. destruct (Hcase i c Hi) as [[-> ->]|[_ Hi']], (Hcase j d Hj) as [[-> ->]|[_ Hj']]; cbn in *; simplify_eq; eauto.
    + by destruct (Hno j d Hj').
    + by destruct (Hno i c Hi').
  - intros i c t Hi Ht. destruct (Hcase i c Hi) as [[-> ->]|[_ Hi']]; [done|eauto].
  - intros id t. rewrite O11. split; intros (i & c & Hi & Ht & Hid); exists i, c; (split; [|done]); [apply Hin; [done|right; right; congruence]|].
    by destruct (Hcase i c Hi) as [[-> ->]|[_ Hi']].
  - intros q b Hq Hi. destruct (O12 q b Hq Hi) as (i & c & a & Hc' & Ht & ? & ?). exists i, c, a. split_and!; try done. apply Hin; [done|right; right; congruence].
  - intros i c t a r Hi Ht. destruct (Hcase i c Hi) as [[-> ->]|[_ Hi']]; [done|eauto].
Qed.

(** The tunnel of a client is registered. *)
Lemma book_up cid key ip id t b0 routes :
  b_claims k !! cid = Some (mkClaim key true true (Some ip) (Some id) None) -> b_tunnels k !! t = None -> bt b0 = t ->
  (forall q, prefix_ok q -> installed routes q =
    if decide (Exists (fun r => Masked r = Masked q) (client_routes pool6 (network (b_pool k)) ip)) then Some (Some b0) else installed (b_routes k) q) ->
  book_ok pool6 (mkBook (<[cid := mkClaim key true false (Some ip) (Some id) (Some t)]> (b_claims k)) (b_clients k) (b_pool k)
    (b_half k - 1) (b_next k) (<[id := t]> (b_keys k)) routes (<[t := (id, client_routes pool6 (network (b_pool k)) ip)]> (b_tunnels k))).
Proof.
  intros Hc Ht Hb Hroutes. pose proof (claim_range _ _ _ Hc eq_refl) as Hip. destruct OK as [O1 O2 O3 O4 O5 O6 O7 O8 O9 O10 O11 O12 O13].
  set (c0 := mkClaim key true true _ _ None) in *. set (c1 := mkClaim key true false _ _ _).
  assert (forall i c, <[cid := c1]> (b_claims k) !! i = Some c -> (i = cid /\ c = c1) \/ (i <> cid /\ b_claims k !! i = Some c)) as Hcase
    by (intros i c [[<- <-]|[? ?]]%lookup_insert_Some; auto).
  assert (forall i c, b_claims k !! i = Some c -> k_tun c <> None -> <[cid := c1]> (b_claims k) !! i = Some c /\ i <> cid) as Hin.
  { intros i c Hi Hnn. assert (i <> cid) by (intros ->; rewrite Hc in Hi; by injection Hi as <-). by rewrite lookup_insert_ne. }
  (* every claim but the tunnel is as before *)
  assert (forall i c, <[cid := c1]> (b_claims k) !! i = Some c -> exists c', b_claims k !! i = Some c' /\ k_key c' = k_key c /\ k_live c' = k_live c /\ k_ip c' = k_ip c /\ k_id c' = k_id c) as Hback
    by (intros i c Hi; destruct (Hcase i c Hi) as [[-> ->]|[_ Hi']]; eauto 10).
  assert (forall i c', b_claims k !! i = Some c' -> exists c, <[cid := c1]> (b_claims k) !! i = Some c /\ k_key c = k_key c' /\ k_live c = k_live c' /\ k_ip c = k_ip c' /\ k_id c = k_id c') as Hforth.
  { intros i c' Hi. destruct (decide (i = cid)) as [->|]; [rewrite Hc in Hi; injection Hi as <-; exists c1; by rewrite lookup_insert_eq|exists c'; by rewrite lookup_insert_ne]. }
  split; cbn [b_claims b_clients b_pool b_half b_next b_keys b_routes b_tunnels]; try done.
  - intros key' i. rewrite O3. split; intros (c & Hi & H1 & H2).
    + destruct (Hforth i c Hi) as (c' & ? & ? & ? & _). exists c'. split; [done|]. split; congruence.
    + destruct (Hback i c Hi) as (c' & ? & ? & ? & _). exists c'. split; [done|]. split; congruence.
  - intros a. rewrite O4. split; intros (i & c & Hi & Ha).
    + destruct (Hforth i c Hi) as (c' & ? & ? & ? & ? & _). exists i, c'. split; [done|]. congruence.
    + destruct (Hback i c Hi) as (c' & ? & ? & ? & ? & _). exists i, c'. split; [done|]. congruence.
  - intros i j c d a Hi Hj Ha Hb'. destruct (Hback i c Hi) as (c' & ? & ? & ? & ? & _), (Hback j d Hj) as (d' & ? & ? & ? & ? & _).
    apply (O5 i j c' d' a); [done|done|congruence|congruence].
  - pose proof (count_insert k_half (b_claims k) cid c1 c0 Hc) as H. cbn in H. lia.
  - pose proof (count_insert (fun c => negb (k_unassigned c)) (b_claims k) cid c1 c0 Hc) as H. cbn in H. lia.
  - intros i c id' Hi Hid. destruct (Hback i c Hi) as (c' & Hi' & ? & ? & ? & ?). apply (O8 i c' id' Hi'). congruence.
  - intros i j c d a Hi Hj Ha Hb'. destruct (Hback i c Hi) as (c' & ? & ? & ? & ? & ?), (Hback j d Hj) as (d' & ? & ? & ? & ? & ?).
    apply (O9 i j c' d' a); [done|done|congruence|congruence].
  - intros i c t' Hi Ht'. destruct (Hcase i c Hi) as [[-> ->]|[_ Hi']].
    + cbn in Ht'. injection Ht' as <-. exists id, ip. split_and!; [done|done|apply lookup_insert_eq].
    + destruct (O10 i c t' Hi' Ht') as (id' & ip' & ? & ? & Ht2). exists id', ip'. split_and!; [done|done|]. rewrite lookup_insert_ne; [done|congruence].
  - intros id' t'. rewrite lookup_insert_Some. split.
    + intros [[<- <-]|[Hne Hk]]; [exists cid, c1; split; [apply lookup_insert_eq|done]|]. apply O11 in Hk as (i & c & Hi & Ht' & Hid).
      exists i, c. split; [|done]. apply Hin; [done|congruence].
    + intros (i & c & Hi & Ht' & Hid). destruct (Hcase i c Hi) as [[-> ->]|[Hne Hi']]; [left; cbn in *; split; congruence|]. right.
      split; [|apply O11; eauto]. intros ->. apply Hne. by eapply O9.
  - intros q b Hq. rewrite Hroutes by done. case_decide as D.
    + intros [= <-]. exists cid, c1, ip. split_and!; [apply lookup_insert_eq|by rewrite Hb|done|done].
    + intros Hi. destruct (O12 q b Hq Hi) as (i & c & a & Hc' & Ht' & ? & ?). exists i, c, a. split_and!; try done. apply Hin; [done|congruence].
  - intros i c t' a r Hi Ht' Ha Hr.
    assert (pbase (b_pool k) <= a <= plast (b_pool k)) as Hrange.
    { destruct (Hback i c Hi) as (c' & Hi' & _ & _ & E & _). apply (pi_used _ O1), O4. exists i, c'. split; [done|]. congruence. }
    assert (prefix_ok r) as Hrok by (eapply Forall_forall in Hr; [|by apply client_routes_ok]; done).
    rewrite Hroutes by done. destruct (Hcase i c Hi) as [[-> ->]|[Hne Hi']].
    + cbn in Ht', Ha. simplify_eq. rewrite decide_True by (apply Exists_exists; eauto). eauto.
    + rewrite decide_False; [eauto|]. intros (r' & Hr' & Hm)%Exists_exists.
      assert (ip = a) as -> by (by eapply client_routes_apart; [done|done| |exact Hrange|exact Hr'|exact Hr|]). apply Hne. by eapply O5.
Qed.

(** A client ends and gives back what it holds. *)
Lemma book_end cid c0 keys routes :
  b_claims k !! cid = Some c0 -> k_live c0 = true ->
  (forall id t, keys !! id = Some t <-> b_keys k !! id = Some t /\ k_tun c0 <> Some t) ->
  (forall q b, prefix_ok q -> installed routes q = Some (Some b) <-> installed (b_routes k) q = Some (Some b) /\ k_tun c0 <> Some (bt b)) ->
  book_ok pool6 (mkBook (<[cid := mkClaim (k_key c0) false false None None None]> (b_claims k)) (delete (k_key c0) (b_clients k))
    (Release (b_pool k) (k_ip c0)) (b_half k - (if k_half c0 then 1 else 0)) (b_next k) keys routes (b_tunnels k)).
Proof.
  intros Hc Hl Hkeys Hroutes. pose proof tun_apart as Hta. pose proof claim_range as Hcr. destruct OK as [O1 O2 O3 O4 O5 O6 O7 O8 O9 O10 O11 O12 O13].
  set (c1 := mkClaim (k_key c0) false false None None None).
  assert (forall i c, <[cid := c1]> (b_claims k) !! i = Some c -> (i = cid /\ c = c1) \/ (i <> cid /\ b_claims k !! i = Some c)) as Hcase
    by (intros i c [[<- <-]|[? ?]]%lookup_insert_Some; auto).
  assert (network (Release (b_pool k) (k_ip c0)) = network (b_pool k)) as Hnet by (by destruct (k_ip c0)).
  split; cbn [b_claims b_clients b_pool b_half b_next b_keys b_routes b_tunnels]; rewrite ?Hnet.
  - by apply Release_inv.
  - intros p6 E. destruct (O2 p6 E) as (x & y & n & b & D & Hn & Hr). exists x, y, n, b. rewrite Hnet. by destruct (k_ip c0).
  - intros key i. rewrite lookup_delete_Some, O3. split.
    + intros [Hne (c & Hi & Hk & Hlc)]. exists c. split; [|done]. rewrite lookup_insert_ne; [done|]. intros <-. rewrite Hc in Hi. by injection Hi as <-.
    + intros (c & Hi & Hk & Hlc). destruct (Hcase i c Hi) as [[-> ->]|[Hne Hi']]; [done|]. split; [|eauto]. intros <-.
      assert (b_clients k !! k_key c0 = Some i) as H1 by (apply O3; eauto). assert (b_clients k !! k_key c0 = Some cid) as H2 by (apply O3; eauto). congruence.
  - intros a. assert (a ∈ used (Release (b_pool k) (k_ip c0)) <-> a ∈ used (b_pool k) /\ k_ip c0 <> Some a) as ->
      by (destruct (k_ip c0); cbn; set_solver). rewrite O4. split.
    + intros [(i & c & Hi & Ha) Hna]. exists i, c. split; [|done]. rewrite lookup_insert_ne; [done|]. intros <-. rewrite Hc in Hi. by injection Hi as <-.
    + intros (i & c & Hi & Ha). destruct (Hcase i c Hi) as [[-> ->]|[Hne Hi']]; [done|]. split; [eauto|]. intros Ha'. apply Hne. by eapply O5.
  - intros i j c d a Hi Hj Ha Hb. destruct (Hcase i c Hi) as [[-> ->]|[_ Hi']], (Hcase j d Hj) as [[-> ->]|[_ Hj']]; try done. by eapply O5.
  - pose proof (count_insert k_half (b_claims k) cid c1 c0 Hc) as H. cbn in H. destruct (k_half c0); lia.
  - pose proof (count_insert (fun c => negb (k_unassigned c)) (b_claims k) cid c1 c0 Hc) as H. cbn in H. destruct (negb (k_unassigned c0)); lia.
  - intros i c id Hi Hid. destruct (Hcase i c Hi) as [[-> ->]|[_ Hi']]; [done|eauto].
  - intros i j c d a Hi Hj Ha Hb. destruct (Hcase i c Hi) as [[-> ->]|[_ Hi']], (Hcase j d Hj) as [[-> ->]|[_ Hj']]; try done. by eapply O9.
  - intros i c t Hi Ht. destruct (Hcase i c Hi) as [[-> ->]|[_ Hi']]; [done|eauto].
  - intros id t. rewrite Hkeys, O11. split.
    + intros [(i & c & Hi & Ht & Hid) Hnt]. exists i, c. split; [|done]. rewrite lookup_insert_ne; [done|]. intros <-. rewrite Hc in Hi. by injection Hi as <-.
    + intros (i & c & Hi & Ht & Hid). destruct (Hcase i c Hi) as [[-> ->]|[Hne Hi']]; [done|]. split; [eauto|]. intros Ht'. apply Hne. by eapply Hta.
  - intros q b Hq [Hi Hnt]%Hroutes; [|done]. destruct (O12 q b Hq Hi) as (i & c & a & Hc' & Ht & ? & ?). exists i, c, a. split_and!; try done.
    rewrite lookup_insert_ne; [done|]. intros <-. rewrite Hc in Hc'. by injection Hc' as <-.
  - intros i c t a r Hi Ht Ha Hr. destruct (Hcase i c Hi) as [[-> ->]|[Hne Hi']]; [done|].
    destruct (O13 i c t a r Hi' Ht Ha Hr) as (b & Hb & Hbt). exists b. split; [|done]. apply Hroutes.
    + eapply Forall_forall in Hr; [|apply client_routes_ok; [done|done|by eapply Hcr]]. done.
    + split; [done|]. rewrite Hbt. intros Ht'. apply Hne. by eapply Hta.
Qed.

End Book.

(** ** The book of a server *)

Definition tview (w : ovpn_world) : gmap nat (Z * list Prefix) := (fun x => (st_peerID x, st_routes x)) <$> st_tunnels w.

Definition claim_of (tv : gmap nat (Z * list Prefix)) (cl : serverClient) : claim :=
  let key := addr_key (cl_addr cl) in
  match cl_stage cl with
  | Negotiating => mkClaim key true true None None None
  | Assigned ip id _ => mkClaim key true true (Some ip) (Some id) None
  | Up | Orphaned => mkClaim key true false (cl_assignedIP cl) (t ← cl_tunnel cl; fst <$> tv !! t) (cl_tunnel cl)
  | Ended => mkClaim key false false None None None
  end.

Definition book_of (s : OvpnServer) : book :=
  let tv := tview (world (os_pump s)) in
  mkBook (claim_of tv <$> os_heap s) (os_clients s) (os_pool s) (halfOpen (os_gate s)) (os_nextPeerID s)
    (bt <$> byKey (os_pump s)) (routes (os_pump s)) tv.

(** A client that is up has a tunnel and an address; only one that ended has been reaped. *)
Definition client_ok (cl : serverClient) : Prop :=
  (cl_stage cl = Ended \/ cl_reaped cl = false) /\
  (cl_stage cl = Up \/ cl_stage cl = Orphaned -> is_Some (cl_tunnel cl) /\ is_Some (cl_assignedIP cl)).

Record srv_inv (s : OvpnServer) : Prop := {
  si_book : book_ok (os_pool6 s) (book_of s);
  si_client : map_Forall (fun _ cl => client_ok cl) (os_heap s);
}.

(** *** Steps that leave the book alone *)

Lemma with_cipher_tview {A} t w (f : dataCipher -> result data_error A * dataCipher) : tview (with_cipher t w f).2 = tview w.
Proof.
  unfold with_cipher, tview. destruct (st_tunnels w !! t) as [x|] eqn:E; [|done]. destruct (f _) as [r [c|c]]; [|done]. cbn.
  rewrite fmap_insert. apply insert_id. by rewrite lookup_fmap, E.
Qed.

Lemma inv_same_book s s' :
  srv_inv s -> os_pool6 s' = os_pool6 s -> book_of s' = book_of s -> map_Forall (fun _ cl => client_ok cl) (os_heap s') -> srv_inv s'.
Proof. intros [H1 H2] E1 E2 H. split; [by rewrite E1, E2|done]. Qed.

(** A pump operation that keeps the tables and the tunnels' identities. *)
Lemma inv_pump s p :
  srv_inv s -> tview (world p) = tview (world (os_pump s)) -> byKey p = byKey (os_pump s) -> routes p = routes (os_pump s) -> srv_inv (os_set_pump p s).
Proof. intros Hi E1 E2 E3. eapply inv_same_book; [exact Hi|done| |apply Hi]. unfold book_of. cbn. by rewrite E1, E2, E3. Qed.

Lemma inv_pump_keeps {A} s (m : OvpnPump -> A * OvpnPump) :
  keeps (fun w => tview w = tview (world (os_pump s))) (byKey (os_pump s)) (routes (os_pump s)) m -> srv_inv s -> srv_inv (os_set_pump (m (os_pump s)).2 s).
Proof. intros H Hi. destruct (H (os_pump s)) as (E1 & E2 & E3); [done|]. by apply inv_pump. Qed.

(** A client that changes without changing what it holds. *)
Lemma inv_client s cid cl cl' :
  srv_inv s -> os_heap s !! cid = Some cl -> client_ok cl' -> (forall tv, claim_of tv cl' = claim_of tv cl) -> srv_inv (os_set_client cid cl' s).
Proof.
  intros Hi Hc Hok Heq. eapply inv_same_book; [exact Hi|done| |].
  - unfold book_of. cbn. f_equal. rewrite fmap_insert, Heq. apply insert_id. by rewrite lookup_fmap, Hc.
  - cbn. apply map_Forall_insert_2; [done|apply Hi].
Qed.

Lemma claim_at s cid cl : os_heap s !! cid = Some cl -> b_claims (book_of s) !! cid = Some (claim_of (tview (world (os_pump s))) cl).
Proof. intros H. cbn. by rewrite lookup_fmap, H. Qed.

(** *** The others *)

Lemma Done_half g : 0 < halfOpen g -> halfOpen (Done g) = halfOpen g - 1.
Proof. intros H. unfold Done. by rewrite (proj2 (Z.ltb_lt _ _)). Qed.

Lemma count_pos {A} (f : A -> bool) (m : gmap nat A) i x : m !! i = Some x -> f x = true -> (0 < count f m)%nat.
Proof.
  intros Hi Hf. unfold count. assert (filter (fun kv : nat * A => f kv.2 = true) m !! i = Some x) as H by (by apply map_lookup_filter_Some).
  destruct (size _) eqn:E; [|lia]. apply map_size_empty_inv in E. by rewrite E in H.
Qed.

Lemma half_pos s cid cl : srv_inv s -> os_heap s !! cid = Some cl -> k_half (claim_of (tview (world (os_pump s))) cl) = true -> 0 < halfOpen (os_gate s).
Proof.
  intros [B _] Hc Hh. pose proof (ok_half _ _ B) as H. cbn in H. rewrite H.
  pose proof (count_pos k_half _ cid _ (claim_at s cid cl Hc) Hh). cbn in *. lia.
Qed.

Lemma inv_handleControl op keyID pkt from sid now s : srv_inv s -> srv_inv (handleControl op keyID pkt from sid now s).
Proof.
  intros Hi. unfold handleControl. destruct (os_clients s !! addr_key from) as [cid|] eqn:Ek.
  { destruct (os_heap s !! cid) as [cl|] eqn:Ec; [|done]. eapply inv_client; [done|done|apply (si_client _ Hi _ _ Ec)|done]. }
  destruct (negb (op =? _)); [done|]. destruct (negb (authenticateOpener s pkt)); [done|].
  pose proof (Admit_cases (os_gate s) (Admission.UDPAddr (udpIP from)) now) as HA.
  destruct (Admit _ _ _) as [r g]. destruct HA as [_ HA].
  assert (halfOpen g = halfOpen (os_gate s) -> srv_inv (os_set_gate g s)) as Hsame.
  { intros E. eapply inv_same_book; [exact Hi|done| |apply Hi]. unfold book_of. cbn. by rewrite E. }
  destruct r; [destruct HA as [_ HA]|destruct HA as [_ HA]; by apply Hsame|by apply Hsame].
  pose proof (ok_half _ _ (si_book _ Hi)) as Hh. cbn in Hh.
  destruct sid as [sid|]; cbn [newClient mbind option_bind].
  - set (cid := fresh _). assert (os_heap s !! cid = None) as Hf by (apply not_elem_of_dom, is_fresh).
    pose proof (book_admit _ _ (si_book _ Hi) cid (addr_key from)) as B. cbn [book_of b_claims b_clients] in B.
    rewrite lookup_fmap, Hf in B. specialize (B eq_refl Ek). split.
    + unfold book_of in *. cbn in *. rewrite fmap_insert, HA. done.
    + cbn. apply map_Forall_insert_2; [|apply Hi]. split; [by right|]. by intros [?|?].
  - eapply inv_same_book; [exact Hi|done| |apply Hi]. unfold book_of. cbn. f_equal. rewrite Done_half; lia.
Qed.

Lemma inv_dispatch draw i dgrams s : srv_inv s -> srv_inv (ovpn_dispatch draw i dgrams s).2.
Proof.
  revert i s. induction dgrams as [|[pkt from] dgrams IH]; intros i s Hi; cbn [ovpn_dispatch]; [done|].
  destruct (Opcode pkt) as [[op keyID]|]; [|by apply IH]. destruct (IsDataOpcode op).
  - specialize (IH (S i) s Hi). by destruct (ovpn_dispatch draw (S i) dgrams s).
  - destruct (IsControl op); apply IH; [by apply inv_handleControl|done].
Qed.

Lemma inv_readBatch draw dgrams now s : srv_inv s -> srv_inv (ovpn_readBatch draw dgrams now s).
Proof.
  intros Hi. unfold ovpn_readBatch. pose proof (inv_dispatch draw 0 dgrams s Hi) as H. destruct (ovpn_dispatch draw 0 dgrams s) as [data s1].
  destruct (length data =? 0)%nat; [done|]. apply inv_pump_keeps; [|done].
  apply keeps_HandleInboundBatch; cbn; try done. intros t w pkt Hw. by rewrite with_cipher_tview.
Qed.

Lemma client_ok_ended ch addr keyID t ip up r : client_ok (mkClient ch addr keyID t ip up r Ended).
Proof. split; [by left|]. by intros [?|?]. Qed.

(** The handshake ends without a tunnel: what was assigned is given back. *)
Lemma inv_handshake_failed cid cl s ip :
  srv_inv s -> os_heap s !! cid = Some cl -> k_half (claim_of (tview (world (os_pump s))) cl) = true ->
  k_ip (claim_of (tview (world (os_pump s))) cl) = ip -> srv_inv (handshake_failed cid cl (os_set_pool (Release (os_pool s) ip) s)).
Proof.
  intros Hi Hc Hh Hip. pose proof (half_pos s cid cl Hi Hc Hh) as Hpos.
  assert (k_live (claim_of (tview (world (os_pump s))) cl) = true /\ k_tun (claim_of (tview (world (os_pump s))) cl) = None /\
    k_key (claim_of (tview (world (os_pump s))) cl) = addr_key (cl_addr cl)) as (Hl & Ht & Hk)
    by (unfold claim_of in *; by destruct (cl_stage cl)).
  pose proof (book_end _ _ (si_book _ Hi) cid _ (b_keys (book_of s)) (b_routes (book_of s)) (claim_at s cid cl Hc) Hl) as B.
  rewrite Hh, Hip, Hk, Ht in B. split.
  - unfold book_of, handshake_failed, dropClient in *. cbn in *. rewrite fmap_insert, Done_half by done. apply B; [by split; [|intros []]|].
    intros q b _. by split; [|intros []].
  - cbn. apply map_Forall_insert_2; [apply client_ok_ended|apply Hi].
Qed.

Lemma Allocate_frame p r p' : Allocate p = Some (r, p') -> network p' = network p /\ pbase p' = pbase p /\ plast p' = plast p.
Proof. unfold Allocate. intros H. apply bind_Some in H as ([a|] & _ & [= <- <-]); done. Qed.

Lemma count_le {A} (f : A -> bool) (m : gmap nat A) : (count f m <= size m)%nat.
Proof. unfold count. rewrite <- !size_dom. apply subseteq_size, dom_filter_subseteq. Qed.

Lemma os_set_pool_id s : os_set_pool (os_pool s) s = s.
Proof. by destruct s. Qed.

Lemma inv_assign t cid cl s s' :
  srv_inv s -> Z.of_nat (size (os_heap s)) < 2 ^ 32 -> os_heap s !! cid = Some cl -> cl_stage cl = Negotiating ->
  handshake_assign t cid cl s = Some s' -> srv_inv s'.
Proof.
  intros Hi Hsz Hc Hst E.
  assert (claim_of (tview (world (os_pump s))) cl = mkClaim (addr_key (cl_addr cl)) true true None None None) as Hcl by (unfold claim_of; by rewrite Hst).
  assert (srv_inv (handshake_failed cid cl s)) as Hfail.
  { rewrite <- (os_set_pool_id s) at 1. apply (inv_handshake_failed cid cl s None Hi Hc); by rewrite Hcl. }
  unfold handshake_assign in E. destruct (negotiate t) as [ks2|]; [|by simplify_eq].
  apply bind_Some in E as ([r pool] & Ea & E). pose proof (si_book _ Hi) as B.
  destruct (Allocate_spec _ (ok_pool _ _ B)) as (r' & p' & Ea' & Hp' & Hr). change (b_pool (book_of s)) with (os_pool s) in *. rewrite Ea in Ea'. injection Ea' as <- <-.
  destruct r as [ip|]; [|by simplify_eq]. destruct Hr as [(Hrange & Hni & _) Hu]. apply bind_Some in E as (dk & _ & [= <-]).
  destruct (Allocate_frame _ _ _ Ea) as (F1 & F2 & F3). pose proof (claim_at s cid cl Hc) as Hat. rewrite Hcl in Hat.
  pose proof (book_assign _ _ B cid _ ip pool Hat Hp' Hni Hu F1 F2 F3) as B'.
  assert (0 <= os_nextPeerID s /\ os_nextPeerID s + 1 <= Z.of_nat (size (os_heap s))) as [Hn0 Hn1].
  { pose proof (ok_next _ _ B) as H1. pose proof (ok_next _ _ B') as H2. cbn in H1, H2.
    assert (size (<[cid := mkClaim (addr_key (cl_addr cl)) true true (Some ip) (Some (os_nextPeerID s + 1)) None]>
      (claim_of (tview (world (os_pump s))) <$> os_heap s)) = size (os_heap s)) as Hs.
    { rewrite map_size_insert_Some by (eexists; exact Hat). apply map_size_fmap. }
    pose proof (count_le (fun c => negb (k_unassigned c)) (<[cid := mkClaim (addr_key (cl_addr cl)) true true (Some ip) (Some (os_nextPeerID s + 1)) None]>
      (claim_of (tview (world (os_pump s))) <$> os_heap s))) as Hle. lia. }
  rewrite (wrap_small 32) by (unfold uint; lia). split.
  - unfold book_of in *. cbn in *. rewrite fmap_insert. exact B'.
  - cbn. apply map_Forall_insert_2; [|apply Hi]. destruct (si_client _ Hi _ _ Hc) as [[?|?] _]; [congruence|]. split; [by right|]. by intros [?|?].
Qed.

(** The claims of the others do not see a new tunnel. *)
Lemma claims_new_tunnel s t v :
  srv_inv s -> tview (world (os_pump s)) !! t = None ->
  claim_of (<[t := v]> (tview (world (os_pump s)))) <$> os_heap s = claim_of (tview (world (os_pump s))) <$> os_heap s.
Proof.
  intros Hi Ht. apply map_fmap_ext. intros cid cl Hc. pose proof (claim_at s cid cl Hc) as Hat. unfold claim_of in *.
  destruct (cl_stage cl); try done; (destruct (cl_tunnel cl) as [t'|] eqn:Et; [|done]); cbn in *;
    destruct (ok_tun _ _ (si_book _ Hi) cid _ t' Hat eq_refl) as (id & ip & _ & _ & H); cbn in H;
    (rewrite lookup_insert_ne; [done|congruence]).
Qed.

Lemma inv_finish wrote now cid cl ip peerID cipher s :
  srv_inv s -> os_heap s !! cid = Some cl -> cl_stage cl = Assigned ip peerID cipher -> srv_inv (handshake_finish wrote now cid cl ip peerID cipher s).
Proof.
  intros Hi Hc Hst.
  assert (claim_of (tview (world (os_pump s))) cl = mkClaim (addr_key (cl_addr cl)) true true (Some ip) (Some peerID) None) as Hcl by (unfold claim_of; by rewrite Hst).
  unfold handshake_finish. destruct wrote; cbn [negb]; [|apply inv_handshake_failed; [done|done|by rewrite Hcl..]].
  pose proof (half_pos s cid cl Hi Hc) as Hpos. rewrite Hcl in Hpos. specialize (Hpos eq_refl).
  set (t := fresh _). set (rs := client_routes _ _ _). set (w := put_tunnel t _ _).
  assert (tview (world (os_pump s)) !! t = None) as Ht.
  { unfold tview. rewrite lookup_fmap, (proj1 (not_elem_of_dom (st_tunnels (world (os_pump s))) t)); [done|]. apply is_fresh. }
  assert (tview w = <[t := (peerID, rs)]> (tview (world (os_pump s)))) as Hw by (unfold w, tview, put_tunnel; cbn; by rewrite fmap_insert).
  pose proof (claim_at s cid cl Hc) as Hat. rewrite Hcl in Hat. pose proof (si_book _ Hi) as B.
  assert (st_tunnels w !! t = Some (mkServerTunnel cipher peerID rs (Some (cl_addr cl)))) as Hwt by apply lookup_insert_eq.
  destruct (AddTunnel_tables t (upd_world w (os_pump s))) as (c & Ek & Er). cbn [world upd_world InboundKey TRoutes ovpn_tunnels byKey routes] in Ek, Er.
  rewrite Hwt in Ek, Er. cbn [st_peerID st_routes] in Ek, Er.
  assert (world (AddTunnel t (upd_world w (os_pump s))).2 = w) as Ew.
  { unfold AddTunnel, counters. msimpl. by destruct (stats (os_pump s) !! t). }
  set (p := (AddTunnel t _).2) in *. set (b0 := bind t c w) in *.
  pose proof (book_up _ _ B cid _ ip peerID t b0 (routes p) Hat Ht eq_refl) as B'. split.
  - unfold book_of in *. cbn [os_set_gate os_set_client os_set_pump os_heap os_pump os_clients os_pool os_gate os_nextPeerID os_pool6 b_claims b_clients b_pool b_half b_next b_keys b_routes b_tunnels] in *.
    rewrite fmap_insert, Ew, Hw, Ek, claims_new_tunnel, Done_half, fmap_insert by done. unfold claim_of at 1. cbn [cl_stage cl_addr cl_assignedIP cl_tunnel mbind option_bind].
    rewrite lookup_insert_eq. apply B'. intros q Hq. rewrite Er. apply installed_fold_insert; [|done].
    apply client_routes_ok; [apply B|apply B|]. by eapply (claim_range _ _ B).
  - cbn. apply map_Forall_insert_2; [|apply Hi]. destruct (si_client _ Hi _ _ Hc) as [[?|?] _]; [congruence|]. split; [by right|]. intros _. split; by eexists.
Qed.

(** The tables without a tunnel. *)
Lemma RemoveTunnel_book s cid cl t :
  srv_inv s -> os_heap s !! cid = Some cl -> k_tun (claim_of (tview (world (os_pump s))) cl) = Some t ->
  let p := (RemoveTunnel t (os_pump s)).2 in
  world p = world (os_pump s) /\
  (forall id u, (bt <$> byKey p) !! id = Some u <-> (bt <$> byKey (os_pump s)) !! id = Some u /\ Some t <> Some u) /\
  (forall q b, prefix_ok q -> installed (routes p) q = Some (Some b) <-> installed (routes (os_pump s)) q = Some (Some b) /\ Some t <> Some (bt b)).
Proof.
  intros Hi Hc Ht. pose proof (si_book _ Hi) as B. pose proof (claim_at s cid cl Hc) as Hat.
  destruct (ok_tun _ _ B cid _ t Hat Ht) as (id0 & ip & _ & Hip & Htv). cbn in Htv.
  destruct (RemoveTunnel_tables t (os_pump s)) as [Ek Er]. cbn zeta. rewrite Ek, Er. split_and!.
  - unfold RemoveTunnel. msimpl. by destruct (stats (os_pump s) !! t).
  - intros id u. rewrite !lookup_fmap, !fmap_Some. split.
    + intros (b & [Hb Hne]%map_lookup_filter_Some & ->). split; [eauto|]. cbn in Hne. congruence.
    + intros [(b & Hb & ->) Hne]. exists b. split; [|done]. apply map_lookup_filter_Some. split; [done|]. cbn. congruence.
  - intros q b Hq. unfold tview in Htv. rewrite lookup_fmap in Htv. cbn [TRoutes ovpn_tunnels].
    destruct (st_tunnels (world (os_pump s)) !! t) as [x|]; [|done]. cbn in Htv. injection Htv as Hx1 Hx2. rewrite Hx2.
    rewrite installed_fold_removeOwned; [|apply client_routes_ok; [apply B|apply B|by eapply (claim_range _ _ B)]|done].
    case_decide as D; [|split; [|by intros []]].
    + destruct D as [_ D]. split; [done|]. intros [E Hne]. rewrite E in D. cbn in D. injection D as D. congruence.
    + intros E. split; [done|]. intros Hbt. injection Hbt as Hbt. apply D. rewrite E. cbn. rewrite <- Hbt. split; [|done].
      destruct (ok_routes_of _ _ B q b Hq E) as (j & c & ip' & Hj & Htj & Hipj & Hex). rewrite <- Hbt in Htj.
      assert (j = cid) as -> by (by eapply (tun_apart _ _ B)). rewrite Hat in Hj. injection Hj as <-. rewrite Hip in Hipj. by injection Hipj as <-.
Qed.

Lemma inv_reap cid cl t s :
  srv_inv s -> os_heap s !! cid = Some cl -> cl_stage cl = Up -> cl_tunnel cl = Some t -> srv_inv (reapClient cid cl t s).
Proof.
  intros Hi Hc Hst Ht. destruct (si_client _ Hi _ _ Hc) as [[?|Hr] _]; [congruence|]. unfold reapClient. rewrite Hr.
  set (c0 := claim_of (tview (world (os_pump s))) cl).
  assert (k_live c0 = true /\ k_half c0 = false /\ k_tun c0 = Some t /\ k_ip c0 = cl_assignedIP cl /\ k_key c0 = addr_key (cl_addr cl)) as (Hl & Hh & Hk & Hip & Hkey)
    by (subst c0; unfold claim_of; by rewrite Hst, Ht).
  destruct (RemoveTunnel_book s cid cl t Hi Hc Hk) as (Ew & Ek & Er).
  pose proof (claim_at s cid cl Hc) as Hat. pose proof (si_book _ Hi) as B. fold c0 in Hat.
  assert (os_clients s !! addr_key (cl_addr cl) = Some cid) as Hcl by (rewrite <- Hkey; apply (ok_clients _ _ B); eauto).
  cbn [os_clients os_set_pool os_set_pump os_set_client]. rewrite bool_decide_true by exact Hcl. set (p := (RemoveTunnel t _).2) in *.
  change (os_pump (os_set_client _ _ s)) with (os_pump s) in p.
  pose proof (book_end _ _ B cid c0 (bt <$> byKey p) (routes p) Hat Hl) as B'. rewrite Hk, Hh, Hip, Hkey in B'. specialize (B' Ek Er). split.
  - unfold book_of in *. cbn in *. rewrite fmap_insert, Ew. by rewrite Z.sub_0_r in B'.
  - cbn. apply map_Forall_insert_2; [apply client_ok_ended|apply Hi].
Qed.

Lemma claim_orphaned tv cl : cl_stage cl = Up -> claim_of tv (cl_set_stage Orphaned cl) = claim_of tv cl.
Proof. intros H. unfold claim_of. cbn. by rewrite H. Qed.

Lemma client_ok_orphaned cl : cl_stage cl = Up -> client_ok cl -> client_ok (cl_set_stage Orphaned cl).
Proof. intros E [[?|H1] H2]; [congruence|]. split; [by right|]. intros _. apply H2. by left. Qed.

Lemma inv_step s s' : srv_inv s -> Z.of_nat (size (os_heap s)) < 2 ^ 32 -> srv_step s s' -> srv_inv s'.
Proof.
  intros Hi Hsz Hs. destruct Hs as [draw dgrams now|pkt now|batch buf now|cid cl c Hc Hcl|t cid cl s' Hc Hst E|wrote now cid cl ip peerID cipher Hc Hst
    |cid cl t now Hc Hst Ht|cid cl t Hc Hst Ht Hcl|cid cl Hc Hst Hcl|].
  - by apply inv_readBatch.
  - apply inv_pump_keeps; [|done]. apply keeps_routeOutbound; cbn; try done; intros; by rewrite with_cipher_tview.
  - apply inv_pump_keeps; [|done]. apply keeps_vnetRead; cbn; try done; intros; by rewrite with_cipher_tview.
  - eapply inv_client; [done|done|apply (si_client _ Hi _ _ Hc)|done].
  - by eapply inv_assign.
  - by apply inv_finish.
  - unfold serve_tick. destruct (silentFor s cl t now) as [d gone]. destruct gone; [by apply inv_reap|].
    pose proof (with_cipher_tview t (world (os_pump s)) (SealPadded [] Ping 0)) as Hw. destruct (with_cipher _ _ _) as [r w]. cbn in Hw.
    assert (srv_inv (os_set_pump (upd_world w (os_pump s)) s)) as Hi' by (by apply inv_pump). destruct r; [done|].
    eapply inv_client; [done|exact Hc|apply client_ok_orphaned; [done|apply (si_client _ Hi _ _ Hc)]|intros; by apply claim_orphaned].
  - by apply inv_reap.
  - eapply inv_client; [done|exact Hc|apply client_ok_orphaned; [done|apply (si_client _ Hi _ _ Hc)]|intros; by apply claim_orphaned].
  - eapply inv_same_book; [exact Hi|done|done|apply Hi].
Qed.

Lemma handleControl_dom op keyID pkt from sid now s : dom (os_heap s) ⊆ dom (os_heap (handleControl op keyID pkt from sid now s)).
Proof.
  unfold handleControl. destruct (os_clients s !! _); [destruct (os_heap s !! _); [cbn; set_solver|done]|].
  destruct (negb (op =? _)); [done|]. destruct (negb (authenticateOpener s pkt)); [done|]. destruct (Admit _ _ _) as [[] g]; try done.
  destruct sid; cbn; set_solver.
Qed.

Lemma dispatch_dom draw i dgrams s : dom (os_heap s) ⊆ dom (os_heap (ovpn_dispatch draw i dgrams s).2).
Proof.
  revert i s. induction dgrams as [|[pkt from] dgrams IH]; intros i s; cbn [ovpn_dispatch]; [done|].
  destruct (Opcode pkt) as [[op keyID]|]; [|done]. destruct (IsDataOpcode op).
  - specialize (IH (S i) s). by destruct (ovpn_dispatch draw (S i) dgrams s).
  - destruct (IsControl op); [|done]. etrans; [apply handleControl_dom|apply IH].
Qed.

(** No client is ever forgotten. *)
Lemma step_dom s s' : srv_step s s' -> dom (os_heap s) ⊆ dom (os_heap s').
Proof.
  intros Hs. destruct Hs; try (cbn; set_solver).
  - unfold ovpn_readBatch. pose proof (dispatch_dom draw 0 dgrams s) as H. destruct (ovpn_dispatch draw 0 dgrams s) as [data s1]. by destruct (length data =? 0)%nat.
  - unfold handshake_assign in *. destruct (negotiate t); [|simplify_eq; cbn; set_solver].
    apply bind_Some in H1 as ([[ip|] pool] & _ & E); [|simplify_eq; cbn; set_solver]. apply bind_Some in E as (dk & _ & [= <-]). cbn. set_solver.
  - unfold handshake_finish. destruct wrote; cbn; set_solver.
  - unfold serve_tick, reapClient. destruct (silentFor s cl t now) as [d []]; [destruct (cl_reaped cl); [done|]; case_bool_decide; cbn; set_solver|].
    destruct (with_cipher _ _ _) as [[] w]; cbn; set_solver.
  - unfold reapClient. destruct (cl_reaped cl); [done|]. case_bool_decide; cbn; set_solver.
Qed.

Lemma inv_reachable s0 s : srv_inv s0 -> rtc srv_step s0 s -> Z.of_nat (size (os_heap s)) < 2 ^ 32 -> srv_inv s.
Proof.
  intros H0 Hr. revert s Hr. refine (rtc_ind_r _ _ _ _); [done|]. intros s s' _ Hs IH Hsz.
  assert (size (os_heap s) <= size (os_heap s'))%nat by (rewrite <- !size_dom; by apply subseteq_size, step_dom).
  eapply inv_step; [apply IH; lia|lia|done].
Qed.

(** ** The start *)

Lemma Masked_idem p : prefix_ok p -> Masked (Masked p) = Masked p.
Proof.
  intros [_ Hb]. unfold Masked. cbn [pAddr pBits]. f_equal. unfold mask_addr.
  destruct (pAddr p) as [x|x]; cbn [BitLen addr_val with_val]; f_equal; rewrite !Z.shiftl_mul_pow2, !Z.shiftr_div_pow2 by lia; rewrite Z.div_mul by lia; done.
Qed.

Lemma inv_start wrapper x n pool6 isGSO mtu now device s :
  prefix_ok (mkPrefix (IPv4 x) n) -> Masked (mkPrefix (IPv4 x) n) = mkPrefix (IPv4 x) n -> (forall p6, pool6 = Some p6 -> prefix_ok p6) ->
  NewOvpnServer wrapper (mkPrefix (IPv4 x) n) pool6 isGSO mtu now device = Ok s -> srv_inv s /\ os_heap s = ∅.
Proof.
  intros Hp Hm H6 E. unfold NewOvpnServer in E.
  destruct (NewAddrPool (mkPrefix (IPv4 x) n)) as [[pool gw]|] eqn:Ep; [|done].
  assert (1 <= n <= 30)%nat as Hn.
  { destruct Hp as [_ Hp]. cbn in Hp. unfold NewAddrPool in Ep. cbn [pAddr pBits] in Ep. destruct (decide (n = 0%nat)) as [->|]; [done|].
    destruct (decide (n = 31%nat)) as [->|]; [done|]. destruct (decide (n = 32%nat)) as [->|]; [done|]. lia. }
  destruct (NewAddrPool_spec x n Hp Hm Hn) as (p & Ep' & Hinv & Hused & Hgw & Hbase & Hlast). rewrite Ep in Ep'. apply Ok_inj in Ep' as [= -> ->].
  assert (network p = mkPrefix (IPv4 x) n) as Hnet.
  { unfold NewAddrPool in Ep. cbn [pAddr pBits] in Ep. destruct (_ <? 4); [done|]. apply Ok_inj in Ep. injection Ep as <-. done. }
  destruct (match pool6 with None => Ok None | Some p6 => _ end) as [p6|] eqn:E6; [|done]. cbn in E. apply Ok_inj in E as <-. split; [|done].
  split; [|apply map_Forall_empty]. unfold book_of, tview. cbn -[Z.pow]. rewrite !fmap_empty. split; cbn -[Z.pow]; try done; try set_solver.
  - intros q Hq. subst p6. destruct pool6 as [p6|]; [|done]. destruct (H6 p6 eq_refl) as [Ha Hb].
    destruct (Unmap (pAddr p6)) as [|y0] eqn:Eu; [done|]. destruct (pAddr p6) as [|y] eqn:Ey; [done|].
    destruct (prefix6Fits (Masked p6) (network p)) eqn:Ef; [|done]. cbn [negb] in E6. destruct (derive6 _ _ _); [|done]. apply Ok_inj in E6. injection E6 as <-.
    assert (Masked p6 = mkPrefix (IPv6 (Z.shiftl (Z.shiftr y (Z.of_nat (128 - pBits p6))) (Z.of_nat (128 - pBits p6)))) (pBits p6)) as Hmp
      by (unfold Masked, mask_addr; by rewrite Ey).
    exists x, (Z.shiftl (Z.shiftr y (Z.of_nat (128 - pBits p6))) (Z.of_nat (128 - pBits p6))), n, (pBits p6).
    split; [|split; [lia|intros v; rewrite Hbase, Hlast; lia]]. split; try done.
    + apply Hp.
    + unfold addr_ok, uint in *. cbn in Ha. rewrite Z.shiftl_mul_pow2, Z.shiftr_div_pow2 by lia.
      set (k := Z.of_nat _). assert (0 < 2 ^ k) by (apply Z.pow_pos_nonneg; lia). pose proof (Z.mul_div_le y (2 ^ k)). pose proof (Z.div_pos y (2 ^ k)). nia.
    + apply Masked_idem. by apply H6.
  - intros q b _. by rewrite installed_empty.
Qed.

(** ** What the book says of the server *)

(** A host route decides the lookup of its address. *)
Lemma lookup_host (rt : routeTable (option (@bound nat))) a v :
  addr_ok a -> installed rt (mkPrefix a (BitLen a)) = Some v -> lookup None rt a = v.
Proof.
  intros Ha Hi. assert (prefix_ok (mkPrefix a (BitLen a))) as Hok by (by split). assert (Contains (mkPrefix a (BitLen a)) a) as Hcon by (by split).
  destruct (lookup_lpm None rt a Ha) as [[_ Hno]|(p & Hp & Hc & Hl & Hno)]; [by rewrite Hno in Hi|].
  destruct (decide (pBits p < BitLen a)%nat) as [Hlt|Hge]; [by rewrite (Hno (mkPrefix a (BitLen a))) in Hi|].
  assert (pBits p = BitLen a) as Hb.
  { destruct Hp as [_ Hp], Hc as [Hf _]. assert (BitLen (pAddr p) = BitLen a) by (destruct (pAddr p), a; done). lia. }
  rewrite (installed_Masked rt p (mkPrefix a (BitLen a))) in Hl by (rewrite (Contains_masked p a) by done; by rewrite Hb).
  congruence.
Qed.

Lemma Contains_host p a b : prefix_ok p -> addr_ok a -> Contains p a -> Masked p = mkPrefix b (BitLen b) -> a = b.
Proof.
  intros Hp Ha Hc Hm. rewrite (Contains_masked p a Hp Ha Hc) in Hm. injection Hm as Hm Hb. rewrite Hb in Hm.
  assert (Is4 b = Is4 a) as Hf by (rewrite <- Hm; by destruct a). assert (BitLen b = BitLen a) as Hl by (destruct a, b; done).
  rewrite Hl in Hm. pose proof (Masked_host a) as H. unfold Masked in H. cbn in H. injection H as H. congruence.
Qed.

Definition in_handshake (cl : serverClient) : bool := match cl_stage cl with Negotiating | Assigned _ _ _ => true | _ => false end.

(** The client is established, though perhaps nobody serves it. *)
Definition established (cl : serverClient) : Prop := cl_stage cl = Up \/ cl_stage cl = Orphaned.

Definition holds_address (cl : serverClient) (ip : Z) : Prop :=
  match cl_stage cl with Assigned ip' _ _ => ip' = ip | Up | Orphaned => cl_assignedIP cl = Some ip | _ => False end.

(** The addresses that belong to a client with address [ip]. *)
Definition addresses (s : OvpnServer) (ip : Z) : list Addr := IPv4 ip :: option_list (client6 (os_pool6 s) (network (os_pool s)) (IPv4 ip)).

Record in_order (s : OvpnServer) : Prop := {
  (* the client table holds exactly the clients that have not ended, one per transport address *)
  io_clients : forall key cid, os_clients s !! key = Some cid <->
    exists cl, os_heap s !! cid = Some cl /\ addr_key (cl_addr cl) = key /\ cl_stage cl <> Ended;
  (* the pool's addresses in use are those of the clients, no two of which share one *)
  io_used : forall ip, ip ∈ used (os_pool s) <-> exists cid cl, os_heap s !! cid = Some cl /\ holds_address cl ip;
  io_apart : forall i j c d ip, os_heap s !! i = Some c -> os_heap s !! j = Some d -> holds_address c ip -> holds_address d ip -> i = j;
  (* the gate's reservations are the handshakes in progress *)
  io_half : HalfOpen (os_gate s) = Z.of_nat (count in_handshake (os_heap s));
  (* an established client is reached under its peer-id and under its addresses *)
  io_established : forall cid cl, os_heap s !! cid = Some cl -> established cl ->
    exists t x ip, cl_tunnel cl = Some t /\ st_tunnels (world (os_pump s)) !! t = Some x /\ cl_assignedIP cl = Some ip /\
      (bt <$> byKey (os_pump s) !! st_peerID x) = Some t /\ forall a, a ∈ addresses s ip -> bt <$> lookup None (routes (os_pump s)) a = Some t;
  (* and nothing else is reached *)
  io_keys : forall id b, byKey (os_pump s) !! id = Some b -> exists cid cl, os_heap s !! cid = Some cl /\ established cl /\ cl_tunnel cl = Some (bt b);
  io_routes : forall a b, addr_ok a -> lookup None (routes (os_pump s)) a = Some b ->
    exists cid cl ip, os_heap s !! cid = Some cl /\ established cl /\ cl_tunnel cl = Some (bt b) /\ cl_assignedIP cl = Some ip /\ a ∈ addresses s ip;
}.

(** What an ended client held is free again: when all have ended, everything is. *)
Lemma in_order_empty s :
  in_order s -> map_Forall (fun _ cl => cl_stage cl = Ended) (os_heap s) ->
  os_clients s = ∅ /\ used (os_pool s) = ∅ /\ HalfOpen (os_gate s) = 0 /\ byKey (os_pump s) = ∅ /\
  forall a, addr_ok a -> lookup None (routes (os_pump s)) a = None.
Proof.
  intros [I1 I2 I3 I4 I5 I6 I7] He. assert (forall cid cl, os_heap s !! cid = Some cl -> ~ established cl) as Hne
    by (intros cid cl Hc%He [?|?]; cbn in Hc; congruence). split_and!.
  - apply map_empty. intros key. destruct (os_clients s !! key) as [cid|] eqn:E; [|done]. apply I1 in E as (cl & Hc & _ & Hn). by apply He in Hc.
  - apply leibniz_equiv, elem_of_equiv_empty. intros ip (cid & cl & Hc & Hh)%I2. apply He in Hc. cbn in Hc. unfold holds_address in Hh. by rewrite Hc in Hh.
  - rewrite I4. unfold count. replace (filter _ _) with (∅ : gmap nat serverClient); [done|]. symmetry. apply map_empty. intros cid.
    apply map_lookup_filter_None. right. intros cl Hc Hh. apply He in Hc. cbn in *. unfold in_handshake in Hh. by rewrite Hc in Hh.
  - apply map_empty. intros id. destruct (byKey (os_pump s) !! id) as [b|] eqn:E; [|done]. destruct (I6 id b E) as (cid & cl & Hc & Hu & _). by destruct (Hne cid cl Hc).
  - intros a Ha. destruct (lookup None (routes (os_pump s)) a) as [b|] eqn:E; [|done]. destruct (I7 a b Ha E) as (cid & cl & ip & Hc & Hu & _). by destruct (Hne cid cl Hc).
Qed.

Lemma claim_holds tv cl ip : k_ip (claim_of tv cl) = Some ip <-> holds_address cl ip.
Proof. unfold claim_of, holds_address. destruct (cl_stage cl); cbn; split; try done; congruence. Qed.

Lemma claim_tunnel tv cl t : k_tun (claim_of tv cl) = Some t <-> established cl /\ cl_tunnel cl = Some t.
Proof. unfold claim_of, established. destruct (cl_stage cl); cbn; naive_solver. Qed.

Lemma client_routes_addresses s p ip :
  p = os_pool s -> pool_inv p -> net_ok (os_pool6 s) p -> pbase p <= ip <= plast p ->
  client_routes (os_pool6 s) (network p) ip = (fun a => mkPrefix a (BitLen a)) <$> addresses s ip.
Proof.
  intros -> Hp Hn Hip. unfold client_routes, addresses. cbn. f_equal. pose proof (client_routes_host (os_pool6 s) (os_pool s) ip) as H.
  destruct (client6 _ _ _) as [a|] eqn:E; [|done]. cbn.
  destruct (H (mkPrefix a 128) Hp Hn Hip) as (a' & E' & _); [unfold client_routes; rewrite E; set_solver|].
  injection E' as -> Ea. by rewrite <- Ea.
Qed.

Lemma count_fmap {A B} (f : A -> B) (g : B -> bool) (m : gmap nat A) : count g (f <$> m) = count (g ∘ f) m.
Proof. unfold count. by rewrite map_filter_fmap, map_size_fmap. Qed.

Section InOrder.
Context (s : OvpnServer) (Hi : srv_inv s).

Abbreviation tv := (tview (world (os_pump s))).

Lemma claim_client i c : b_claims (book_of s) !! i = Some c -> exists cl, os_heap s !! i = Some cl /\ c = claim_of tv cl.
Proof. cbn. rewrite lookup_fmap. intros (cl & ? & ->)%fmap_Some. eauto. Qed.

Lemma holds_range i cl ip : os_heap s !! i = Some cl -> holds_address cl ip -> pbase (os_pool s) <= ip <= plast (os_pool s).
Proof. intros Hc Hh. eapply (claim_range _ _ (si_book _ Hi) i); [by apply claim_at|by apply claim_holds]. Qed.

Lemma holds_routes i cl ip : os_heap s !! i = Some cl -> holds_address cl ip ->
  client_routes (os_pool6 s) (network (os_pool s)) ip = (fun a => mkPrefix a (BitLen a)) <$> addresses s ip.
Proof. intros Hc Hh. apply client_routes_addresses; [done|apply (si_book _ Hi)|apply (si_book _ Hi)|by eapply holds_range]. Qed.

Lemma established_reached cid cl : os_heap s !! cid = Some cl -> established cl ->
  exists t x ip, cl_tunnel cl = Some t /\ st_tunnels (world (os_pump s)) !! t = Some x /\ cl_assignedIP cl = Some ip /\
    (bt <$> byKey (os_pump s) !! st_peerID x) = Some t /\ forall a, a ∈ addresses s ip -> bt <$> lookup None (routes (os_pump s)) a = Some t.
Proof.
  intros Hc Hu. pose proof (si_book _ Hi) as B. destruct (si_client _ Hi _ _ Hc) as [_ Hok]. destruct (Hok Hu) as [[t Ht] [ip Hip]].
  assert (k_tun (claim_of tv cl) = Some t) as Hk by (by apply claim_tunnel).
  assert (holds_address cl ip) as Hh by (unfold holds_address; destruct Hu as [-> | ->]; done).
  destruct (ok_tun _ _ B cid _ t (claim_at _ _ _ Hc) Hk) as (id & ip' & Hid & Hip' & Htv). apply claim_holds in Hip'.
  assert (ip' = ip) as -> by (unfold holds_address in *; destruct Hu as [E|E]; rewrite E in *; congruence).
  cbn [b_tunnels book_of] in Htv. unfold tview in Htv. rewrite lookup_fmap in Htv. apply fmap_Some in Htv as (x & Hx & [= -> Hr]).
  exists t, x, ip. split_and!; try done.
  - pose proof (ok_keys _ _ B (st_peerID x) t) as H. cbn [b_keys book_of] in H. rewrite lookup_fmap in H. apply H.
    exists cid, (claim_of tv cl). by split_and!; [apply claim_at|..].
  - intros a Ha. destruct (ok_routes _ _ B cid _ t ip (mkPrefix a (BitLen a)) (claim_at _ _ _ Hc) Hk) as (b & Hb & <-); [by apply claim_holds|..].
    { cbn [b_pool book_of]. rewrite (holds_routes cid cl ip Hc Hh). apply list_elem_of_fmap. eauto. }
    rewrite (lookup_host _ a (Some b)); [done| |exact Hb].
    destruct (client_routes_host (os_pool6 s) (os_pool s) ip (mkPrefix a (BitLen a))) as (a' & E & Ha' & _);
      [apply B|apply B|by eapply holds_range|rewrite (holds_routes cid cl ip Hc Hh); apply list_elem_of_fmap; eauto|]. injection E as -> _. done.
Qed.

Lemma routes_established a b : addr_ok a -> lookup None (routes (os_pump s)) a = Some b ->
  exists cid cl ip, os_heap s !! cid = Some cl /\ established cl /\ cl_tunnel cl = Some (bt b) /\ cl_assignedIP cl = Some ip /\ a ∈ addresses s ip.
Proof.
  intros Ha Hl. destruct (lookup_lpm None (routes (os_pump s)) a Ha) as [[E _]|(p & Hp & Hcon & Hin & _)]; [congruence|]. rewrite Hl in Hin.
  destruct (ok_routes_of _ _ (si_book _ Hi) p b Hp Hin) as (i & c & ip & Hc & Ht & Hip & (r & Hr & Hm)%Exists_exists).
  destruct (claim_client i c Hc) as (cl & Hc' & ->). apply claim_tunnel in Ht as [Hu Ht]. apply claim_holds in Hip.
  assert (cl_assignedIP cl = Some ip) as Ha' by (unfold holds_address in Hip; destruct Hu as [E|E]; by rewrite E in Hip).
  exists i, cl, ip. split_and!; try done. cbn [b_pool book_of] in Hr. rewrite (holds_routes i cl ip Hc' Hip) in Hr. apply list_elem_of_fmap in Hr as (a' & -> & Hr).
  rewrite Masked_host in Hm. by rewrite (Contains_host p a a' Hp Ha Hcon (eq_sym Hm)).
Qed.

Lemma inv_in_order : in_order s.
Proof.
  pose proof (si_book _ Hi) as B. split; [..|exact established_reached| |exact routes_established].
  - intros key cid. pose proof (ok_clients _ _ B key cid) as H. cbn [b_clients book_of] in H. rewrite H. split.
    + intros (c & Hc & <- & Hl). destruct (claim_client cid c Hc) as (cl & Hc' & ->). exists cl. unfold claim_of in *. by destruct (cl_stage cl).
    + intros (cl & Hc & <- & Hn). exists (claim_of tv cl). split; [by apply claim_at|]. unfold claim_of. by destruct (cl_stage cl).
  - intros ip. pose proof (ok_used _ _ B ip) as H. cbn [b_pool book_of] in H. rewrite H. split.
    + intros (cid & c & Hc & Hip). destruct (claim_client cid c Hc) as (cl & Hc' & ->). exists cid, cl. split; [done|]. by apply (claim_holds tv).
    + intros (cid & cl & Hc & Hh). exists cid, (claim_of tv cl). split; [by apply claim_at|]. by apply claim_holds.
  - intros i j c d ip Hc Hd H1 H2. apply (ok_ip_apart _ _ B i j _ _ ip (claim_at _ _ _ Hc) (claim_at _ _ _ Hd)); by apply claim_holds.
  - pose proof (ok_half _ _ B) as H. cbn [b_half b_claims book_of] in H. unfold HalfOpen. rewrite H, count_fmap. f_equal. unfold count. f_equal.
    apply map_filter_ext. intros i cl _. cbn. unfold claim_of, in_handshake. by destruct (cl_stage cl).
  - intros id b Hb. pose proof (ok_keys _ _ B id (bt b)) as H. cbn [b_keys book_of] in H. rewrite lookup_fmap, Hb in H.
    destruct (proj1 H eq_refl) as (i & c & Hc & Ht & _). destruct (claim_client i c Hc) as (cl & Hc' & ->). apply claim_tunnel in Ht as [? ?]. eauto.
Qed.
End InOrder.

(** ** Orphans *)

(** What stays of an orphaned client, whatever happens to its channel. *)
Definition orphan (cid : nat) (cl : serverClient) (s : OvpnServer) : Prop :=
  exists cl', os_heap s !! cid = Some cl' /\ cl_stage cl' = Orphaned /\ cl_addr cl' = cl_addr cl /\ cl_assignedIP cl' = cl_assignedIP cl.

Lemma orphan_heap cid cl s s' : os_heap s' = os_heap s -> orphan cid cl s -> orphan cid cl s'.
Proof. unfold orphan. by intros ->. Qed.

Lemma orphan_other cid cl s i x : i <> cid -> orphan cid cl s -> orphan cid cl (os_set_client i x s).
Proof. intros Hne (cl' & Hc & H). exists cl'. cbn. by rewrite lookup_insert_ne. Qed.

Lemma orphan_channel cid cl s i x c : os_heap s !! i = Some x -> orphan cid cl s -> orphan cid cl (os_set_client i (cl_set_ch c x) s).
Proof.
  intros Hi (cl' & Hc & H). destruct (decide (i = cid)) as [->|Hne]; [|exists cl'; cbn; by rewrite lookup_insert_ne].
  rewrite Hi in Hc. injection Hc as ->. exists (cl_set_ch c cl'). cbn. by rewrite lookup_insert_eq.
Qed.

Lemma orphan_handleControl cid cl op keyID pkt from sid now s : orphan cid cl s -> orphan cid cl (handleControl op keyID pkt from sid now s).
Proof.
  intros Ho. unfold handleControl. destruct (os_clients s !! _) as [i|]; [destruct (os_heap s !! i) eqn:E; [by apply orphan_channel|done]|].
  destruct (negb (op =? _)); [done|]. destruct (negb (authenticateOpener s pkt)); [done|]. destruct (Admit _ _ _) as [[] g]; [|done..].
  destruct sid; cbn [newClient mbind option_bind]; [|done]. apply orphan_other; [|by eapply orphan_heap; [|exact Ho]].
  destruct Ho as (cl' & Hc & _). intros E. assert (os_heap s !! fresh (dom (os_heap s)) = None) as Hf by (apply not_elem_of_dom, is_fresh).
  cbn [os_heap os_set_gate] in E. rewrite E in Hf. congruence.
Qed.

Lemma orphan_dispatch cid cl draw i dgrams s : orphan cid cl s -> orphan cid cl (ovpn_dispatch draw i dgrams s).2.
Proof.
  revert i s. induction dgrams as [|[pkt from] dgrams IH]; intros i s Ho; cbn [ovpn_dispatch]; [done|].
  destruct (Opcode pkt) as [[op keyID]|]; [|by apply IH]. destruct (IsDataOpcode op).
  - specialize (IH (S i) s Ho). by destruct (ovpn_dispatch draw (S i) dgrams s).
  - destruct (IsControl op); apply IH; [by apply orphan_handleControl|done].
Qed.

Lemma orphan_reap cid cl i x t s : i <> cid -> orphan cid cl s -> orphan cid cl (reapClient i x t s).
Proof.
  intros Hne Ho. unfold reapClient. destruct (cl_reaped x); [done|]. case_bool_decide; by (eapply orphan_heap; [|by apply (orphan_other cid cl s i)]).
Qed.

Lemma orphan_failed cid cl i x s : i <> cid -> orphan cid cl s -> orphan cid cl (handshake_failed i x s).
Proof. intros Hne (cl' & Hc & H). exists cl'. cbn. by rewrite lookup_insert_ne. Qed.

(** No step of the server touches an orphan again. *)
Lemma orphan_step cid cl s s' : srv_step s s' -> orphan cid cl s -> orphan cid cl s'.
Proof.
  intros Hs Ho. pose proof Ho as (cl' & Hc & Hst & _).
  assert (forall i x, os_heap s !! i = Some x -> cl_stage x <> Orphaned -> i <> cid) as Hne by (intros i x Hi Hx ->; congruence).
  destruct Hs as [draw dgrams now|pkt now|batch buf now|i x c Hi Hcl|t i x s' Hi Hsx E|wrote now i x ip peerID cipher Hi Hsx
    |i x t now Hi Hsx Ht|i x t Hi Hsx Ht Hcl|i x Hi Hsx Hcl|]; try done.
  - unfold ovpn_readBatch. pose proof (orphan_dispatch cid cl draw 0 dgrams s Ho) as H. destruct (ovpn_dispatch draw 0 dgrams s) as [data s1]. by destruct (length data =? 0)%nat.
  - by apply orphan_channel.
  - assert (i <> cid) as Hn by (eapply Hne; [done|congruence]). unfold handshake_assign in E.
    destruct (negotiate t); [|simplify_eq; by apply orphan_failed]. apply bind_Some in E as ([[ip|] pool] & _ & E); [|simplify_eq; by apply orphan_failed].
    apply bind_Some in E as (dk & _ & [= <-]). by apply orphan_other.
  - assert (i <> cid) as Hn by (eapply Hne; [done|congruence]). unfold handshake_finish.
    destruct wrote; cbn [negb]; [|by apply orphan_failed]. destruct Ho as (cl1 & Hc1 & H1). exists cl1. cbn. by rewrite lookup_insert_ne.
  - assert (i <> cid) as Hn by (eapply Hne; [done|congruence]). unfold serve_tick. destruct (silentFor s x t now) as [d []]; [by apply orphan_reap|].
    destruct (with_cipher _ _ _) as [[] w]; [done|]. by apply orphan_other.
  - apply orphan_reap; [|done]. eapply Hne; [done|congruence].
  - apply orphan_other; [|done]. eapply Hne; [done|congruence].
Qed.

(** ** Properties *)

(** A state of a server whose configuration [net.ParseCIDR] and [netip.ParsePrefix] accepted, with fewer than 2^32
    clients so far. *)
Definition ovpn_reachable (s : OvpnServer) : Prop :=
  exists wrapper x n pool6 isGSO mtu now device s0,
    prefix_ok (mkPrefix (IPv4 x) n) /\ Masked (mkPrefix (IPv4 x) n) = mkPrefix (IPv4 x) n /\ (forall p6, pool6 = Some p6 -> prefix_ok p6) /\
    NewOvpnServer wrapper (mkPrefix (IPv4 x) n) pool6 isGSO mtu now device = Ok s0 /\ rtc srv_step s0 s /\ Z.of_nat (size (os_heap s)) < 2 ^ 32.

Lemma reachable_inv s : ovpn_reachable s -> srv_inv s.
Proof.
  intros (wrapper & x & n & pool6 & isGSO & mtu & now & device & s0 & H1 & H2 & H3 & E & Hr & Hsz).
  eapply inv_reachable; [|done|done]. by eapply inv_start.
Qed.

(** C8: the server's resources are in order.  In every state an OpenVPN server reaches, through any interleaving of its read
    loop, handshakes, serving goroutines, data path and shutdown, with any datagrams and any outcomes of TLS: the client
    table holds exactly the clients that have not ended, one per transport address; the addresses the pool counts as used
    are exactly those the clients hold, and no two clients hold the same; the gate's reservations are the handshakes in
    progress; every established client is reached in the pump under its peer-id and under its IPv4 and derived IPv6
    addresses; and no inbound key and no destination leads anywhere else.  When every client has ended, everything has
    been given back. *)
Theorem server_resources (s : OvpnServer) :
  ovpn_reachable s ->
  in_order s /\
  (map_Forall (fun _ cl => cl_stage cl = Ended) (os_heap s) ->
   os_clients s = ∅ /\ used (os_pool s) = ∅ /\ HalfOpen (os_gate s) = 0 /\ byKey (os_pump s) = ∅ /\
   forall a, addr_ok a -> lookup None (routes (os_pump s)) a = None).
Proof. intros Hr%reachable_inv%inv_in_order. split; [done|]. by apply in_order_empty. Qed.

(** C33: a client whose send counter is exhausted is never reaped.  When the keepalive of an established client can no
    longer be sealed, because the cipher has used all its 32-bit packet IDs, [serveClient] returns without reaping: in every
    later state of the server the client still holds its address and its place in the client table, so the address is never
    handed out again and a new session from the same transport address is never accepted. *)
Theorem exhausted_client_leaks (s s' : OvpnServer) (cid t : nat) (cl : serverClient) (x : serverTunnel) (now : Z) :
  ovpn_reachable s -> os_heap s !! cid = Some cl -> cl_stage cl = Up -> cl_tunnel cl = Some t ->
  st_tunnels (world (os_pump s)) !! t = Some x -> g_counter (st_cipher x) = 2 ^ 32 - 1 -> (silentFor s cl t now).2 = false ->
  rtc srv_step (serve_tick cid cl t now s) s' -> Z.of_nat (size (os_heap s')) < 2 ^ 32 ->
  exists ip, cl_assignedIP cl = Some ip /\ ip ∈ used (os_pool s') /\ os_clients s' !! addr_key (cl_addr cl) = Some cid.
Proof.
  intros Hreach Hc Hst Ht Hx Hctr Hsil Hr Hsz. set (s1 := serve_tick cid cl t now s) in *.
  assert (orphan cid cl s1) as Ho.
  { exists (cl_set_stage Orphaned cl). subst s1. unfold serve_tick, with_cipher. rewrite Hsil, Hx. cbn [SealPadded]. unfold gcm_seal, nextPacketID.
    rewrite Hctr, Z.eqb_refl. cbn. by rewrite lookup_insert_eq. }
  assert (orphan cid cl s') as (cl' & Hc' & Hst' & Ha & Hip).
  { clear -Ho Hr. induction Hr as [|s1 s2 s3 Hs _ IH]; [done|]. by eapply IH, orphan_step. }
  assert (ovpn_reachable s') as Hreach'.
  { destruct Hreach as (wr & x0 & n & p6 & g & m & nw & dv & s0 & H1 & H2 & H3 & E & Hr0 & _). exists wr, x0, n, p6, g, m, nw, dv, s0.
    split_and!; try done. etrans; [exact Hr0|]. eapply rtc_l; [|exact Hr]. by apply srv_tick. }
  pose proof (reachable_inv _ Hreach') as Hi. destruct (si_client _ Hi _ _ Hc') as [_ Hok]. destruct (Hok (or_intror Hst')) as [_ [ip Hip']].
  apply inv_in_order in Hi. exists ip. split; [congruence|]. split.
  - apply (io_used _ Hi). exists cid, cl'. split; [done|]. unfold holds_address. by rewrite Hst'.
  - apply (io_clients _ Hi). exists cl'. rewrite Hst', Ha. done.
Qed.

(** A client that is only pinged uses up its packet IDs. *)
Lemma counter_climbs s cid cl t now n x :
  os_heap s !! cid = Some cl -> cl_stage cl = Up -> cl_tunnel cl = Some t -> (silentFor s cl t now).2 = false ->
  st_tunnels (world (os_pump s)) !! t = Some x -> 0 <= g_counter (st_cipher x) -> g_counter (st_cipher x) + Z.of_nat n <= 2 ^ 32 - 1 ->
  exists s' x', rtc srv_step s s' /\ os_heap s' = os_heap s /\ silentFor s' cl t now = silentFor s cl t now /\
    st_tunnels (world (os_pump s')) !! t = Some x' /\ g_counter (st_cipher x') = g_counter (st_cipher x) + Z.of_nat n.
Proof.
  revert s x. induction n as [|n IH]; intros s x Hc Hst Ht Hsil Hx H0 Hn; [exists s, x; split_and!; [apply rtc_refl|done|done|done|lia]|].
  set (s1 := serve_tick cid cl t now s).
  assert (os_heap s1 = os_heap s /\ silentFor s1 cl t now = silentFor s cl t now /\ exists x1, st_tunnels (world (os_pump s1)) !! t = Some x1 /\
    g_counter (st_cipher x1) = g_counter (st_cipher x) + 1) as (Hh & Hs & x1 & Hx1 & Hg).
  { subst s1. unfold serve_tick, with_cipher. rewrite Hsil, Hx. cbn [SealPadded]. unfold gcm_seal, nextPacketID.
    rewrite (proj2 (Z.eqb_neq _ _)) by lia. cbn. split_and!; [done|done|]. eexists. split; [apply lookup_insert_eq|done]. }
  destruct (IH s1 x1) as (s' & x' & Hr & Hh' & Hs' & Hx' & Hg'); [by rewrite Hh|done|done|by rewrite Hs|done|lia|lia|].
  exists s', x'. split_and!; [|congruence|congruence|done|lia]. eapply rtc_l; [by apply srv_tick|exact Hr].
Qed.

End Server.

(** *** Control strings *)

Lemma indexByte_bound b c i : indexByte b c = Some i -> (i < length b)%nat.
Proof.
  revert i. induction b as [|v b IH]; intros i H; cbn in H; [done|]. destruct (v =? c); [injection H as <-; cbn; lia|].
  apply fmap_Some in H as (j & H & ->). cbn. specialize (IH j H). lia.
Qed.

(** The fuel of [scan_strings] is enough: what is left holds no complete string. *)
Lemma scan_strings_enough fuel buf rest : (length buf < fuel)%nat -> scan_strings fuel buf = Some rest -> indexByte rest 0 = None.
Proof.
  revert buf. induction fuel as [|fuel IH]; intros buf Hl H; [lia|]. cbn [scan_strings] in H. destruct (indexByte buf 0) as [i|] eqn:E; [|by injection H as <-].
  case_bool_decide; [done|]. apply IH in H; [done|]. rewrite length_drop. apply indexByte_bound in E. lia.
Qed.

(** *** Peer-ids *)

(** A packet carries the low 24 bits of its peer-id. *)
Lemma peer_id_demux id kid rest : uint32 id -> 0 <= kid < 8 -> serverDataDemux (makeHeader id kid ++ rest) = Some (id mod 2 ^ 24).
Proof.
  intros Hid Hk. unfold serverDataDemux, makeHeader, Opcode. cbn [app].
  assert (Z.shiftr (Z.lor (Z.shiftl PDataV2 opcodeShift) (Z.land kid 7)) 3 = PDataV2) as ->.
  { rewrite Z.shiftr_lor, Z.shiftr_land, (Z.shiftr_div_pow2 kid), Z.div_small by lia. done. }
  cbn [negb Z.eqb Pos.eqb orb length Nat.ltb Nat.leb]. unfold at_. cbn -[Z.shiftl Z.shiftr Z.lor wrap]. f_equal. unfold wrap.
  apply Z.bits_inj'. intros i Hi. rewrite !Z.lor_spec.
  destruct (Z.lt_ge_cases i 24); [rewrite (Z.mod_pow2_bits_low id 24) by lia|rewrite (Z.mod_pow2_bits_high id 24) by lia].
  - destruct (Z.lt_ge_cases i 8); [rewrite !Z.shiftl_spec_low, Z.mod_pow2_bits_low by lia; done|].
    rewrite (Z.shiftl_spec _ 8) by lia. destruct (Z.lt_ge_cases i 16).
    + rewrite Z.shiftl_spec_low, Z.mod_pow2_bits_low, Z.shiftr_spec, (Z.mod_pow2_bits_high id) by lia. rewrite orb_false_r. cbn. f_equal. lia.
    + rewrite Z.shiftl_spec, (Z.mod_pow2_bits_low (Z.shiftr id 16)), Z.shiftr_spec, (Z.mod_pow2_bits_high (Z.shiftr id 8)), (Z.mod_pow2_bits_high id) by lia.
      rewrite !orb_false_r. f_equal. lia.
  - rewrite !Z.shiftl_spec, !Z.mod_pow2_bits_high by lia. done.
Qed.

(** ** A server that runs *)

Definition demo_opener : bytes := [0x38; 1; 2; 3; 4; 5; 6; 7; 8; 0; 0; 0; 0; 0].
Definition demo_peer : UDPAddr := mkUDPAddr (Some (IPv4 0xc0000201)) 40000.
Definition demo_tls : tls_run :=
  let ks := mkKeySource (replicate 48 1) (replicate 32 2) (replicate 32 3) in
  mkTLS true [MarshalClient ks [86; 52] [] [] []; str "PUSH_REQUEST" ++ [0]] (Some ks) true.
Definition demo_network : Prefix := mkPrefix (IPv4 0x0a080000) 24.
Definition demo_prefix6 : Prefix := mkPrefix (IPv6 (Z.shiftl 0xfd000008 96)) 64.

(** The IPv6 address derived from a client's IPv4 one is total and injective over the pool.  For a prefix that
    [prefix6Fits] the network, every address of the network has a derived one, which lies inside the prefix, and no two have
    the same. *)
Theorem derive6_injective (p6 net : Prefix) (x y : Z) (n b : nat) (v w : Z) :
  dual_stack p6 net x y n b -> (n <= 32)%nat -> x <= v < x + 2 ^ (32 - Z.of_nat n) -> x <= w < x + 2 ^ (32 - Z.of_nat n) -> v < 2 ^ 32 -> w < 2 ^ 32 ->
  (exists a, derive6 p6 net (IPv4 v) = Some a /\ Contains p6 a) /\ (derive6 p6 net (IPv4 v) = derive6 p6 net (IPv4 w) -> v = w).
Proof.
  intros D Hn Hv Hw Hv32 Hw32. destruct (derive6_value _ _ _ _ _ _ v D Hv Hn Hv32) as (-> & H1 & H2).
  destruct (derive6_value _ _ _ _ _ _ w D Hw Hn Hw32) as (-> & _ & _). split.
  - eexists. split; [done|]. destruct D as [_ Hx -> Hy Hb Hm _]. split; [done|]. rewrite Hm. cbn. unfold mask_addr. cbn [BitLen addr_val with_val].
    rewrite Z.shiftl_mul_pow2, Z.shiftr_div_pow2 by lia. replace (Z.of_nat (128 - b)) with (128 - Z.of_nat b) by lia. f_equal.
    set (k := 128 - Z.of_nat b) in *. assert (0 < 2 ^ k) by (apply Z.pow_pos_nonneg; lia).
    assert ((y + (v - x)) / 2 ^ k = y / 2 ^ k) as ->; [|by rewrite <- H2]. symmetry. apply (Z.div_unique _ _ _ (v - x)); lia.
  - intros [= E]. lia.
Qed.

#[local] Ltac normalise :=
  match goal with |- rtc _ ?s _ => let s' := eval vm_compute in s in replace s with s' by (vm_compute; reflexivity) end.
#[local] Ltac go s := eapply rtc_l; [s|]; normalise.

(** One client opens, is assigned an address and comes up; another opens. *)
Definition server_run :
  { s : OvpnServer | ovpn_reachable (P := toy_prims) (C := toy_stream) s /\ exists cl x, os_heap s !! 0%nat = Some cl /\ cl_stage cl = Up /\ cl_tunnel cl = Some 0%nat /\
      (silentFor s cl 0 60).2 = false /\ st_tunnels (world (os_pump s)) !! 0%nat = Some x /\ g_counter (st_cipher x) = 0 /\ cl_assignedIP cl = Some 0x0a080002 }.
Proof.
  eexists. split.
  - exists None, 0x0a080000, 24%nat, (Some demo_prefix6), false, 1500, 1, (fun _ => true). eexists. split_and!.
    + split; unfold addr_ok, uint; cbn; lia.
    + reflexivity.
    + intros p6 [= <-]. split; [|cbn; lia]. unfold addr_ok, uint. split; vm_compute; done.
    + vm_compute. reflexivity.
    + go ltac:(apply (srv_read (P := toy_prims) (C := toy_stream) _ (fun _ => (Some (replicate 8 9), 5)) [(demo_opener, demo_peer)] 5)).
      go ltac:(eapply (srv_assign _ demo_tls 0%nat); [vm_compute; reflexivity|reflexivity|vm_compute; reflexivity]).
      go ltac:(eapply (srv_finish _ true 20 0%nat); [vm_compute; reflexivity|reflexivity]).
      go ltac:(apply (srv_read (P := toy_prims) (C := toy_stream) _ (fun _ => (Some (replicate 8 8), 21)) [(demo_opener, mkUDPAddr (Some (IPv4 0xc0000201)) 40001)] 21)).
      apply rtc_refl.
    + vm_compute. done.
  - eexists _, _. split_and!; vm_compute; reflexivity.
Defined.

Lemma server_resources_witness : in_order (`server_run) /\ 0x0a080002 ∈ used (os_pool (`server_run)).
Proof.
  destruct (server_resources (P := toy_prims) (C := toy_stream) (`server_run) (proj1 (proj2_sig server_run))) as [H _].
  split; [done|]. by vm_compute.
Defined.

Lemma exhausted_client_leaks_witness :
  exists s s' cid t cl x, ovpn_reachable (P := toy_prims) (C := toy_stream) s /\ os_heap s !! cid = Some cl /\ st_tunnels (world (os_pump s)) !! t = Some x /\
    s' = serve_tick (P := toy_prims) cid cl t 60 s /\ 0x0a080002 ∈ used (os_pool s').
Proof.
  destruct (proj2_sig server_run) as (Hreach & cl & x & Hc & Hst & Ht & Hsil & Hx & Hg & Hip).
  destruct (counter_climbs (P := toy_prims) (C := toy_stream) (`server_run) 0 cl 0 60 (Z.to_nat (2 ^ 32 - 1)) x) as (s & x' & Hr & Hh & Hs & Hx' & Hg');
    [done|done|done|done|done|lia|rewrite Hg, Z2Nat.id; lia|]. rewrite Hg, Z2Nat.id in Hg' by lia.
  assert (ovpn_reachable (P := toy_prims) (C := toy_stream) s) as Hreach'.
  { destruct Hreach as (wr & x0 & n & p6 & g & m & nw & dv & s0 & H1 & H2 & H3 & E & Hr0 & Hsz). exists wr, x0, n, p6, g, m, nw, dv, s0.
    split_and!; try done; [by etrans|by rewrite Hh]. }
  exists s, (serve_tick (P := toy_prims) 0 cl 0 60 s), 0%nat, 0%nat, cl, x'. split_and!; [done|by rewrite Hh|done|done|].
  destruct (exhausted_client_leaks (P := toy_prims) (C := toy_stream) s (serve_tick (P := toy_prims) 0 cl 0 60 s) 0 0 cl x' 60) as (ip & E & Hu & _);
    [done|by rewrite Hh|done|done|done|lia|by rewrite Hs|apply rtc_refl| |rewrite Hip in E; by injection E as <-].
  unfold serve_tick. rewrite Hs, Hsil. unfold with_cipher. rewrite Hx'. cbn [SealPadded]. unfold gcm_seal, nextPacketID. rewrite Hg', Z.add_0_l, Z.eqb_refl.
  cbn [os_heap os_set_client os_set_pump]. rewrite Hh, map_size_insert_Some by (by eexists). by vm_compute.
Defined.

Lemma derive6_injective_witness :
  (exists a, derive6 demo_prefix6 demo_network (IPv4 0x0a080002) = Some a /\ Contains demo_prefix6 a) /\
  (derive6 demo_prefix6 demo_network (IPv4 0x0a080002) = derive6 demo_prefix6 demo_network (IPv4 0x0a080003) -> 0x0a080002 = 0x0a080003).
Proof.
  apply (derive6_injective demo_prefix6 demo_network 0x0a080000 (Z.shiftl 0xfd000008 96) 24 64 0x0a080002 0x0a080003); [|lia..].
  split; try reflexivity; try lia; unfold uint; split; vm_compute; done.
Defined.
