(* ===== verification/WgWire.v ===== *)
(** * WireGuard messages, [internal/wireguard/wire/wire.go]

    The four message types at their fixed layouts, the demultiplexer of the pump
    and TAI64N timestamps.  A Go array is a byte string of its length ([wf_init]
    and its siblings say so).  The theorems: every message parses back to what was
    marshalled, a message parses as its own type only, and the byte-wise
    comparison of two timestamps orders them as instants. *)
From Stdlib Require Import ZArith Lia.
From stdpp Require Import base list.
From S2P Require Import Prelude.

(** Message types, message sizes and field sizes. *)
Abbreviation TypeHandshakeInitiation := 1 (only parsing).
Abbreviation TypeHandshakeResponse := 2 (only parsing).
Abbreviation TypeCookieReply := 3 (only parsing).
Abbreviation TypeTransportData := 4 (only parsing).
Abbreviation SizeHandshakeInitiation := 148%nat (only parsing).
Abbreviation SizeHandshakeResponse := 92%nat (only parsing).
Abbreviation SizeCookieReply := 64%nat (only parsing).
Abbreviation MinTransportData := 32%nat (only parsing).
Abbreviation KeySize := 32%nat (only parsing).
Abbreviation TagSize := 16%nat (only parsing).
Abbreviation MACSize := 16%nat (only parsing).
Abbreviation TimestampLen := 12%nat (only parsing).
Abbreviation NonceSize := 24%nat (only parsing).
Abbreviation initMAC1Offset := 116%nat (only parsing).
Abbreviation initMAC2Offset := 132%nat (only parsing).
Abbreviation respMAC1Offset := 60%nat (only parsing).
Abbreviation respMAC2Offset := 76%nat (only parsing).
Abbreviation TransportHeaderLen := 16%nat (only parsing).

Inductive wire_error := ErrMalformed | ErrShort.

(** [Type]: the reserved octets must be zero. *)
Definition Type_of (pkt : bytes) : option Z :=
  if (length pkt <? 4)%nat then None
  else if negb (Z.lor (Z.lor (at_ pkt 1) (at_ pkt 2)) (at_ pkt 3) =? 0) then None
  else Some (at_ pkt 0).

Definition is_type (pkt : bytes) (t : Z) : bool := match Type_of pkt with Some x => x =? t | None => false end.

Definition Demux (pkt : bytes) : option Z :=
  if (length pkt <? MinTransportData)%nat then None
  else if negb (is_type pkt TypeTransportData) then None
  else Some (le_dec (slice pkt 4 8)).

(** ** Handshake initiation *)

Record HandshakeInitiation := mkInit {
  iSender : Z; iEphemeral : bytes; iStatic : bytes; iTimestamp : bytes; iMAC1 : bytes; iMAC2 : bytes }.

Definition MarshalInitiation (m : HandshakeInitiation) (dst : bytes) : result wire_error bytes :=
  if (length dst <? SizeHandshakeInitiation)%nat then Err ErrShort
  else Ok ([TypeHandshakeInitiation; 0; 0; 0] ++ le_enc 4 (iSender m) ++ iEphemeral m ++ iStatic m ++ iTimestamp m ++
           iMAC1 m ++ iMAC2 m).

Definition ParseHandshakeInitiation (pkt : bytes) : result wire_error HandshakeInitiation :=
  if negb (length pkt =? SizeHandshakeInitiation)%nat then Err ErrMalformed
  else if negb (is_type pkt TypeHandshakeInitiation) then Err ErrMalformed
  else Ok (mkInit (le_dec (slice pkt 4 8)) (slice pkt 8 40) (slice pkt 40 88) (slice pkt 88 116)
             (slice pkt initMAC1Offset initMAC2Offset) (drop initMAC2Offset pkt)).

(** What each MAC covers: everything before it. *)
Definition MACRegions (msg : bytes) : option (bytes * bytes) :=
  if (length msg =? SizeHandshakeInitiation)%nat then Some (take initMAC1Offset msg, take initMAC2Offset msg)
  else if (length msg =? SizeHandshakeResponse)%nat then Some (take respMAC1Offset msg, take respMAC2Offset msg)
  else None.

(** ** Handshake response *)

Record HandshakeResponse := mkResp {
  rSender : Z; rReceiver : Z; rEphemeral : bytes; rEmpty : bytes; rMAC1 : bytes; rMAC2 : bytes }.

Definition MarshalResponse (m : HandshakeResponse) (dst : bytes) : result wire_error bytes :=
  if (length dst <? SizeHandshakeResponse)%nat then Err ErrShort
  else Ok ([TypeHandshakeResponse; 0; 0; 0] ++ le_enc 4 (rSender m) ++ le_enc 4 (rReceiver m) ++ rEphemeral m ++
           rEmpty m ++ rMAC1 m ++ rMAC2 m).

Definition ParseHandshakeResponse (pkt : bytes) : result wire_error HandshakeResponse :=
  if negb (length pkt =? SizeHandshakeResponse)%nat then Err ErrMalformed
  else if negb (is_type pkt TypeHandshakeResponse) then Err ErrMalformed
  else Ok (mkResp (le_dec (slice pkt 4 8)) (le_dec (slice pkt 8 12)) (slice pkt 12 44) (slice pkt 44 60)
             (slice pkt respMAC1Offset respMAC2Offset) (drop respMAC2Offset pkt)).

(** ** Cookie reply *)

Record CookieReply := mkCookieReply { cReceiver : Z; cNonce : bytes; cCookie : bytes }.

Definition MarshalCookieReply (m : CookieReply) (dst : bytes) : result wire_error bytes :=
  if (length dst <? SizeCookieReply)%nat then Err ErrShort
  else Ok ([TypeCookieReply; 0; 0; 0] ++ le_enc 4 (cReceiver m) ++ cNonce m ++ cCookie m).

Definition ParseCookieReply (pkt : bytes) : result wire_error CookieReply :=
  if negb (length pkt =? SizeCookieReply)%nat then Err ErrMalformed
  else if negb (is_type pkt TypeCookieReply) then Err ErrMalformed
  else Ok (mkCookieReply (le_dec (slice pkt 4 8)) (slice pkt 8 32) (slice pkt 32 64)).

(** ** Transport data *)

(** The header written over the front of [dst]. *)
Definition PutTransportHeader (dst : bytes) (receiver counter : Z) : result wire_error bytes :=
  if (length dst <? TransportHeaderLen)%nat then Err ErrShort
  else Ok (blit (blit (blit dst 0 [TypeTransportData; 0; 0; 0]) 4 (le_enc 4 receiver)) 8 (le_enc 8 counter)).

Definition TransportCounter (pkt : bytes) : option Z :=
  if (length pkt <? TransportHeaderLen)%nat then None else Some (le_dec (slice pkt 8 16)).

(** ** TAI64N *)

(** An instant as [time.Time] gives it: seconds since 1970 (an [int64]) and nanoseconds. *)
Definition Timestamp (unix nsec : Z) : bytes :=
  be_enc 8 (wrap 64 (2 ^ 62 + unix)) ++ be_enc 4 (wrap 32 nsec).

Fixpoint After (a b : bytes) : bool :=
  match a, b with
  | x :: a, y :: b => if x =? y then After a b else y <? x
  | _, _ => false
  end.

(** ** Round trips *)

Record wf_init (m : HandshakeInitiation) : Prop := {
  wi_sender : uint32 (iSender m);
  wi_eph : length (iEphemeral m) = KeySize;
  wi_static : length (iStatic m) = (KeySize + TagSize)%nat;
  wi_ts : length (iTimestamp m) = (TimestampLen + TagSize)%nat;
  wi_mac1 : length (iMAC1 m) = MACSize;
  wi_mac2 : length (iMAC2 m) = MACSize;
}.

Record wf_resp (m : HandshakeResponse) : Prop := {
  wr_sender : uint32 (rSender m);
  wr_receiver : uint32 (rReceiver m);
  wr_eph : length (rEphemeral m) = KeySize;
  wr_empty : length (rEmpty m) = TagSize;
  wr_mac1 : length (rMAC1 m) = MACSize;
  wr_mac2 : length (rMAC2 m) = MACSize;
}.

Record wf_cookie (m : CookieReply) : Prop := {
  wc_receiver : uint32 (cReceiver m);
  wc_nonce : length (cNonce m) = NonceSize;
  wc_cookie : length (cCookie m) = 32%nat;
}.

Lemma MarshalInitiation_spec m dst :
  wf_init m -> (SizeHandshakeInitiation <= length dst)%nat ->
  exists pkt, MarshalInitiation m dst = Ok pkt /\ length pkt = SizeHandshakeInitiation /\
    Type_of pkt = Some TypeHandshakeInitiation /\ ParseHandshakeInitiation pkt = Ok m.
Proof.
  intros [H1 H2 H3 H4 H5 H6] Hd. unfold MarshalInitiation. rewrite (proj2 (Nat.ltb_ge _ _)) by done.
  set (pkt := [_; _; _; _] ++ _). exists pkt.
  assert (length pkt = 148%nat) as Hl by (subst pkt; autorewrite with wire; lia).
  assert (Type_of pkt = Some 1) as Ht by (unfold Type_of; by rewrite Hl).
  split_and!; [done..|]. unfold ParseHandshakeInitiation, is_type. rewrite drop_as_slice, Hl, Ht. subst pkt.
  cut_fields. rewrite le_dec_enc_small by done. by destruct m.
Qed.

Lemma MarshalResponse_spec m dst :
  wf_resp m -> (SizeHandshakeResponse <= length dst)%nat ->
  exists pkt, MarshalResponse m dst = Ok pkt /\ length pkt = SizeHandshakeResponse /\
    Type_of pkt = Some TypeHandshakeResponse /\ ParseHandshakeResponse pkt = Ok m.
Proof.
  intros [H1 H2 H3 H4 H5 H6] Hd. unfold MarshalResponse. rewrite (proj2 (Nat.ltb_ge _ _)) by done.
  set (pkt := [_; _; _; _] ++ _). exists pkt.
  assert (length pkt = 92%nat) as Hl by (subst pkt; autorewrite with wire; lia).
  assert (Type_of pkt = Some 2) as Ht by (unfold Type_of; by rewrite Hl).
  split_and!; [done..|]. unfold ParseHandshakeResponse, is_type. rewrite drop_as_slice, Hl, Ht. subst pkt.
  cut_fields. rewrite !le_dec_enc_small by done. by destruct m.
Qed.

Lemma MarshalCookieReply_spec m dst :
  wf_cookie m -> (SizeCookieReply <= length dst)%nat ->
  exists pkt, MarshalCookieReply m dst = Ok pkt /\ length pkt = SizeCookieReply /\
    Type_of pkt = Some TypeCookieReply /\ ParseCookieReply pkt = Ok m.
Proof.
  intros [H1 H2 H3] Hd. unfold MarshalCookieReply. rewrite (proj2 (Nat.ltb_ge _ _)) by done.
  set (pkt := [_; _; _; _] ++ _). exists pkt.
  assert (length pkt = 64%nat) as Hl by (subst pkt; autorewrite with wire; lia).
  assert (Type_of pkt = Some 3) as Ht by (unfold Type_of; by rewrite Hl).
  split_and!; [done..|]. unfold ParseCookieReply, is_type. rewrite Hl, Ht. subst pkt.
  cut_fields. rewrite !le_dec_enc_small by done. by destruct m.
Qed.

Lemma PutTransportHeader_spec dst receiver counter :
  uint32 receiver -> uint64 counter -> (MinTransportData <= length dst)%nat ->
  exists pkt, PutTransportHeader dst receiver counter = Ok pkt /\ length pkt = length dst /\
    drop TransportHeaderLen pkt = drop TransportHeaderLen dst /\
    Demux pkt = Some receiver /\ TransportCounter pkt = Some counter.
Proof.
  intros Hr Hc Hl. unfold PutTransportHeader. rewrite (proj2 (Nat.ltb_ge _ _)) by lia.
  set (pkt := blit _ _ _). exists pkt.
  assert (length pkt = length dst) as El by (subst pkt; autorewrite with wire; lia).
  assert (Type_of pkt = Some 4) as Ht.
  { unfold Type_of. rewrite El, (proj2 (Nat.ltb_ge _ _)) by lia. subst pkt. by autorewrite with wire. }
  split_and!; [done|done|..].
  - rewrite !drop_as_slice, El. subst pkt. by autorewrite with wire.
  - unfold Demux, is_type. rewrite El, (proj2 (Nat.ltb_ge _ _)), Ht by lia. subst pkt.
    autorewrite with wire. by rewrite le_dec_enc_small.
  - unfold TransportCounter. rewrite El, (proj2 (Nat.ltb_ge _ _)) by lia. subst pkt.
    autorewrite with wire. by rewrite le_dec_enc_small.
Qed.

(** ** The parsers accept one type only *)

Lemma parse_cookie_type pkt m :
  ParseCookieReply pkt = Ok m -> length pkt = SizeCookieReply /\ Type_of pkt = Some TypeCookieReply.
Proof.
  unfold ParseCookieReply, is_type. destruct (Nat.eqb_spec (length pkt) 64); [|done].
  destruct (Type_of pkt) as [t|]; [|done]. by destruct (Z.eqb_spec t 3) as [->|].
Qed.

(** ** Timestamps *)

Lemma After_spec a b :
  bytes_ok a -> bytes_ok b -> length a = length b -> After a b = (be_dec b <? be_dec a).
Proof.
  intros Ha. revert b. induction Ha as [|x a Hx Ha IH]; intros [|y b] Hb Hl; [done..|]. injection Hl as Hl.
  apply Forall_cons in Hb as [Hy Hb]. cbn [After be_dec]. rewrite Hl.
  pose proof (be_dec_range a Ha) as Ra. pose proof (be_dec_range b Hb) as Rb. rewrite Hl in Ra.
  destruct (Z.eqb_spec x y) as [->|].
  - rewrite IH by done. apply eq_bool_prop_intro. rewrite !Is_true_true, !Z.ltb_lt. lia.
  - set (B := 256 ^ Z.of_nat (length b)) in *. apply eq_bool_prop_intro. rewrite !Is_true_true, !Z.ltb_lt.
    assert (y < x \/ x < y) as [L|L] by lia.
    + pose proof (Z.mul_le_mono_nonneg_r (y + 1) x B). lia.
    + pose proof (Z.mul_le_mono_nonneg_r (x + 1) y B). lia.
Qed.

(** The responder refuses an initiation whose timestamp does not advance, comparing the
    twelve octets in order.  Over every instant TAI64N can name, that comparison is
    exactly the order of the instants: seconds first, then nanoseconds. *)
Theorem tai64n_order (s n s' n' : Z) :
  - 2 ^ 62 <= s < 2 ^ 63 -> - 2 ^ 62 <= s' < 2 ^ 63 -> 0 <= n < 10 ^ 9 -> 0 <= n' < 10 ^ 9 ->
  After (Timestamp s n) (Timestamp s' n') = (s' * 10 ^ 9 + n' <? s * 10 ^ 9 + n).
Proof.
  intros Hs Hs' Hn Hn'. unfold Timestamp. rewrite !wrap_small by (split; lia).
  rewrite After_spec; [|by apply Forall_app_2; apply be_enc_ok..|by autorewrite with wire].
  rewrite !be_dec_app, !length_be_enc, !be_dec_enc_small by (split; lia).
  apply eq_bool_prop_intro. rewrite !Is_true_true, !Z.ltb_lt. change (256 ^ Z.of_nat 4) with (2 ^ 32). lia.
Qed.

Lemma tai64n_order_witness :
  After (Timestamp 1700000000 5) (Timestamp 1699999999 999999999) = true.
Proof. rewrite tai64n_order by lia. reflexivity. Defined.
