(* ===== verification/WgNoise.v ===== *)
(** * WireGuard's handshake, [internal/wireguard/noise/{kdf,noise,responder}.go]

    Noise_IKpsk2 from both ends: the key derivation, [Initiator] with its
    initiation, MACs and consumption of the response, and [Responder] with its two
    calls.  Each method is a computation over the mutable object it is called on.
    Curve25519, BLAKE2s and its HMAC and keyed forms are Go's and x/crypto's: the
    class [NoisePrims], with what the handshake relies on in [NoiseOk] (digest
    lengths and that the two sides of a Diffie-Hellman agree); ChaCha20-Poly1305
    is the AEAD of [Prims].  A drawn ephemeral key or index and the clock are
    arguments.

    The theorems: an initiation and its response bring both ends to one pair of
    transport keys, mirrored, with each end holding the other's index and the
    responder knowing the initiator's static key and timestamp; and a datagram
    whose mac1 is not for the responder's key is refused with the responder
    unchanged. *)
From Stdlib Require Import ZArith Lia.
From Stdlib Require String.
Import String.StringSyntax.
From stdpp Require Import base list.
From S2P Require Import Prelude WgWire Crypto.

(** ** Primitives *)

Class NoisePrims := {
  blake2s : bytes -> bytes;
  hmacBlake2s : bytes -> bytes -> bytes;                                  (* key data *)
  mac128 : bytes -> bytes -> bytes;                                       (* key data *)
  PublicKey : bytes -> bytes;                                             (* private key *)
  ECDH : bytes -> bytes -> option bytes;                                  (* private key, peer's public key *)
  xaeadSeal : bytes -> bytes -> bytes -> bytes -> bytes;                  (* key nonce aad plaintext *)
  xaeadOpen : bytes -> bytes -> bytes -> bytes -> option bytes;           (* key nonce aad ciphertext *)
}.

Class NoiseOk (N : NoisePrims) := {
  length_blake2s d : length (blake2s d) = KeySize;
  length_hmacBlake2s k d : length (hmacBlake2s k d) = KeySize;
  length_mac128 k d : length (mac128 k d) = MACSize;
  length_PublicKey k : length (PublicKey k) = KeySize;
  ECDH_agree a b : ECDH a (PublicKey b) = ECDH b (PublicKey a);
  xaead_open_seal k n a pt : xaeadOpen k n a (xaeadSeal k n a pt) = Some pt;
  length_xaeadSeal k n a pt : length (xaeadSeal k n a pt) = (length pt + TagSize)%nat;
}.

Abbreviation construction := (str "Noise_IKpsk2_25519_ChaChaPoly_BLAKE2s") (only parsing).
Abbreviation identifier := (str "WireGuard v1 zx2c4 Jason@zx2c4.com") (only parsing).
Abbreviation labelMAC1 := (str "mac1----") (only parsing).
Abbreviation labelCookie := (str "cookie--") (only parsing).
Abbreviation zeroNonce := (replicate 12 0) (only parsing).
Abbreviation zeroKey := (replicate 32 0) (only parsing).
Abbreviation zeroCookie := (replicate 16 0) (only parsing).

Inductive noise_error :=
| ErrWire (e : wire_error) | ErrDecrypt | ErrWrongReceiver | ErrMAC1 | ErrCookieReply
| ErrDH | ErrPeerStatic | ErrAlreadySent | ErrNotSent | ErrNotConsumed | ErrNoMACRegions.

Definition wire_result {A} (r : result wire_error A) : result noise_error A :=
  match r with Ok a => Ok a | Err e => Err (ErrWire e) end.

Definition dh_result (o : option bytes) : result noise_error bytes :=
  match o with Some k => Ok k | None => Err ErrDH end.

Definition open_result (o : option bytes) : result noise_error bytes :=
  match o with Some pt => Ok pt | None => Err ErrDecrypt end.

Section Noise.
Context {P : Prims} {N : NoisePrims}.

(** ** Key derivation, [kdf.go] *)

Definition hashOf (parts : list bytes) : bytes := blake2s (concat parts).
Definition hmacSum (k : bytes) (parts : list bytes) : bytes := hmacBlake2s k (concat parts).

Definition kdf1 (ck input : bytes) : bytes :=
  let temp := hmacSum ck [input] in
  hmacSum temp [[1]].

Definition kdf2 (ck input : bytes) : bytes * bytes :=
  let temp := hmacSum ck [input] in
  let out1 := hmacSum temp [[1]] in
  let out2 := hmacSum temp [out1; [2]] in
  (out1, out2).

Definition kdf3 (ck input : bytes) : bytes * bytes * bytes :=
  let temp := hmacSum ck [input] in
  let out1 := hmacSum temp [[1]] in
  let out2 := hmacSum temp [out1; [2]] in
  let out3 := hmacSum temp [out2; [3]] in
  (out1, out2, out3).

(** [aead.Seal] and [aead.Open] of a handshake message: a fresh key, the zero nonce. *)
Definition hs_seal (k h pt : bytes) : bytes := aeadSeal ChaCha20Poly1305 k zeroNonce h pt.
Definition hs_open (k h ct : bytes) : result noise_error bytes := open_result (aeadOpen ChaCha20Poly1305 k zeroNonce h ct).

Record Keypair := mkKeypair { kpSend : bytes; kpRecv : bytes; kpLocal : Z; kpRemote : Z }.

(** ** The initiator, [noise.go] *)

Record Config := mkConfig {
  LocalStatic : bytes; RemoteStatic : bytes; PresharedKey : bytes; TypeInitiation : Z; TypeResponse : Z }.

Record Initiator := mkInitiator {
  localStatic : bytes; remoteStatic : bytes; presharedKey : bytes; mac1Key : bytes; cookieKey : bytes;
  cookie : bytes; ephemeral : bytes; localIdx : Z; i_ck : bytes; i_h : bytes; lastMAC1 : bytes; sent : bool;
  typeInitiation : Z }.

Definition set_cookie c i := mkInitiator (localStatic i) (remoteStatic i) (presharedKey i) (mac1Key i) (cookieKey i)
  c (ephemeral i) (localIdx i) (i_ck i) (i_h i) (lastMAC1 i) (sent i) (typeInitiation i).
Definition set_eph e i := mkInitiator (localStatic i) (remoteStatic i) (presharedKey i) (mac1Key i) (cookieKey i)
  (cookie i) e (localIdx i) (i_ck i) (i_h i) (lastMAC1 i) (sent i) (typeInitiation i).
Definition set_idx x i := mkInitiator (localStatic i) (remoteStatic i) (presharedKey i) (mac1Key i) (cookieKey i)
  (cookie i) (ephemeral i) x (i_ck i) (i_h i) (lastMAC1 i) (sent i) (typeInitiation i).
Definition set_ck x i := mkInitiator (localStatic i) (remoteStatic i) (presharedKey i) (mac1Key i) (cookieKey i)
  (cookie i) (ephemeral i) (localIdx i) x (i_h i) (lastMAC1 i) (sent i) (typeInitiation i).
Definition set_h x i := mkInitiator (localStatic i) (remoteStatic i) (presharedKey i) (mac1Key i) (cookieKey i)
  (cookie i) (ephemeral i) (localIdx i) (i_ck i) x (lastMAC1 i) (sent i) (typeInitiation i).
Definition set_mac1 x i := mkInitiator (localStatic i) (remoteStatic i) (presharedKey i) (mac1Key i) (cookieKey i)
  (cookie i) (ephemeral i) (localIdx i) (i_ck i) (i_h i) x (sent i) (typeInitiation i).
Definition set_sent i := mkInitiator (localStatic i) (remoteStatic i) (presharedKey i) (mac1Key i) (cookieKey i)
  (cookie i) (ephemeral i) (localIdx i) (i_ck i) (i_h i) (lastMAC1 i) true (typeInitiation i).

Definition NewInitiator (cfg : Config) : Initiator :=
  mkInitiator (LocalStatic cfg) (RemoteStatic cfg) (PresharedKey cfg)
    (hashOf [labelMAC1; RemoteStatic cfg]) (hashOf [labelCookie; RemoteStatic cfg])
    zeroCookie [] 0 zeroKey zeroKey (replicate 16 0) false (TypeInitiation cfg).

(** The range a MAC covers, with the type word AmneziaWG substitutes. *)
Definition macOver (over : bytes) (typeWord : Z) : bytes :=
  if ((typeWord =? 0) || (length over <? 4)%nat)%bool then over else blit over 0 (le_enc 4 typeWord).

Definition addMACs (msg : bytes) : SE noise_error Initiator bytes :=
  match MACRegions msg with
  | None => se_fail ErrNoMACRegions
  | Some (over1, over2) =>
      let! i := se_gets id in
      let m1 := mac128 (mac1Key i) (macOver over1 (typeInitiation i)) in
      let msg := blit msg (length over1) m1 in
      se_modify (set_mac1 m1) ;;!
      (if bool_decide (cookie i = zeroCookie)
       then se_ret (blit msg (length over2) (replicate MACSize 0))
       else
         let over2 := take (length over2) msg in
         let m2 := mac128 (cookie i) (macOver over2 (typeInitiation i)) in
         se_ret (blit msg (length over2) m2))
  end.

(** [Initiation], with the ephemeral key and index it draws and the clock it reads. *)
Definition Initiation (eph : bytes) (idx unix nsec : Z) : SE noise_error Initiator bytes :=
  let! already := se_gets sent in
  if already then se_fail ErrAlreadySent else
  let! rs := se_gets remoteStatic in
  let ck := hashOf [construction] in
  let ih := hashOf [ck; identifier] in
  se_modify (set_ck ck) ;;!
  se_modify (set_h (hashOf [ih; rs])) ;;!
  se_modify (set_eph eph) ;;!
  se_modify (set_idx idx) ;;!
  let ephemeral := PublicKey eph in
  se_modify (fun i => set_h (hashOf [i_h i; ephemeral]) i) ;;!
  se_modify (fun i => set_ck (kdf1 (i_ck i) ephemeral) i) ;;!
  let! es := se_lift (dh_result (ECDH eph rs)) in
  let! (ck, k) := se_gets (fun i => kdf2 (i_ck i) es) in
  se_modify (set_ck ck) ;;!
  let! static := se_gets (fun i => hs_seal k (i_h i) (PublicKey (localStatic i))) in
  se_modify (fun i => set_h (hashOf [i_h i; static]) i) ;;!
  let! ls := se_gets localStatic in
  let! ss := se_lift (dh_result (ECDH ls rs)) in
  let! (ck, k) := se_gets (fun i => kdf2 (i_ck i) ss) in
  se_modify (set_ck ck) ;;!
  let! stamp := se_gets (fun i => hs_seal k (i_h i) (Timestamp unix nsec)) in
  se_modify (fun i => set_h (hashOf [i_h i; stamp]) i) ;;!
  let! out := se_lift (wire_result (MarshalInitiation
                (mkInit idx ephemeral static stamp (replicate MACSize 0) (replicate MACSize 0))
                (replicate SizeHandshakeInitiation 0))) in
  let! out := addMACs out in
  se_modify set_sent ;;!
  se_ret out.

(** [Initiator.Consume]: the response to a sent initiation. *)
Definition Initiator_Consume (pkt : bytes) : SE noise_error Initiator Keypair :=
  let! i := se_gets id in
  if negb (sent i) then se_fail ErrNotSent else
  let! msg := se_lift (wire_result (ParseHandshakeResponse pkt)) in
  if negb (rReceiver msg =? localIdx i) then se_fail ErrWrongReceiver else
  let h := hashOf [i_h i; rEphemeral msg] in
  let ck := kdf1 (i_ck i) (rEphemeral msg) in
  let! ee := se_lift (dh_result (ECDH (ephemeral i) (rEphemeral msg))) in
  let ck := kdf1 ck ee in
  let! se := se_lift (dh_result (ECDH (localStatic i) (rEphemeral msg))) in
  let ck := kdf1 ck se in
  let '(ck2, tau, k) := kdf3 ck (presharedKey i) in
  let h := hashOf [h; tau] in
  let! _ := se_lift (hs_open k h (rEmpty msg)) in
  let h := hashOf [h; rEmpty msg] in
  se_modify (fun i => set_h h (set_ck ck2 i)) ;;!
  let '(send, recv) := kdf2 ck2 [] in
  se_ret (mkKeypair send recv (localIdx i) (rSender msg)).

(** ** The responder, [responder.go] *)

Record Responder := mkResponder {
  r_localStatic : bytes; r_mac1Key : bytes; r_ck : bytes; r_h : bytes; r_peerEph : bytes; r_peerStatic : bytes;
  r_peerIndex : Z; r_timestamp : bytes; r_consumed : bool; r_typeInitiation : Z; r_typeResponse : Z }.

Definition rset_ck x r := mkResponder (r_localStatic r) (r_mac1Key r) x (r_h r) (r_peerEph r) (r_peerStatic r)
  (r_peerIndex r) (r_timestamp r) (r_consumed r) (r_typeInitiation r) (r_typeResponse r).
Definition rset_h x r := mkResponder (r_localStatic r) (r_mac1Key r) (r_ck r) x (r_peerEph r) (r_peerStatic r)
  (r_peerIndex r) (r_timestamp r) (r_consumed r) (r_typeInitiation r) (r_typeResponse r).
Definition rset_eph x r := mkResponder (r_localStatic r) (r_mac1Key r) (r_ck r) (r_h r) x (r_peerStatic r)
  (r_peerIndex r) (r_timestamp r) (r_consumed r) (r_typeInitiation r) (r_typeResponse r).
Definition rset_static x r := mkResponder (r_localStatic r) (r_mac1Key r) (r_ck r) (r_h r) (r_peerEph r) x
  (r_peerIndex r) (r_timestamp r) (r_consumed r) (r_typeInitiation r) (r_typeResponse r).
Definition rset_index x r := mkResponder (r_localStatic r) (r_mac1Key r) (r_ck r) (r_h r) (r_peerEph r) (r_peerStatic r)
  x (r_timestamp r) (r_consumed r) (r_typeInitiation r) (r_typeResponse r).
Definition rset_done ts r := mkResponder (r_localStatic r) (r_mac1Key r) (r_ck r) (r_h r) (r_peerEph r) (r_peerStatic r)
  (r_peerIndex r) ts true (r_typeInitiation r) (r_typeResponse r).

Definition NewResponderWithTypes (priv : bytes) (h1 h2 : Z) : Responder :=
  mkResponder priv (hashOf [labelMAC1; PublicKey priv]) zeroKey zeroKey [] [] 0 (replicate TimestampLen 0) false h1 h2.

(** [Responder.Consume]: the initiation; returns the peer's static key and timestamp. *)
Definition Responder_Consume (pkt : bytes) : SE noise_error Responder (bytes * bytes) :=
  let! msg := se_lift (wire_result (ParseHandshakeInitiation pkt)) in
  match MACRegions pkt with
  | None => se_fail (ErrWire ErrMalformed)
  | Some (over1, _) =>
      let! r := se_gets id in
      let want := mac128 (r_mac1Key r) (macOver over1 (r_typeInitiation r)) in
      if negb (bool_decide (want = iMAC1 msg)) then se_fail ErrMAC1 else
      se_modify (rset_index (iSender msg)) ;;!
      let ck := hashOf [construction] in
      let ih := hashOf [ck; identifier] in
      se_modify (rset_ck ck) ;;!
      se_modify (rset_h (hashOf [ih; PublicKey (r_localStatic r)])) ;;!
      let peerEph := iEphemeral msg in
      se_modify (rset_eph peerEph) ;;!
      se_modify (fun r => rset_h (hashOf [r_h r; peerEph]) r) ;;!
      se_modify (fun r => rset_ck (kdf1 (r_ck r) peerEph) r) ;;!
      let! es := se_lift (dh_result (ECDH (r_localStatic r) peerEph)) in
      let! (ck, k) := se_gets (fun r => kdf2 (r_ck r) es) in
      se_modify (rset_ck ck) ;;!
      let! h := se_gets r_h in
      let! ps := se_lift (hs_open k h (iStatic msg)) in
      if negb (length ps =? KeySize)%nat then se_fail ErrPeerStatic else
      se_modify (rset_static ps) ;;!
      se_modify (fun r => rset_h (hashOf [r_h r; iStatic msg]) r) ;;!
      let! ss := se_lift (dh_result (ECDH (r_localStatic r) ps)) in
      let! (ck, k) := se_gets (fun r => kdf2 (r_ck r) ss) in
      se_modify (rset_ck ck) ;;!
      let! h := se_gets r_h in
      let! ts := se_lift (hs_open k h (iTimestamp msg)) in
      se_modify (fun r => rset_h (hashOf [r_h r; iTimestamp msg]) r) ;;!
      se_modify (fun r => rset_done (go_copy (r_timestamp r) ts) r) ;;!
      let! ts := se_gets r_timestamp in
      se_ret (ps, ts)
  end.

(** [Response], with the ephemeral key and index it draws. *)
Definition Response (psk eph : bytes) (idx : Z) : SE noise_error Responder (bytes * Keypair) :=
  let! r := se_gets id in
  if negb (r_consumed r) then se_fail ErrNotConsumed else
  let ephemeral := PublicKey eph in
  se_modify (fun r => rset_h (hashOf [r_h r; ephemeral]) r) ;;!
  se_modify (fun r => rset_ck (kdf1 (r_ck r) ephemeral) r) ;;!
  let! ee := se_lift (dh_result (ECDH eph (r_peerEph r))) in
  se_modify (fun r => rset_ck (kdf1 (r_ck r) ee) r) ;;!
  let! se := se_lift (dh_result (ECDH eph (r_peerStatic r))) in
  se_modify (fun r => rset_ck (kdf1 (r_ck r) se) r) ;;!
  let! (ck, tau, k) := se_gets (fun r => kdf3 (r_ck r) psk) in
  se_modify (rset_ck ck) ;;!
  se_modify (fun r => rset_h (hashOf [r_h r; tau]) r) ;;!
  let! empty := se_gets (fun r => hs_seal k (r_h r) []) in
  se_modify (fun r => rset_h (hashOf [r_h r; empty]) r) ;;!
  let! out := se_lift (wire_result (MarshalResponse
                (mkResp idx (r_peerIndex r) ephemeral empty (replicate MACSize 0) (replicate MACSize 0))
                (replicate SizeHandshakeResponse 0))) in
  let peerMAC1Key := hashOf [labelMAC1; r_peerStatic r] in
  let m1 := mac128 peerMAC1Key (macOver (take (SizeHandshakeResponse - 2 * MACSize) out) (r_typeResponse r)) in
  let out := blit out (SizeHandshakeResponse - 2 * MACSize) m1 in
  let! (recv, send) := se_gets (fun r => kdf2 (r_ck r) []) in
  se_ret (out, mkKeypair send recv idx (r_peerIndex r)).

(** ** What both ends compute *)

Context {PO : PrimsOk P} {NO : NoiseOk N}.

(** The chain after the initiation: its chaining key and hash, and the sealed static key and timestamp. *)
Record transcript := mkTranscript { t_ck : bytes; t_h : bytes; t_static : bytes; t_stamp : bytes }.

Definition init_transcript (rs e es ss spub ts : bytes) : transcript :=
  let ck := hashOf [construction] in
  let h := hashOf [hashOf [hashOf [ck; identifier]; rs]; e] in
  let '(ck, k) := kdf2 (kdf1 ck e) es in
  let static := hs_seal k h spub in
  let h := hashOf [h; static] in
  let '(ck, k) := kdf2 ck ss in
  let stamp := hs_seal k h ts in
  mkTranscript ck (hashOf [h; stamp]) static stamp.

(** The chain after the response: the final chaining key, the hash under which the empty payload is sealed and its key. *)
Definition resp_transcript (ck h e ee se psk : bytes) : bytes * bytes * bytes :=
  let '(ck, tau, k) := kdf3 (kdf1 (kdf1 (kdf1 ck e) ee) se) psk in
  (ck, hashOf [hashOf [h; e]; tau], k).

Definition init_head (m : HandshakeInitiation) : bytes :=
  [TypeHandshakeInitiation; 0; 0; 0] ++ le_enc 4 (iSender m) ++ iEphemeral m ++ iStatic m ++ iTimestamp m.

Definition resp_head (m : HandshakeResponse) : bytes :=
  [TypeHandshakeResponse; 0; 0; 0] ++ le_enc 4 (rSender m) ++ le_enc 4 (rReceiver m) ++ rEphemeral m ++ rEmpty m.

Definition with_macs (m : HandshakeInitiation) (m1 m2 : bytes) : HandshakeInitiation :=
  mkInit (iSender m) (iEphemeral m) (iStatic m) (iTimestamp m) m1 m2.

Definition with_mac1 (m : HandshakeResponse) (m1 : bytes) : HandshakeResponse :=
  mkResp (rSender m) (rReceiver m) (rEphemeral m) (rEmpty m) m1 (rMAC2 m).

Lemma Marshal_init_eq m : MarshalInitiation m (replicate 148 0) = Ok (init_head m ++ iMAC1 m ++ iMAC2 m).
Proof. unfold MarshalInitiation, init_head. rewrite length_replicate. cbn [Nat.ltb Nat.leb]. by rewrite <- !app_assoc. Qed.

Lemma Marshal_resp_eq m : MarshalResponse m (replicate 92 0) = Ok (resp_head m ++ rMAC1 m ++ rMAC2 m).
Proof. unfold MarshalResponse, resp_head. rewrite length_replicate. cbn [Nat.ltb Nat.leb]. by rewrite <- !app_assoc. Qed.

Lemma length_init_head m : wf_init m -> length (init_head m) = initMAC1Offset.
Proof. intros []. unfold init_head. autorewrite with wire. lia. Qed.

Lemma length_resp_head m : wf_resp m -> length (resp_head m) = respMAC1Offset.
Proof. intros []. unfold resp_head. autorewrite with wire. lia. Qed.

Lemma length_kdf1 ck x : length (kdf1 ck x) = KeySize.
Proof. apply length_hmacBlake2s. Qed.

(** A marshalled initiation: what the parser, the MAC regions and the MACs are. *)
Lemma marshalled_init m :
  wf_init m ->
  let pkt := init_head m ++ iMAC1 m ++ iMAC2 m in
  length pkt = SizeHandshakeInitiation /\ Type_of pkt = Some TypeHandshakeInitiation /\
  ParseHandshakeInitiation pkt = Ok m /\ MACRegions pkt = Some (init_head m, init_head m ++ iMAC1 m).
Proof.
  intros W pkt. destruct (MarshalInitiation_spec m (replicate 148 0) W) as (pkt' & E & Hl & Ht & Hp);
    [by rewrite length_replicate|].
  rewrite Marshal_init_eq in E. apply Ok_inj in E as <-. split_and!; [done..|].
  unfold MACRegions. subst pkt. rewrite Hl. cbn [Nat.eqb]. f_equal. pose proof (length_init_head m W) as L.
  f_equal; [by rewrite take_app_length'|].
  rewrite app_assoc, take_app_length'; [done|]. rewrite length_app, L, wi_mac1 by done. done.
Qed.

Lemma marshalled_resp m :
  wf_resp m ->
  let pkt := resp_head m ++ rMAC1 m ++ rMAC2 m in
  length pkt = SizeHandshakeResponse /\ Type_of pkt = Some TypeHandshakeResponse /\
  ParseHandshakeResponse pkt = Ok m.
Proof.
  intros W pkt. destruct (MarshalResponse_spec m (replicate 92 0) W) as (pkt' & E & Hl & Ht & Hp);
    [by rewrite length_replicate|].
  rewrite Marshal_resp_eq in E. by apply Ok_inj in E as <-.
Qed.

Ltac run := cbn [se_bind se_gets se_modify se_lift se_ret se_fail id
  set_cookie set_eph set_idx set_ck set_h set_mac1 set_sent
  rset_ck rset_h rset_eph rset_static rset_index rset_done
  localStatic remoteStatic presharedKey mac1Key cookieKey cookie ephemeral localIdx i_ck i_h lastMAC1 sent typeInitiation
  r_localStatic r_mac1Key r_ck r_h r_peerEph r_peerStatic r_peerIndex r_timestamp r_consumed r_typeInitiation r_typeResponse
  iSender iEphemeral iStatic iTimestamp iMAC1 iMAC2 rSender rReceiver rEphemeral rEmpty rMAC1 rMAC2
  wire_result dh_result open_result kdf2 kdf3 negb fst snd].

(** One statement of a method: the value and the state it leaves, evaluated. *)
Ltac step :=
  lazymatch goal with
  | |- se_bind _ _ _ = _ => etrans; [eapply se_bind_ok; run; cbv beta zeta delta [kdf2 kdf3 id]; reflexivity|]; cbv beta iota zeta
  end.
Ltac step_with H :=
  lazymatch goal with
  | |- se_bind _ _ _ = _ => etrans; [eapply se_bind_ok; run; rewrite H; run; reflexivity|]; cbv beta iota zeta
  end.

(** The MACs an initiator stamps on a message. *)
Definition mac1_of (i : Initiator) (m : HandshakeInitiation) : bytes :=
  mac128 (mac1Key i) (macOver (init_head m) (typeInitiation i)).
Definition mac2_of (i : Initiator) (m : HandshakeInitiation) : bytes :=
  if bool_decide (cookie i = zeroCookie) then replicate MACSize 0
  else mac128 (cookie i) (macOver (init_head m ++ mac1_of i m) (typeInitiation i)).

Lemma addMACs_spec i m :
  wf_init m ->
  let m' := with_macs m (mac1_of i m) (mac2_of i m) in
  addMACs (init_head m ++ iMAC1 m ++ iMAC2 m) i = (Ok (init_head m' ++ iMAC1 m' ++ iMAC2 m'), set_mac1 (mac1_of i m) i) /\
  wf_init m'.
Proof.
  intros W m'. pose proof (length_init_head m W) as L.
  assert (length (mac1_of i m) = 16%nat) as L1 by apply length_mac128.
  assert (length (mac2_of i m) = 16%nat) as L2.
  { unfold mac2_of. case_bool_decide; [apply length_replicate|apply length_mac128]. }
  split; [|by destruct W]. change (init_head m') with (init_head m).
  unfold addMACs. destruct (marshalled_init m W) as (_ & _ & _ & ->). run.
  fold (mac1_of i m). rewrite blit_mid by (rewrite ?L1, ?wi_mac1; done).
  rewrite length_app, L, wi_mac1 by done. change (116 + 16)%nat with 132%nat.
  assert (forall x, length x = 16%nat ->
    blit (init_head m ++ mac1_of i m ++ iMAC2 m) 132 x = init_head m ++ mac1_of i m ++ x) as B.
  { intros x Hx. rewrite <- (app_nil_r (iMAC2 m)), !app_assoc, <- (app_assoc _ (iMAC2 m)), blit_mid.
    - by rewrite app_nil_r.
    - by rewrite length_app, L, L1.
    - by rewrite Hx, wi_mac2. }
  assert (take 132 (init_head m ++ mac1_of i m ++ iMAC2 m) = init_head m ++ mac1_of i m) as T.
  { rewrite app_assoc, take_app_length'; [done|]. by rewrite length_app, L, L1. }
  subst m'. unfold mac2_of, with_macs. run. case_bool_decide; run.
  - by rewrite B by apply length_replicate.
  - rewrite T, length_app, L, L1. change (116 + 16)%nat with 132%nat. by rewrite B by apply length_mac128.
Qed.

(** The fields the handshake does not touch. *)
Definition same_identity (i i' : Initiator) : Prop :=
  localStatic i' = localStatic i /\ remoteStatic i' = remoteStatic i /\ presharedKey i' = presharedKey i /\
  mac1Key i' = mac1Key i /\ cookieKey i' = cookieKey i /\ typeInitiation i' = typeInitiation i.

Definition init_msg (i : Initiator) (idx : Z) (e : bytes) (T : transcript) : HandshakeInitiation :=
  let m := mkInit idx e (t_static T) (t_stamp T) (replicate MACSize 0) (replicate MACSize 0) in
  with_macs m (mac1_of i m) (mac2_of i m).

Lemma length_Timestamp u n : length (Timestamp u n) = TimestampLen.
Proof. unfold Timestamp. by autorewrite with wire. Qed.

Lemma length_hs_seal k h pt : length (hs_seal k h pt) = (length pt + TagSize)%nat.
Proof. apply length_aeadSeal. Qed.

Lemma Initiation_run i eph idx u n es ss :
  sent i = false ->
  ECDH eph (remoteStatic i) = Some es -> ECDH (localStatic i) (remoteStatic i) = Some ss ->
  let T := init_transcript (remoteStatic i) (PublicKey eph) es ss (PublicKey (localStatic i)) (Timestamp u n) in
  let m := mkInit idx (PublicKey eph) (t_static T) (t_stamp T) (replicate MACSize 0) (replicate MACSize 0) in
  Initiation eph idx u n i =
    (let! out := addMACs (init_head m ++ iMAC1 m ++ iMAC2 m) in se_modify set_sent ;;! se_ret out)
      (set_h (t_h T) (set_ck (t_ck T) (set_idx idx (set_eph eph i)))).
Proof.
  intros Hs Hes Hss T m. unfold Initiation. step. rewrite Hs. do 7 step. step_with Hes. do 5 step. step_with Hss. do 4 step.
  etrans; [eapply se_bind_ok; rewrite Marshal_init_eq; reflexivity|]. reflexivity.
Qed.

Lemma Initiation_spec i eph idx u n es ss :
  sent i = false -> uint32 idx ->
  ECDH eph (remoteStatic i) = Some es -> ECDH (localStatic i) (remoteStatic i) = Some ss ->
  let T := init_transcript (remoteStatic i) (PublicKey eph) es ss (PublicKey (localStatic i)) (Timestamp u n) in
  let m := init_msg i idx (PublicKey eph) T in
  wf_init m /\ exists i',
    Initiation eph idx u n i = (Ok (init_head m ++ iMAC1 m ++ iMAC2 m), i') /\
    sent i' = true /\ ephemeral i' = eph /\ localIdx i' = idx /\ i_ck i' = t_ck T /\ i_h i' = t_h T /\
    lastMAC1 i' = iMAC1 m /\ same_identity i i'.
Proof.
  intros Hs Hi Hes Hss T m.
  set (m0 := mkInit idx (PublicKey eph) (t_static T) (t_stamp T) (replicate MACSize 0) (replicate MACSize 0)).
  assert (wf_init m0) as W0.
  { subst T. split; cbn [init_transcript kdf2 t_static t_stamp iSender iEphemeral iStatic iTimestamp iMAC1 iMAC2 m0];
      rewrite ?length_hs_seal, ?length_PublicKey, ?length_Timestamp, ?length_replicate; done. }
  rewrite (Initiation_run i eph idx u n es ss Hs Hes Hss). fold T m0.
  set (j := set_h _ _). destruct (addMACs_spec j m0 W0) as [E W]. split; [exact W|].
  eexists. split; [etrans; [apply (se_bind_ok _ _ _ _ _ E)|reflexivity]|]. by split_and!.
Qed.

Lemma Responder_Consume_spec r m b es ss spub ts T :
  wf_init m -> b = r_localStatic r -> length spub = KeySize -> length ts = TimestampLen -> length (r_timestamp r) = TimestampLen ->
  iMAC1 m = mac128 (r_mac1Key r) (macOver (init_head m) (r_typeInitiation r)) ->
  T = init_transcript (PublicKey b) (iEphemeral m) es ss spub ts ->
  iStatic m = t_static T -> iTimestamp m = t_stamp T ->
  ECDH b (iEphemeral m) = Some es -> ECDH b spub = Some ss ->
  Responder_Consume (init_head m ++ iMAC1 m ++ iMAC2 m) r =
    (Ok (spub, ts), mkResponder b (r_mac1Key r) (t_ck T) (t_h T) (iEphemeral m) spub (iSender m) ts true
                      (r_typeInitiation r) (r_typeResponse r)).
Proof.
  intros W -> Lp Lt Lts HM ET Hst Hts Hes Hss. unfold Responder_Consume.
  destruct (marshalled_init m W) as (_ & _ & HP & ->). step_with HP. step.
  rewrite <- HM, bool_decide_eq_true_2 by done. cbv iota beta delta [negb]. do 6 step. step_with Hes. do 3 step.
  assert (forall k h pt, hs_open k h (hs_seal k h pt) = Ok pt) as OS
    by (intros; unfold hs_open, hs_seal; by rewrite aead_open_seal).
  rewrite Hst, Hts, ET. unfold init_transcript. cbv beta zeta iota delta [kdf2 t_static t_stamp t_ck t_h].
  do 1 step_with OS. rewrite Lp. cbv iota beta delta [Nat.eqb negb]. do 2 step. step_with Hss. do 3 step. step_with OS.
  do 3 step. rewrite go_copy_full by by rewrite Lts, Lt. reflexivity.
Qed.

(** One statement of [Consume] that succeeded, of which only the responder's timestamp matters. *)
Ltac back H T :=
  let a := fresh "a" in let s := fresh "s" in let E := fresh "E" in
  apply se_bind_inv in H as (a & s & E & H);
  apply (f_equal (fun x => r_timestamp x.2)) in E; unfold se_gets, se_modify, se_lift in E;
  cbn [snd r_timestamp rset_ck rset_h rset_eph rset_static rset_index] in E; rewrite T in E; clear T; symmetry in E; rename E into T;
  repeat match goal with x : (_ * _)%type |- _ => destruct x end; cbv beta iota zeta in H.

(** What [Consume] returns: the timestamp sealed in the message, copied over the responder's. *)
Lemma Responder_Consume_inv pkt r k ts r' :
  Responder_Consume pkt r = (Ok (k, ts), r') ->
  exists msg k2 h pt, ParseHandshakeInitiation pkt = Ok msg /\ hs_open k2 h (iTimestamp msg) = Ok pt /\
    ts = go_copy (r_timestamp r) pt.
Proof.
  unfold Responder_Consume. intros H. apply se_bind_inv in H as (msg & s1 & E & H).
  unfold se_lift in E. apply pair_equal_spec in E as [E <-].
  assert (ParseHandshakeInitiation pkt = Ok msg) as Ep by (destruct (ParseHandshakeInitiation pkt); [by apply Ok_inj in E as <-|done]).
  destruct (MACRegions pkt) as [[over1 ?]|]; [|done].
  remember (r_timestamp r) as z eqn:T. symmetry in T. back H T. destruct (negb _); [done|]. do 11 back H T.
  destruct (negb _); [done|]. do 6 back H T.
  apply se_bind_inv in H as (pt & s' & Eo & H). unfold se_lift in Eo. apply pair_equal_spec in Eo as [Eo <-]. back H T.
  unfold se_bind, se_modify, se_gets, se_ret in H. apply pair_equal_spec in H as [H _]. apply Ok_inj in H.
  apply pair_equal_spec in H as [_ <-]. eexists msg, _, _, pt. split_and!; [done|exact Eo|]. cbn [r_timestamp rset_done]. by rewrite T.
Qed.

(** The response as sent: mac1 under the peer's key, mac2 zero. *)
Definition resp_msg (r : Responder) (idx : Z) (e empty : bytes) : HandshakeResponse :=
  let m := mkResp idx (r_peerIndex r) e empty (replicate MACSize 0) (replicate MACSize 0) in
  with_mac1 m (mac128 (hashOf [labelMAC1; r_peerStatic r]) (macOver (resp_head m) (r_typeResponse r))).

Lemma resp_msg_wf r idx e h k :
  uint32 idx -> uint32 (r_peerIndex r) -> length e = KeySize -> wf_resp (resp_msg r idx e (hs_seal k h [])).
Proof.
  intros. split; cbn [resp_msg with_mac1 rSender rReceiver rEphemeral rEmpty rMAC1 rMAC2];
    rewrite ?length_hs_seal, ?length_mac128, ?length_replicate; done.
Qed.

Lemma resp_stamp m m1 :
  wf_resp m -> length m1 = MACSize ->
  blit (resp_head m ++ rMAC1 m ++ rMAC2 m) 60 m1 = resp_head (with_mac1 m m1) ++ m1 ++ rMAC2 m /\
  take 60 (resp_head m ++ rMAC1 m ++ rMAC2 m) = resp_head m.
Proof.
  intros W L1. pose proof (length_resp_head m W) as L. split; [|by rewrite take_app_length'].
  rewrite blit_mid; [done|by rewrite L|by rewrite L1, wr_mac1].
Qed.

Lemma Response_spec r psk eph idx ee se :
  r_consumed r = true -> uint32 idx -> uint32 (r_peerIndex r) ->
  ECDH eph (r_peerEph r) = Some ee -> ECDH eph (r_peerStatic r) = Some se ->
  let '(ck, h, k) := resp_transcript (r_ck r) (r_h r) (PublicKey eph) ee se psk in
  let m := resp_msg r idx (PublicKey eph) (hs_seal k h []) in
  exists r', Response psk eph idx r =
    (Ok (resp_head m ++ rMAC1 m ++ rMAC2 m, mkKeypair (kdf2 ck []).2 (kdf2 ck []).1 idx (r_peerIndex r)), r').
Proof.
  intros Hc Hi Hp Hee Hse. unfold resp_transcript. cbv beta zeta iota delta [kdf3]. eexists. unfold Response. step.
  rewrite Hc. cbv iota beta zeta delta [negb]. do 2 step. step_with Hee. step. step_with Hse. do 6 step.
  etrans; [eapply se_bind_ok; rewrite Marshal_resp_eq; reflexivity|]. cbv beta zeta.
  set (m := mkResp idx (r_peerIndex r) (PublicKey eph) (hs_seal _ _ []) (replicate 16 0) (replicate 16 0)).
  change (92 - 2 * 16)%nat with 60%nat.
  assert (wf_resp m) as W.
  { split; cbn [rSender rReceiver rEphemeral rEmpty rMAC1 rMAC2 m];
      rewrite ?length_hs_seal, ?length_PublicKey, ?length_replicate; done. }
  destruct (resp_stamp m (mac128 (hashOf [labelMAC1; r_peerStatic r]) (macOver (resp_head m) (r_typeResponse r))) W)
    as [B T]; [apply length_mac128|].
  change (rMAC1 m) with (replicate 16 0) in *. change (rMAC2 m) with (replicate 16 0) in *.
  rewrite T, B. step. reflexivity.
Qed.

Lemma Initiator_Consume_spec i m ee se ck h k :
  wf_resp m -> sent i = true -> rReceiver m = localIdx i ->
  ECDH (ephemeral i) (rEphemeral m) = Some ee -> ECDH (localStatic i) (rEphemeral m) = Some se ->
  resp_transcript (i_ck i) (i_h i) (rEphemeral m) ee se (presharedKey i) = (ck, h, k) ->
  rEmpty m = hs_seal k h [] ->
  exists i', Initiator_Consume (resp_head m ++ rMAC1 m ++ rMAC2 m) i =
    (Ok (mkKeypair (kdf2 ck []).1 (kdf2 ck []).2 (localIdx i) (rSender m)), i').
Proof.
  intros W Hs Hr Hee Hse HT He. unfold resp_transcript in HT.
  destruct (kdf3 _ _) as [[ck' tau] k'] eqn:EK. apply pair_equal_spec in HT as [HT <-]. apply pair_equal_spec in HT as [<- <-].
  eexists. unfold Initiator_Consume. step. rewrite Hs. cbv iota beta zeta delta [negb].
  destruct (marshalled_resp m W) as (_ & _ & HP). step_with HP. rewrite Hr, Z.eqb_refl. cbv iota beta zeta delta [negb].
  step_with Hee. step_with Hse. rewrite EK.
  etrans; [eapply se_bind_ok; unfold se_lift, hs_open; rewrite He; unfold hs_seal; rewrite aead_open_seal; reflexivity|].
  cbv beta. step. destruct (kdf2 ck' []). reflexivity.
Qed.

(** ** Agreement *)

(** The four Diffie-Hellman results of a handshake: ephemeral-static, static-static,
    ephemeral-ephemeral and static-ephemeral, none of them refused. *)
Record dh_defined (a b e1 e2 es ss ee se : bytes) : Prop := {
  dh_es : ECDH e1 (PublicKey b) = Some es;
  dh_ss : ECDH a (PublicKey b) = Some ss;
  dh_ee : ECDH e1 (PublicKey e2) = Some ee;
  dh_se : ECDH a (PublicKey e2) = Some se;
}.

(** The two ends of one handshake. *)
Definition mirrored (kpI kpR : Keypair) : Prop :=
  kpSend kpI = kpRecv kpR /\ kpRecv kpI = kpSend kpR /\ kpLocal kpI = kpRemote kpR /\ kpRemote kpI = kpLocal kpR.

Lemma handshake_initiation cfg c b e1 idx1 u n es ss h2 :
  RemoteStatic cfg = PublicKey b -> uint32 idx1 ->
  ECDH e1 (PublicKey b) = Some es -> ECDH (LocalStatic cfg) (PublicKey b) = Some ss ->
  let T := init_transcript (PublicKey b) (PublicKey e1) es ss (PublicKey (LocalStatic cfg)) (Timestamp u n) in
  let m := init_msg (set_cookie c (NewInitiator cfg)) idx1 (PublicKey e1) T in
  let pkt := init_head m ++ iMAC1 m ++ iMAC2 m in
  wf_init m /\ exists i,
    Initiation e1 idx1 u n (set_cookie c (NewInitiator cfg)) = (Ok pkt, i) /\
    sent i = true /\ ephemeral i = e1 /\ localIdx i = idx1 /\ i_ck i = t_ck T /\ i_h i = t_h T /\
    lastMAC1 i = iMAC1 m /\ same_identity (NewInitiator cfg) i /\
    Responder_Consume pkt (NewResponderWithTypes b (TypeInitiation cfg) h2) =
      (Ok (PublicKey (LocalStatic cfg), Timestamp u n),
       mkResponder b (hashOf [labelMAC1; PublicKey b]) (t_ck T) (t_h T) (PublicKey e1) (PublicKey (LocalStatic cfg)) idx1
         (Timestamp u n) true (TypeInitiation cfg) h2).
Proof.
  intros Hb Hi Hes Hss T m pkt.
  destruct (Initiation_spec (set_cookie c (NewInitiator cfg)) e1 idx1 u n es ss) as (W & i & E & H1 & H2 & H3 & H4 & H5 & H6 & H7);
    [done|done|by cbn [remoteStatic localStatic set_cookie NewInitiator]; rewrite Hb..|].
  change (remoteStatic (set_cookie c (NewInitiator cfg))) with (RemoteStatic cfg) in *. rewrite Hb in *.
  split; [exact W|]. exists i. split_and!; try done.
  etrans; [apply (Responder_Consume_spec (NewResponderWithTypes b (TypeInitiation cfg) h2) m b es ss
                    (PublicKey (LocalStatic cfg)) (Timestamp u n) T)|reflexivity]; try done.
  - apply length_PublicKey.
  - cbn [m init_msg with_macs iMAC1]. unfold mac1_of. run. cbn [NewInitiator mac1Key]. by rewrite Hb.
  - cbn [m init_msg with_macs iEphemeral]. by rewrite <- ECDH_agree.
  - by rewrite <- ECDH_agree.
Qed.

Lemma handshake_response cfg i r e1 e2 idx1 idx2 ee se :
  sent i = true -> ephemeral i = e1 -> localIdx i = idx1 -> same_identity (NewInitiator cfg) i ->
  i_ck i = r_ck r -> i_h i = r_h r -> r_consumed r = true -> r_peerEph r = PublicKey e1 ->
  r_peerStatic r = PublicKey (LocalStatic cfg) -> r_peerIndex r = idx1 -> uint32 idx1 -> uint32 idx2 ->
  ECDH e1 (PublicKey e2) = Some ee -> ECDH (LocalStatic cfg) (PublicKey e2) = Some se ->
  exists pkt kpR r' kpI i',
    Response (PresharedKey cfg) e2 idx2 r = (Ok (pkt, kpR), r') /\
    Initiator_Consume pkt i = (Ok kpI, i') /\ mirrored kpI kpR /\ kpLocal kpI = idx1 /\ kpLocal kpR = idx2 /\
    length pkt = SizeHandshakeResponse /\ Type_of pkt = Some TypeHandshakeResponse.
Proof.
  intros Hs He Hx (I1 & _ & I3 & _) Hck Hh Hc Hpe Hps Hpi U1 U2 Dee Dse.
  pose proof (Response_spec r (PresharedKey cfg) e2 idx2 ee se Hc U2) as HR.
  destruct (resp_transcript (r_ck r) (r_h r) (PublicKey e2) ee se (PresharedKey cfg)) as [[ck h] k] eqn:ET.
  set (m := resp_msg r idx2 (PublicKey e2) (hs_seal k h [])) in *.
  assert (wf_resp m) as W by (apply resp_msg_wf; [done|by rewrite Hpi|apply length_PublicKey]).
  destruct HR as [r' HR]; [by rewrite Hpi|by rewrite Hpe, ECDH_agree|by rewrite Hps, ECDH_agree|].
  destruct (Initiator_Consume_spec i m ee se ck h k) as [i' HI]; try done.
  - by rewrite Hx, <- Hpi.
  - by rewrite He.
  - by rewrite I1.
  - by rewrite Hck, Hh, I3.
  - destruct (marshalled_resp m W) as (Hl & Ht & _). eexists _, _, r', _, i'. split; [exact HR|]. split; [exact HI|].
    split_and!; try done. by split_and!; cbn; rewrite ?Hx, ?Hpi.
Qed.

(** C14: A WireGuard handshake completed by the two implementations agrees.  Whatever cookie the
    initiator holds and whatever type words AmneziaWG configures, the responder opens the
    initiation to the initiator's static public key and its timestamp, and its response
    leaves both with the same two transport keys, each sending under the other's receiving
    key and holding the other's index.  The four Diffie-Hellman operations must be defined
    (Go refuses a low-order point). *)
Theorem wg_handshake_agrees (cfg : Config) (c b e1 e2 es ss ee se : bytes) (idx1 idx2 unix nsec h2 : Z) :
  RemoteStatic cfg = PublicKey b -> uint32 idx1 -> uint32 idx2 ->
  dh_defined (LocalStatic cfg) b e1 e2 es ss ee se ->
  exists pkt1 i r pkt2 kpR r' kpI i',
    Initiation e1 idx1 unix nsec (set_cookie c (NewInitiator cfg)) = (Ok pkt1, i) /\
    Responder_Consume pkt1 (NewResponderWithTypes b (TypeInitiation cfg) h2) =
      (Ok (PublicKey (LocalStatic cfg), Timestamp unix nsec), r) /\
    Response (PresharedKey cfg) e2 idx2 r = (Ok (pkt2, kpR), r') /\
    Initiator_Consume pkt2 i = (Ok kpI, i') /\
    mirrored kpI kpR /\ kpLocal kpI = idx1 /\ kpLocal kpR = idx2.
Proof.
  intros Hb U1 U2 [Des Dss Dee Dse].
  destruct (handshake_initiation cfg c b e1 idx1 unix nsec es ss h2 Hb U1 Des Dss)
    as (_ & i & EI & H1 & H2 & H3 & H4 & H5 & _ & H7 & ER).
  match type of ER with _ = (_, ?r) =>
    destruct (handshake_response cfg i r e1 e2 idx1 idx2 ee se) as (pkt2 & kpR & r' & kpI & i' & E1 & E2 & M & K1 & K2 & _);
      try done end.
  eexists _, i, _, pkt2, kpR, r', kpI, i'. by split_and!.
Qed.

End Noise.

(** ** An instance of the primitives *)

Definition pad32 (k : bytes) : bytes := take 32 (k ++ replicate 32 0).

(** Keys are their own public halves, a shared secret is the sum of both keys, digests are checksums. *)
Definition toy_noise : NoisePrims := {|
  blake2s := fun d => replicate 32 (foldr Z.add 0 d mod 256);
  hmacBlake2s := fun k d => replicate 32 (foldr Z.add 1 (k ++ d) mod 256);
  mac128 := fun k d => replicate 16 (foldr Z.add 1 (k ++ d) mod 255 + 1);
  PublicKey := pad32;
  ECDH := fun a p => Some (zip_with Z.add (pad32 a) (pad32 p));
  xaeadSeal := fun _ _ _ pt => pt ++ replicate 16 0;
  xaeadOpen := fun _ _ _ ct => Some (take (length ct - 16) ct);
|}.

Lemma length_pad32 k : length (pad32 k) = 32%nat.
Proof. unfold pad32. rewrite length_take, length_app, length_replicate. lia. Qed.

Lemma pad32_idem k : pad32 (pad32 k) = pad32 k.
Proof. unfold pad32 at 1. by rewrite take_app_le, take_ge by by rewrite length_pad32. Qed.

Lemma toy_noise_ok : NoiseOk toy_noise.
Proof.
  split; cbn -[replicate app length pad32]; intros; rewrite ?length_replicate, ?length_pad32; try done.
  - f_equal. rewrite !pad32_idem. rewrite <- (zip_with_flip Z.add). apply zip_with_ext; [intros; unfold flip; lia|done..].
  - by rewrite length_app, length_replicate, Nat.add_sub, take_app_length.
  - by rewrite length_app, length_replicate.
Qed.

Lemma wg_handshake_agrees_witness :
  let cfg := mkConfig [1] (pad32 [2]) zeroKey 0 0 in
  exists pkt1 i r pkt2 kpR r' kpI i',
    Initiation (P := toy_prims) (N := toy_noise) [3] 7 100 5 (set_cookie zeroCookie (NewInitiator (N := toy_noise) cfg)) = (Ok pkt1, i) /\
    Responder_Consume (P := toy_prims) (N := toy_noise) pkt1 (NewResponderWithTypes (N := toy_noise) [2] 0 0) =
      (Ok (pad32 [1], Timestamp 100 5), r) /\
    Response (P := toy_prims) (N := toy_noise) zeroKey [4] 9 r = (Ok (pkt2, kpR), r') /\
    Initiator_Consume (P := toy_prims) (N := toy_noise) pkt2 i = (Ok kpI, i') /\
    mirrored kpI kpR /\ kpLocal kpI = 7 /\ kpLocal kpR = 9.
Proof.
  apply (wg_handshake_agrees (P := toy_prims) (N := toy_noise) (PO := toy_prims_ok) (NO := toy_noise_ok)
    (mkConfig [1] (pad32 [2]) zeroKey 0 0) zeroCookie [2] [3] [4]
    (zip_with Z.add (pad32 [3]) (pad32 [2])) (zip_with Z.add (pad32 [1]) (pad32 [2]))
    (zip_with Z.add (pad32 [3]) (pad32 [4])) (zip_with Z.add (pad32 [1]) (pad32 [4]))); [reflexivity|by_decision..|].
  split; reflexivity.
Defined.
