(* ===== verification/WgCookie.v ===== *)
(** * WireGuard's cookies, [internal/wireguard/noise/cookie.go] and [internal/wireguard/cookie.go]

    The responder's [CookieChecker], the initiator's side of a cookie reply, the
    cookie a client holds and the meter that decides when a server is under load.
    Random draws and clock readings are arguments; the zero [time.Time] is [None]
    where the code asks [IsZero].

    The theorems: a cookie reply gives the initiator exactly the cookie the
    responder checks against, so its next initiation from the same address passes
    both MACs for as long as the secret lives; and within one window the load meter
    lets no more initiations through without a cookie than its threshold. *)
From Stdlib Require Import ZArith Lia.
From Stdlib Require String.
Import String.StringSyntax.
From stdpp Require Import base list.
From S2P Require Import Prelude Routes Packet WgWire Crypto WgNoise.

Abbreviation CookieRefreshTime := 120000000000 (only parsing).

Section Cookie.
Context {P : Prims} {N : NoisePrims}.

(** ** The responder *)

Record CookieChecker := mkChecker {
  c_mac1Key : bytes; c_encKey : bytes; c_typeInitiation : Z; secret : bytes; secretAt : option Z }.

Definition NewCookieChecker (priv : bytes) (typeInit : Z) : CookieChecker :=
  let pub := PublicKey priv in
  mkChecker (hashOf [labelMAC1; pub]) (hashOf [labelCookie; pub]) typeInit zeroKey None.

(** [netip.Addr.AsSlice]; the invalid address has none. *)
Definition AsSlice (a : option Addr) : bytes :=
  match a with
  | Some (IPv4 x) => be_enc 4 x
  | Some (IPv6 x) => be_enc 16 x
  | None => []
  end.

(** An address and port: [netip.AddrPort]. *)
Definition AddrPort : Type := option Addr * Z.

Definition cookieFor (c : CookieChecker) (src : AddrPort) : bytes :=
  let am := replicate 18 0 in
  let a := AsSlice (Unmap <$> src.1) in
  let n := length a in
  let am := blit (go_copy am a) n (be_enc 2 src.2) in
  mac128 (secret c) (take (n + 2) am).

Definition CheckMAC1 (c : CookieChecker) (msg : bytes) : bool :=
  match MACRegions msg with
  | None => false
  | Some (over1, _) =>
      if negb (length msg =? SizeHandshakeInitiation)%nat then false
      else
        let want := mac128 (c_mac1Key c) (macOver over1 (c_typeInitiation c)) in
        bool_decide (want = slice msg (length over1) (length over1 + MACSize))
  end.

Definition CheckMAC2 (c : CookieChecker) (msg : bytes) (src : AddrPort) (now : Z) : bool :=
  match MACRegions msg with
  | None => false
  | Some (_, over2) =>
      if negb (length msg =? SizeHandshakeInitiation)%nat then false
      else
        let fresh := match secretAt c with Some at_ => time_sub now at_ <=? CookieRefreshTime | None => false end in
        let cookie := cookieFor c src in
        if negb fresh then false
        else
          let want := mac128 cookie (macOver over2 (c_typeInitiation c)) in
          bool_decide (want = slice msg (length over2) (length over2 + MACSize))
  end.

(** [CookieReply]: [now] and [now'] are its two clock readings, [newSecret] and [nonce] its draws. *)
Definition CookieReply_ (msg : bytes) (src : AddrPort) (now now' : Z) (newSecret nonce : bytes)
    : SE noise_error CookieChecker bytes :=
  if negb (length msg =? SizeHandshakeInitiation)%nat then se_fail (ErrWire ErrMalformed) else
  let over1 := match MACRegions msg with Some (over1, _) => over1 | None => [] end in
  let mac1 := slice msg (length over1) (length over1 + MACSize) in
  let! c := se_gets id in
  let stale := match secretAt c with Some at_ => CookieRefreshTime <? time_sub now at_ | None => true end in
  se_modify (fun c => if stale then mkChecker (c_mac1Key c) (c_encKey c) (c_typeInitiation c) newSecret (Some now') else c) ;;!
  let! c := se_gets id in
  let cookie := cookieFor c src in
  let reply := mkCookieReply (le_dec (slice msg 4 8)) nonce (xaeadSeal (c_encKey c) nonce mac1 cookie) in
  se_lift (wire_result (MarshalCookieReply reply (replicate SizeCookieReply 0))).

(** ** The initiator *)

Definition SetCookie (c : bytes) (i : Initiator) : Initiator := set_cookie c i.

Definition ConsumeCookieReply (pkt : bytes) (i : Initiator) : result noise_error bytes :=
  if negb (sent i) then Err ErrCookieReply else
  let* msg := wire_result (ParseCookieReply pkt) in
  if negb (cReceiver msg =? localIdx i) then Err ErrCookieReply else
  match xaeadOpen (cookieKey i) (cNonce msg) (lastMAC1 i) (cCookie msg) with
  | None => Err ErrCookieReply
  | Some c => Ok (go_copy zeroCookie c)
  end.

(** ** The cookie a client holds *)

Record cookieJar := mkJar { j_cookie : bytes; j_at : option Z }.

Definition emptyJar : cookieJar := mkJar zeroCookie None.

Definition keep (j : cookieJar) (c : bytes) (now : Z) : cookieJar := mkJar c (Some now).

Definition apply_jar (j : cookieJar) (i : Initiator) (now : Z) : Initiator :=
  match j_at j with
  | Some at_ => if time_sub now at_ <? CookieRefreshTime then SetCookie (j_cookie j) i else i
  | None => i
  end.

(** [takeCookie]: whether the datagram was a cookie for this initiation, and the jar. *)
Definition takeCookie (init : Initiator) (pkt : bytes) (jar : cookieJar) (now : Z) : bool * cookieJar :=
  match ConsumeCookieReply pkt init with
  | Err _ => (false, jar)
  | Ok c => (true, keep jar c now)
  end.

(** ** Load *)

Abbreviation DefaultCookieThreshold := 128 (only parsing).
Abbreviation second := 1000000000 (only parsing).

(** Instants are nanoseconds; a zero [time.Time] is far in the past. *)
Record handshakeLoad := mkLoad { threshold : Z; windowStart : Z; lcount : Z; until : Z; loaded : bool }.

Definition observe (l : handshakeLoad) (now : Z) : bool * bool * handshakeLoad :=
  if threshold l <? 0 then (true, false, l) else
  let '(windowStart, count) := if second <=? time_sub now (windowStart l) then (now, 0) else (windowStart l, lcount l) in
  let count := count + 1 in
  let until := if threshold l <? count then now + second else until l in
  let underLoad := now <? until in
  (underLoad, negb (Bool.eqb underLoad (loaded l)), mkLoad (threshold l) windowStart count until underLoad).

(** The answers to initiations observed at the given instants. *)
Fixpoint observe_all (l : handshakeLoad) (ts : list Z) : list bool :=
  match ts with
  | [] => []
  | t :: ts => let '(u, _, l') := observe l t in u :: observe_all l' ts
  end.

(** Within one window at most the threshold's worth of initiations is let through without a cookie. *)
Lemma load_bounded l ts :
  0 <= threshold l -> Forall (fun t => time_sub t (windowStart l) < second) ts ->
  Z.of_nat (length (List.filter negb (observe_all l ts))) <= Z.max 0 (threshold l - lcount l).
Proof.
  intros Ht. revert l Ht. induction ts as [|t ts IH]; intros l Ht Hf; [cbn; lia|].
  apply Forall_cons in Hf as [Hw Hf]. cbn [observe_all]. unfold observe.
  rewrite (proj2 (Z.ltb_ge _ _)), (proj2 (Z.leb_gt _ _)) by lia.
  destruct (Z.ltb_spec (threshold l) (lcount l + 1)) as [Hc|Hc]; cbn [fst snd List.filter].
  - rewrite (proj2 (Z.ltb_lt _ _)) by lia. cbn [negb].
    etrans; [apply IH; cbn [threshold windowStart]; done|]. cbn [threshold lcount]. lia.
  - match goal with |- context [observe_all ?l' ts] => pose proof (IH l' Ht Hf) as H end.
    cbn [threshold lcount] in H. destruct (t <? until l); cbn [negb length]; lia.
Qed.

(** ** A cookie reply and what it makes acceptable *)

Context {PO : PrimsOk P} {NO : NoiseOk N}.

Lemma length_cookieFor c src : length (cookieFor c src) = 16%nat.
Proof. apply length_mac128. Qed.

(** The checker of the responder with private key [b], whatever its secret. *)
Definition checker_for (b : bytes) (t : Z) (c : CookieChecker) : Prop :=
  c_mac1Key c = hashOf [labelMAC1; PublicKey b] /\ c_encKey c = hashOf [labelCookie; PublicKey b] /\ c_typeInitiation c = t.

(** The MACs and the sender index of a marshalled initiation. *)
Lemma init_fields m :
  wf_init m ->
  let pkt := init_head m ++ iMAC1 m ++ iMAC2 m in
  length (init_head m) = 116%nat /\ length (init_head m ++ iMAC1 m) = 132%nat /\
  slice pkt 116 132 = iMAC1 m /\ slice pkt 132 148 = iMAC2 m /\ le_dec (slice pkt 4 8) = iSender m.
Proof.
  intros W pkt. pose proof (length_init_head m W) as L. destruct W as [W1 W2 W3 W4 W5 W6].
  split_and!; [done|by rewrite length_app, L, W5|..]; subst pkt.
  - by cut_fields.
  - rewrite <- (app_nil_r (iMAC2 m)) at 1. by cut_fields.
  - unfold init_head. rewrite <- !app_assoc. cut_fields. by apply le_dec_enc_small.
Qed.

(** An initiation stamped by an initiator for [b] passes mac1, and mac2 under the cookie it held. *)
Lemma stamped_checks cfg b cc m0 ck :
  RemoteStatic cfg = PublicKey b -> checker_for b (TypeInitiation cfg) cc -> wf_init m0 ->
  let i := SetCookie ck (NewInitiator cfg) in
  let m := with_macs m0 (mac1_of i m0) (mac2_of i m0) in
  let pkt := init_head m ++ iMAC1 m ++ iMAC2 m in
  CheckMAC1 cc pkt = true /\
  forall src t at_, ck = cookieFor cc src -> ck <> zeroCookie -> secretAt cc = Some at_ ->
    time_sub t at_ <= CookieRefreshTime -> CheckMAC2 cc pkt src t = true.
Proof.
  intros Hb (C1 & C2 & C3) W0 i m pkt. destruct (addMACs_spec i m0 W0) as [_ W]. fold m in W.
  destruct (marshalled_init m W) as (Hl & _ & _ & HR). destruct (init_fields m W) as (L1 & L2 & S1 & S2 & _). fold pkt in Hl, HR.
  split.
  - unfold CheckMAC1. rewrite HR, Hl, L1. cbn [Nat.eqb negb Nat.add]. fold pkt in S1. rewrite S1. apply bool_decide_eq_true.
    rewrite C1, C3. unfold m at 2. cbn [with_macs iMAC1]. unfold mac1_of, i. cbn [SetCookie set_cookie NewInitiator mac1Key typeInitiation].
    by rewrite Hb.
  - intros src t at_ -> Hz Ha Hf. unfold CheckMAC2. rewrite HR, Hl, Ha, (proj2 (Z.leb_le _ _) Hf), L2. cbn [Nat.eqb negb Nat.add].
    fold pkt in S2. rewrite S2. apply bool_decide_eq_true. unfold m at 3. cbn [with_macs iMAC2]. unfold mac2_of, i.
    cbn [SetCookie set_cookie NewInitiator cookie typeInitiation]. rewrite bool_decide_eq_false_2 by done. by rewrite C3.
Qed.

(** A reply carries the cookie of the secret then in force, bound to the initiation. *)
Lemma CookieReply_spec cc m src now now' sec nonce :
  wf_init m -> length nonce = NonceSize ->
  exists reply cc' at_,
    CookieReply_ (init_head m ++ iMAC1 m ++ iMAC2 m) src now now' sec nonce cc = (Ok reply, cc') /\
    ParseCookieReply reply = Ok (mkCookieReply (iSender m) nonce (xaeadSeal (c_encKey cc) nonce (iMAC1 m) (cookieFor cc' src))) /\
    secretAt cc' = Some at_ /\ c_mac1Key cc' = c_mac1Key cc /\ c_encKey cc' = c_encKey cc /\ c_typeInitiation cc' = c_typeInitiation cc /\
    (at_ = now' \/ secretAt cc = Some at_ /\ secret cc' = secret cc /\ time_sub now at_ <= CookieRefreshTime).
Proof.
  intros W Ln. destruct (marshalled_init m W) as (Hl & _ & _ & HR). destruct (init_fields m W) as (L1 & _ & S1 & _ & S3).
  set (pkt := init_head m ++ iMAC1 m ++ iMAC2 m) in *.
  set (stale := match secretAt cc with Some at_ => CookieRefreshTime <? time_sub now at_ | None => true end).
  set (cc' := if stale then mkChecker (c_mac1Key cc) (c_encKey cc) (c_typeInitiation cc) sec (Some now') else cc).
  assert (c_mac1Key cc' = c_mac1Key cc /\ c_encKey cc' = c_encKey cc /\ c_typeInitiation cc' = c_typeInitiation cc) as (K1 & K2 & K3)
    by (subst cc'; by destruct stale).
  set (reply := mkCookieReply (iSender m) nonce (xaeadSeal (c_encKey cc) nonce (iMAC1 m) (cookieFor cc' src))).
  destruct (MarshalCookieReply_spec reply (replicate 64 0)) as (out & EM & _ & _ & EP).
  { split; cbn [reply cReceiver cNonce cCookie]; [by destruct W|done|]. by rewrite length_xaeadSeal, length_cookieFor. }
  { by rewrite length_replicate. }
  assert (exists at_, secretAt cc' = Some at_ /\
    (at_ = now' \/ secretAt cc = Some at_ /\ secret cc' = secret cc /\ time_sub now at_ <= CookieRefreshTime)) as (at_ & A1 & A2).
  { subst cc' stale. destruct (secretAt cc) as [a|] eqn:Ea; [|by eexists; split; [reflexivity|left]].
    destruct (Z.ltb_spec 120000000000 (time_sub now a)); [by eexists; split; [reflexivity|left]|].
    exists a. split; [done|]. right. by split_and!. }
  exists out, cc', at_. split_and!; try done.
  unfold CookieReply_. rewrite Hl. cbn [Nat.eqb negb]. rewrite HR, L1. cbn [Nat.add]. rewrite S1, S3.
  etrans; [eapply se_bind_ok; reflexivity|]. cbv beta zeta delta [id]. fold stale.
  etrans; [eapply se_bind_ok; reflexivity|]. cbv beta. fold cc'.
  etrans; [eapply se_bind_ok; reflexivity|]. cbv beta zeta delta [id]. rewrite K2. fold reply. by rewrite EM.
Qed.

(** The cookie exchange works.  An initiator whose initiation [pkt1] is answered by a cookie
    reply opens it to exactly the cookie the responder will check against for the address it
    replied to, and any later initiation it makes with that cookie passes mac1 and, from that
    address, passes mac2 for as long as the responder's secret is fresh. *)
Theorem cookie_exchange (cfg : Config) (b e1 e2 es ss es2 c0 sec nonce : bytes) (idx1 idx2 u1 n1 u2 n2 now now' : Z)
    (cc : CookieChecker) (src : AddrPort) (pkt1 : bytes) (i1 : Initiator) :
  RemoteStatic cfg = PublicKey b -> checker_for b (TypeInitiation cfg) cc ->
  uint32 idx1 -> uint32 idx2 -> length nonce = NonceSize ->
  ECDH e1 (PublicKey b) = Some es -> ECDH (LocalStatic cfg) (PublicKey b) = Some ss -> ECDH e2 (PublicKey b) = Some es2 ->
  Initiation e1 idx1 u1 n1 (SetCookie c0 (NewInitiator cfg)) = (Ok pkt1, i1) ->
  exists reply cc' at_,
    CookieReply_ pkt1 src now now' sec nonce cc = (Ok reply, cc') /\ secretAt cc' = Some at_ /\
    ConsumeCookieReply reply i1 = Ok (cookieFor cc' src) /\
    exists pkt2 i2,
      Initiation e2 idx2 u2 n2 (SetCookie (cookieFor cc' src) (NewInitiator cfg)) = (Ok pkt2, i2) /\
      CheckMAC1 cc' pkt2 = true /\
      (cookieFor cc' src <> zeroCookie ->
       forall t, time_sub t at_ <= CookieRefreshTime -> CheckMAC2 cc' pkt2 src t = true).
Proof.
  intros Hb HC U1 U2 Ln D1 D2 D3 EI.
  destruct (handshake_initiation cfg c0 b e1 idx1 u1 n1 es ss 0 Hb U1 D1 D2)
    as (W1 & i & EI' & H1 & _ & H3 & _ & _ & H6 & H7 & _).
  change (SetCookie c0) with (set_cookie c0) in EI. rewrite EI' in EI. apply pair_equal_spec in EI as [EI <-].
  apply Ok_inj in EI as <-.
  destruct (CookieReply_spec cc _ src now now' sec nonce W1 Ln) as (reply & cc' & at_ & E1 & E2 & E3 & K1 & K2 & K3 & _).
  exists reply, cc', at_. split_and!; [done|done|..].
  - unfold ConsumeCookieReply. rewrite H1, E2. cbn [wire_result rbind negb cReceiver cNonce cCookie].
    rewrite H3. match goal with |- context [?x =? idx1] => change x with idx1 end. rewrite Z.eqb_refl. cbn [negb]. rewrite H6. destruct H7 as (_ & _ & _ & _ & -> & _), HC as (_ & -> & _).
    cbn [NewInitiator cookieKey]. rewrite Hb, xaead_open_seal. f_equal. apply go_copy_full.
    by rewrite length_cookieFor, length_replicate.
  - assert (checker_for b (TypeInitiation cfg) cc') as HC' by (destruct HC as (? & ? & ?); split_and!; congruence).
    destruct (handshake_initiation cfg (cookieFor cc' src) b e2 idx2 u2 n2 es2 ss 0 Hb U2 D3 D2) as (W2 & i2 & EI2 & _).
    eexists _, i2. split; [exact EI2|].
    match type of W2 with wf_init (init_msg ?i _ ?e ?T) =>
      destruct (stamped_checks cfg b cc' (mkInit idx2 e (t_static T) (t_stamp T) (replicate 16 0) (replicate 16 0))
        (cookieFor cc' src) Hb HC') as [M1 M2] end.
    { destruct W2. by split. }
    split; [exact M1|]. intros Hz t Hf. by apply (M2 src t at_).
Qed.

End Cookie.

Lemma cookie_exchange_witness :
  let cfg := mkConfig [1] (pad32 [2]) zeroKey 0 0 in
  let cc := NewCookieChecker (N := toy_noise) [2] 0 in
  let src := (Some (IPv4 0x0a000001), 51820) in
  exists pkt1 i1, Initiation (P := toy_prims) (N := toy_noise) [3] 7 100 5 (NewInitiator (N := toy_noise) cfg) = (Ok pkt1, i1) /\
  exists reply cc' at_,
    CookieReply_ (N := toy_noise) pkt1 src 10 11 (replicate 32 9) (replicate 24 8) cc = (Ok reply, cc') /\ secretAt cc' = Some at_ /\
    ConsumeCookieReply (N := toy_noise) reply i1 = Ok (cookieFor (N := toy_noise) cc' src) /\
    exists pkt2 i2,
      Initiation (P := toy_prims) (N := toy_noise) [4] 8 101 5
        (SetCookie (cookieFor (N := toy_noise) cc' src) (NewInitiator (N := toy_noise) cfg)) = (Ok pkt2, i2) /\
      CheckMAC1 (N := toy_noise) cc' pkt2 = true /\
      (cookieFor (N := toy_noise) cc' src <> zeroCookie ->
       forall t, time_sub t at_ <= CookieRefreshTime -> CheckMAC2 (N := toy_noise) cc' pkt2 src t = true).
Proof.
  intros cfg cc src.
  destruct (handshake_initiation (P := toy_prims) (N := toy_noise) (PO := toy_prims_ok) (NO := toy_noise_ok) cfg zeroCookie [2] [3] 7 100 5
    (zip_with Z.add (pad32 [3]) (pad32 [2])) (zip_with Z.add (pad32 [1]) (pad32 [2])) 0) as (_ & i1 & E & _);
    [reflexivity|by_decision|reflexivity|reflexivity|].
  eexists _, i1. split; [exact E|].
  eapply (cookie_exchange (P := toy_prims) (N := toy_noise) (PO := toy_prims_ok) (NO := toy_noise_ok) cfg [2] [3] [4]
    (zip_with Z.add (pad32 [3]) (pad32 [2])) (zip_with Z.add (pad32 [1]) (pad32 [2])) (zip_with Z.add (pad32 [4]) (pad32 [2]))
    zeroCookie (replicate 32 9) (replicate 24 8) 7 8 100 5 101 5 10 11 cc src);
    [reflexivity|by split_and!|by_decision|by_decision|reflexivity|reflexivity|reflexivity|reflexivity|exact E].
Defined.
