(* ===== verification/WgTransport.v ===== *)
(** * WireGuard's transport sessions, [internal/wireguard/transport/transport.go]

    One handshake's keys in use: sealing under an ever advancing counter, padding,
    and opening behind the replay filter of [WgReplay].  The AEAD is the
    ChaCha20-Poly1305 of [Prims]; a session's prepared ciphers are their keys.

    The theorems: a session delivers every packet unchanged and at most once
    whatever the network does to its datagrams; the padding is aligned and never
    past its target; and refused seals keep advancing the counter, so a session
    sealed past its limit eventually wraps to counter zero. *)
From Stdlib Require Import ZArith Lia.
From stdpp Require Import base list gmap.
From S2P Require Import Prelude AntiReplay WgReplay Packet Crypto WgWire.

Abbreviation RejectAfterMessages := (2 ^ 64 - 2 ^ 13 - 1) (only parsing).

Inductive transport_error := ErrDecrypt | ErrReplay | ErrExhausted | ErrShort | ErrHeader (e : wire_error).

Record Session := mkSession {
  s_send : bytes; s_recv : bytes; s_local : Z; s_remote : Z; counter : Z; replay : replayFilter }.

Definition set_counter c s := mkSession (s_send s) (s_recv s) (s_local s) (s_remote s) c (replay s).
Definition set_replay f s := mkSession (s_send s) (s_recv s) (s_local s) (s_remote s) (counter s) f.

Definition NewSession (sendKey recvKey : bytes) (loc rem : Z) : Session := mkSession sendKey recvKey loc rem 0 newFilter.

Definition paddedLen (n minInner : Z) : Z :=
  if n =? 0 then 0 else
  let n :=
    if n <? minInner then
      let aligned := minInner - Z.rem minInner 16 in
      if n <? aligned then aligned else n
    else n in
  let rem := Z.rem n 16 in
  if rem =? 0 then n else n + 16 - rem.

Section Transport.
Context {P : Prims}.

(** [appendSeal]: the message, appended to [dst]. *)
Definition appendSeal (dst inner : bytes) (minInner : Z) : SE transport_error Session bytes :=
  let! s := se_gets id in
  let next := wrap 64 (counter s + 1) in
  se_modify (set_counter next) ;;!
  let ctr := wrap 64 (next - 1) in
  if RejectAfterMessages <=? ctr then se_fail ErrExhausted else
  let padded := Z.to_nat (paddedLen (Z.of_nat (length inner)) minInner) in
  match PutTransportHeader (replicate TransportHeaderLen 0) (s_remote s) ctr with
  | Err e => se_fail (ErrHeader e)
  | Ok out =>
      let plaintext := inner ++ replicate (padded - length inner) 0 in
      let nonce := replicate 4 0 ++ le_enc 8 ctr in
      se_ret (dst ++ out ++ aeadSeal ChaCha20Poly1305 (s_send s) nonce [] plaintext)
  end.

Definition Seal (inner : bytes) : SE transport_error Session bytes := appendSeal [] inner 0.
Definition SealPadded (inner : bytes) (minInner : Z) : SE transport_error Session bytes := appendSeal [] inner minInner.

(** [Open]: [Ok None] is the nil of a keepalive or of what is not an IP packet. *)
Definition Open (pkt : bytes) : SE transport_error Session (option bytes) :=
  if (length pkt <? MinTransportData)%nat then se_fail ErrShort else
  let ctr := le_dec (slice pkt 8 16) in
  if RejectAfterMessages <=? ctr then se_fail ErrReplay else
  let pkt := blit pkt 4 (replicate 4 0) in
  let nonce := slice pkt 4 TransportHeaderLen in
  let body := drop TransportHeaderLen pkt in
  let! s := se_gets id in
  match aeadOpen ChaCha20Poly1305 (s_recv s) nonce [] body with
  | None => se_fail ErrDecrypt
  | Some plain =>
      let '(fresh, f) := validate (replay s) ctr in
      se_modify (set_replay f) ;;!
      if negb fresh then se_fail ErrReplay else se_ret (TrimToIP plain)
  end.

(** ** Padding *)

Lemma paddedLen_spec n m :
  0 < n ->
  let p := paddedLen n m in
  n <= p /\ p mod 16 = 0 /\ (p <= m \/ p < n + 16).
Proof.
  intros Hn p. subst p. unfold paddedLen. rewrite (proj2 (Z.eqb_neq _ _)) by lia.
  assert (forall k, 0 < k -> let q := if Z.rem k 16 =? 0 then k else k + 16 - Z.rem k 16 in k <= q < k + 16 /\ q mod 16 = 0) as R.
  { intros k Hk. cbv zeta. rewrite Z.rem_mod_nonneg by lia. pose proof (Z.mod_pos_bound k 16 ltac:(lia)).
    destruct (Z.eqb_spec (k mod 16) 0) as [E|E]; [split; lia|]. split; [lia|].
    replace (k + 16 - k mod 16) with ((k / 16 + 1) * 16) by (pose proof (Z.div_mod k 16); lia). apply Z_mod_mult. }
  destruct (Z.ltb_spec n m) as [L|L].
  - set (a := m - Z.rem m 16). destruct (Z.ltb_spec n a) as [L'|L'].
    + assert (a mod 16 = 0) as Ea.
      { subst a. rewrite Z.rem_mod_nonneg by lia. replace (m - m mod 16) with (m / 16 * 16) by (pose proof (Z.div_mod m 16); lia).
        apply Z_mod_mult. }
      rewrite (Z.rem_mod_nonneg a) by lia. rewrite Ea. cbn [Z.eqb]. split_and!; [lia|done|].
      left. subst a. rewrite Z.rem_mod_nonneg by lia. pose proof (Z.mod_pos_bound m 16). lia.
    + destruct (R n Hn) as [? ?]. split_and!; [lia|done|]. right. lia.
  - destruct (R n Hn) as [? ?]. split_and!; [lia|done|]. right. lia.
Qed.

(** The shaper's padding keeps to its budget.  A non-empty packet's plaintext holds the packet,
    is a multiple of sixteen octets, and is longer than the shaper's target only by what
    alignment of the packet itself needs; an empty one (a keepalive) is never padded. *)
Theorem paddedLen_bounds (n m : Z) :
  0 <= n -> (n = 0 -> paddedLen n m = 0) /\
  (0 < n -> n <= paddedLen n m /\ paddedLen n m mod 16 = 0 /\ (paddedLen n m <= m \/ paddedLen n m < n + 16)).
Proof. intros Hn. split; [by intros ->|]. intros H. exact (paddedLen_spec n m H). Qed.

(** ** One message *)

Context {PO : PrimsOk P}.

(** The message sealed under key [k] for receiver [rem] with counter [c]. *)
Definition plain_of (inner : bytes) (m : Z) : bytes :=
  inner ++ replicate (Z.to_nat (paddedLen (Z.of_nat (length inner)) m) - length inner) 0.
Definition message (k : bytes) (rem c : Z) (inner : bytes) (m : Z) : bytes :=
  ([TypeTransportData; 0; 0; 0] ++ le_enc 4 rem ++ le_enc 8 c) ++
  aeadSeal ChaCha20Poly1305 k (replicate 4 0 ++ le_enc 8 c) [] (plain_of inner m).

(** A whole IP packet by its own header, or a keepalive. *)
Definition sendable (inner : bytes) : Prop := inner = [] \/ TrimToIP inner = Some inner.

Lemma put_header rem c :
  PutTransportHeader (replicate 16 0) rem c = Ok ([TypeTransportData; 0; 0; 0] ++ le_enc 4 rem ++ le_enc 8 c).
Proof. reflexivity. Qed.

Lemma appendSeal_spec s dst inner m :
  0 <= counter s < RejectAfterMessages ->
  appendSeal dst inner m s =
    (Ok (dst ++ message (s_send s) (s_remote s) (counter s) inner m), set_counter (counter s + 1) s).
Proof.
  intros Hc. unfold appendSeal. etrans; [eapply se_bind_ok; reflexivity|]. cbv beta zeta delta [id].
  rewrite (wrap_small 64 (counter s + 1)) by (unfold uint; lia).
  etrans; [eapply se_bind_ok; reflexivity|]. cbv beta.
  rewrite wrap_small by (unfold uint; lia). replace (counter s + 1 - 1) with (counter s) by lia.
  rewrite (proj2 (Z.leb_gt _ _)) by lia. rewrite put_header. done.
Qed.

Lemma plain_of_trim inner m : sendable inner -> TrimToIP (plain_of inner m) = TrimToIP inner.
Proof.
  intros [->|H]; [done|]. rewrite H. apply (TrimToIP_ext inner); [done|unfold plain_of; rewrite length_app; lia|].
  unfold plain_of. apply slice_0_app.
Qed.

Lemma message_length k rem c inner m :
  length (message k rem c inner m) = (32 + Z.to_nat (paddedLen (Z.of_nat (length inner)) m))%nat.
Proof.
  unfold message. rewrite !length_app, !length_le_enc, length_aeadSeal. unfold plain_of, tagLen.
  rewrite length_app, length_replicate. cbn [length].
  destruct (decide (length inner = 0%nat)) as [E|E].
  - rewrite E. cbn. lia.
  - pose proof (paddedLen_spec (Z.of_nat (length inner)) m ltac:(lia)) as (H & _). lia.
Qed.

Lemma Open_message r k rem c inner m :
  s_recv r = k -> 0 <= c < RejectAfterMessages -> sendable inner ->
  Open (message k rem c inner m) r =
    ((if (validate (replay r) c).1 then Ok (TrimToIP inner) else Err ErrReplay), set_replay (validate (replay r) c).2 r).
Proof.
  intros Hk Hc Hi. unfold Open. rewrite (proj2 (Nat.ltb_ge _ _)) by (rewrite message_length; lia).
  set (ct := aeadSeal ChaCha20Poly1305 k (replicate 4 0 ++ le_enc 8 c) [] (plain_of inner m)).
  assert (message k rem c inner m = [TypeTransportData; 0; 0; 0] ++ le_enc 4 rem ++ le_enc 8 c ++ ct) as E
    by (unfold message; by rewrite <- !app_assoc).
  assert (slice (message k rem c inner m) 8 16 = le_enc 8 c) as -> by (rewrite E; by cut_fields).
  rewrite le_dec_enc_small by (unfold uint; simpl; lia). rewrite (proj2 (Z.leb_gt _ _)) by lia.
  assert (blit (message k rem c inner m) 4 (replicate 4 0) = [TypeTransportData; 0; 0; 0] ++ replicate 4 0 ++ le_enc 8 c ++ ct) as ->
    by (rewrite E; apply blit_mid; [done|by rewrite length_le_enc]).
  assert (slice ([TypeTransportData; 0; 0; 0] ++ replicate 4 0 ++ le_enc 8 c ++ ct) 4 16 = replicate 4 0 ++ le_enc 8 c) as ->.
  { rewrite (app_assoc (replicate 4 0)). rewrite (slice_skip 4) by (split; [done|lia]). apply slice_hd. by rewrite length_app, length_le_enc. }
  assert (drop 16 ([TypeTransportData; 0; 0; 0] ++ replicate 4 0 ++ le_enc 8 c ++ ct) = ct) as ->.
  { rewrite !app_assoc, drop_app_length'; [done|]. by rewrite !length_app, length_le_enc. }
  etrans; [eapply se_bind_ok; reflexivity|]. cbv beta delta [id]. rewrite Hk. subst ct. rewrite aead_open_seal, plain_of_trim by done.
  destruct (validate (replay r) c) as [fresh f]. by destruct fresh.
Qed.

(** ** Sessions *)

Fixpoint seal_all (s : Session) (l : list (bytes * Z)) : list (result transport_error bytes) * Session :=
  match l with
  | [] => ([], s)
  | (inner, m) :: l =>
      let '(o, s) := SealPadded inner m s in
      let '(os, s) := seal_all s l in (o :: os, s)
  end.

Fixpoint open_all (r : Session) (l : list bytes) : list (result transport_error (option bytes)) * Session :=
  match l with
  | [] => ([], r)
  | pkt :: l =>
      let '(o, r) := Open pkt r in
      let '(os, r) := open_all r l in (o :: os, r)
  end.

Definition accepted_ctrs (ds : list nat) (os : list (result transport_error (option bytes))) : list Z :=
  omap (fun '(j, o) => if is_ok o then Some (Z.of_nat j) else None) (zip ds os).

Lemma seal_all_spec s l :
  0 <= counter s -> counter s + Z.of_nat (length l) <= RejectAfterMessages ->
  exists s', seal_all s l =
    (Ok <$> imap (fun j x => message (s_send s) (s_remote s) (counter s + Z.of_nat j) x.1 x.2) l, s').
Proof.
  revert s. induction l as [|[inner m] l IH]; intros s H0 Hl; [by exists s|]. cbn [length] in Hl.
  cbn [seal_all]. unfold SealPadded. rewrite appendSeal_spec by lia.
  destruct (IH (set_counter (counter s + 1) s)) as [s' E]; [cbn [counter set_counter]; lia..|].
  rewrite E. exists s'. cbn [imap fmap list_fmap]. rewrite Z.add_0_r. do 3 f_equal.
  apply imap_ext. intros i x _. unfold compose. cbn [counter set_counter s_send s_remote]. f_equal. lia.
Qed.

Lemma open_all_spec k rem sends r ds :
  let pkts := imap (fun j x => message k rem (Z.of_nat j) x.1 x.2) sends in
  s_recv r = k -> Z.of_nat (length sends) <= RejectAfterMessages -> Forall (fun x => sendable x.1) sends ->
  Forall (fun j => (j < length sends)%nat) ds ->
  let os := (open_all r ((pkts !!!.) <$> ds)).1 in
  Forall2 (fun j o => o = Err ErrReplay \/ exists x, sends !! j = Some x /\ o = Ok (TrimToIP x.1)) ds os /\
  accepted_ctrs ds os = ar_accepted (replay r) (Z.of_nat <$> ds).
Proof.
  intros pkts Hk Hn Hs Hds. revert r Hk. induction Hds as [|j ds Hj _ IH]; intros r Hk; cbn zeta.
  { by split; [constructor|]. }
  destruct (lookup_lt_is_Some_2 sends j Hj) as [x Hx].
  assert (pkts !! j = Some (message k rem (Z.of_nat j) x.1 x.2)) as Hp by (subst pkts; by rewrite list_lookup_imap, Hx).
  cbn [fmap list_fmap open_all ar_accepted]. rewrite (list_lookup_total_correct _ _ _ Hp).
  pose proof (Forall_lookup_1 _ _ _ _ Hs Hx) as Hsx. cbn in Hsx.
  rewrite Open_message by (done || lia). unfold ar_step, wg_filter. cbn [fst snd].
  destruct (validate (replay r) (Z.of_nat j)) as [fresh f]. cbn [fst snd].
  destruct (IH (set_replay f r) Hk) as [IH1 IH2]. change (replay (set_replay f r)) with f in IH2.
  destruct (open_all (set_replay f r) _) as [os r']. cbn [fst] in *. unfold accepted_ctrs in *.
  destruct fresh; cbn [is_ok]; (split; [constructor; [|done]|]).
  - right. by exists x.
  - cbn. f_equal. exact IH2.
  - by left.
  - cbn. exact IH2.
Qed.


(** ** Exhaustion *)

Lemma appendSeal_exhausted s dst inner m :
  RejectAfterMessages <= counter s < 2 ^ 64 ->
  appendSeal dst inner m s = (Err ErrExhausted, set_counter (wrap 64 (counter s + 1)) s).
Proof.
  intros Hc. unfold appendSeal. etrans; [eapply se_bind_ok; reflexivity|]. cbv beta zeta delta [id].
  etrans; [eapply se_bind_ok; reflexivity|]. cbv beta.
  assert (wrap 64 (wrap 64 (counter s + 1) - 1) = counter s) as ->.
  { unfold wrap. rewrite Zminus_mod_idemp_l, Z.add_simpl_r. apply Z.mod_small. lia. }
  by rewrite (proj2 (Z.leb_le _ _)) by lia.
Qed.

Lemma refused_seals s n :
  counter s = RejectAfterMessages -> Z.of_nat n <= 2 ^ 13 + 1 ->
  seal_all s (replicate n ([], 0)) =
    (replicate n (Err ErrExhausted), set_counter (wrap 64 (RejectAfterMessages + Z.of_nat n)) s).
Proof.
  intros Hc Hn. assert (forall k s, counter s = wrap 64 (RejectAfterMessages + Z.of_nat k) -> Z.of_nat k + Z.of_nat n <= 2 ^ 13 + 1 ->
    seal_all s (replicate n ([], 0)) = (replicate n (Err ErrExhausted), set_counter (wrap 64 (RejectAfterMessages + Z.of_nat k + Z.of_nat n)) s)) as G.
  { clear s Hc Hn. induction n as [|n IH]; intros k s Hs Hn.
    - cbn [replicate seal_all]. rewrite Z.add_0_r, <- Hs. by destruct s.
    - cbn [replicate seal_all]. unfold SealPadded. rewrite wrap_small in Hs by (unfold uint; lia).
      rewrite appendSeal_exhausted by lia. rewrite Hs.
      rewrite (IH (S k)); [|cbn [counter set_counter]; f_equal; lia|lia]. 
      match goal with |- context [set_counter ?a (set_counter ?b s)] => change (set_counter a (set_counter b s)) with (set_counter a s) end.
      do 3 f_equal. lia. }
  rewrite (G 0%nat) by (rewrite ?Hc, ?wrap_small by (unfold uint; lia); lia). by rewrite Z.add_0_r.
Qed.

(** A refused seal still advances the counter.  A session that has sent its last message
    refuses the next 8193 seals, and then the 64-bit counter has wrapped: the one after
    succeeds again under counter zero, the nonce of the session's first message. *)
Theorem seal_wraps_after_exhaustion (s : Session) (inner : bytes) :
  counter s = RejectAfterMessages ->
  exists s', seal_all s (replicate (Z.to_nat (2 ^ 13 + 1)) ([], 0)) = (replicate (Z.to_nat (2 ^ 13 + 1)) (Err ErrExhausted), s') /\
    (Seal inner s').1 = Ok (message (s_send s) (s_remote s) 0 inner 0).
Proof.
  intros Hc. eexists. split; [apply refused_seals; [done|lia]|].
  unfold Seal. rewrite Z2Nat.id by lia. change (wrap 64 (2 ^ 64 - 2 ^ 13 - 1 + (2 ^ 13 + 1))) with 0.
  rewrite appendSeal_spec; [done|]. cbn [counter set_counter]. lia.
Qed.

End Transport.

(** ** Concrete sessions *)


Lemma paddedLen_bounds_witness : 100 <= paddedLen 100 1420 /\ paddedLen 100 1420 mod 16 = 0.
Proof. destruct (paddedLen_bounds 100 1420) as [_ H]; [lia|]. destruct H as (H1 & H2 & _); [lia|]. by split. Defined.

(** The target is rounded down before it is taken, so less than it may be laid down. *)
Example paddedLen_below_target : paddedLen 100 1420 = 1408.
Proof. reflexivity. Qed.

Lemma seal_wraps_after_exhaustion_witness :
  let s := set_counter RejectAfterMessages (NewSession [1] [2] 7 9) in
  exists s', seal_all (P := toy_prims) s (replicate (Z.to_nat (2 ^ 13 + 1)) ([], 0)) =
      (replicate (Z.to_nat (2 ^ 13 + 1)) (Err ErrExhausted), s') /\
    (Seal (P := toy_prims) demo_pkt s').1 = Ok (message (P := toy_prims) [1] 9 0 demo_pkt 0).
Proof. intros s. apply (seal_wraps_after_exhaustion (P := toy_prims) s demo_pkt). reflexivity. Defined.
