(* ===== verification/WgTunnel.v ===== *)
(** * WireGuard tunnels on the data path, [internal/wireguard/tunnel.go]

    [wgTunnel]: the current and previous session of one peer, sealing with the
    current one, opening with whichever the receiver index names, and the inbound
    half of cryptokey routing.  It is an instance of the pump's interface
    [Tunnels], over a store of tunnels and a clock, so the pump's theorems apply
    to it and the end-to-end theorem runs a client's pump against a server's.

    The theorems: a rekey keeps packets in flight under the old keys deliverable;
    a packet whose source is outside the peer's AllowedIPs is never handed over;
    and what a client's TUN reads is written unchanged, in order, to the server's. *)
From Stdlib Require Import ZArith Lia.
From stdpp Require Import base list gmap.
From S2P Require Import Prelude AntiReplay WgReplay Routes Packet Shape Pump Crypto WgWire WgNoise WgTransport.

Abbreviation rejectAfterTime := 180000000000 (only parsing).

Inductive tunnel_error :=
| errNoSession | errSessionExpired | errUnknownIndex | errSourceNotAllowed | ErrSession (e : transport_error).

Record wgTunnel := mkTunnel {
  w_routes : list Prefix; w_peer : option UDPAddr; verifySource : bool;
  current : option Session; previous : option Session; established : Z }.

Definition newTunnel (sess : Session) (routes : list Prefix) (peer : option UDPAddr) (vs : bool) (now : Z) : wgTunnel :=
  mkTunnel routes peer vs (Some sess) None now.

Definition install (t : wgTunnel) (sess : Session) (now : Z) : option Session * wgTunnel :=
  (previous t, mkTunnel (w_routes t) (w_peer t) (verifySource t) (Some sess) (current t) now).

Definition set_current s t := mkTunnel (w_routes t) (w_peer t) (verifySource t) s (previous t) (established t).
Definition set_previous s t := mkTunnel (w_routes t) (w_peer t) (verifySource t) (current t) s (established t).

Definition wg_InboundKey (t : wgTunnel) : Z := match current t with None => 0 | Some s => s_local s end.

(** [net.IP.Equal]: an IPv4 address and its mapped form are one address. *)
Definition IP_Equal (a b : option Addr) : bool := bool_decide (Unmap <$> a = Unmap <$> b).

Definition wg_SetPeerAddr (t : wgTunnel) (a : UDPAddr) : wgTunnel :=
  match w_peer t with
  | Some cur =>
      if ((udpPort cur =? udpPort a) && IP_Equal (udpIP cur) (udpIP a))%bool then t
      else mkTunnel (w_routes t) (Some a) (verifySource t) (current t) (previous t) (established t)
  | None => mkTunnel (w_routes t) (Some a) (verifySource t) (current t) (previous t) (established t)
  end.

Definition innerSource (pkt : bytes) : option Addr :=
  if (length pkt <? 1)%nat then None
  else if Z.shiftr (at_ pkt 0) 4 =? 4 then
    if (length pkt <? 20)%nat then None else Some (AddrFrom4 (slice pkt 12 16))
  else if Z.shiftr (at_ pkt 0) 4 =? 6 then
    if (length pkt <? 40)%nat then None else Some (AddrFrom16 (slice pkt 8 24))
  else None.

Definition sourceAllowed (t : wgTunnel) (inner : bytes) : bool :=
  match innerSource inner with
  | None => false
  | Some src => existsb (fun r => bool_decide (Contains r src)) (w_routes t)
  end.

(** The tunnels by their pointers, the clock, and the device: whether a write to it succeeds. *)
Record wg_world := mkWorld { tunnels : gmap nat wgTunnel; clock : Z; device : bytes -> bool }.

Definition put_tunnel (t : nat) (x : wgTunnel) (w : wg_world) : wg_world :=
  mkWorld (<[t := x]> (tunnels w)) (clock w) (device w).

(** A pump over WireGuard tunnels. *)
Abbreviation WgPump := (Pump (Tid := nat) (W := wg_world) (Endpoint := option UDPAddr)).

Section Tunnel.
Context {P : Prims}.

(** [sendSession]; [time.Since(t.established)] reads the clock. *)
Definition sendSession (t : wgTunnel) (now : Z) : result tunnel_error Session :=
  match current t with
  | None => Err errNoSession
  | Some sess => if rejectAfterTime <=? time_sub now (established t) then Err errSessionExpired else Ok sess
  end.

Definition wg_AppendEncapsulated (t : wgTunnel) (now : Z) (dst p : bytes) (minInner : Z) : result tunnel_error bytes * wgTunnel :=
  match sendSession t now with
  | Err e => (Err e, t)
  | Ok sess =>
      match appendSeal dst p minInner sess with
      | (Ok out, sess) => (Ok out, set_current (Some sess) t)
      | (Err e, sess) => (Err (ErrSession e), set_current (Some sess) t)
      end
  end.

Definition wg_EncapsulatePadded (t : wgTunnel) (now : Z) (p : bytes) (minInner : Z) : result tunnel_error bytes * wgTunnel :=
  match sendSession t now with
  | Err e => (Err e, t)
  | Ok sess =>
      match SealPadded p minInner sess with
      | (Ok out, sess) => (Ok out, set_current (Some sess) t)
      | (Err e, sess) => (Err (ErrSession e), set_current (Some sess) t)
      end
  end.

Definition wg_Encapsulate (t : wgTunnel) (now : Z) (p : bytes) : result tunnel_error bytes * wgTunnel :=
  wg_EncapsulatePadded t now p 0.

(** The session a receiver index names, and how to put it back. *)
Definition sessionFor (t : wgTunnel) (idx : Z) : option (Session * (Session -> wgTunnel)) :=
  match current t with
  | Some s =>
      if s_local s =? idx then Some (s, fun s => set_current (Some s) t)
      else
        match previous t with
        | Some s => if s_local s =? idx then Some (s, fun s => set_previous (Some s) t) else None
        | None => None
        end
  | None =>
      match previous t with
      | Some s => if s_local s =? idx then Some (s, fun s => set_previous (Some s) t) else None
      | None => None
      end
  end.

Definition wg_Decapsulate (t : wgTunnel) (p : bytes) : result tunnel_error (option bytes) * wgTunnel :=
  match Demux p with
  | None => (Err errUnknownIndex, t)
  | Some idx =>
      match sessionFor t idx with
      | None => (Err errUnknownIndex, t)
      | Some (sess, put) =>
          match Open p sess with
          | (Err e, sess) => (Err (ErrSession e), put sess)
          | (Ok inner, sess) =>
              if (length (default [] inner) =? 0)%nat then (Ok inner, put sess)
              else if (verifySource t && negb (sourceAllowed t (default [] inner)))%bool then (Err errSourceNotAllowed, put sess)
              else (Ok inner, put sess)
          end
      end
  end.

(** ** The pump's interface *)

(** A method of the tunnel at a pointer: its error dropped, its state stored back. *)
Definition on_tunnel {A} (t : nat) (w : wg_world) (f : wgTunnel -> result tunnel_error A * wgTunnel) : option A * wg_world :=
  match tunnels w !! t with
  | None => (None, w)
  | Some x => let '(r, x') := f x in (match r with Ok a => Some a | Err _ => None end, put_tunnel t x' w)
  end.

#[export] Instance wg_tunnels : Tunnels nat wg_world (option UDPAddr) := {|
  InboundKey := fun t w => match tunnels w !! t with Some x => wg_InboundKey x | None => 0 end;
  TRoutes := fun t w => match tunnels w !! t with Some x => w_routes x | None => [] end;
  PeerAddr := fun t w => tunnels w !! t ≫= w_peer;
  Encapsulate := fun t w p => on_tunnel t w (fun x => wg_Encapsulate x (clock w) p);
  Decapsulate := fun t w p => on_tunnel t w (fun x => let '(r, x') := wg_Decapsulate x p in
    (match r with Ok o => Ok (default [] o) | Err e => Err e end, x'));
  isMulti := fun _ => false;
  DecapsulateMulti := fun _ w _ => (None, w);
  isPaced := fun _ => false;
  Enqueue := fun _ w _ => (false, w);
  StartPacing := fun _ w => w;
  StopPacing := fun _ w => w;
  isRoamer := fun _ => true;
  SetPeerAddr := fun t w a =>
    match tunnels w !! t, a with Some x, Some a => put_tunnel t (wg_SetPeerAddr x a) w | _, _ => w end;
  isPadding := fun _ => true;
  EncapsulatePadded := fun t w p m => on_tunnel t w (fun x => wg_EncapsulatePadded x (clock w) p m);
  isAppend := fun _ => true;
  AppendEncapsulated := fun t w p m => on_tunnel t w (fun x => wg_AppendEncapsulated x (clock w) [] p m);
  isSourceChecked := fun _ => false;
  VerifyInboundSource := fun _ _ => false;
  tunWrite := fun w pkt => (device w pkt, w);
  vnetWrite := fun w pkt => (device w pkt, w);
  vnetWriteGSO := fun w _ frame => (device w frame, w);
  sendTo := fun w _ _ => w;
|}.

(** ** What a tunnel hands over *)

(** [tunnel.go] and [dataplane] read the same source address. *)
Lemma sourceAllowed_within t inner : sourceAllowed t inner = SourceWithin inner (w_routes t).
Proof. reflexivity. Qed.

Lemma Open_inv pkt s o s' :
  Open pkt s = (o, s') ->
  (s' = s /\ exists e, o = Err e) \/
  exists plain, aeadOpen ChaCha20Poly1305 (s_recv s) (replicate 4 0 ++ slice pkt 8 16) [] (drop 16 pkt) = Some plain /\
    le_dec (slice pkt 8 16) < RejectAfterMessages /\
    s' = set_replay (validate (replay s) (le_dec (slice pkt 8 16))).2 s /\
    o = if (validate (replay s) (le_dec (slice pkt 8 16))).1 then Ok (TrimToIP plain) else Err ErrReplay.
Proof.
  unfold Open. destruct (Nat.ltb_spec (length pkt) 32) as [|Hl]; [intros [= <- <-]; left; eauto|].
  destruct (Z.leb_spec RejectAfterMessages (le_dec (slice pkt 8 16))) as [|Hc]; [intros [= <- <-]; left; eauto|].
  set (pkt' := blit pkt 4 (replicate 4 0)).
  assert (slice pkt' 4 16 = replicate 4 0 ++ slice pkt 8 16) as ->.
  { subst pkt'. unfold slice, blit. rewrite length_replicate.
    rewrite drop_app_ge by (rewrite length_take; lia). rewrite length_take, Nat.min_l, Nat.sub_diag, drop_0 by lia.
    rewrite take_app_ge by (rewrite length_replicate; lia). by rewrite length_replicate. }
  assert (drop 16 pkt' = drop 16 pkt) as ->.
  { subst pkt'. rewrite !drop_as_slice. rewrite length_blit by (rewrite length_replicate; lia). apply slice_blit_after; rewrite length_replicate; lia. }
  unfold se_bind, se_gets, id. destruct (aeadOpen _ _ _ _ _) as [plain|]; [|intros [= <- <-]; left; eauto].
  destruct (validate (replay s) _) as [fresh f]. intros H. right. exists plain. split; [done|]. split; [done|].
  destruct fresh; cbn in H |- *; unfold se_ret, se_fail in H; by simplify_eq.
Qed.

(** What a datagram that was handed over proves. *)
Definition handed_over (t : wgTunnel) (p inner : bytes) : Prop :=
  exists idx sess put plain, Demux p = Some idx /\ sessionFor t idx = Some (sess, put) /\
    aeadOpen ChaCha20Poly1305 (s_recv sess) (replicate 4 0 ++ slice p 8 16) [] (drop 16 p) = Some plain /\
    TrimToIP plain = Some inner /\ (validate (replay sess) (le_dec (slice p 8 16))).1 = true /\
    (verifySource t = true -> exists src r, innerSource inner = Some src /\ r ∈ w_routes t /\ Contains r src).

(** An inbound datagram reaches the pump only when it names a live session, opens under that
    session's receiving key with a counter its replay filter had not passed, and, where source
    checking is on, its inner packet comes from inside the peer's AllowedIPs.  Whatever happens,
    the tunnel's keys, routes and return address stay as they were. *)
Theorem wg_Decapsulate_authentic (t : wgTunnel) (p : bytes) :
  let '(o, t') := wg_Decapsulate t p in
  (forall inner, o = Ok (Some inner) -> handed_over t p inner) /\
  w_routes t' = w_routes t /\ w_peer t' = w_peer t /\ verifySource t' = verifySource t /\
  s_send <$> current t' = s_send <$> current t /\ s_recv <$> current t' = s_recv <$> current t /\
  counter <$> current t' = counter <$> current t /\ s_recv <$> previous t' = s_recv <$> previous t.
Proof.
  unfold wg_Decapsulate. destruct (Demux p) as [idx|] eqn:Ed; [|by split].
  destruct (sessionFor t idx) as [[sess put]|] eqn:Es; [|by split].
  destruct (Open p sess) as [o sess'] eqn:Eo.
  assert (w_routes (put sess') = w_routes t /\ w_peer (put sess') = w_peer t /\ verifySource (put sess') = verifySource t /\
    s_send <$> current (put sess') = s_send <$> current t /\ s_recv <$> current (put sess') = s_recv <$> current t /\
    counter <$> current (put sess') = counter <$> current t /\ s_recv <$> previous (put sess') = s_recv <$> previous t) as HP.
  { assert (s_send sess' = s_send sess /\ s_recv sess' = s_recv sess /\ counter sess' = counter sess) as (E1 & E2 & E3)
      by (apply Open_inv in Eo as [[-> _]|(? & _ & _ & -> & _)]; done).
    unfold sessionFor in Es. destruct (current t) as [c|] eqn:Ec, (previous t) as [q|] eqn:Eq; repeat case_match; simplify_eq;
      cbn; rewrite ?Ec, ?Eq; cbn; rewrite ?E1, ?E2, ?E3; done. }
  apply Open_inv in Eo as [[_ [e ->]]|(plain & Ha & _ & _ & ->)]; [by split|].
  destruct (validate (replay sess) _).1 eqn:Ev; [|by split].
  destruct (TrimToIP plain) as [q|] eqn:Et; cbn [default from_option id length Nat.eqb]; [|by split].
  destruct (Nat.eqb_spec (length q) 0) as [H0|H0]; [apply TrimToIP_inv in Et as [? _]; lia|].
  destruct (verifySource t) eqn:Evs; cbn [andb].
  - destruct (sourceAllowed t q) eqn:Esa; cbn [negb]; [|by split]. split; [|done]. intros ? [= <-].
    exists idx, sess, put, plain. split_and!; try done. intros _. unfold sourceAllowed in Esa.
    destruct (innerSource q) as [src|]; [|done]. apply existsb_exists in Esa as (r & Hr & Hc). exists src, r.
    split; [done|]. split; [by apply list_elem_of_In|]. by apply bool_decide_eq_true in Hc.
  - split; [|done]. intros ? [= <-]. exists idx, sess, put, plain. split_and!; congruence || done.
Qed.

(** Rekeying: datagrams in flight under the replaced keys open exactly as before. *)
Lemma install_keeps_in_flight t s0 s1 now p :
  current t = Some s0 -> s_local s1 <> s_local s0 -> Demux p = Some (s_local s0) ->
  (wg_Decapsulate (install t s1 now).2 p).1 = (wg_Decapsulate t p).1.
Proof.
  intros Hc Hn Hd. unfold wg_Decapsulate, sessionFor, install. rewrite Hd. cbn [snd current previous verifySource w_routes].
  rewrite Hc, Z.eqb_refl, (proj2 (Z.eqb_neq _ _) Hn). destruct (Open p s0) as [[inner|e] s0']; [|done].
  cbn [default from_option]. unfold sourceAllowed. cbn [w_routes].
  destruct (length (default [] inner) =? 0)%nat; [done|]. by destruct (verifySource t && _).
Qed.

(** ** End to end *)

Context {PO : PrimsOk P}.

Lemma Demux_message k rem c inner m : uint32 rem -> Demux (message k rem c inner m) = Some rem.
Proof.
  intros Hr. unfold Demux. rewrite (proj2 (Nat.ltb_ge _ _)) by (rewrite message_length; lia).
  assert (Type_of (message k rem c inner m) = Some 4) as Ht.
  { unfold Type_of. rewrite (proj2 (Nat.ltb_ge _ _)) by (rewrite message_length; lia). done. }
  unfold is_type. rewrite Ht. cbn [Z.eqb Pos.eqb negb]. f_equal. unfold message. rewrite <- !app_assoc. cut_fields.
  by apply le_dec_enc_small.
Qed.

(** The client's end: the tunnel behind pointer [t] seals under [k] for [rem], its next counter is [c]. *)
Definition sender_at (k : bytes) (rem c : Z) (t : nat) (w : wg_world) : Prop :=
  exists x s, tunnels w !! t = Some x /\ current x = Some s /\ time_sub (clock w) (established x) < rejectAfterTime /\
    s_send s = k /\ s_remote s = rem /\ counter s = c.

(** The server's end: the tunnel behind [t] opens index [rem] under [k] and has seen nothing at or past [c]. *)
Definition receiver_at (k : bytes) (rem c : Z) (rs : list Prefix) (dev : bytes -> bool) (t : nat) (w : wg_world) : Prop :=
  exists x s h, tunnels w !! t = Some x /\ current x = Some s /\ s_recv s = k /\ s_local s = rem /\
    wg_rel (replay s) h /\ (forall y, y ∈ h_seen h -> y < c) /\ h_top h <= c /\ w_routes x = rs /\ device w = dev.

Lemma receiver_step k rem c rs dev t w inner m :
  receiver_at k rem c rs dev t w -> 0 <= c < RejectAfterMessages -> uint32 rem ->
  TrimToIP inner = Some inner -> SourceWithin inner rs = true ->
  exists w', Decapsulate t w (message k rem c inner m) = (Some inner, w') /\
    receiver_at k rem (c + 1) rs dev t w'.
Proof.
  intros (x & s & h & Hl & Hc & Hk & Hloc & Hrel & Hseen & Htop & Hrs & Hdev) Hcr Hr Ht Hsrc.
  cbn [Decapsulate wg_tunnels]. unfold on_tunnel. rewrite Hl.
  unfold wg_Decapsulate. rewrite Demux_message by done. unfold sessionFor. rewrite Hc, Hloc, Z.eqb_refl.
  rewrite (Open_message s k rem c inner m Hk Hcr) by by right.
  destruct (wg_rel_step (replay s) h c Hrel) as [Hb Hrel']; [unfold uint; lia|].
  assert (spec_accept 8129 any h c = (true, Hist (Z.max (h_top h) c) ({[c]} ∪ h_seen h))) as E.
  { unfold spec_accept, spec_fresh. rewrite !bool_decide_true; [done|lia|]. intros H%Hseen. lia. }
  rewrite E in Hb, Hrel'. rewrite Hb, Ht. cbn [default from_option id fst snd].
  pose proof (TrimToIP_inv _ _ Ht) as [Hlen _].
  rewrite (proj2 (Nat.eqb_neq _ _)) by lia. rewrite sourceAllowed_within, Hrs, Hsrc. cbn [negb]. rewrite andb_false_r.
  eexists. split; [reflexivity|]. eexists _, _, _. split_and!; [apply lookup_insert_eq|reflexivity|done|done|exact Hrel'|..]; cbn; try done.
  - intros y. rewrite elem_of_union, elem_of_singleton. intros [->|H]; [lia|]. apply Hseen in H. lia.
  - lia.
Qed.

Lemma roam_keeps_receiver k rem c rs dev t w a :
  receiver_at k rem c rs dev t w -> receiver_at k rem c rs dev t (SetPeerAddr t w a).
Proof.
  intros (x & s & h & Hl & H). cbn [SetPeerAddr wg_tunnels]. rewrite Hl. destruct a as [a|]; [|by exists x, s, h].
  exists (wg_SetPeerAddr x a), s, h. split; [apply lookup_insert_eq|]. unfold wg_SetPeerAddr. destruct (w_peer x); [|exact H].
  by destruct (_ && _).
Qed.

Lemma sender_step k rem c t w inner m :
  sender_at k rem c t w -> 0 <= c < RejectAfterMessages ->
  exists w', AppendEncapsulated t w inner m = (Some (message k rem c inner m), w') /\ sender_at k rem (c + 1) t w'.
Proof.
  intros (x & s & Hl & Hc & He & <- & <- & <-) Hcr. cbn [AppendEncapsulated wg_tunnels]. unfold on_tunnel. rewrite Hl.
  unfold wg_AppendEncapsulated, sendSession. rewrite Hc, (proj2 (Z.leb_gt _ _)) by lia. rewrite appendSeal_spec by done.
  eexists. split; [reflexivity|]. eexists _, _. split_and!; [apply lookup_insert_eq|reflexivity|..]; done.
Qed.

(** The datagrams a pump sent since its log was [n] long. *)
Definition sent_since (n : nat) (p : WgPump) : list bytes :=
  omap (fun e => match e with EvSend d _ => Some d | _ => None end) (drop n (log p)).

(** What a pump wrote to its TUN. *)
Definition written (p : WgPump) : list bytes :=
  omap (fun e => match e with EvTun pkt true => Some pkt | _ => None end) (log p).

(** One packet read from the client's TUN, and the datagrams it makes delivered to the server. *)
Definition carry (now : Z) (from : option UDPAddr) (ps : WgPump * WgPump) (pkt : bytes) : WgPump * WgPump :=
  let p1 := (routeOutbound pkt now ps.1).2 in
  (p1, foldl (fun p d => (HandleInbound d (Some from) now p).2) ps.2 (sent_since (length (log ps.1)) p1)).

(** The bound entry a registered tunnel has. *)
Definition bound_to (t : nat) (b : bound) : Prop :=
  bt b = t /\ multi b = false /\ paced b = false /\ roams b = true /\ appender b = true /\ srcRoutes b = None.

(** The two pumps of a session whose next counter is [c]. *)
Record linked (k : bytes) (rem c : Z) (rs : list Prefix) (dev : bytes -> bool) (t1 t2 : nat) (p1 p2 : WgPump) : Prop := {
  lk_sender : sender_at k rem c t1 (world p1);
  lk_receiver : receiver_at k rem c rs dev t2 (world p2);
  lk_demux : demux p2 = Demux;
  lk_key : exists b, byKey p2 !! rem = Some b /\ bound_to t2 b;
}.

(** A packet the client's tables send to the tunnel whole and the server admits. *)
Record carried_ok (rs : list Prefix) (dev : bytes -> bool) (t1 : nat) (p1 : WgPump) (pkt : bytes) : Prop := {
  co_ip : TrimToIP pkt = Some pkt;
  co_route : exists dst b, innerDest pkt = Some dst /\ lookup None (routes p1) dst = Some b /\ bound_to t1 b;
  co_mtu : (0 <? mtu p1) && NeedsFragmentation pkt (mtu p1) = false;
  co_source : SourceWithin pkt rs = true;
  co_device : dev pkt = true;
}.

Ltac pump_run :=
  unfold mbind, mret, M_bind, M_ret, get, modify, outside, drop_as, emit, countAt;
  cbn [fst snd world log routes mtu byKey demux vnet shaper upd_world upd_log upd_last upd_heap upd_shaper].

Lemma route_message k rem c rs dev t1 p1 now pkt :
  sender_at k rem c t1 (world p1) -> 0 <= c < RejectAfterMessages -> carried_ok rs dev t1 p1 pkt ->
  exists p1' m, (routeOutbound pkt now p1).2 = p1' /\ sent_since (length (log p1)) p1' = [message k rem c pkt m] /\
    sender_at k rem (c + 1) t1 (world p1') /\ routes p1' = routes p1 /\ mtu p1' = mtu p1.
Proof.
  intros HS Hc [_ (dst & b1 & Hdst & Hlk & Hbt & _ & Hp & _ & Ha & _) Hmtu _ _].
  unfold routeOutbound. rewrite Hdst. pump_run. rewrite Hlk, Hmtu, Hp. unfold encap. pump_run.
  destruct (Target_ptr (shaper p1) pkt (mtu p1) now) as [m sh]. rewrite Ha, Hbt. pump_run.
  destruct (sender_step k rem c t1 (world p1) pkt m HS Hc) as (w' & E & HS'). rewrite E. pump_run.
  eexists _, m. split; [reflexivity|]. split_and!; [|exact HS'|done..].
  unfold sent_since. cbn [log upd_log upd_world upd_heap upd_shaper]. by rewrite drop_app_length.
Qed.

Lemma inbound_message k rem c rs dev t2 p2 now from pkt m :
  receiver_at k rem c rs dev t2 (world p2) -> 0 <= c < RejectAfterMessages -> uint32 rem ->
  demux p2 = Demux -> (exists b, byKey p2 !! rem = Some b /\ bound_to t2 b) ->
  TrimToIP pkt = Some pkt -> SourceWithin pkt rs = true -> dev pkt = true ->
  let p2' := (HandleInbound (message k rem c pkt m) (Some from) now p2).2 in
  receiver_at k rem (c + 1) rs dev t2 (world p2') /\ demux p2' = demux p2 /\ byKey p2' = byKey p2 /\
  written p2' = written p2 ++ [pkt].
Proof.
  intros HR Hc Hrem HD (b2 & Hb2 & Hbt & Hm & _ & Hr & _ & Hs) Hip Hsrc Hdev.
  unfold HandleInbound, handleInbound, lookupInbound. pump_run. rewrite HD, (Demux_message k rem c pkt m Hrem), Hb2. pump_run.
  rewrite Hm. unfold decapInbound. pump_run. rewrite Hbt.
  destruct (receiver_step k rem c rs dev t2 (world p2) pkt m HR Hc Hrem Hip Hsrc) as (w' & E & HR'). rewrite E. pump_run.
  unfold roam. rewrite Hr. pump_run. pose proof (TrimToIP_inv _ _ Hip) as [Hlen _]. rewrite (proj2 (Nat.eqb_neq _ _)) by lia.
  unfold sourceOK. rewrite Hs. pump_run. unfold writeTUN. pump_run. rewrite Hbt.
  apply (roam_keeps_receiver _ _ _ _ _ _ _ from) in HR'.
  assert (device (SetPeerAddr t2 w' from) = dev) as Hd by (by destruct HR' as (? & ? & ? & ? & ? & ? & ? & ? & ? & ? & ? & ?)).
  assert (forall w, device w = dev -> (if vnet p2 then vnetWrite w pkt else tunWrite w pkt) = (true, w)) as HW.
  { intros w Hw. cbn [vnetWrite tunWrite wg_tunnels]. rewrite Hw, Hdev. by destruct (vnet p2). }
  rewrite (HW _ Hd). pump_run. split_and!; [exact HR'|done|done|].
  unfold written. cbn [log upd_log upd_world upd_heap upd_last]. rewrite !omap_app. cbn. by rewrite app_nil_r.
Qed.

Lemma carry_spec k rem c rs dev t1 t2 p1 p2 now from pkt :
  linked k rem c rs dev t1 t2 p1 p2 -> 0 <= c < RejectAfterMessages -> uint32 rem -> carried_ok rs dev t1 p1 pkt ->
  let '(p1', p2') := carry now from (p1, p2) pkt in
  linked k rem (c + 1) rs dev t1 t2 p1' p2' /\ written p2' = written p2 ++ [pkt] /\
  routes p1' = routes p1 /\ mtu p1' = mtu p1.
Proof.
  intros [HS HR HD HB] Hc Hrem HO. unfold carry. cbn [fst snd].
  destruct (route_message k rem c rs dev t1 p1 now pkt HS Hc HO) as (p1' & m & -> & -> & HS' & HRt & HMt). cbn [foldl].
  destruct HO as [Hip _ _ Hsrc Hdev].
  destruct (inbound_message k rem c rs dev t2 p2 now from pkt m HR Hc Hrem HD HB Hip Hsrc Hdev) as (HR' & HD' & HB' & HW).
  split_and!; [split|..]; try done; by rewrite ?HD', ?HB'.
Qed.

Lemma carry_all k rem c rs dev t1 t2 p1 p2 now from pkts :
  linked k rem c rs dev t1 t2 p1 p2 -> 0 <= c -> c + Z.of_nat (length pkts) <= RejectAfterMessages -> uint32 rem ->
  Forall (carried_ok rs dev t1 p1) pkts ->
  written (foldl (carry now from) (p1, p2) pkts).2 = written p2 ++ pkts.
Proof.
  intros HL H0 Hn Hrem. revert c p1 p2 HL H0 Hn. induction pkts as [|pkt pkts IH]; intros c p1 p2 HL H0 Hn HF.
  { by rewrite app_nil_r. }
  apply Forall_cons in HF as [Hp HF]. cbn [length] in Hn. cbn [foldl].
  pose proof (carry_spec k rem c rs dev t1 t2 p1 p2 now from pkt HL ltac:(lia) Hrem Hp) as H.
  destruct (carry now from (p1, p2) pkt) as [p1' p2']. destruct H as (HL' & HW & HRt & HMt).
  rewrite (IH (c + 1) p1' p2' HL'), HW, <- app_assoc; [done|lia|lia|].
  eapply Forall_impl; [exact HF|]. intros q [A B C D E]. split; [done| |by rewrite HMt|done..].
  by rewrite HRt.
Qed.

(** A session from the keys a handshake left. *)
Definition session_of (kp : Keypair) : Session := NewSession (kpSend kp) (kpRecv kp) (kpLocal kp) (kpRemote kp).

(** A pump with one tunnel: what the client's [Dial] and the server's first handshake set up. *)
Definition pump_with (gso : bool) (now mtu : Z) (w : wg_world) (t : nat) : WgPump :=
  (AddTunnel t (SetInnerMTU mtu (NewPump (Some Demux) gso now w))).2.

(** Registering a tunnel: its current index leads to it, and the outside is left alone. *)
Lemma AddTunnel_wg t x s (p : WgPump) :
  tunnels (world p) !! t = Some x -> current x = Some s ->
  exists b, bound_to t b /\ byKey (AddTunnel t p).2 = <[s_local s := b]> (byKey p) /\
    world (AddTunnel t p).2 = world p /\ demux (AddTunnel t p).2 = demux p /\ log (AddTunnel t p).2 = log p.
Proof.
  intros Hx Hs. unfold AddTunnel, counters. pump_run.
  destruct (stats p !! t); pump_run; cbn [world publish upd_stats upd_heap log byKey demux isPaced wg_tunnels InboundKey];
    rewrite Hx; unfold wg_InboundKey; rewrite Hs; eexists; (split; [|split_and!; [reflexivity|done..]]); by split_and!.
Qed.

Lemma AddInboundKey_wg key t (p : WgPump) :
  exists b, bound_to t b /\ byKey (AddInboundKey key t p).2 = <[key := b]> (byKey p) /\ world (AddInboundKey key t p).2 = world p.
Proof.
  unfold AddInboundKey, counters. pump_run.
  destruct (stats p !! t); pump_run; cbn [world publish upd_stats upd_heap byKey];
    eexists; (split; [|split_and!; [reflexivity|done..]]); by split_and!.
Qed.

Lemma RemoveInboundKey_wg key (p : WgPump) :
  byKey (RemoveInboundKey key p).2 = delete key (byKey p) /\ world (RemoveInboundKey key p).2 = world p.
Proof. done. Qed.

Lemma pump_with_key gso now mtu w t x s :
  tunnels w !! t = Some x -> current x = Some s ->
  let p := pump_with gso now mtu w t in
  world p = w /\ demux p = Demux /\ written p = [] /\ exists b, byKey p !! s_local s = Some b /\ bound_to t b.
Proof.
  intros Hx Hs p.
  destruct (AddTunnel_wg t x s (SetInnerMTU mtu (NewPump (Some Demux) gso now w)) Hx Hs) as (b & Hb & Hk & Hw & Hd & Hl).
  subst p. unfold pump_with, written. rewrite Hk, Hw, Hd, Hl. split_and!; [done..|]. exists b. split; [apply lookup_insert_eq|done].
Qed.


End Tunnel.

(** ** A concrete pair of ends *)

(** A 24-octet IPv4 packet from 10.0.0.2 to 10.0.0.1. *)
Definition demo_inner : bytes :=
  [0x45; 0; 0; 24; 0; 0; 0; 0; 64; 17; 0; 0; 10; 0; 0; 2; 10; 0; 0; 1; 1; 2; 3; 4].

Definition demo_tunnel (kp : Keypair) : wgTunnel :=
  newTunnel (session_of kp) [mkPrefix (IPv4 0x0a000000) 8] None true 0.

Definition demo_world (kp : Keypair) : wg_world := mkWorld {[1%nat := demo_tunnel kp]} 5 (fun _ => true).

