(* ===== verification/WgObfs.v ===== *)
(** * AmneziaWG's wire transform, [internal/wireguard/obfuscate.go]

    The type words H1..H4 and paddings S1..S4 put on every datagram, how the
    receiving side recognises the message kind by its length, and the junk
    datagrams.  Random filler is an argument.  Paddings are naturals: the code
    slices by them.

    The theorem: the receiving side undoes the transform whenever no other message
    kind's length and type word fit the datagram; with equal paddings and distinct
    words that is always so. *)
From Stdlib Require Import ZArith Lia.
From stdpp Require Import base list gmap.
From S2P Require Import Prelude WgWire.

Record ObfuscationConfig := mkObf {
  oTypeInitiation : Z; oTypeResponse : Z; oTypeCookie : Z; oTypeTransport : Z;
  PadInitiation : nat; PadResponse : nat; PadCookie : nat; PadTransport : nat;
  JunkCount : Z; JunkMin : Z; JunkMax : Z }.

#[export] Instance ObfuscationConfig_eq_dec : EqDecision ObfuscationConfig.
Proof. solve_decision. Defined.

Definition stockObf : ObfuscationConfig := mkObf 0 0 0 0 0 0 0 0 0 0 0.

Definition enabled (o : ObfuscationConfig) : bool := negb (bool_decide (o = stockObf)).

Definition typeFor (o : ObfuscationConfig) (stock : Z) : Z :=
  if stock =? TypeHandshakeInitiation then (if negb (oTypeInitiation o =? 0) then oTypeInitiation o else stock)
  else if stock =? TypeHandshakeResponse then (if negb (oTypeResponse o =? 0) then oTypeResponse o else stock)
  else if stock =? TypeCookieReply then (if negb (oTypeCookie o =? 0) then oTypeCookie o else stock)
  else if stock =? TypeTransportData then (if negb (oTypeTransport o =? 0) then oTypeTransport o else stock)
  else stock.

Definition padFor (o : ObfuscationConfig) (stock : Z) : nat :=
  if stock =? TypeHandshakeInitiation then PadInitiation o
  else if stock =? TypeHandshakeResponse then PadResponse o
  else if stock =? TypeCookieReply then PadCookie o
  else if stock =? TypeTransportData then PadTransport o
  else 0%nat.

(** [fill] is what [randFill] draws, [padFor] octets of it. *)
Definition obfuscateSend (pkt : bytes) (cfg : ObfuscationConfig) (fill : bytes) : bytes :=
  if (negb (enabled cfg) || (length pkt <? 4)%nat)%bool then pkt else
  let stock := at_ pkt 0 in
  let pad := padFor cfg stock in
  let newType := typeFor cfg stock in
  if (pad =? 0)%nat then
    (if negb (newType =? stock) then blit pkt 0 (le_enc 4 newType) else pkt)
  else
    let out := blit (replicate (pad + length pkt) 0) 0 fill in
    let out := blit out pad pkt in
    blit out pad (le_enc 4 newType).

(** The control messages [deobfuscateRecv] tries, in its order. *)
Definition kinds : list (Z * nat) :=
  [(TypeHandshakeInitiation, SizeHandshakeInitiation); (TypeHandshakeResponse, SizeHandshakeResponse);
   (TypeCookieReply, SizeCookieReply)].

(** One iteration: the stock message, if the datagram is this kind. *)
Definition try_kind (pkt : bytes) (cfg : ObfuscationConfig) (k : Z * nat) : option bytes :=
  let pad := padFor cfg k.1 in
  if negb (length pkt =? pad + k.2)%nat then None else
  let out := drop pad pkt in
  if negb (le_dec (slice out 0 4) =? typeFor cfg k.1) then None
  else Some (blit out 0 (le_enc 4 k.1)).

Fixpoint try_kinds (pkt : bytes) (cfg : ObfuscationConfig) (ks : list (Z * nat)) : option bytes :=
  match ks with
  | [] => None
  | k :: ks => match try_kind pkt cfg k with Some out => Some out | None => try_kinds pkt cfg ks end
  end.

Definition deobfuscateRecv (pkt : bytes) (cfg : ObfuscationConfig) : option bytes :=
  if negb (enabled cfg) then Some pkt else
  match try_kinds pkt cfg kinds with
  | Some out => Some out
  | None =>
      let pad := padFor cfg TypeTransportData in
      if (length pkt <? pad + MinTransportData)%nat then None else
      let out := drop pad pkt in
      if negb (le_dec (slice out 0 4) =? typeFor cfg TypeTransportData) then None
      else Some (blit out 0 (le_enc 4 TypeTransportData))
  end.

(** [junkPackets]; [draw] gives [rand.Int] of the span ([None] when it fails) and the octets, per datagram. *)
Fixpoint junk_loop (cfg : ObfuscationConfig) (n : nat) (draw : nat -> option Z * (nat -> bytes)) : list bytes :=
  match n with
  | O => []
  | S n' =>
      let span := JunkMax cfg - JunkMin cfg + 1 in
      let '(r, fill) := draw n in
      let len := if 1 <? span then match r with Some x => JunkMin cfg + x | None => JunkMin cfg end else JunkMin cfg in
      (if len <=? 0 then [] else [fill (Z.to_nat len)]) ++ junk_loop cfg n' draw
  end.

Definition junkPackets (cfg : ObfuscationConfig) (draw : nat -> option Z * (nat -> bytes)) : list bytes :=
  if ((JunkCount cfg <=? 0) || (JunkMax cfg <=? 0) || (JunkMax cfg <? JunkMin cfg))%bool then []
  else junk_loop cfg (Z.to_nat (JunkCount cfg)) draw.

(** ** The transform undone *)

(** A stock message: its type word, and the length its kind has. *)
Definition stock_message (t : Z) (pkt : bytes) : Prop :=
  Type_of pkt = Some t /\
  match t with
  | 1 => length pkt = SizeHandshakeInitiation
  | 2 => length pkt = SizeHandshakeResponse
  | 3 => length pkt = SizeCookieReply
  | 4 => (MinTransportData <= length pkt)%nat
  | _ => False
  end.

(** No control kind other than [t]'s own fits the datagram. *)
Definition unambiguous (cfg : ObfuscationConfig) (t : Z) (dgram : bytes) : Prop :=
  Forall (fun k => k.1 <> t -> length dgram <> (padFor cfg k.1 + k.2)%nat \/
                   le_dec (slice dgram (padFor cfg k.1) (padFor cfg k.1 + 4)) <> typeFor cfg k.1) kinds.

Definition words_ok (cfg : ObfuscationConfig) : Prop :=
  uint32 (oTypeInitiation cfg) /\ uint32 (oTypeResponse cfg) /\ uint32 (oTypeCookie cfg) /\ uint32 (oTypeTransport cfg).

Lemma type_bytes pkt t : Type_of pkt = Some t -> uint 8 t -> exists rest, pkt = le_enc 4 t ++ rest.
Proof.
  unfold Type_of. destruct pkt as [|a [|b [|c [|d rest]]]]; cbn [length Nat.ltb Nat.leb]; try done.
  change (at_ (a :: b :: c :: d :: rest) 0) with a. change (at_ (a :: b :: c :: d :: rest) 1) with b.
  change (at_ (a :: b :: c :: d :: rest) 2) with c. change (at_ (a :: b :: c :: d :: rest) 3) with d.
  destruct (Z.eqb_spec (Z.lor (Z.lor b c) d) 0) as [E|]; [|done]. intros [= ->] Ht. unfold uint in Ht.
  apply Z.lor_eq_0_iff in E as [E ->]. apply Z.lor_eq_0_iff in E as [-> ->].
  exists rest. cbn [le_enc]. rewrite (Z.mod_small t), (Z.div_small t) by lia. done.
Qed.

(** A stock message is its word and the rest, and its kind is one of the four. *)
Lemma stock_split t pkt : stock_message t pkt -> 1 <= t <= 4 /\ exists rest, pkt = le_enc 4 t ++ rest.
Proof.
  intros [Hty Hlen]. assert (1 <= t <= 4) as Hr by (clear - Hlen; repeat case_match; done || lia).
  split; [done|]. apply type_bytes; [done|unfold uint; lia].
Qed.

Lemma typeFor_uint cfg t : words_ok cfg -> uint32 t -> uint32 (typeFor cfg t).
Proof. intros (? & ? & ? & ?) ?. unfold typeFor. repeat case_match; done. Qed.

(** The datagram: filler, the word, the rest of the message. *)
Lemma obfuscateSend_eq cfg t rest fill :
  let pkt := le_enc 4 t ++ rest in
  enabled cfg = true -> uint 8 t -> length fill = padFor cfg t -> 
  obfuscateSend pkt cfg fill = fill ++ le_enc 4 (typeFor cfg t) ++ rest.
Proof.
  intros pkt He Ht Hf. unfold obfuscateSend. rewrite He. cbn [negb orb].
  assert (length pkt = 4 + length rest)%nat as Hl by (subst pkt; by rewrite length_app, length_le_enc).
  rewrite (proj2 (Nat.ltb_ge _ _)) by lia.
  assert (at_ pkt 0 = t) as -> by (subst pkt; cbn; unfold uint in Ht; rewrite Z.mod_small by lia; done).
  assert (forall w, blit pkt 0 (le_enc 4 w) = le_enc 4 w ++ rest) as B
    by (intros w; subst pkt; rewrite (blit_mid [] (le_enc 4 t) rest); [done|done|by rewrite !length_le_enc]).
  destruct (Nat.eqb_spec (padFor cfg t) 0) as [E|E].
  - rewrite E in Hf. apply nil_length_inv in Hf as ->. destruct (Z.eqb_spec (typeFor cfg t) t) as [Et|Et]; cbn [negb].
    + by rewrite Et.
    + by rewrite B.
  - rewrite replicate_add.
    assert (blit (replicate (padFor cfg t) 0 ++ replicate (length pkt) 0) 0 fill = fill ++ replicate (length pkt) 0) as ->.
    { apply (blit_mid []); [done|by rewrite length_replicate]. }
    assert (blit (fill ++ replicate (length pkt) 0) (padFor cfg t) pkt = fill ++ pkt) as ->.
    { rewrite <- (app_nil_r (replicate (length pkt) 0)), blit_mid; [by rewrite app_nil_r|done|by rewrite length_replicate]. }
    subst pkt. rewrite blit_mid; [done|done|by rewrite !length_le_enc].
Qed.

Section RoundTrip.
Context (cfg : ObfuscationConfig) (t : Z) (rest fill : bytes).
Context (Hw : words_ok cfg) (Ht : uint 8 t) (Hf : length fill = padFor cfg t).
Let dgram := fill ++ le_enc 4 (typeFor cfg t) ++ rest.

Lemma dgram_word : slice (drop (padFor cfg t) dgram) 0 4 = le_enc 4 (typeFor cfg t) /\
  blit (drop (padFor cfg t) dgram) 0 (le_enc 4 t) = le_enc 4 t ++ rest /\ length dgram = (padFor cfg t + 4 + length rest)%nat.
Proof.
  subst dgram. rewrite <- Hf, drop_app_length. split_and!.
  - apply slice_hd. by rewrite length_le_enc.
  - apply (blit_mid []); [done|by rewrite !length_le_enc].
  - rewrite !length_app, length_le_enc. lia.
Qed.

(** Its own kind recognises the datagram; another kind passes it by. *)
Lemma try_kind_own n : (4 + length rest)%nat = n -> try_kind dgram cfg (t, n) = Some (le_enc 4 t ++ rest).
Proof.
  intros <-. destruct dgram_word as (W & B & L). unfold try_kind. cbn [fst snd].
  rewrite L, (proj2 (Nat.eqb_eq _ _)) by lia. cbn [negb]. rewrite W, B, le_dec_enc_small, Z.eqb_refl; [done|].
  apply typeFor_uint; [done|]. unfold uint in *. lia.
Qed.

Lemma try_kind_other k :
  length dgram <> (padFor cfg k.1 + k.2)%nat \/ le_dec (slice dgram (padFor cfg k.1) (padFor cfg k.1 + 4)) <> typeFor cfg k.1 ->
  try_kind dgram cfg k = None.
Proof.
  intros [H|H]; unfold try_kind; [by rewrite (proj2 (Nat.eqb_neq _ _))|]. destruct (negb _); [done|].
  rewrite <- (slice_drop dgram (padFor cfg k.1) 0 4), Nat.add_0_r, (proj2 (Z.eqb_neq _ _)) by done. done.
Qed.

Lemma try_kinds_none ks :
  Forall (fun k => k.1 <> t) ks ->
  Forall (fun k => k.1 <> t -> length dgram <> (padFor cfg k.1 + k.2)%nat \/
                   le_dec (slice dgram (padFor cfg k.1) (padFor cfg k.1 + 4)) <> typeFor cfg k.1) ks ->
  try_kinds dgram cfg ks = None.
Proof.
  induction 1 as [|k ks Hk _ IH]; intros HF; [done|]. apply Forall_cons in HF as [H HF]. cbn [try_kinds].
  rewrite try_kind_other by auto. by apply IH.
Qed.
End RoundTrip.

Lemma try_kinds_app pkt cfg l1 l2 :
  try_kinds pkt cfg (l1 ++ l2) = match try_kinds pkt cfg l1 with Some o => Some o | None => try_kinds pkt cfg l2 end.
Proof. induction l1 as [|k l1 IH]; cbn; [done|]. by destruct (try_kind pkt cfg k). Qed.

Lemma obfs_roundtrip_spec cfg t pkt fill :
  words_ok cfg -> stock_message t pkt -> length fill = padFor cfg t ->
  unambiguous cfg t (obfuscateSend pkt cfg fill) -> deobfuscateRecv (obfuscateSend pkt cfg fill) cfg = Some pkt.
Proof.
  intros Hw Hs Hf. unfold unambiguous, deobfuscateRecv. destruct (enabled cfg) eqn:He; cbn [negb].
  2: { intros _. unfold obfuscateSend. by rewrite He. }
  destruct (stock_split t pkt Hs) as [Hr [rest ->]]. destruct Hs as [_ Hlen].
  assert (uint 8 t) as Ht by (unfold uint; lia).
  rewrite obfuscateSend_eq by done. rewrite length_app, length_le_enc in Hlen. intros HU.
  assert (t = 4 \/ exists l1 l2 n, kinds = l1 ++ (t, n) :: l2 /\ Forall (fun k => k.1 <> t) l1 /\ (4 + length rest)%nat = n) as [->|H].
  { assert (t = 1 \/ t = 2 \/ t = 3 \/ t = 4) as [-> | [-> | [-> | ->]]] by lia; [right..|by left].
    - exists [], [(2, 92%nat); (3, 64%nat)], 148%nat. by split_and!.
    - exists [(1, 148%nat)], [(3, 64%nat)], 92%nat. split_and!; [done|by repeat constructor|done].
    - exists [(1, 148%nat); (2, 92%nat)], [], 64%nat. split_and!; [done|by repeat constructor|done]. }
  - rewrite (try_kinds_none cfg 4 rest fill); [|by repeat constructor|exact HU].
    destruct (dgram_word cfg 4 rest fill Hf) as (W & B & L). rewrite L, (proj2 (Nat.ltb_ge _ _)) by lia.
    rewrite W, B, le_dec_enc_small, Z.eqb_refl by by apply typeFor_uint. done.
  - destruct H as (l1 & l2 & n & Ek & Hl1 & Hn). rewrite Ek in HU |- *. apply Forall_app in HU as [HU _].
    rewrite try_kinds_app, (try_kinds_none cfg t rest fill l1 Hl1 HU). cbn [try_kinds].
    by rewrite (try_kind_own cfg t rest fill Hw Ht Hf n Hn).
Qed.

(** Equal paddings and distinct words. *)
Definition clash_free (cfg : ObfuscationConfig) : Prop :=
  words_ok cfg /\ (forall t, t ∈ [1; 2; 3; 4] -> padFor cfg t = PadTransport cfg) /\ NoDup (typeFor cfg <$> [1; 2; 3; 4]).

Lemma clash_free_unambiguous cfg t pkt fill :
  clash_free cfg -> stock_message t pkt -> length fill = padFor cfg t -> enabled cfg = true ->
  unambiguous cfg t (obfuscateSend pkt cfg fill).
Proof.
  intros (Hw & Hp & Hn) Hs Hf He. destruct (stock_split t pkt Hs) as [Hr [rest ->]].
  rewrite obfuscateSend_eq by (done || unfold uint; lia). apply Forall_forall. intros k Hk Hkt. right.
  assert (t ∈ [1; 2; 3; 4]) as H1 by (set_unfold; lia).
  assert (k.1 ∈ [1; 2; 3; 4]) as H2 by (unfold kinds in Hk; set_unfold; naive_solver).
  rewrite (Hp _ H2), <- (Hp _ H1), <- Hf.
  rewrite (slice_app_r fill) by lia. rewrite Nat.sub_diag, Nat.add_comm, Nat.add_sub.
  rewrite slice_hd by apply length_le_enc.
  rewrite le_dec_enc_small by (apply typeFor_uint; [done|unfold uint; lia]).
  apply list_elem_of_lookup_1 in H1 as [i Hi], H2 as [j Hj].
  intros E. assert (i = j) as ->; [|congruence].
  apply (NoDup_lookup _ _ _ (typeFor cfg t) Hn); rewrite list_lookup_fmap; [by rewrite Hi|by rewrite Hj, E].
Qed.

Lemma clash_free_roundtrip cfg t pkt fill :
  clash_free cfg -> stock_message t pkt -> length fill = padFor cfg t ->
  deobfuscateRecv (obfuscateSend pkt cfg fill) cfg = Some pkt.
Proof.
  intros HC Hs Hf. destruct (enabled cfg) eqn:He.
  - apply (obfs_roundtrip_spec cfg t); [by destruct HC|done|done|by apply clash_free_unambiguous].
  - unfold deobfuscateRecv, obfuscateSend. by rewrite He.
Qed.

Lemma length_obfuscateSend cfg t pkt fill :
  stock_message t pkt -> length fill = padFor cfg t -> (length (obfuscateSend pkt cfg fill) <= padFor cfg t + length pkt)%nat.
Proof.
  intros Hs Hf. destruct (enabled cfg) eqn:He; [|unfold obfuscateSend; rewrite He; cbn [negb orb]; lia].
  destruct (stock_split t pkt Hs) as [Hr [rest ->]].
  rewrite obfuscateSend_eq by (done || unfold uint; lia). rewrite !length_app, !length_le_enc. lia.
Qed.

(** AmneziaWG's transform is undone on receipt.  Every stock message, obfuscated under a
    configuration both ends share, is recovered exactly, provided no other control kind's total
    length and type word fit the datagram; when all four paddings are equal and the four type
    words differ, no such clash exists and every message round-trips. *)
Theorem obfs_roundtrip (cfg : ObfuscationConfig) (t : Z) (pkt fill : bytes) :
  words_ok cfg -> stock_message t pkt -> length fill = padFor cfg t ->
  (unambiguous cfg t (obfuscateSend pkt cfg fill) -> deobfuscateRecv (obfuscateSend pkt cfg fill) cfg = Some pkt) /\
  (clash_free cfg -> deobfuscateRecv (obfuscateSend pkt cfg fill) cfg = Some pkt).
Proof. intros Hw Hs Hf. split; [by apply (obfs_roundtrip_spec cfg t)|]. intros HC. by apply (clash_free_roundtrip cfg t). Qed.

Lemma obfs_roundtrip_witness :
  let cfg := mkObf 1000001 1000002 1000003 1000004 2 2 2 2 0 0 0 in
  let pkt := [2; 0; 0; 0] ++ replicate 88 7 in
  deobfuscateRecv (obfuscateSend pkt cfg [9; 9]) cfg = Some pkt.
Proof.
  intros cfg pkt. destruct (obfs_roundtrip cfg 2 pkt [9; 9]) as [_ H].
  - split_and!; by_decision.
  - by split.
  - reflexivity.
  - apply H. split_and!; [by_decision..| |by_decision]. intros t Ht. set_unfold.
    destruct Ht as [-> | [-> | [-> | [-> | []]]]]; reflexivity.
Defined.
