(* ===== verification/WgServer.v ===== *)
(** * The WireGuard server's handshakes, [internal/wireguard/server.go]

    [handleInitiation]: the three gates in front of the responder (mac1, the
    cookie under load, admission control), the responder itself, the peer table
    with its replayed-timestamp check, and the installation of the new keys in the
    peer's tunnel and in the pump.  The clock readings and random draws of one
    call are its [env].  The handler's result names the way it ended, which the
    code only logs, and lists the datagrams it sent.

    The theorems: the server stays well-formed over every turn of its read loop,
    every pointer of it resolving; an initiation is answered with keys at most
    once, whatever arrives in between; nothing but an authenticated initiation of a
    configured peer touches a peer or the data path; and an initiation a configured
    client makes is answered so that the client's keys mirror the ones the server
    installed. *)
From Stdlib Require Import ZArith Lia.
From stdpp Require Import base list gmap.
From S2P Require Import Prelude Routes Packet Admission Pump PumpGso Crypto WgWire WgNoise WgCookie WgTransport WgTunnel WgObfs.

Record serverPeer := mkPeer { p_psk : bytes; p_allowedIPs : list Prefix; lastTS : bytes; p_tunnel : option nat }.

Record Server := mkServer {
  sv_localStatic : bytes; sv_obf : ObfuscationConfig; sv_gate : Gate; sv_cookies : CookieChecker;
  sv_load : handshakeLoad; sv_peers : gmap bytes serverPeer; sv_pump : WgPump }.

Definition sv_set_load l s := mkServer (sv_localStatic s) (sv_obf s) (sv_gate s) (sv_cookies s) l (sv_peers s) (sv_pump s).
Definition sv_set_cookies c s := mkServer (sv_localStatic s) (sv_obf s) (sv_gate s) c (sv_load s) (sv_peers s) (sv_pump s).
Definition sv_set_gate g s := mkServer (sv_localStatic s) (sv_obf s) g (sv_cookies s) (sv_load s) (sv_peers s) (sv_pump s).
Definition sv_set_peer k p s :=
  mkServer (sv_localStatic s) (sv_obf s) (sv_gate s) (sv_cookies s) (sv_load s) (<[k := p]> (sv_peers s)) (sv_pump s).
Definition sv_set_pump p s := mkServer (sv_localStatic s) (sv_obf s) (sv_gate s) (sv_cookies s) (sv_load s) (sv_peers s) p.

(** What one call reads and draws: the clock at each reading, the cookie secret
    and nonce, the response's ephemeral key and index, and padding. *)
Record env := mkEnv {
  e_load : Z; e_mac2 : Z; e_reply : Z; e_reply' : Z; e_gate : Z; e_install : Z;
  e_secret : bytes; e_nonce : bytes; e_eph : bytes; e_idx : Z; e_fill : bytes }.

(** How a call ended. *)
Inductive outcome :=
| Noise_ | CookieSent | CookieFailed | NotAdmitted (r : RejectReason) | Rejected (e : noise_error)
| UnknownPeer (k : bytes) | Replayed (k : bytes) | ResponseFailed (k : bytes) | Established (k ts : bytes).

Abbreviation zeroTS := (replicate TimestampLen 0) (only parsing).

Section Server.
Context {P : Prims} {N : NoisePrims}.

(** [underLoad] counts the initiation; what it logs is left out. *)
Definition underLoad (e : env) (s : Server) : bool * Server :=
  let '(loaded, _, l) := observe (sv_load s) (e_load e) in (loaded, sv_set_load l s).

Definition sendCookieReply (e : env) (init : bytes) (to : UDPAddr) (s : Server) : outcome * list (bytes * UDPAddr) * Server :=
  let '(r, c) := CookieReply_ init (udpIP to, udpPort to) (e_reply e) (e_reply' e) (e_secret e) (e_nonce e) (sv_cookies s) in
  let s := sv_set_cookies c s in
  match r with
  | Err _ => (CookieFailed, [], s)
  | Ok reply => (CookieSent, [(obfuscateSend reply (sv_obf s) (e_fill e), to)], s)
  end.

(** The second half, once the timestamp has passed: install the keys and register
    them.  A peer's tunnel pointer is nil or names a tunnel of the store. *)
Definition install_session (e : env) (k ts : bytes) (peer : serverPeer) (kp : Keypair) (from : UDPAddr) (s : Server) : Server :=
  let sess := session_of kp in
  let w := world (sv_pump s) in
  match p_tunnel peer ≫= (fun t => pair t <$> tunnels w !! t) with
  | None =>
      let t := fresh (dom (tunnels w)) in
      let w := put_tunnel t (newTunnel sess (p_allowedIPs peer) (Some from) true (e_install e)) w in
      let s := sv_set_peer k (mkPeer (p_psk peer) (p_allowedIPs peer) ts (Some t)) s in
      sv_set_pump (AddTunnel t (upd_world w (sv_pump s))).2 s
  | Some (t, x) =>
      let '(evicted, x) := install (wg_SetPeerAddr x from) sess (e_install e) in
      let w := put_tunnel t x w in
      let s := sv_set_peer k (mkPeer (p_psk peer) (p_allowedIPs peer) ts (Some t)) s in
      let p := (AddInboundKey (s_local sess) t (upd_world w (sv_pump s))).2 in
      let p := match evicted with Some old => (RemoveInboundKey (s_local old) p).2 | None => p end in
      sv_set_pump p s
  end.

(** The responder's part, behind the gates. *)
Definition respond (e : env) (pkt : bytes) (from : UDPAddr) (s : Server) : outcome * list (bytes * UDPAddr) * Server :=
  let r := NewResponderWithTypes (sv_localStatic s) (oTypeInitiation (sv_obf s)) (oTypeResponse (sv_obf s)) in
  match Responder_Consume pkt r with
  | (Err err, _) => (Rejected err, [], s)
  | (Ok (k, ts), r) =>
      match sv_peers s !! k with
      | None => (UnknownPeer k, [], s)
      | Some peer =>
          if (negb (bool_decide (lastTS peer = zeroTS)) && negb (WgWire.After ts (lastTS peer)))%bool then (Replayed k, [], s)
          else
            match Response (p_psk peer) (e_eph e) (e_idx e) r with
            | (Err _, _) => (ResponseFailed k, [], s)
            | (Ok (resp, kp), _) =>
                (Established k ts, [(obfuscateSend resp (sv_obf s) (e_fill e), from)], install_session e k ts peer kp from s)
            end
      end
  end.

Definition handleInitiation (e : env) (pkt : bytes) (from : UDPAddr) (s : Server) : outcome * list (bytes * UDPAddr) * Server :=
  if negb (CheckMAC1 (sv_cookies s) pkt) then (Noise_, [], s) else
  let '(loaded, s) := underLoad e s in
  if (loaded && negb (CheckMAC2 (sv_cookies s) pkt (udpIP from, udpPort from) (e_mac2 e)))%bool then sendCookieReply e pkt from s
  else
    let '(r, g) := Admit (sv_gate s) (Admission.UDPAddr (udpIP from)) (e_gate e) in
    let s := sv_set_gate g s in
    match r with
    | HandshakeAdmitted =>
        let '(o, out, s) := respond e pkt from s in
        (o, out, sv_set_gate (Done (sv_gate s)) s)
    | _ => (NotAdmitted r, [], s)
    end.

(** ** The read loop *)

(** One pass over a read batch: what was sent, the transport data collected, the server.  [draw] gives
    each datagram's clock readings and random draws. *)
Fixpoint dispatch (draw : nat -> env) (i : nat) (dgrams : list (bytes * UDPAddr)) (s : Server)
    : list (bytes * UDPAddr) * list (bytes * option (option UDPAddr)) * Server :=
  match dgrams with
  | [] => ([], [], s)
  | (d, from) :: dgrams =>
      match deobfuscateRecv d (sv_obf s) with
      | None => dispatch draw (S i) dgrams s
      | Some pkt =>
          match Type_of pkt with
          | None => dispatch draw (S i) dgrams s
          | Some t =>
              if t =? TypeHandshakeInitiation then
                let '(_, out, s) := handleInitiation (draw i) pkt from s in
                let '(out', data, s) := dispatch draw (S i) dgrams s in
                (out ++ out', data, s)
              else if t =? TypeTransportData then
                let '(out, data, s) := dispatch draw (S i) dgrams s in
                (out, (pkt, Some (Some from)) :: data, s)
              else dispatch draw (S i) dgrams s
          end
      end
  end.

(** One turn of [readLoop]; [None] is a panic of the pump's coalescing table. *)
Definition readBatch (draw : nat -> env) (dgrams : list (bytes * UDPAddr)) (now : Z) (s : Server)
    : option unit * list (bytes * UDPAddr) * Server :=
  let '(out, data, s) := dispatch draw 0 dgrams s in
  if (length data =? 0)%nat then (Some (), out, s)
  else let '(r, p) := HandleInboundBatch data now (sv_pump s) in (r, out, sv_set_pump p s).

(** ** What a call can change *)

(** Outside an established handshake, peers and data path are untouched. *)
Definition untouched (s s' : Server) : Prop :=
  sv_localStatic s' = sv_localStatic s /\ sv_obf s' = sv_obf s /\ sv_peers s' = sv_peers s /\ sv_pump s' = sv_pump s.

(** The accepted initiation of one peer: what it opened to, and the peer's entry it advances. *)
Definition accepts (s s' : Server) (pkt k ts : bytes) : Prop :=
  exists r peer t,
    Responder_Consume pkt (NewResponderWithTypes (sv_localStatic s) (oTypeInitiation (sv_obf s)) (oTypeResponse (sv_obf s))) = (Ok (k, ts), r) /\
    sv_peers s !! k = Some peer /\ (lastTS peer = zeroTS \/ WgWire.After ts (lastTS peer) = true) /\
    sv_peers s' = <[k := mkPeer (p_psk peer) (p_allowedIPs peer) ts (Some t)]> (sv_peers s).

(** What an answer with keys stands on. *)
Definition established_ok (e : env) (pkt : bytes) (from : UDPAddr) (s s' : Server) (k ts : bytes) : Prop :=
  CheckMAC1 (sv_cookies s) pkt = true /\
  ((observe (sv_load s) (e_load e)).1.1 = true -> CheckMAC2 (sv_cookies s) pkt (udpIP from, udpPort from) (e_mac2 e) = true) /\
  accepts s s' pkt k ts.

Lemma install_session_peers e k ts peer kp from s :
  exists t, sv_peers (install_session e k ts peer kp from s) = <[k := mkPeer (p_psk peer) (p_allowedIPs peer) ts (Some t)]> (sv_peers s) /\
  sv_localStatic (install_session e k ts peer kp from s) = sv_localStatic s /\ sv_obf (install_session e k ts peer kp from s) = sv_obf s.
Proof. unfold install_session. repeat case_match; by eexists. Qed.

Lemma respond_inv e pkt from s :
  let '(o, out, s') := respond e pkt from s in
  match o with
  | Established k ts =>
      (exists d, out = [(d, from)]) /\ sv_localStatic s' = sv_localStatic s /\ sv_obf s' = sv_obf s /\
      accepts s s' pkt k ts
  | CookieSent => False
  | _ => out = [] /\ s' = s
  end.
Proof.
  unfold respond. destruct (Responder_Consume _ _) as [[[k ts]|err] r] eqn:Ec; [|done].
  destruct (sv_peers s !! k) as [peer|] eqn:Ep; [|done].
  destruct (negb (bool_decide (lastTS peer = zeroTS)) && negb (WgWire.After ts (lastTS peer))) eqn:Et; [done|].
  destruct (Response _ _ _ _) as [[[resp kp]|err] r2]; [|done].
  destruct (install_session_peers e k ts peer kp from s) as (t & Hp & H1 & H2).
  split; [by eexists|]. split; [done|]. split; [done|]. exists r, peer, t. split_and!; try done.
  apply andb_false_iff in Et as [Et|Et]; apply negb_false_iff in Et; [left; by apply bool_decide_eq_true in Et|by right].
Qed.

(** C18: The server's gates.  An initiation is answered with keys only when its mac1 is for this
    server, when it proves its address with mac2 if the server is under load, and when the
    responder opened it to the static key of a configured peer and a timestamp newer than that
    peer's last; then exactly that peer's entry changes.  Any other initiation leaves every peer
    and the whole data path as they were, and is answered by nothing, or under load by one
    cookie reply, to the address it came from. *)
Theorem handleInitiation_guarded (e : env) (pkt : bytes) (from : UDPAddr) (s : Server) :
  let '(o, out, s') := handleInitiation e pkt from s in
  match o with
  | Established k ts => (exists d, out = [(d, from)]) /\ established_ok e pkt from s s' k ts
  | CookieSent => (exists d, out = [(d, from)]) /\ (observe (sv_load s) (e_load e)).1.1 = true /\ untouched s s' /\ sv_gate s' = sv_gate s
  | _ => out = [] /\ untouched s s'
  end.
Proof.
  unfold handleInitiation. destruct (CheckMAC1 (sv_cookies s) pkt) eqn:E1; [|done]. cbn [negb]. unfold underLoad.
  destruct (observe (sv_load s) (e_load e)) as [[loaded ch] l] eqn:El. cbn [sv_cookies sv_set_load].
  destruct (loaded && negb (CheckMAC2 _ pkt _ _)) eqn:E2.
  { apply andb_true_iff in E2 as [-> _]. unfold sendCookieReply.
    destruct (CookieReply_ _ _ _ _ _ _ _) as [[reply|err] c]; [|done]. by split; [eexists|]. }
  destruct (Admit _ _ _) as [[] g]; [|done..].
  set (s1 := sv_set_gate g (sv_set_load l s)). pose proof (respond_inv e pkt from s1) as H.
  destruct (respond e pkt from s1) as [[o out] s'].
  destruct o; try done; try (destruct H as [-> ->]; done).
  destruct H as (Hd & _ & _ & Hr). split; [done|]. split; [done|]. split; [|exact Hr].
  intros Hl. rewrite El in Hl. cbn [fst] in Hl. subst loaded. cbn [andb] in E2. by apply negb_false_iff in E2.
Qed.

(** A call either establishes nothing and leaves peers and data path alone, or is the
    accepted initiation of one peer. *)
Lemma handle_inv e pkt from s :
  let '(o, _, s') := handleInitiation e pkt from s in
  sv_localStatic s' = sv_localStatic s /\ sv_obf s' = sv_obf s /\
  ((sv_peers s' = sv_peers s /\ sv_pump s' = sv_pump s /\ forall k ts, o <> Established k ts) \/
   exists k ts, o = Established k ts /\ accepts s s' pkt k ts).
Proof.
  unfold handleInitiation. destruct (negb (CheckMAC1 _ _)); [by split_and!; try left|]. unfold underLoad.
  destruct (observe (sv_load s) (e_load e)) as [[loaded ch] l]. destruct (loaded && _).
  { unfold sendCookieReply. destruct (CookieReply_ _ _ _ _ _ _ _) as [[reply|err] c]; by split_and!; try left. }
  destruct (Admit _ _ _) as [[] g]; [|by split_and!; try left..].
  set (s1 := sv_set_gate g (sv_set_load l s)). pose proof (respond_inv e pkt from s1) as H.
  destruct (respond e pkt from s1) as [[o out] s'].
  destruct o; try (destruct H as [_ ->]; by split_and!; try left); [done|].
  destruct H as (_ & E1 & E2 & Ha). split_and!; [done|done|]. right. by exists k, ts.
Qed.

(** ** Well-formed servers *)

(** Every pointer resolves: a peer's tunnel and the tunnel behind every inbound key
    are in the store, and no two peers share one. *)
Record server_wf (s : Server) : Prop := {
  wf_peer_tunnel : forall k p t, sv_peers s !! k = Some p -> p_tunnel p = Some t -> is_Some (tunnels (world (sv_pump s)) !! t);
  wf_peers_apart : forall k k' p p' t, sv_peers s !! k = Some p -> sv_peers s !! k' = Some p' ->
    p_tunnel p = Some t -> p_tunnel p' = Some t -> k = k';
  wf_keys : forall key b, byKey (sv_pump s) !! key = Some b -> is_Some (tunnels (world (sv_pump s)) !! bt b);
}.

Lemma install_session_wf e k ts peer kp from s :
  server_wf s -> sv_peers s !! k = Some peer -> server_wf (install_session e k ts peer kp from s).
Proof.
  intros [W1 W2 W3] Hp. unfold install_session.
  destruct (p_tunnel peer ≫= (fun t => pair t <$> tunnels (world (sv_pump s)) !! t)) as [[t x]|] eqn:E.
  - apply bind_Some in E as (t' & Et & E). apply fmap_Some in E as (x' & Ex & [= -> ->]). cbn [install fst snd].
    set (w := put_tunnel t' _ _). destruct (AddInboundKey_wg (s_local (session_of kp)) t' (upd_world w (sv_pump s))) as (b & [Hb _] & Hk & Hw).
    set (p1 := (AddInboundKey _ _ _).2) in *.
    set (p2 := match previous _ with Some old => _ | None => _ end).
    assert (world p2 = w /\ forall key c, byKey p2 !! key = Some c -> byKey p1 !! key = Some c) as [Hw2 Hk2].
    { subst p2. destruct (previous _); [|done]. split; [done|]. intros key c. rewrite (proj1 (RemoveInboundKey_wg _ _)).
      by intros [_ H]%lookup_delete_Some. }
    assert (forall u, is_Some (tunnels (world (sv_pump s)) !! u) -> is_Some (tunnels w !! u)) as Hin
      by (intros u Hu; cbn [w put_tunnel tunnels]; apply lookup_insert_is_Some; destruct (decide (t' = u)); auto).
    split; cbn [sv_peers sv_pump sv_set_pump sv_set_peer]; rewrite ?Hw2.
    + intros k' p' u [[<- <-]|[_ H]]%lookup_insert_Some Hu; [|by eapply Hin, W1].
      cbn in Hu. injection Hu as <-. apply Hin. by eexists.
    + intros k1 k2 q1 q2 u H1 H2 T1 T2.
      apply lookup_insert_Some in H1 as [[<- <-]|[_ H1]], H2 as [[<- <-]|[_ H2]]; cbn in *; simplify_eq; [done|..]; by eapply W2.
    + intros key c Hc. apply Hk2 in Hc. rewrite Hk in Hc. apply lookup_insert_Some in Hc as [[_ <-]|[_ Hc]].
      * rewrite Hb. apply Hin. by eexists.
      * by eapply Hin, W3.
  - set (t := fresh _). set (w := put_tunnel t _ _).
    assert (tunnels w !! t = Some (newTunnel (session_of kp) (p_allowedIPs peer) (Some from) true (e_install e))) as Hl by apply lookup_insert_eq.
    destruct (AddTunnel_wg t _ (session_of kp) (upd_world w (sv_pump s)) Hl eq_refl) as (b & [Hb _] & Hk & Hw & _).
    assert (tunnels (world (sv_pump s)) !! t = None) as Hf by (apply not_elem_of_dom; apply is_fresh).
    assert (forall u, is_Some (tunnels (world (sv_pump s)) !! u) -> is_Some (tunnels w !! u)) as Hin
      by (intros u Hu; cbn [w put_tunnel tunnels]; apply lookup_insert_is_Some; destruct (decide (t = u)); auto).
    split; cbn [sv_peers sv_pump sv_set_pump sv_set_peer]; rewrite ?Hw.
    + intros k' p' u [[<- <-]|[_ H]]%lookup_insert_Some Hu; [|by eapply Hin, W1].
      cbn in Hu. injection Hu as <-. by eexists.
    + intros k1 k2 q1 q2 u H1 H2 T1 T2. apply lookup_insert_Some in H1 as [[<- <-]|[_ H1]], H2 as [[<- <-]|[_ H2]]; cbn in *; simplify_eq.
      * done.
      * by destruct (W1 _ _ _ H2 T2) as [? ?]; congruence.
      * by destruct (W1 _ _ _ H1 T1) as [? ?]; congruence.
      * by eapply W2.
    + intros key c Hc. rewrite Hk in Hc. apply lookup_insert_Some in Hc as [[_ <-]|[_ Hc]]; [rewrite Hb; by eexists|by eapply Hin, W3].
Qed.

(** Well-formedness is about peers and data path only. *)
Lemma server_wf_same s s' : sv_peers s' = sv_peers s -> sv_pump s' = sv_pump s -> server_wf s -> server_wf s'.
Proof. intros E1 E2 [W1 W2 W3]. split; rewrite ?E1, ?E2; done. Qed.

Lemma respond_wf e pkt from s : server_wf s -> server_wf (respond e pkt from s).2.
Proof.
  intros W. unfold respond. destruct (Responder_Consume _ _) as [[[k ts]|err] r]; [|done].
  destruct (sv_peers s !! k) as [peer|] eqn:Hp; [|done]. destruct (_ && _); [done|].
  destruct (Response _ _ _ _) as [[[resp kp]|err] r2]; [|done]. by apply install_session_wf.
Qed.

Lemma handle_wf (e : env) (pkt : bytes) (from : UDPAddr) (s : Server) :
  server_wf s -> server_wf (handleInitiation e pkt from s).2.
Proof.
  intros W. unfold handleInitiation. destruct (negb (CheckMAC1 _ _)); [done|]. unfold underLoad.
  destruct (observe (sv_load s) (e_load e)) as [[loaded ch] l]. destruct (loaded && _).
  { unfold sendCookieReply. destruct (CookieReply_ _ _ _ _ _ _ _) as [[reply|err] c]; by apply (server_wf_same s). }
  destruct (Admit _ _ _) as [[] g]; [|by apply (server_wf_same s)..].
  pose proof (respond_wf e pkt from (sv_set_gate g (sv_set_load l s))) as H.
  destruct (respond _ _ _ _) as [[o out] s']. apply (server_wf_same s'); [done..|]. apply H. by apply (server_wf_same s).
Qed.

Lemma dispatch_wf draw i dgrams s : server_wf s -> server_wf (dispatch draw i dgrams s).2.
Proof.
  revert i s. induction dgrams as [|[d from] dgrams IH]; intros i s W; cbn [dispatch]; [done|].
  destruct (deobfuscateRecv d (sv_obf s)) as [pkt|]; [|by apply IH]. destruct (Type_of pkt) as [t|]; [|by apply IH].
  destruct (t =? 1).
  - pose proof (handle_wf (draw i) pkt from s W) as W1. destruct (handleInitiation (draw i) pkt from s) as [[o out] s1].
    specialize (IH (S i) s1 W1). by destruct (dispatch draw (S i) dgrams s1) as [[out' data] s2].
  - destruct (t =? 4); [|by apply IH]. specialize (IH (S i) s W). by destruct (dispatch draw (S i) dgrams s) as [[out data] s2].
Qed.

(** The tunnels of a store, whatever happens to each. *)
Definition store_has (d : gset nat) (w : wg_world) : Prop := dom (tunnels w) = d.

Lemma put_tunnel_store t x x' w d : tunnels w !! t = Some x' -> store_has d w -> store_has d (put_tunnel t x w).
Proof. intros H <-. unfold store_has, put_tunnel. cbn. apply dom_insert_lookup_L. by eexists. Qed.

Lemma batch_store data now (p : WgPump) :
  let p' := (HandleInboundBatch data now p).2 in dom (tunnels (world p')) = dom (tunnels (world p)) /\ byKey p' = byKey p.
Proof.
  cbv zeta. edestruct (keeps_HandleInboundBatch (store_has (dom (tunnels (world p)))) (byKey p) (routes p)) as (H1 & H2 & _); [..|by split]; cbn; try done.
  - intros t w pkt Hw. unfold on_tunnel. destruct (tunnels w !! t) as [x|] eqn:E; [|done].
    destruct (wg_Decapsulate x pkt) as [r x']. by eapply put_tunnel_store.
  - intros t w a Hw. destruct (tunnels w !! t) as [x|] eqn:E; [|done]. destruct a; [|done]. by eapply put_tunnel_store.
Qed.


(** ** Once *)

(** The server after handling a list of initiations. *)
Definition serve (calls : list (env * bytes * UDPAddr)) (s : Server) : Server :=
  foldl (fun s '(e, pkt, from) => (handleInitiation e pkt from s).2) s calls.

(** Octets open to octets. *)
Definition open_octets : Prop := forall k n a c pt,
  bytes_ok c -> aeadOpen ChaCha20Poly1305 k n a c = Some pt -> bytes_ok pt.

Definition ts_ok (ts : bytes) : Prop := bytes_ok ts /\ length ts = TimestampLen.

Definition peers_ok (s : Server) : Prop := map_Forall (fun _ p => ts_ok (lastTS p)) (sv_peers s).

Lemma ts_zero ts : ts_ok ts -> be_dec ts = 0 -> ts = zeroTS.
Proof. intros [Hb Hl] Hz. rewrite <- (be_enc_dec ts Hb), Hz, Hl. reflexivity. Qed.

Lemma ts_nonneg ts : ts_ok ts -> 0 <= be_dec ts.
Proof. intros [Hb _]. apply be_dec_range in Hb. lia. Qed.

Lemma ts_after a b : ts_ok a -> ts_ok b -> WgWire.After a b = (be_dec b <? be_dec a).
Proof. intros [Ha La] [Hb Lb]. apply After_spec; congruence. Qed.

(** The timestamp [Consume] returns is twelve octets. *)
Lemma Consume_ts pkt b h1 h2 k ts r :
  open_octets -> bytes_ok pkt ->
  Responder_Consume pkt (NewResponderWithTypes b h1 h2) = (Ok (k, ts), r) -> ts_ok ts.
Proof.
  intros HO Hb (msg & k2 & h & pt & Ep & Eo & ->)%Responder_Consume_inv. cbn [NewResponderWithTypes r_timestamp].
  split; [|by rewrite length_go_copy, length_replicate].
  unfold hs_open in Eo. destruct (aeadOpen _ _ _ _ _) as [pt'|] eqn:Ea; [|done]. cbn in Eo. apply Ok_inj in Eo as <-.
  apply HO in Ea.
  - unfold go_copy. apply Forall_take, Forall_app_2; [done|]. apply Forall_drop, replicate0_ok.
  - unfold ParseHandshakeInitiation in Ep. repeat case_match; try done. apply Ok_inj in Ep as <-. by apply slice_ok.
Qed.

(** No peer's timestamp ever goes back. *)
Lemma handle_peers e pkt from s :
  open_octets -> bytes_ok pkt -> peers_ok s ->
  let s' := (handleInitiation e pkt from s).2 in
  sv_localStatic s' = sv_localStatic s /\ sv_obf s' = sv_obf s /\ peers_ok s' /\
  (forall k p, sv_peers s !! k = Some p -> exists p', sv_peers s' !! k = Some p' /\ be_dec (lastTS p) <= be_dec (lastTS p')).
Proof.
  intros HO Hb HP. pose proof (handle_inv e pkt from s) as H. destruct (handleInitiation e pkt from s) as [[o out] s']. cbn [snd].
  destruct H as (E1 & E2 & [(E3 & _)|(k & ts & _ & r & peer & t & Hc & Hp & Hts & E3)]); split_and!; try done.
  - unfold peers_ok. by rewrite E3.
  - intros k p Hk. exists p. rewrite E3. split; [done|lia].
  - apply Consume_ts in Hc; [|done..]. intros k' p'. rewrite E3. intros [[<- <-]|[_ H]]%lookup_insert_Some; [done|]. by apply HP in H.
  - apply Consume_ts in Hc; [|done..]. pose proof (HP k peer Hp) as Hok. intros k' p' Hk'. rewrite E3. destruct (decide (k = k')) as [<-|Hne].
    + rewrite lookup_insert_eq. eexists. split; [done|]. cbn [lastTS]. assert (peer = p') as <- by congruence.
      destruct Hts as [->|Ha]; [|rewrite ts_after in Ha by done; apply Z.ltb_lt in Ha; lia].
      change (be_dec zeroTS) with 0. by apply ts_nonneg.
    + rewrite lookup_insert_ne by done. exists p'. split; [done|lia].
Qed.

Lemma serve_peers calls s :
  open_octets -> Forall (fun c => bytes_ok c.1.2) calls -> peers_ok s ->
  sv_localStatic (serve calls s) = sv_localStatic s /\ sv_obf (serve calls s) = sv_obf s /\ peers_ok (serve calls s) /\
  (forall k p, sv_peers s !! k = Some p ->
     exists p', sv_peers (serve calls s) !! k = Some p' /\ be_dec (lastTS p) <= be_dec (lastTS p')).
Proof.
  intros HO. revert s. induction calls as [|[[e pkt] from] calls IH]; intros s HF HP.
  { split_and!; try done. intros k p Hk. exists p. split; [done|lia]. }
  apply Forall_cons in HF as [Hb HF]. cbn in Hb. cbn [serve foldl].
  destruct (handle_peers e pkt from s HO Hb HP) as (E1 & E2 & HP1 & Hm). set (s1 := (handleInitiation e pkt from s).2) in *. destruct (IH s1 HF HP1) as (F1 & F2 & F3 & F4). unfold serve in *.
  split_and!; [congruence|congruence|done|]. intros k p Hk. destruct (Hm k p Hk) as (p1 & Hk1 & L1).
  destruct (F4 k p1 Hk1) as (p2 & Hk2 & L2). exists p2. split; [done|lia].
Qed.

(** C13: An initiation is answered with keys at most once.  After a server has accepted an
    initiation, then handled any others, the same datagram never establishes anything again,
    from whatever address it is replayed and whatever the server draws: no peer and no part of
    the data path changes.  (The all-zero timestamp, 2^62 seconds before 1970, is the mark of a
    peer that has none and is excluded.) *)
Theorem initiation_once (s : Server) (e e' : env) (pkt : bytes) (from from' : UDPAddr) (k ts : bytes)
    (calls : list (env * bytes * UDPAddr)) :
  open_octets -> peers_ok s -> bytes_ok pkt -> Forall (fun c => bytes_ok c.1.2) calls ->
  (handleInitiation e pkt from s).1.1 = Established k ts -> ts <> zeroTS ->
  let s1 := serve calls (handleInitiation e pkt from s).2 in
  let '(o, out, s2) := handleInitiation e' pkt from' s1 in
  (forall k' ts', o <> Established k' ts') /\ sv_peers s2 = sv_peers s1 /\ sv_pump s2 = sv_pump s1.
Proof.
  intros HO HP Hb HF HE Hz s1. pose proof (handle_inv e pkt from s) as H.
  destruct (handle_peers e pkt from s HO Hb HP) as (E1 & E2 & HP0 & _).
  destruct (handleInitiation e pkt from s) as [[o0 out0] s0]. cbn [fst snd] in *. subst o0.
  destruct H as (_ & _ & [(_ & _ & H)|(k0 & ts0 & [= <- <-] & r & peer & t & Hc & Hp & _ & E3)]); [by destruct (H k ts)|].
  destruct (serve_peers calls s0 HO HF HP0) as (F1 & F2 & F3 & F4). fold s1 in F1, F2, F3, F4.
  assert (sv_peers s0 !! k = Some (mkPeer (p_psk peer) (p_allowedIPs peer) ts (Some t))) as Hp' by (rewrite E3; apply lookup_insert_eq).
  destruct (F4 k _ Hp') as (p1 & Hk1 & L1). cbn [lastTS] in L1.
  assert (ts_ok ts) as Hok by (by eapply Consume_ts). pose proof (F3 k p1 Hk1) as Hok1. cbn in Hok1.
  pose proof (handle_inv e' pkt from' s1) as H. destruct (handleInitiation e' pkt from' s1) as [[o out] s2].
  destruct H as (_ & _ & [(H1 & H2 & H3)|(k' & ts' & -> & r2 & q & t2 & Hc2 & Hq & Hcond & _)]); [done|]. exfalso.
  rewrite F1, F2, E1, E2, Hc in Hc2. apply pair_equal_spec in Hc2 as [Hc2 _]. apply Ok_inj in Hc2.
  apply pair_equal_spec in Hc2 as [<- <-]. assert (q = p1) as -> by congruence. destruct Hcond as [Hzero|Ha].
  - rewrite Hzero in L1. change (be_dec zeroTS) with 0 in L1. pose proof (ts_nonneg ts Hok). by apply Hz, ts_zero; [|lia].
  - rewrite ts_after in Ha by done. apply Z.ltb_lt in Ha. lia.
Qed.

(** ** Completion *)

Context {PO : PrimsOk P} {NO : NoiseOk N}.

(** The tunnel of a peer runs under the keys [kp], and the pump leads their index to it. *)
Definition runs_under (s : Server) (k : bytes) (kp : Keypair) : Prop :=
  exists peer t x b, sv_peers s !! k = Some peer /\ p_tunnel peer = Some t /\
    tunnels (world (sv_pump s)) !! t = Some x /\ current x = Some (session_of kp) /\
    byKey (sv_pump s) !! kpLocal kp = Some b /\ bound_to t b.

(** The index drawn is not the one this rekey retires. *)
Definition index_free (s : Server) (peer : serverPeer) (idx : Z) : Prop :=
  forall t x old, p_tunnel peer = Some t -> tunnels (world (sv_pump s)) !! t = Some x -> previous x = Some old -> s_local old <> idx.

Lemma install_session_runs e k ts peer kp from s :
  index_free s peer (kpLocal kp) -> runs_under (install_session e k ts peer kp from s) k kp.
Proof.
  intros Hfree. unfold install_session, runs_under.
  destruct (p_tunnel peer ≫= (fun t => pair t <$> tunnels (world (sv_pump s)) !! t)) as [[t x]|] eqn:E.
  - apply bind_Some in E as (t' & Et & E). apply fmap_Some in E as (x' & Ex & [= -> ->]). cbn [install fst snd].
    set (w := put_tunnel t' _ _). destruct (AddInboundKey_wg (s_local (session_of kp)) t' (upd_world w (sv_pump s))) as (b & Hb & Hk & Hw).
    exists (mkPeer (p_psk peer) (p_allowedIPs peer) ts (Some t')), t', (install (wg_SetPeerAddr x' from) (session_of kp) (e_install e)).2, b.
    cbn [sv_peers sv_pump sv_set_pump sv_set_peer]. split_and!; [apply lookup_insert_eq|done|..|done].
    + assert (tunnels w !! t' = Some (install (wg_SetPeerAddr x' from) (session_of kp) (e_install e)).2) as Hl by apply lookup_insert_eq.
      destruct (previous _); rewrite ?(proj2 (RemoveInboundKey_wg _ _)); by rewrite Hw.
    + done.
    + assert (previous (wg_SetPeerAddr x' from) = previous x') as ->.
      { unfold wg_SetPeerAddr. destruct (w_peer x'); [by destruct (_ && _)|done]. }
      destruct (previous x') as [old|] eqn:Eo; [|rewrite Hk; apply lookup_insert_eq].
      rewrite (proj1 (RemoveInboundKey_wg _ _)), lookup_delete_ne by by apply (Hfree t' x' old).
      rewrite Hk. apply lookup_insert_eq.
  - set (t := fresh _). set (w := put_tunnel t _ _).
    assert (tunnels w !! t = Some (newTunnel (session_of kp) (p_allowedIPs peer) (Some from) true (e_install e))) as Hl by apply lookup_insert_eq.
    destruct (AddTunnel_wg t _ (session_of kp) (upd_world w (sv_pump s)) Hl eq_refl) as (b & Hb & Hk & Hw & _).
    exists (mkPeer (p_psk peer) (p_allowedIPs peer) ts (Some t)), t, (newTunnel (session_of kp) (p_allowedIPs peer) (Some from) true (e_install e)), b.
    cbn [sv_peers sv_pump sv_set_pump sv_set_peer]. split_and!; [apply lookup_insert_eq|done|by rewrite Hw|done| |done].
    rewrite Hk. apply lookup_insert_eq.
Qed.

(** The gates let the client's initiation through: no load, or a cookie for its address still fresh. *)
Definition gates_open (e : env) (from : UDPAddr) (ck : bytes) (s : Server) : Prop :=
  ((observe (sv_load s) (e_load e)).1.1 = true ->
    ck = cookieFor (sv_cookies s) (udpIP from, udpPort from) /\ ck <> zeroCookie /\
    exists at_, secretAt (sv_cookies s) = Some at_ /\ time_sub (e_mac2 e) at_ <= CookieRefreshTime) /\
  (Admit (sv_gate s) (Admission.UDPAddr (udpIP from)) (e_gate e)).1 = HandshakeAdmitted.

Lemma completes_handshake (cfg : Config) (ck b e1 es ss ee se : bytes) (idx1 unix nsec : Z) (e : env)
    (from : UDPAddr) (s : Server) (peer : serverPeer) :
  let k := PublicKey (LocalStatic cfg) in
  b = sv_localStatic s -> RemoteStatic cfg = PublicKey b -> TypeInitiation cfg = oTypeInitiation (sv_obf s) ->
  checker_for b (TypeInitiation cfg) (sv_cookies s) ->
  sv_peers s !! k = Some peer -> p_psk peer = PresharedKey cfg ->
  (lastTS peer = zeroTS \/ WgWire.After (Timestamp unix nsec) (lastTS peer) = true) ->
  uint32 idx1 -> uint32 (e_idx e) -> dh_defined (LocalStatic cfg) b e1 (e_eph e) es ss ee se ->
  gates_open e from ck s -> index_free s peer (e_idx e) ->
  exists pkt i resp kpI kpR i' s',
    Initiation e1 idx1 unix nsec (SetCookie ck (NewInitiator cfg)) = (Ok pkt, i) /\
    handleInitiation e pkt from s =
      (Established k (Timestamp unix nsec), [(obfuscateSend resp (sv_obf s) (e_fill e), from)], s') /\
    Initiator_Consume resp i = (Ok kpI, i') /\ mirrored kpI kpR /\ runs_under s' k kpR /\
    kpLocal kpI = idx1 /\ kpLocal kpR = e_idx e /\ length resp = SizeHandshakeResponse /\ Type_of resp = Some TypeHandshakeResponse.
Proof.
  intros k Hb HR HT HC Hp Hpsk Hts U1 U2 [Des Dss Dee Dse] [Hload Hadm] Hfree.
  destruct (handshake_initiation cfg ck b e1 idx1 unix nsec es ss (oTypeResponse (sv_obf s)) HR U1 Des Dss)
    as (W & i & EI & H1 & H2 & H3 & H4 & H5 & _ & H7 & ER).
  set (m := init_msg _ _ _ _) in *. set (pkt := init_head m ++ iMAC1 m ++ iMAC2 m) in *.
  match type of W with wf_init ?m' => assert (exists m0, wf_init m0 /\ m' = with_macs m0 (mac1_of (SetCookie ck (NewInitiator cfg)) m0) (mac2_of (SetCookie ck (NewInitiator cfg)) m0)) as (m0 & W0 & Em) end.
  { eexists (mkInit _ _ _ _ _ _). split; [|reflexivity]. destruct W. by split. }
  destruct (stamped_checks cfg b (sv_cookies s) m0 ck HR HC W0) as [M1 M2]. rewrite <- Em in M1, M2. fold pkt in M1, M2.
  match type of ER with _ = (_, ?r) =>
    destruct (handshake_response cfg i r e1 (e_eph e) idx1 (e_idx e) ee se) as (resp & kpR & r' & kpI & i' & E1 & E2 & M & K1 & K2 & K3 & K4);
      try done end.
  enough (exists s', handleInitiation e pkt from s =
      (Established k (Timestamp unix nsec), [(obfuscateSend resp (sv_obf s) (e_fill e), from)], s') /\ runs_under s' k kpR) as (s' & A & B)
    by (by exists pkt, i, resp, kpI, kpR, i', s').
  unfold handleInitiation. rewrite M1. cbn [negb]. unfold underLoad.
  destruct (observe (sv_load s) (e_load e)) as [[loaded ch] l]. cbn [fst] in Hload. cbn [sv_cookies sv_set_load].
  assert ((loaded && negb (CheckMAC2 (sv_cookies s) pkt (udpIP from, udpPort from) (e_mac2 e)))%bool = false) as ->.
  { destruct loaded; [|done]. destruct (Hload eq_refl) as (Hck & Hz & at_ & Ha & Hf). by rewrite (M2 _ _ at_ Hck Hz Ha Hf). }
  cbn [sv_gate sv_set_load]. destruct (Admit _ _ _) as [r g]. cbn [fst] in Hadm. subst r.
  unfold respond. cbn [sv_localStatic sv_obf sv_set_gate sv_set_load sv_peers]. rewrite <- Hb, <- HT, ER.
  change (sv_peers s !! PublicKey (LocalStatic cfg)) with (sv_peers s !! k). rewrite Hp.
  assert ((negb (bool_decide (lastTS peer = zeroTS)) && negb (WgWire.After (Timestamp unix nsec) (lastTS peer)))%bool = false) as ->.
  { destruct Hts as [Hz|Ha]; [by rewrite bool_decide_eq_true_2|]. by rewrite Ha, andb_false_r. }
  rewrite Hpsk, E1. eexists. split; [reflexivity|].
  assert (runs_under (install_session e k (Timestamp unix nsec) peer kpR from (sv_set_gate g (sv_set_load l s))) k kpR) as HRun
    by (apply install_session_runs; rewrite K2; exact Hfree).
  exact HRun.
Qed.

(** A client and a server complete a handshake.  A client configured with this server's key and
    known to it makes an initiation with a newer timestamp than its last; if the gates let it
    through (under load, with the cookie it was given), the server answers it, the client opens
    the answer to keys that mirror the ones the server now runs its tunnel under, and the
    server's pump leads the new index to that tunnel: a first handshake and a rekey alike. *)
Theorem server_completes_handshake (cfg : Config) (ck b e1 es ss ee se : bytes) (idx1 unix nsec : Z) (e : env)
    (from : UDPAddr) (s : Server) (peer : serverPeer) :
  let k := PublicKey (LocalStatic cfg) in
  b = sv_localStatic s -> RemoteStatic cfg = PublicKey b -> TypeInitiation cfg = oTypeInitiation (sv_obf s) ->
  checker_for b (TypeInitiation cfg) (sv_cookies s) ->
  sv_peers s !! k = Some peer -> p_psk peer = PresharedKey cfg ->
  (lastTS peer = zeroTS \/ WgWire.After (Timestamp unix nsec) (lastTS peer) = true) ->
  uint32 idx1 -> uint32 (e_idx e) -> dh_defined (LocalStatic cfg) b e1 (e_eph e) es ss ee se ->
  gates_open e from ck s -> index_free s peer (e_idx e) ->
  exists pkt i resp kpI kpR i' s',
    Initiation e1 idx1 unix nsec (SetCookie ck (NewInitiator cfg)) = (Ok pkt, i) /\
    handleInitiation e pkt from s =
      (Established k (Timestamp unix nsec), [(obfuscateSend resp (sv_obf s) (e_fill e), from)], s') /\
    Initiator_Consume resp i = (Ok kpI, i') /\ mirrored kpI kpR /\ runs_under s' k kpR.
Proof.
  intros k H1 H2 H3 H4 H5 H6 H7 H8 H9 H10 H11 H12.
  destruct (completes_handshake cfg ck b e1 es ss ee se idx1 unix nsec e from s peer H1 H2 H3 H4 H5 H6 H7 H8 H9 H10 H11 H12)
    as (pkt & i & resp & kpI & kpR & i' & s' & A & B & C & D & E & _).
  by exists pkt, i, resp, kpI, kpR, i', s'.
Qed.

End Server.

(** ** A concrete server *)

Definition demo_cfg : Config := mkConfig [1] (pad32 [2]) zeroKey 0 0.
Definition demo_from : UDPAddr := mkUDPAddr (Some (IPv4 0xc0000201)) 51820.
Definition demo_env : env := mkEnv 10 10 10 10 10 10 (replicate 32 9) (replicate 24 8) [4] 9 [].
Definition demo_server : Server :=
  mkServer [2] stockObf (NewGate (mkAdmissionConfig 0 (f64_of_int 0) (f64_of_int 0)) 0)
    (NewCookieChecker (N := toy_noise) [2] 0) (mkLoad 128 (-2 ^ 63) 0 (-2 ^ 63) false)
    {[pad32 [1] := mkPeer zeroKey [mkPrefix (IPv4 0x0a000000) 8] zeroTS None]}
    (NewPump (Some Demux) false 0 (mkWorld ∅ 0 (fun _ => true))).
Definition demo_initiation : bytes :=
  match (Initiation (P := toy_prims) (N := toy_noise) [3] 7 100 5 (NewInitiator (N := toy_noise) demo_cfg)).1 with
  | Ok pkt => pkt
  | Err _ => []
  end.

Lemma toy_open_octets : open_octets (P := toy_prims).
Proof. intros k n a c pt Hc [= <-]. by apply Forall_take. Qed.


Lemma initiation_once_witness :
  let s := demo_server in
  let s1 := serve (P := toy_prims) (N := toy_noise) [] (handleInitiation (P := toy_prims) (N := toy_noise) demo_env demo_initiation demo_from s).2 in
  let '(o, out, s2) := handleInitiation (P := toy_prims) (N := toy_noise) demo_env demo_initiation demo_from s1 in
  (forall k' ts', o <> Established k' ts') /\ sv_peers s2 = sv_peers s1 /\ sv_pump s2 = sv_pump s1.
Proof.
  apply (initiation_once (P := toy_prims) (N := toy_noise) demo_server demo_env demo_env demo_initiation demo_from demo_from
    (pad32 [1]) (Timestamp 100 5) []).
  - exact toy_open_octets.
  - intros k p H. unfold demo_server in H. cbn [sv_peers] in H. apply lookup_singleton_Some in H as [<- <-]. split; [by_decision|reflexivity].
  - by_decision.
  - constructor.
  - vm_compute. reflexivity.
  - by vm_compute.
Defined.

Lemma server_completes_handshake_witness :
  exists pkt i resp kpI kpR i' s',
    Initiation (P := toy_prims) (N := toy_noise) [3] 7 100 5 (SetCookie zeroCookie (NewInitiator (N := toy_noise) demo_cfg)) = (Ok pkt, i) /\
    handleInitiation (P := toy_prims) (N := toy_noise) demo_env pkt demo_from demo_server =
      (Established (pad32 [1]) (Timestamp 100 5), [(obfuscateSend resp stockObf [], demo_from)], s') /\
    Initiator_Consume (P := toy_prims) (N := toy_noise) resp i = (Ok kpI, i') /\ mirrored kpI kpR /\ runs_under s' (pad32 [1]) kpR.
Proof.
  apply (server_completes_handshake (P := toy_prims) (N := toy_noise) (PO := toy_prims_ok) (NO := toy_noise_ok) demo_cfg zeroCookie [2] [3]
    (zip_with Z.add (pad32 [3]) (pad32 [2])) (zip_with Z.add (pad32 [1]) (pad32 [2]))
    (zip_with Z.add (pad32 [3]) (pad32 [4])) (zip_with Z.add (pad32 [1]) (pad32 [4])) 7 100 5 demo_env demo_from demo_server
    (mkPeer zeroKey [mkPrefix (IPv4 0x0a000000) 8] zeroTS None)); try reflexivity.
  - by split_and!.
  - by left.
  - by_decision.
  - by_decision.
  - split; reflexivity.
  - split; [intros H; exfalso; revert H; vm_compute; discriminate|vm_compute; reflexivity].
  - intros t x old [=].
Defined.
