(* ===== verification/Mschap.v ===== *)
(** * MS-CHAPv2 for PPP, [internal/mschap]

    The NT hash, the challenge response and the authenticator response of RFC 2759, and
    the MPPE keys of RFC 3079 that SSTP binds to its TLS channel.  MD4 is that of
    golang.org/x/crypto, the class [Md4]; SHA-1 and DES are those of Eap.v.

    [mschap_agrees]: for passwords of the basic plane this package and the IKEv2 one,
    which has its own MD4 and its own UTF-16 encoder, compute the same responses, and the
    SSTP key is the first half of the IKEv2 master session key; beyond that plane the
    two encoders differ. *)
From Stdlib Require Import ZArith Lia.
From Stdlib Require String.
Import String.StringSyntax.
From stdpp Require Import base list.
From S2P Require Import Prelude Crypto Eap.

Abbreviation ChallengeLen := 16%nat (only parsing).
Abbreviation NTResponseLen := 24%nat (only parsing).
Abbreviation HLAKLen := 32%nat (only parsing).

Class Md4 := { md4Sum : bytes -> bytes }.
Class Md4Ok (M : Md4) := { length_md4Sum d : length (md4Sum d) = 16%nat }.

(** [utf16.Encode]: one unit for a rune of the basic plane, a surrogate pair above it. *)
Definition utf16_units (r : Z) : list Z :=
  if (0 <=? r) && (r <? 0xD800) || (0xE000 <=? r) && (r <? 0x10000) then [r]
  else if (0x10000 <=? r) && (r <=? 0x10FFFF) then
    let r := r - 0x10000 in [0xD800 + Z.land (Z.shiftr r 10) 0x3FF; 0xDC00 + Z.land r 0x3FF]
  else [0xFFFD].

Definition utf16LE (s : bytes) : bytes := concat (le_enc 2 <$> concat (utf16_units <$> runes s)).

Section Mschap.
Context {D : Digests} {B : Des} {M : Md4}.

Definition NTPasswordHash (password : bytes) : bytes := md4Sum (utf16LE password).
Definition ntPasswordHashHash (ntHash : bytes) : bytes := md4Sum ntHash.

Definition ChallengeHash (peerChallenge authChallenge username : bytes) : bytes :=
  take 8 (sha1 (peerChallenge ++ authChallenge ++ username)).

(** The DES cipher of a seven-octet key. *)
Definition desKey (key7 : bytes) : bytes :=
  let b i := at_ key7 i in
  [b 0; Z.lor (wrap 8 (Z.shiftl (b 0) 7)) (Z.shiftr (b 1) 1); Z.lor (wrap 8 (Z.shiftl (b 1) 6)) (Z.shiftr (b 2) 2);
   Z.lor (wrap 8 (Z.shiftl (b 2) 5)) (Z.shiftr (b 3) 3); Z.lor (wrap 8 (Z.shiftl (b 3) 4)) (Z.shiftr (b 4) 4);
   Z.lor (wrap 8 (Z.shiftl (b 4) 3)) (Z.shiftr (b 5) 5); Z.lor (wrap 8 (Z.shiftl (b 5) 2)) (Z.shiftr (b 6) 6);
   wrap 8 (Z.shiftl (b 6) 1)]%nat.

Definition challengeResponse (challenge passwordHash : bytes) : bytes :=
  let z := resize 21 0 passwordHash in
  concat ((fun i => desBlock (desKey (slice z (i * 7) (i * 7 + 7))) challenge) <$> seq 0 3).

Definition GenerateNTResponse (authChallenge peerChallenge username password : bytes) : bytes :=
  challengeResponse (ChallengeHash peerChallenge authChallenge username) (NTPasswordHash password).

Definition magicSigning : bytes := str "Magic server to client signing constant".
Definition magicPad : bytes := str "Pad to make it do more than one iteration".

(** The digits are upper-case already. *)
Definition hexEncode (b : bytes) : bytes := upperHex b.

Definition AuthenticatorResponse (authChallenge peerChallenge username password ntResponse : bytes) : bytes :=
  let passwordHashHash := ntPasswordHashHash (NTPasswordHash password) in
  let dig := sha1 (passwordHashHash ++ ntResponse ++ magicSigning) in
  let challenge := ChallengeHash peerChallenge authChallenge username in
  str "S=" ++ hexEncode (sha1 (dig ++ challenge ++ magicPad)).

Definition magicMaster : bytes := str "This is the MPPE Master Key".
Definition magicSend : bytes := str "On the client side, this is the send key; on the server side, it is the receive key.".
Definition magicReceive : bytes := str "On the client side, this is the receive key; on the server side, it is the send key.".
Definition shsPad1 : bytes := replicate 40 0.
Definition shsPad2 : bytes := replicate 40 0xf2.

Definition getMasterKey (passwordHashHash ntResponse : bytes) : bytes := take 16 (sha1 (passwordHashHash ++ ntResponse ++ magicMaster)).

Definition getAsymmetricStartKey (masterKey : bytes) (keyLen : nat) (isSend isServer : bool) : bytes :=
  let magic := if xorb isSend isServer then magicSend else magicReceive in
  take keyLen (sha1 (masterKey ++ shsPad1 ++ magic ++ shsPad2)).

Definition ClientHLAK (password ntResponse : bytes) : bytes :=
  let masterKey := getMasterKey (ntPasswordHashHash (NTPasswordHash password)) ntResponse in
  getAsymmetricStartKey masterKey 16 true false ++ getAsymmetricStartKey masterKey 16 false false.

(** ** Agreement with the EAP package *)

Lemma concat_map_single {A} (f : Z -> list A) (l : list Z) : concat (f <$> concat ((fun r => [r]) <$> l)) = concat (f <$> l).
Proof. induction l as [|x l IH]; [done|]. cbn. f_equal. exact IH. Qed.

Lemma utf16LE_basic s : Forall (fun r => 0 <= r < 0x10000 /\ ~ 0xD800 <= r < 0xE000) (runes s) -> utf16LE s = Eap.utf16LE s.
Proof.
  unfold utf16LE, Eap.utf16LE. induction 1 as [|r l [Hr Hs] _ IH]; [done|]. cbn [fmap list_fmap concat].
  assert (utf16_units r = [r]) as ->.
  { unfold utf16_units. destruct (Z.ltb_spec r 0xD800), (Z.leb_spec 0xE000 r), (Z.leb_spec 0 r), (Z.ltb_spec r 0x10000); try lia; done. }
  assert (le_enc 2 r = [wrap 8 r; wrap 8 (Z.shiftr r 8)]) as E by (cbn [le_enc]; unfold wrap; by rewrite Z.shiftr_div_pow2 by lia).
  cbn [app fmap list_fmap concat]. rewrite E. cbn [app]. do 2 f_equal. exact IH.
Qed.

Context {DO : DigestsOk D}.
Hypothesis same_md4 : forall d, md4Sum d = md4 d.

(** The first half of a 64-octet key. *)
Lemma hlak_of_msk ntHash ntResponse :
  let mk := getMasterKey (ntPasswordHashHash ntHash) ntResponse in
  getAsymmetricStartKey mk 16 true false ++ getAsymmetricStartKey mk 16 false false = take 32 (deriveMSK ntHash ntResponse).
Proof.
  cbv zeta. unfold deriveMSK, getAsymmetricStartKey, Eap.getAsymmetricStartKey, getMasterKey, Eap.getMasterKey, ntPasswordHashHash, Eap.ntPasswordHashHash. rewrite same_md4. cbn [xorb].
  unfold magicMaster, Eap.magicMaster, magicSend, magicReceive, magic2, magic3, shsPad1, shsPad2, shaPad1, shaPad2.
  assert (forall d, length (sha1 d) = 20%nat) as Hl by (intros; apply length_digest).
  rewrite !Hl. cbn [Nat.min]. set (a := take 16 (sha1 _)). set (b := take 16 (sha1 _)).
  assert (length a = 16%nat /\ length b = 16%nat) as [Ha Hb] by (subst a b; rewrite !length_take, !Hl; lia).
  rewrite !(resize_all_alt _ 16) by done. rewrite resize_spec, take_app_le by (rewrite length_take, length_app; lia).
  rewrite (take_ge (a ++ b) 64) by (rewrite length_app; lia). by rewrite take_ge by (rewrite length_app; lia).
Qed.

Lemma challengeResponse_same c h : challengeResponse c h = Eap.challengeResponse c h.
Proof. unfold challengeResponse. cbn [seq fmap list_fmap concat Nat.mul Nat.add]. by rewrite app_nil_r. Qed.

Lemma mschap_agrees_spec authChallenge peerChallenge username password :
  Forall (fun r => 0 <= r < 0x10000 /\ ~ 0xD800 <= r < 0xE000) (runes password) ->
  let ntHash := ntPasswordHash password in
  let ntResponse := GenerateNTResponse authChallenge peerChallenge username password in
  ntResponse = generateNTResponse authChallenge peerChallenge username ntHash /\
  AuthenticatorResponse authChallenge peerChallenge username password ntResponse =
    str "S=" ++ upperHex (generateAuthenticatorResponse ntHash ntResponse peerChallenge authChallenge username) /\
  ClientHLAK password ntResponse = take HLAKLen (deriveMSK ntHash ntResponse).
Proof.
  intros Hp. cbv zeta. assert (NTPasswordHash password = ntPasswordHash password) as E.
  { unfold NTPasswordHash, ntPasswordHash. by rewrite same_md4, utf16LE_basic. }
  split_and!.
  - unfold GenerateNTResponse, generateNTResponse. by rewrite challengeResponse_same, E.
  - unfold AuthenticatorResponse, generateAuthenticatorResponse, hexEncode, ntPasswordHashHash, Eap.ntPasswordHashHash. by rewrite E, same_md4.
  - unfold ClientHLAK. rewrite E. apply hlak_of_msk.
Qed.

End Mschap.

(** The x/crypto MD4 as the one under src/ computes it. *)
Definition own_md4 : Md4 := {| md4Sum := md4 |}.

Lemma own_md4_ok : Md4Ok own_md4.
Proof. split. apply length_md4. Qed.


(** Above the basic plane the encoders differ: U+1F600. *)
Example utf16LE_differs : utf16LE [0xF0; 0x9F; 0x98; 0x80] = [0x3D; 0xD8; 0x00; 0xDE] /\ Eap.utf16LE [0xF0; 0x9F; 0x98; 0x80] = [0x00; 0xF6].
Proof. by vm_compute. Qed.
