(* ===== verification/Ppp.v ===== *)
(** * PPP frames and packets, [internal/ppp]: frame.go, cp.go, chap.go, restart.go

    The framing, the control-protocol packets and options LCP and IPCP share, the
    MS-CHAPv2 bodies and the Restart timer; the two roles are in PppSession.v and
    PppServer.v.  A session's transport and handler are the record [link]: whether the
    n-th frame is accepted, the frames it took and the events reported.

    [ppp_codec]: every frame, packet and option list survives its wire format, and
    decoding an option list is total. *)
From Stdlib Require Import ZArith Lia.
From Stdlib Require String.
Import String.StringSyntax.
From stdpp Require Import base list.
From S2P Require Import Prelude Crypto Eap Mschap.

(** ** Frames, [frame.go] *)

Abbreviation ProtocolIP := 0x0021 (only parsing).
Abbreviation ProtocolIPCP := 0x8021 (only parsing).
Abbreviation ProtocolLCP := 0xc021 (only parsing).
Abbreviation ProtocolCHAP := 0xc223 (only parsing).
Abbreviation hdlcAddress := 0xff (only parsing).
Abbreviation hdlcControl := 0x03 (only parsing).

Definition encodeFrame (protocol : Z) (payload : bytes) : bytes :=
  [hdlcAddress; hdlcControl; wrap 8 (Z.shiftr protocol 8); wrap 8 protocol] ++ payload.

Definition decodeFrame (frame : bytes) : option (Z * bytes) :=
  let b := if (2 <=? length frame)%nat && (at_ frame 0 =? hdlcAddress) && (at_ frame 1 =? hdlcControl) then drop 2 frame else frame in
  match b with
  | [] => None
  | b0 :: rest =>
      if Z.land b0 1 =? 1 then Some (b0, rest)
      else match rest with [] => None | b1 :: rest => Some (Z.lor (Z.shiftl b0 8) b1, rest) end
  end.

(** ** Control-protocol packets, [cp.go] *)

Abbreviation codeConfigureRequest := 1 (only parsing).
Abbreviation codeConfigureAck := 2 (only parsing).
Abbreviation codeConfigureNak := 3 (only parsing).
Abbreviation codeConfigureReject := 4 (only parsing).
Abbreviation codeTerminateRequest := 5 (only parsing).
Abbreviation codeTerminateAck := 6 (only parsing).
Abbreviation codeEchoRequest := 9 (only parsing).
Abbreviation codeEchoReply := 10 (only parsing).

Record cpPacket := mkCPPacket { cpCode : Z; cpID : Z; cpBody : bytes }.

Definition parseCP (b : bytes) : option cpPacket :=
  if (length b <? 4)%nat then None
  else
    let len := Z.to_nat (be_dec (slice b 2 4)) in
    if ((len <? 4) || (length b <? len))%nat then None
    else Some (mkCPPacket (at_ b 0) (at_ b 1) (slice b 4 len)).

Definition cp_marshal (p : cpPacket) : bytes :=
  [cpCode p; cpID p] ++ be_enc 2 (wrap 16 (Z.of_nat (4 + length (cpBody p)))) ++ cpBody p.

Record option_ := mkOption { optType : Z; optValue : bytes }.

(** [fuel] is the number of octets: every option takes two. *)
Fixpoint parse_options (fuel : nat) (b : bytes) : option (list option_) :=
  match b, fuel with
  | [], _ => Some []
  | _, O => None
  | _, S fuel =>
      if (length b <? 2)%nat then None
      else
        let len := Z.to_nat (at_ b 1) in
        if ((len <? 2) || (length b <? len))%nat then None
        else opts ← parse_options fuel (drop len b); Some (mkOption (at_ b 0) (slice b 2 len) :: opts)
  end.

Definition parseOptions (b : bytes) : option (list option_) := parse_options (length b) b.

Definition marshalOptions (opts : list option_) : bytes :=
  concat ((fun o => [optType o; wrap 8 (Z.of_nat (2 + length (optValue o)))] ++ optValue o) <$> opts).

(** ** MS-CHAPv2 bodies, [chap.go] *)

Abbreviation chapChallenge := 1 (only parsing).
Abbreviation chapResponse := 2 (only parsing).
Abbreviation chapSuccess := 3 (only parsing).
Abbreviation chapFailure := 4 (only parsing).
Abbreviation mschapResponseValueLen := 49%nat (only parsing).

Definition parseChallenge (body : bytes) : option (bytes * bytes) :=
  if (length body <? 1)%nat then None
  else
    let size := Z.to_nat (at_ body 0) in
    if (negb (size =? ChallengeLen) || (length body <? 1 + size))%nat then None
    else Some (slice body 1 (1 + size), drop (1 + size) body).

Definition buildChallenge (authChallenge name : bytes) : bytes := [Z.of_nat ChallengeLen] ++ authChallenge ++ name.

Definition parseResponse (body : bytes) : option (bytes * bytes * bytes) :=
  if (length body <? 1)%nat then None
  else
    let size := Z.to_nat (at_ body 0) in
    if (negb (size =? mschapResponseValueLen) || (length body <? 1 + size))%nat then None
    else
      let value := slice body 1 (1 + size) in
      Some (slice value 0 16, slice value 24 48, drop (1 + size) body).

(** The octets of the white space a text begins with, 0 when it begins with none
    ([unicode.IsSpace] in UTF-8).  A lead octet never occurs inside another rune, so
    looking at every octet finds what looking at every rune does. *)
Definition space_len (s : bytes) : nat :=
  match s with
  | b0 :: s1 =>
      if (9 <=? b0) && (b0 <=? 13) || (b0 =? 32) then 1%nat
      else
        match s1 with
        | b1 :: s2 =>
            if (b0 =? 0xC2) && ((b1 =? 0x85) || (b1 =? 0xA0)) then 2%nat
            else
              match s2 with
              | b2 :: _ =>
                  if (b0 =? 0xE1) && (b1 =? 0x9A) && (b2 =? 0x80)
                     || (b0 =? 0xE2) && (b1 =? 0x80) && ((0x80 <=? b2) && (b2 <=? 0x8A) || (b2 =? 0xA8) || (b2 =? 0xA9) || (b2 =? 0xAF))
                     || (b0 =? 0xE2) && (b1 =? 0x81) && (b2 =? 0x9F)
                     || (b0 =? 0xE3) && (b1 =? 0x80) && (b2 =? 0x80) then 3%nat
                  else 0%nat
              | [] => 0%nat
              end
        | [] => 0%nat
        end
  | [] => 0%nat
  end.

Fixpoint skip_spaces (fuel : nat) (s : bytes) : bytes :=
  match fuel with
  | O => s
  | S fuel => if (space_len s =? 0)%nat then s else skip_spaces fuel (drop (space_len s) s)
  end.

Fixpoint until_space (s : bytes) : bytes :=
  match s with
  | [] => []
  | b :: rest => if (space_len s =? 0)%nat then b :: until_space rest else []
  end.

(** The first of [strings.Fields], empty when there is none. *)
Definition first_field (s : bytes) : bytes := until_space (skip_spaces (length s) s).

Definition lower (b : Z) : Z := if (65 <=? b) && (b <=? 90) then b + 32 else b.

(** [strings.EqualFold] against ASCII text: of the letters S and A to F only S folds to a
    rune outside ASCII, and the texts compared begin with "S=" octet for octet. *)
Definition equal_fold (s t : bytes) : bool := bool_decide (lower <$> s = lower <$> t).

Inductive ppp_error :=
| ErrSend | ErrNoLCPReply | ErrNoIPCPReply | ErrRejectedAuth | ErrPeerClosed | ErrNoAuthProtocol | ErrChallenge | ErrMalformed | ErrAuth | ErrRandom.

#[export] Instance ppp_error_eq_dec : EqDecision ppp_error.
Proof. solve_decision. Defined.

Section Chap.
Context {D : Digests} {B : Des} {M : Md4}.

(** The peer challenge is drawn; no draw is an error. *)
Definition buildResponse (authChallenge username password : bytes) (rnd : option bytes) : option (bytes * bytes * bytes) :=
  peerChallenge ← rnd;
  let ntResponse := GenerateNTResponse authChallenge peerChallenge username password in
  let value := peerChallenge ++ replicate 8 0 ++ ntResponse ++ [0] in
  Some ([wrap 8 (Z.of_nat (length value))] ++ value ++ username, peerChallenge, ntResponse).

Definition verifySuccess (body authChallenge peerChallenge username password ntResponse : bytes) : option ppp_error :=
  let field := first_field body in
  if bool_decide (field = []) || negb (bool_decide (take 2 field = str "S=")) then Some ErrMalformed
  else if negb (equal_fold field (AuthenticatorResponse authChallenge peerChallenge username password ntResponse)) then Some ErrAuth
  else None.

Definition verifyResponse (authChallenge peerChallenge username password ntResponse : bytes) : bool :=
  bool_decide (GenerateNTResponse authChallenge peerChallenge username password = ntResponse).

Definition buildSuccess (authChallenge peerChallenge username password ntResponse : bytes) : bytes :=
  AuthenticatorResponse authChallenge peerChallenge username password ntResponse.

Definition buildFailure : bytes := str "E=691 R=0 C=00000000000000000000000000000000 V=3 M=Access denied".
End Chap.

(** ** The Restart timer, [restart.go] *)

Abbreviation maxConfigure := 10 (only parsing).

(** [armed] is a timer that is not nil. *)
Record restartTimer := mkTimer { armed : bool; tries : Z }.

Definition timer_stop (r : restartTimer) : restartTimer := mkTimer false 0.
Definition timer_alive (r : restartTimer) : restartTimer := mkTimer (armed r) 0.
Definition timer_arm (r : restartTimer) : restartTimer := mkTimer true (tries r).

(** What a firing does, also one that raced a [stop] or an [arm]. *)
Inductive firing := Idle | Expired | Resend.
Definition timer_fire (r : restartTimer) : firing * restartTimer :=
  if negb (armed r) then (Idle, r)
  else
    let r := mkTimer (armed r) (tries r + 1) in
    if maxConfigure <=? tries r then (Expired, timer_stop r) else (Resend, r).

(** ** What both roles keep *)

Inductive phase := phaseLCP | phaseAuth | phaseIPCP | phaseUp | phaseClosed.
#[export] Instance phase_eq_dec : EqDecision phase.
Proof. solve_decision. Defined.

(** One control protocol's own request and whether each side's has been acknowledged. *)
Record cp_state := mkCPState { reqid : Z; configReq : bytes; localOpen : bool; remoteOpen : bool; restart : restartTimer }.
#[export] Instance eta_cp_state : Eta cp_state := fun c => mkCPState (reqid c) (configReq c) (localOpen c) (remoteOpen c) (restart c).
Definition cp_new : cp_state := mkCPState 0 [] false false (mkTimer false 0).

(** LCP and IPCP options. *)
Abbreviation optMRU := 1 (only parsing).
Abbreviation optAuthProto := 3 (only parsing).
Abbreviation optQuality := 4 (only parsing).
Abbreviation optMagic := 5 (only parsing).
Abbreviation optPFC := 7 (only parsing).
Abbreviation optACFC := 8 (only parsing).
Abbreviation optIPAddress := 3 (only parsing).
Abbreviation optPrimaryDNS := 0x81 (only parsing).
Abbreviation optSecondaryDNS := 0x83 (only parsing).
Abbreviation defaultMRU := 1400 (only parsing).

Definition authMSCHAPv2 : bytes := [0xc2; 0x23; 0x81].

(** The IPCP configuration a client ends with. *)
Record IPConfig := mkIPConfig { LocalIP : bytes; PeerIP : bytes; cfgDNS : list bytes }.

(** The handler's calls, of either role. *)
Inductive event :=
| Authenticated (username password ntResponse : bytes)
| NetworkUp (cfg : option IPConfig)
| Closed (e : ppp_error).

(** The transport and the handler. *)
Record link := mkLink { accepts : nat -> bool; attempts : nat; frames : list bytes; events : list event }.
#[export] Instance eta_link : Eta link := fun l => mkLink (accepts l) (attempts l) (frames l) (events l).

Definition transmit (frame : bytes) (l : link) : bool * link :=
  if accepts l (attempts l) then (true, l <| attempts := S (attempts l) |> <| frames := frames l ++ [frame] |>)
  else (false, l <| attempts := S (attempts l) |>).
Definition report (e : event) (l : link) : link := l <| events := events l ++ [e] |>.

(** ** Round trips *)

Lemma decode_encode p payload : uint16 p -> Z.land (Z.shiftr p 8) 1 = 0 -> decodeFrame (encodeFrame p payload) = Some (p, payload).
Proof.
  intros Hp Hodd. unfold decodeFrame, encodeFrame. cbn [length app Nat.leb]. change (at_ (0xff :: 3 :: _) 0 =? 0xff) with true. change (at_ (0xff :: 3 :: _) 1 =? 3) with true.
  cbn [andb drop]. unfold uint in Hp. rewrite Z.shiftr_div_pow2 in * by lia. change (2 ^ 8) with 256 in *.
  rewrite (wrap_small 8 (p / 256)) by (unfold uint; split; [apply Z.div_pos; lia|apply Z.div_lt_upper_bound; lia]).
  rewrite Hodd. cbn [Z.eqb]. unfold wrap. change (2 ^ 8) with 256. rewrite byte_pair by (first [apply Z.div_pos; lia|apply Z.mod_pos_bound; lia]).
  do 2 f_equal. pose proof (Z.div_mod p 256). lia.
Qed.

Lemma parseCP_marshal p rest : Z.of_nat (4 + length (cpBody p)) < 2 ^ 16 -> parseCP (cp_marshal p ++ rest) = Some p.
Proof.
  intros Hl. unfold parseCP, cp_marshal. set (n := be_enc 2 _). assert (length n = 2%nat) as Hn by apply length_be_enc.
  rewrite (proj2 (Nat.ltb_ge _ _)) by (rewrite !length_app, Hn; cbn; lia).
  assert (slice (([cpCode p; cpID p] ++ n ++ cpBody p) ++ rest) 2 4 = n) as ->.
  { rewrite <- !app_assoc. rewrite (slice_skip 2 [cpCode p; cpID p]) by (split; [done|lia]). cbn [Nat.sub]. by rewrite slice_hd by done. }
  assert (Z.to_nat (be_dec n) = 4 + length (cpBody p))%nat as ->.
  { subst n. rewrite wrap_small, be_dec_enc_small by (unfold uint; lia). lia. }
  rewrite (proj2 (Nat.ltb_ge _ _)) by lia. rewrite (proj2 (Nat.ltb_ge _ _)) by (rewrite !length_app, Hn; cbn; lia). cbn [orb].
  rewrite <- !app_assoc. rewrite (slice_skip 2 [cpCode p; cpID p]) by (split; [done|lia]). rewrite (slice_skip 2 n) by (split; [done|lia]).
  replace (4 + length (cpBody p) - 2 - 2)%nat with (length (cpBody p)) by lia. cbn [Nat.sub]. rewrite slice_0_app. by destruct p.
Qed.

Definition option_fits (o : option_) : Prop := (length (optValue o) <= 253)%nat.

Lemma parse_options_marshal fuel opts : (length opts <= fuel)%nat -> Forall option_fits opts -> parse_options fuel (marshalOptions opts) = Some opts.
Proof.
  revert fuel. induction opts as [|[t v] opts IH]; intros fuel Hf Ho; [by destruct fuel|].
  destruct fuel as [|fuel]; [cbn in Hf; lia|]. apply Forall_cons in Ho as [Hv Ho]. unfold option_fits in Hv. cbn [optValue length] in *.
  unfold marshalOptions. cbn [fmap list_fmap concat optType optValue parse_options]. fold (marshalOptions opts).
  rewrite (wrap_small 8) by (unfold uint; lia). cbn [app]. set (l := t :: _ :: v ++ marshalOptions opts).
  assert (length l = 2 + length v + length (marshalOptions opts))%nat as Hl by (subst l; cbn; rewrite length_app; lia).
  change (at_ l 1) with (Z.of_nat (2 + length v)). change (at_ l 0) with t. rewrite Nat2Z.id.
  rewrite !(proj2 (Nat.ltb_ge _ _)) by lia. cbn [orb].
  subst l. unfold slice. cbn [Nat.add drop Nat.sub]. rewrite drop_app_length, drop_0, Nat.sub_0_r, take_app_length, IH by (done || lia). done.
Qed.

Lemma marshalOptions_cons o opts :
  marshalOptions (o :: opts) = [optType o; wrap 8 (Z.of_nat (2 + length (optValue o)))] ++ optValue o ++ marshalOptions opts.
Proof. reflexivity. Qed.

Lemma marshal_length opts : (length opts <= length (marshalOptions opts))%nat.
Proof. induction opts as [|o opts IH]; [done|]. rewrite marshalOptions_cons, !length_app. cbn [length]. lia. Qed.

Lemma parseOptions_marshal opts : Forall option_fits opts -> parseOptions (marshalOptions opts) = Some opts.
Proof. apply parse_options_marshal, marshal_length. Qed.

(** ** Decoding is total *)

(** What a list of options is, without fuel. *)
Inductive options_of : bytes -> list option_ -> Prop :=
| options_nil : options_of [] []
| options_cons t v b opts : (length v <= 253)%nat -> options_of b opts -> options_of ([t; Z.of_nat (2 + length v)] ++ v ++ b) (mkOption t v :: opts).

Lemma options_of_marshal b opts : options_of b opts <-> b = marshalOptions opts /\ Forall option_fits opts.
Proof.
  split.
  - induction 1 as [|t v b opts Hv _ [-> IH]]; [done|]. split; [|by constructor].
    rewrite marshalOptions_cons. cbn [optType optValue]. by rewrite (wrap_small 8) by (unfold uint; lia).
  - intros [-> H]. induction H as [|[t v] opts Hv _ IH]; [constructor|]. unfold option_fits in Hv. cbn in Hv.
    rewrite marshalOptions_cons. cbn [optType optValue]. rewrite (wrap_small 8) by (unfold uint; lia). by constructor.
Qed.

(** With fuel for every octet the parser accepts exactly the option lists. *)
Lemma parse_options_sound fuel b opts : bytes_ok b -> parse_options fuel b = Some opts -> options_of b opts.
Proof.
  revert b opts. induction fuel as [|fuel IH]; intros [|b0 b] opts Hb; cbn [parse_options]; try (intros [= <-]; constructor).
  case_match eqn:Hl; [done|]. apply Nat.ltb_ge in Hl. destruct b as [|b1 b]; [cbn in Hl; lia|].
  change (at_ (b0 :: b1 :: b) 1) with b1. change (at_ (b0 :: b1 :: b) 0) with b0.
  destruct (_ || _)%bool eqn:Hn; [done|]. apply orb_false_iff in Hn as [Hn1 Hn2]. apply Nat.ltb_ge in Hn1, Hn2. cbn [length] in Hn2.
  destruct (parse_options fuel _) as [opts'|] eqn:Hp; [|done]. intros [= <-].
  assert (uint8 b1) as Hb1 by (apply Forall_cons in Hb as [_ Hb]; by apply Forall_cons in Hb as [? _]).
  apply IH in Hp; [|by apply Forall_drop]. unfold slice.
  set (n := (Z.to_nat b1 - 2)%nat) in *. assert (Z.to_nat b1 = 2 + n)%nat as E by lia. rewrite E in *. cbn [Nat.add drop Nat.sub] in *.
  assert (length (take n b) = n) as Hn by (rewrite length_take; lia).
  assert (b0 :: b1 :: b = [b0; Z.of_nat (2 + length (take n b))] ++ take n b ++ drop n b) as ->.
  { rewrite take_drop, Hn. cbn [app]. do 2 f_equal. lia. }
  rewrite drop_0. constructor; [unfold uint in Hb1; lia|done].
Qed.

Lemma parseOptions_exact b opts : bytes_ok b -> parseOptions b = Some opts <-> b = marshalOptions opts /\ Forall option_fits opts.
Proof.
  intros Hb. split; [intros H; by apply options_of_marshal, (parse_options_sound (length b))|].
  intros [-> H]. by apply parseOptions_marshal.
Qed.

(** ** CHAP bodies *)

Lemma parseChallenge_build ch name : length ch = ChallengeLen -> parseChallenge (buildChallenge ch name) = Some (ch, name).
Proof.
  intros Hc. unfold parseChallenge, buildChallenge. rewrite (proj2 (Nat.ltb_ge _ _)) by (rewrite !length_app; cbn; lia).
  change (at_ ([Z.of_nat 16] ++ ch ++ name) 0) with 16. change (Z.to_nat 16) with 16%nat. cbn [Nat.eqb negb orb].
  rewrite (proj2 (Nat.ltb_ge _ _)) by (rewrite !length_app, Hc; cbn; lia).
  rewrite (slice_skip 1 [Z.of_nat 16]) by (split; [done|lia]). cbn [Nat.sub Nat.add]. rewrite slice_hd by done. change (drop 17 ([Z.of_nat 16] ++ ?x)) with (drop 16 x).
  by rewrite drop_app_length'.
Qed.

(** Text without white space. *)
Definition word (s : bytes) : Prop := Forall (fun b => 0 <= b < 9 \/ 33 <= b < 128) s.

Lemma space_len_word b s : 0 <= b < 9 \/ 33 <= b < 128 -> space_len (b :: s) = 0%nat.
Proof.
  intros H. cbn [space_len]. assert ((9 <=? b) && (b <=? 13) || (b =? 32) = false) as ->.
  { destruct (Z.leb_spec 9 b), (Z.leb_spec b 13), (Z.eqb_spec b 32); done || lia. }
  destruct s as [|b1 s]; [done|].
  rewrite (proj2 (Z.eqb_neq b 0xC2)), (proj2 (Z.eqb_neq b 0xE1)), (proj2 (Z.eqb_neq b 0xE2)), (proj2 (Z.eqb_neq b 0xE3)) by lia. by destruct s.
Qed.

Lemma until_space_word s : word s -> until_space s = s.
Proof. induction 1 as [|b s Hb _ IH]; [done|]. cbn [until_space]. rewrite space_len_word by done. cbn [Nat.eqb]. by rewrite IH. Qed.

Lemma first_field_word s : word s -> first_field s = s.
Proof.
  intros H. unfold first_field. destruct s as [|b s]; [done|]. cbn [length skip_spaces]. inversion H; subst. rewrite space_len_word by done. cbn [Nat.eqb]. by apply until_space_word.
Qed.

Lemma word_app s t : word s -> word t -> word (s ++ t).
Proof. intros. by apply Forall_app. Qed.

Lemma upperHex_word b : word (upperHex b).
Proof.
  assert (forall i, 0 <= at_ hexDigits i < 9 \/ 33 <= at_ hexDigits i < 128) as Hd.
  { intros i. unfold at_. destruct (hexDigits !! i) as [d|] eqn:E; [|cbn; lia]. assert (Forall (fun d => 33 <= d < 128) hexDigits) as H by (repeat constructor; cbn; lia).
    rewrite Forall_forall in H. right. by apply H, list_elem_of_lookup_2 with i. }
  unfold upperHex, word. induction b as [|c b IH]; [constructor|]. cbn [fmap list_fmap concat app]. by constructor; [|constructor].
Qed.

Section ChapRoundTrip.
Context {D : Digests} {B : Des} {M : Md4} {BO : DesOk B}.

Lemma length_ntResponse ac pc u p : length (GenerateNTResponse ac pc u p) = NTResponseLen.
Proof.
  unfold GenerateNTResponse, challengeResponse. cbn [seq fmap list_fmap concat]. by rewrite !length_app, !length_desBlock.
Qed.

Definition response_body (pc nt user : bytes) : bytes := [49] ++ (pc ++ replicate 8 0 ++ nt ++ [0]) ++ user.

Lemma buildResponse_eq ac user pass pc :
  length pc = ChallengeLen ->
  let nt := GenerateNTResponse ac pc user pass in buildResponse ac user pass (Some pc) = Some (response_body pc nt user, pc, nt).
Proof.
  intros Hp. cbv zeta. unfold buildResponse. cbn [mbind option_bind]. rewrite !length_app, Hp, length_ntResponse. reflexivity.
Qed.

Lemma parseResponse_build pc nt user :
  length pc = ChallengeLen -> length nt = NTResponseLen -> parseResponse (response_body pc nt user) = Some (pc, nt, user).
Proof.
  intros Hp Hn. unfold parseResponse, response_body. set (v := pc ++ replicate 8 0 ++ nt ++ [0]).
  assert (length v = 49%nat) as Hv by (subst v; rewrite !length_app, Hp, Hn; done).
  rewrite (proj2 (Nat.ltb_ge _ _)) by (rewrite !length_app; cbn; lia). change (Z.to_nat (at_ ([49] ++ v ++ user) 0)) with 49%nat. cbn [Nat.eqb negb orb].
  rewrite (proj2 (Nat.ltb_ge _ _)) by (rewrite !length_app, Hv; cbn; lia).
  assert (slice ([49] ++ v ++ user) 1 (1 + 49) = v) as ->.
  { rewrite (slice_skip 1 [49]) by (split; [done|lia]). cbn [Nat.sub Nat.add]. by rewrite slice_hd by done. }
  change (drop (1 + 49) ([49] ++ v ++ user)) with (drop 49 (v ++ user)). rewrite drop_app_length' by done. subst v. rewrite slice_hd by done.
  rewrite (slice_skip 16 pc) by (split; [done|lia]). rewrite (slice_skip 8 (replicate 8 0)) by (split; [done|lia]). cbn [Nat.sub]. by rewrite slice_hd by done.
Qed.

(** The client accepts the authenticator the server sends for the same values. *)
Lemma verifySuccess_build ac pc user pass nt : verifySuccess (buildSuccess ac pc user pass nt) ac pc user pass nt = None.
Proof.
  unfold verifySuccess, buildSuccess. set (a := AuthenticatorResponse ac pc user pass nt).
  assert (exists t, a = str "S=" ++ t /\ word t) as (t & E & Ht) by (eexists; split; [reflexivity|apply upperHex_word]). clearbody a. subst a.
  rewrite first_field_word by (apply word_app; [|done]; repeat constructor; cbn; lia).
  rewrite bool_decide_eq_false_2 by done. change (take 2 (str "S=" ++ t)) with (str "S="). rewrite bool_decide_eq_true_2 by done. cbn [negb orb].
  unfold equal_fold. by rewrite bool_decide_eq_true_2.
Qed.
End ChapRoundTrip.

Lemma ppp_codec_spec (p : Z) (pkt : cpPacket) (rest b : bytes) (opts : list option_) :
  uint16 p -> Z.land (Z.shiftr p 8) 1 = 0 -> Z.of_nat (4 + length (cpBody pkt)) < 2 ^ 16 -> bytes_ok b ->
  decodeFrame (encodeFrame p (cp_marshal pkt ++ rest)) = Some (p, cp_marshal pkt ++ rest) /\
  parseCP (cp_marshal pkt ++ rest) = Some pkt /\
  (parseOptions b = Some opts <-> b = marshalOptions opts /\ Forall option_fits opts).
Proof. intros. split_and!; [by apply decode_encode|by apply parseCP_marshal|by apply parseOptions_exact]. Qed.

(** C39: the PPP wire format.  A packet put into a frame is the packet taken out of it,
    whatever padding the carrier left behind it, and the option decoder accepts exactly
    the octets that some list of options encodes to, and returns that list: it runs out
    of neither octets nor fuel, and it never reads past the end. *)
Theorem ppp_codec (p : Z) (pkt : cpPacket) (rest b : bytes) (opts : list option_) :
  uint16 p -> Z.land (Z.shiftr p 8) 1 = 0 -> Z.of_nat (4 + length (cpBody pkt)) < 2 ^ 16 -> bytes_ok b ->
  decodeFrame (encodeFrame p (cp_marshal pkt ++ rest)) = Some (p, cp_marshal pkt ++ rest) /\
  parseCP (cp_marshal pkt ++ rest) = Some pkt /\
  (parseOptions b = Some opts <-> b = marshalOptions opts /\ Forall option_fits opts).
Proof. apply ppp_codec_spec. Qed.

Lemma ppp_codec_witness :
  parseCP (cp_marshal (mkCPPacket 1 7 [1; 4; 5; 0xdc]) ++ [0; 0]) = Some (mkCPPacket 1 7 [1; 4; 5; 0xdc]).
Proof.
  apply (ppp_codec ProtocolLCP (mkCPPacket 1 7 [1; 4; 5; 0xdc]) [0; 0] [1; 4; 5; 0xdc] [mkOption 1 [5; 0xdc]]);
    [unfold uint; cbn; lia|reflexivity|cbn; lia|repeat constructor; unfold uint; cbn; lia].
Defined.
