(* ===== verification/PppSession.v ===== *)
(** * The PPP client, [internal/ppp/session.go]

    [Session] negotiates LCP, answers the MS-CHAPv2 challenge and checks the server's
    authenticator, and learns its address and resolvers over IPCP.  Every handler runs
    under the session's lock, so a frame or a timer firing is one step.  The octets of the
    peer challenge are drawn: an argument of the step that needs them.

    [restart_bounded]: an unanswered request is sent ten times, identically, and then the
    link is reported closed, once. *)
From Stdlib Require Import ZArith Lia.
From Stdlib Require String.
Import String.StringSyntax.
From stdpp Require Import base list.
From S2P Require Import Prelude Packet Crypto Eap Mschap Ppp.

(** A resolver that is [None] is nil. *)
Record Session := mkSession {
  username : bytes; password : bytes; lnk : link; ph : phase; magic : Z; reqID : Z;
  lcp : cp_state; lcpAuthNaks : Z; lcpUseMRU : bool; lcpUseMagic : bool; lcpMRU : Z; peerRequiresAuth : bool;
  ipcp : cp_state; reqIP : bytes; reqDNS1 : option bytes; reqDNS2 : option bytes; peerIP : bytes;
  authChallenge : bytes; peerChallenge : bytes; ntResponse : bytes; echoID : Z; echoWait : bool }.
#[export] Instance eta_Session : Eta Session := fun s =>
  mkSession (username s) (password s) (lnk s) (ph s) (magic s) (reqID s) (lcp s) (lcpAuthNaks s) (lcpUseMRU s) (lcpUseMagic s) (lcpMRU s) (peerRequiresAuth s)
    (ipcp s) (reqIP s) (reqDNS1 s) (reqDNS2 s) (peerIP s) (authChallenge s) (peerChallenge s) (ntResponse s) (echoID s) (echoWait s).

Definition New (user pass : bytes) (rnd : bytes) (l : link) : Session :=
  mkSession user pass l phaseLCP (be_dec rnd) 0 cp_new 0 true true defaultMRU false cp_new [] None None [] (replicate 16 0) (replicate 16 0) (replicate 24 0) 0 false.

(** ** Frames of IP *)

Definition IsIP (frame : bytes) : option bytes :=
  match decodeFrame frame with
  | None => None
  | Some (protocol, payload) => if negb (protocol =? ProtocolIP) then None else TrimToIP payload
  end.

Definition EncapsulateIP (ipPacket : bytes) : bytes := encodeFrame ProtocolIP ipPacket.

Definition EncapsulateIPPadded (ipPacket : bytes) (minInner : nat) : bytes :=
  if (minInner <=? length ipPacket)%nat then encodeFrame ProtocolIP ipPacket
  else encodeFrame ProtocolIP (ipPacket ++ replicate (minInner - length ipPacket) 0).

(** ** Sending *)

Definition failLocked (e : ppp_error) (s : Session) : Session :=
  if bool_decide (ph s = phaseClosed) then s
  else
    let s := s <| ph := phaseClosed |> in
    let s := s <| lcp := (lcp s) <| restart := timer_stop (restart (lcp s)) |> |> in
    let s := s <| ipcp := (ipcp s) <| restart := timer_stop (restart (ipcp s)) |> |> in
    let s := s <| echoWait := false |> in
    s <| lnk := report (Closed e) (lnk s) |>.

Definition send (protocol : Z) (payload : bytes) (s : Session) : Session :=
  let '(ok, l) := transmit (encodeFrame protocol payload) (lnk s) in
  let s := s <| lnk := l |> in
  if ok then s else failLocked ErrSend s.

Definition nextID (s : Session) : Z * Session :=
  let s := s <| reqID := wrap 8 (reqID s + 1) |> in (reqID s, s).

(** ** LCP *)

Definition resendLCPConfigReq (s : Session) : Session :=
  let s := send ProtocolLCP (configReq (lcp s)) s in
  s <| lcp := (lcp s) <| restart := timer_arm (restart (lcp s)) |> |>.

Definition lcp_options (s : Session) : list option_ :=
  (if lcpUseMRU s then [mkOption optMRU (be_enc 2 (lcpMRU s))] else []) ++
  (if lcpUseMagic s then [mkOption optMagic (be_enc 4 (magic s))] else []).

Definition sendLCPConfigReq (s : Session) : Session :=
  let opts := lcp_options s in
  let '(id, s) := nextID s in
  let s := s <| lcp := (lcp s) <| reqid := id |> <| configReq := cp_marshal (mkCPPacket codeConfigureRequest id (marshalOptions opts)) |> |> in
  resendLCPConfigReq s.

Definition Start (s : Session) : Session := sendLCPConfigReq s.

(** The timer's callbacks, under the lock. *)
Definition lcp_fire (s : Session) : Session :=
  if bool_decide (ph s = phaseClosed) then s
  else
    let '(f, r) := timer_fire (restart (lcp s)) in
    let s := s <| lcp := (lcp s) <| restart := r |> |> in
    match f with Idle => s | Expired => failLocked ErrNoLCPReply s | Resend => resendLCPConfigReq s end.

Definition nak_option (s : Session) (o : option_) : Session :=
  if optType o =? optMRU then if (length (optValue o) =? 2)%nat then s <| lcpMRU := be_dec (optValue o) |> else s
  else if optType o =? optMagic then if (length (optValue o) =? 4)%nat then s <| magic := be_dec (optValue o) |> else s
  else s.

Definition applyLCPNak (body : bytes) (s : Session) : Session :=
  match parseOptions body with None => s | Some opts => fold_left nak_option opts s end.

Definition reject_option (s : Session) (o : option_) : Session :=
  if optType o =? optMRU then s <| lcpUseMRU := false |>
  else if optType o =? optMagic then s <| lcpUseMagic := false |>
  else s.

Definition applyLCPReject (body : bytes) (s : Session) : Session :=
  match parseOptions body with None => s | Some opts => fold_left reject_option opts s end.

Abbreviation maxAuthNaks := 5 (only parsing).

Definition lcp_acceptable (t : Z) : bool := (t =? optMRU) || (t =? optMagic) || (t =? optQuality) || (t =? optPFC) || (t =? optACFC).

(** The options refused, and those whose value is. *)
Definition sort_lcp_option (acc : list option_ * list option_) (o : option_) : list option_ * list option_ :=
  let '(rejected, naked) := acc in
  if lcp_acceptable (optType o) then (rejected, naked)
  else if optType o =? optAuthProto then
    if bool_decide (optValue o = authMSCHAPv2) then (rejected, naked) else (rejected, naked ++ [mkOption optAuthProto authMSCHAPv2])
  else (rejected ++ [o], naked).

Definition hasAuthProto (opts : list option_) : bool := existsb (fun o => optType o =? optAuthProto) opts.

Definition sendEchoReply (req : cpPacket) (s : Session) : Session :=
  let mg := be_enc 4 (magic s) in
  let body := if (4 <=? length (cpBody req))%nat then mg ++ drop 4 (cpBody req) else mg in
  send ProtocolLCP (cp_marshal (mkCPPacket codeEchoReply (cpID req) body)) s.

(** ** IPCP requests *)

Definition resendIPCPConfigReq (s : Session) : Session :=
  let s := send ProtocolIPCP (configReq (ipcp s)) s in
  s <| ipcp := (ipcp s) <| restart := timer_arm (restart (ipcp s)) |> |>.

Definition ipcp_options (s : Session) : list option_ :=
  mkOption optIPAddress (reqIP s) ::
  match reqDNS1 s with Some d => [mkOption optPrimaryDNS d] | None => [] end ++
  match reqDNS2 s with Some d => [mkOption optSecondaryDNS d] | None => [] end.

Definition sendIPCPConfigReq (s : Session) : Session :=
  let opts := ipcp_options s in
  let '(id, s) := nextID s in
  let s := s <| ipcp := (ipcp s) <| reqid := id |> <| configReq := cp_marshal (mkCPPacket codeConfigureRequest id (marshalOptions opts)) |> |> in
  resendIPCPConfigReq s.

Definition ipcp_fire (s : Session) : Session :=
  if bool_decide (ph s = phaseClosed) then s
  else
    let '(f, r) := timer_fire (restart (ipcp s)) in
    let s := s <| ipcp := (ipcp s) <| restart := r |> |> in
    match f with Idle => s | Expired => failLocked ErrNoIPCPReply s | Resend => resendIPCPConfigReq s end.

Definition startIPCP (s : Session) : Session :=
  sendIPCPConfigReq (s <| reqIP := [0; 0; 0; 0] |> <| reqDNS1 := Some [0; 0; 0; 0] |> <| reqDNS2 := Some [0; 0; 0; 0] |>).

Definition maybeLCPUp (s : Session) : Session :=
  if negb (bool_decide (ph s = phaseLCP)) || negb (localOpen (lcp s)) || negb (remoteOpen (lcp s)) then s
  else if peerRequiresAuth s then s <| ph := phaseAuth |>
  else startIPCP (s <| ph := phaseIPCP |>).

Definition handleLCPConfigReq (pkt : cpPacket) (s : Session) : Session :=
  match parseOptions (cpBody pkt) with
  | None => s
  | Some opts =>
      let '(rejected, naked) := fold_left sort_lcp_option opts ([], []) in
      if (0 <? length rejected)%nat then send ProtocolLCP (cp_marshal (mkCPPacket codeConfigureReject (cpID pkt) (marshalOptions rejected))) s
      else if (0 <? length naked)%nat then
        let s := s <| lcpAuthNaks := lcpAuthNaks s + 1 |> in
        if maxAuthNaks <? lcpAuthNaks s then failLocked ErrNoAuthProtocol s
        else send ProtocolLCP (cp_marshal (mkCPPacket codeConfigureNak (cpID pkt) (marshalOptions naked))) s
      else
        let s := s <| peerRequiresAuth := hasAuthProto opts |> in
        let s := send ProtocolLCP (cp_marshal (mkCPPacket codeConfigureAck (cpID pkt) (cpBody pkt))) s in
        let s := s <| lcp := (lcp s) <| remoteOpen := true |> |> in
        maybeLCPUp s
  end.

Definition handleLCP (payload : bytes) (s : Session) : Session :=
  match parseCP payload with
  | None => s
  | Some pkt =>
      let s := s <| lcp := (lcp s) <| restart := timer_alive (restart (lcp s)) |> |> in
      let mine := cpID pkt =? reqid (lcp s) in
      if cpCode pkt =? codeConfigureRequest then handleLCPConfigReq pkt s
      else if cpCode pkt =? codeConfigureAck then
        if mine then maybeLCPUp (s <| lcp := (lcp s) <| restart := timer_stop (restart (lcp s)) |> <| localOpen := true |> |>) else s
      else if cpCode pkt =? codeConfigureNak then if mine then sendLCPConfigReq (applyLCPNak (cpBody pkt) s) else s
      else if cpCode pkt =? codeConfigureReject then if mine then sendLCPConfigReq (applyLCPReject (cpBody pkt) s) else s
      else if cpCode pkt =? codeTerminateRequest then failLocked ErrPeerClosed (send ProtocolLCP (cp_marshal (mkCPPacket codeTerminateAck (cpID pkt) [])) s)
      else if cpCode pkt =? codeEchoRequest then sendEchoReply pkt s
      else if cpCode pkt =? codeEchoReply then if echoWait s && (cpID pkt =? echoID s) then s <| echoWait := false |> else s
      else s
  end.

(** What [SendEcho] does before it waits; [None] is a closed link. *)
Definition SendEcho (s : Session) : option Session :=
  if bool_decide (ph s = phaseClosed) then None
  else if echoWait s then Some s
  else
    let '(id, s) := nextID s in
    let s := s <| echoWait := true |> <| echoID := id |> in
    Some (send ProtocolLCP (cp_marshal (mkCPPacket codeEchoRequest id (be_enc 4 (magic s)))) s).

Section Auth.
Context {D : Digests} {B : Des} {M : Md4}.

(** ** MS-CHAPv2 *)

Definition handleCHAP (payload : bytes) (rnd : option bytes) (s : Session) : Session :=
  match parseCP payload with
  | None => s
  | Some pkt =>
      if cpCode pkt =? chapChallenge then
        match parseChallenge (cpBody pkt) with
        | None => failLocked ErrChallenge s
        | Some (ac, _) =>
            let s := s <| authChallenge := ac |> in
            match buildResponse ac (username s) (password s) rnd with
            | None => failLocked ErrRandom s
            | Some (body, pc, nt) =>
                let s := s <| peerChallenge := pc |> <| ntResponse := nt |> in
                send ProtocolCHAP (cp_marshal (mkCPPacket chapResponse (cpID pkt) body)) s
            end
        end
      else if cpCode pkt =? chapSuccess then
        match verifySuccess (cpBody pkt) (authChallenge s) (peerChallenge s) (username s) (password s) (ntResponse s) with
        | Some e => failLocked e s
        | None =>
            let s := s <| lnk := report (Authenticated (username s) (password s) (ntResponse s)) (lnk s) |> in
            startIPCP (s <| ph := phaseIPCP |>)
        end
      else if cpCode pkt =? chapFailure then failLocked ErrAuth s
      else s
  end.
End Auth.

(** ** IPCP *)

Definition adopt_option (s : Session) (o : option_) : Session :=
  if negb (length (optValue o) =? 4)%nat then s
  else if optType o =? optIPAddress then s <| reqIP := optValue o |>
  else if optType o =? optPrimaryDNS then s <| reqDNS1 := Some (optValue o) |>
  else if optType o =? optSecondaryDNS then s <| reqDNS2 := Some (optValue o) |>
  else s.

Definition adoptIPCPValues (body : bytes) (s : Session) : Session :=
  match parseOptions body with None => s | Some opts => fold_left adopt_option opts s end.

Definition drop_option (s : Session) (o : option_) : Session :=
  if optType o =? optPrimaryDNS then s <| reqDNS1 := None |>
  else if optType o =? optSecondaryDNS then s <| reqDNS2 := None |>
  else s.

Definition dropRejectedIPCP (body : bytes) (s : Session) : Session :=
  match parseOptions body with None => s | Some opts => fold_left drop_option opts s end.

(** The last address option decides. *)
Definition peer_option (s : Session) (o : option_) : Session :=
  if (optType o =? optIPAddress) && (length (optValue o) =? 4)%nat then s <| peerIP := optValue o |> else s.

Definition learned_dns (d : option bytes) : list bytes :=
  match d with Some d => if bool_decide (d = [0; 0; 0; 0]) then [] else [d] | None => [] end.

Definition maybeIPCPUp (s : Session) : Session :=
  if negb (bool_decide (ph s = phaseIPCP)) || negb (localOpen (ipcp s)) || negb (remoteOpen (ipcp s)) then s
  else
    let s := s <| ph := phaseUp |> in
    s <| lnk := report (NetworkUp (Some (mkIPConfig (reqIP s) (peerIP s) (learned_dns (reqDNS1 s) ++ learned_dns (reqDNS2 s))))) (lnk s) |>.

Definition handleIPCP (payload : bytes) (s : Session) : Session :=
  match parseCP payload with
  | None => s
  | Some pkt =>
      let s := s <| ipcp := (ipcp s) <| restart := timer_alive (restart (ipcp s)) |> |> in
      if cpCode pkt =? codeConfigureRequest then
        let s := match parseOptions (cpBody pkt) with Some opts => fold_left peer_option opts s | None => s end in
        let s := send ProtocolIPCP (cp_marshal (mkCPPacket codeConfigureAck (cpID pkt) (cpBody pkt))) s in
        maybeIPCPUp (s <| ipcp := (ipcp s) <| remoteOpen := true |> |>)
      else if cpCode pkt =? codeConfigureAck then
        if cpID pkt =? reqid (ipcp s)
        then maybeIPCPUp (s <| ipcp := (ipcp s) <| restart := timer_stop (restart (ipcp s)) |> <| localOpen := true |> |>)
        else s
      else if cpCode pkt =? codeConfigureNak then sendIPCPConfigReq (adoptIPCPValues (cpBody pkt) s)
      else if cpCode pkt =? codeConfigureReject then sendIPCPConfigReq (dropRejectedIPCP (cpBody pkt) s)
      else s
  end.

Section Receive.
Context {D : Digests} {B : Des} {M : Md4}.

Definition Receive (frame : bytes) (rnd : option bytes) (s : Session) : Session :=
  match decodeFrame frame with
  | None => s
  | Some (protocol, payload) =>
      if bool_decide (ph s = phaseClosed) then s
      else if protocol =? ProtocolLCP then handleLCP payload s
      else if protocol =? ProtocolCHAP then handleCHAP payload rnd s
      else if protocol =? ProtocolIPCP then handleIPCP payload s
      else s
  end.
End Receive.

(** ** The Restart timer *)

Definition sends_to (l : link) : Prop := forall n, accepts l n = true.

Lemma send_accepted p b s : sends_to (lnk s) ->
  send p b s = s <| lnk := (lnk s) <| attempts := S (attempts (lnk s)) |> <| frames := frames (lnk s) ++ [encodeFrame p b] |> |>.
Proof. intros H. unfold send, transmit. by rewrite H. Qed.

(** What the timer has left to do: [k] firings done, [n] to come. *)
Record waiting (k : nat) (req : bytes) (s : Session) : Prop := {
  wt_phase : ph s <> phaseClosed; wt_timer : restart (lcp s) = mkTimer true (Z.of_nat k); wt_req : configReq (lcp s) = req; wt_link : sends_to (lnk s) }.

Lemma lcp_fire_resend k req s : (k < 9)%nat -> waiting k req s ->
  waiting (S k) req (lcp_fire s) /\ frames (lnk (lcp_fire s)) = frames (lnk s) ++ [encodeFrame ProtocolLCP req] /\ events (lnk (lcp_fire s)) = events (lnk s).
Proof.
  intros Hk [H1 H2 H3 H4]. unfold lcp_fire. rewrite bool_decide_eq_false_2 by done. unfold timer_fire. rewrite H2. cbn [armed tries negb].
  rewrite (proj2 (Z.leb_gt _ _)) by lia. unfold resendLCPConfigReq. rewrite send_accepted by done. rewrite <- H3. split; [|done]. split; try done. cbn. unfold timer_arm. cbn [tries]. f_equal. lia.
Qed.

Lemma lcp_fire_expired req s : waiting 9 req s ->
  ph (lcp_fire s) = phaseClosed /\ frames (lnk (lcp_fire s)) = frames (lnk s) /\ events (lnk (lcp_fire s)) = events (lnk s) ++ [Closed ErrNoLCPReply].
Proof.
  intros [H1 H2 H3 H4]. unfold lcp_fire. rewrite bool_decide_eq_false_2 by done. unfold timer_fire. rewrite H2. cbn [armed tries negb].
  change (10 <=? Z.of_nat 9 + 1) with true. cbv iota zeta beta. unfold failLocked. by rewrite bool_decide_eq_false_2.
Qed.

Lemma lcp_fire_closed n s : ph s = phaseClosed -> Nat.iter n lcp_fire s = s.
Proof. intros H. induction n as [|n IH]; [done|]. cbn [Nat.iter nat_rect]. change (nat_rect _ s (fun _ => lcp_fire) n) with (Nat.iter n lcp_fire s). rewrite IH. unfold lcp_fire. by rewrite bool_decide_eq_true_2. Qed.

Lemma fires_spec n k req s : (k <= 9)%nat -> waiting k req s ->
  let s' := Nat.iter n lcp_fire s in
  frames (lnk s') = frames (lnk s) ++ replicate (n `min` (9 - k)) (encodeFrame ProtocolLCP req) /\
  events (lnk s') = events (lnk s) ++ if (n <=? 9 - k)%nat then [] else [Closed ErrNoLCPReply].
Proof.
  cbv zeta. revert k s. induction n as [|n IH]; intros k s Hk Hw; [by rewrite !app_nil_r|]. rewrite Nat.iter_succ_r.
  destruct (decide (k = 9%nat)) as [->|].
  - destruct (lcp_fire_expired _ _ Hw) as (A1 & A2 & A3). rewrite lcp_fire_closed by done. rewrite A2, A3. by rewrite app_nil_r.
  - destruct (lcp_fire_resend k req s ltac:(lia) Hw) as (A1 & A2 & A3). destruct (IH (S k) (lcp_fire s) ltac:(lia) A1) as [B1 B2]. rewrite B1, B2, A2, A3.
    replace (9 - k)%nat with (S (9 - S k)) by lia. cbn [Nat.min replicate Nat.leb]. by rewrite <- app_assoc.
Qed.

Lemma start_waiting user pass rnd l : sends_to l -> exists req, waiting 0 req (Start (New user pass rnd l)) /\
  frames (lnk (Start (New user pass rnd l))) = frames l ++ [encodeFrame ProtocolLCP req] /\ events (lnk (Start (New user pass rnd l))) = events l.
Proof.
  intros Hl. unfold Start, sendLCPConfigReq. set (opts := marshalOptions _). clearbody opts. unfold nextID, resendLCPConfigReq. cbv zeta. rewrite send_accepted by done.
  eexists. split; [split; [done|done|reflexivity|done]|]. done.
Qed.

(** C38: a client whose peer never answers gives up, and says so once.  Over a transport
    that takes every frame, after [n] firings of the Restart timer the client has sent
    the same Configure-Request 1 + min(n, 9) times, so never more than ten, and it has
    reported the link closed exactly when the timer has fired ten times or more. *)
Theorem restart_bounded (user pass rnd : bytes) (l : link) (n : nat) :
  sends_to l ->
  exists req,
    let s := Nat.iter n lcp_fire (Start (New user pass rnd l)) in
    frames (lnk s) = frames l ++ replicate (S (n `min` 9)) (encodeFrame ProtocolLCP req) /\
    events (lnk s) = events l ++ if (n <=? 9)%nat then [] else [Closed ErrNoLCPReply].
Proof.
  intros Hl. destruct (start_waiting user pass rnd l Hl) as (req & Hw & Hf & He). exists req. destruct (fires_spec n 0 req _ ltac:(lia) Hw) as [A1 A2].
  cbv zeta. rewrite A1, A2, Hf, He. by rewrite <- app_assoc.
Qed.

Lemma restart_bounded_witness :
  exists req, frames (lnk (Nat.iter 12 lcp_fire (Start (New (str "alice") (str "pw") [1; 2; 3; 4] (mkLink (fun _ => true) 0 [] []))))) = replicate 10 (encodeFrame ProtocolLCP req).
Proof.
  destruct (restart_bounded (str "alice") (str "pw") [1; 2; 3; 4] (mkLink (fun _ => true) 0 [] []) 12 (fun _ => eq_refl)) as (req & H & _). exists req. exact H.
Defined.
