(* ===== verification/PppServer.v ===== *)
(** * The PPP server, [internal/ppp/server.go]

    [ServerSession] asks for MS-CHAPv2 in its LCP request unless [NoAuth] is set, draws
    a challenge, checks the response against the credential lookup and assigns the
    client's address over IPCP.  Steps are frames and timer firings, as for the client.
    A step returns [None] when the code panics: [cfg.Auth] is a function value, and the
    carrier that sets [NoAuth] leaves it nil. *)
From Stdlib Require Import ZArith Lia.
From Stdlib Require String.
Import String.StringSyntax.
From stdpp Require Import base list.
From S2P Require Import Prelude IkeBodies Crypto Eap Mschap Ppp.

(** [Auth] is [None] when it is nil.  Addresses are [net.IP]s. *)
Record ServerConfig := mkServerConfig { ClientIP : bytes; ServerIP : bytes; DNS : list bytes; Auth : option (bytes -> option bytes); NoAuth : bool }.

Record ServerSession := mkServerSession {
  cfg : ServerConfig; lnk : link; ph : phase; magic : Z; reqID : Z; lcp : cp_state; lcpNoMagic : bool;
  authChallenge : bytes; username : bytes; password : bytes; ntResponse : bytes; ipcp : cp_state }.
#[export] Instance eta_ServerSession : Eta ServerSession := fun s =>
  mkServerSession (cfg s) (lnk s) (ph s) (magic s) (reqID s) (lcp s) (lcpNoMagic s) (authChallenge s) (username s) (password s) (ntResponse s) (ipcp s).

Definition NewServer (c : ServerConfig) (rnd : bytes) (l : link) : ServerSession :=
  mkServerSession c l phaseLCP (be_dec rnd) 0 cp_new false (replicate 16 0) [] [] (replicate 24 0) cp_new.

(** ** Sending *)

Definition failLocked (e : ppp_error) (s : ServerSession) : ServerSession :=
  if bool_decide (ph s = phaseClosed) then s
  else
    let s := s <| ph := phaseClosed |> in
    let s := s <| lcp := (lcp s) <| restart := timer_stop (restart (lcp s)) |> |> in
    let s := s <| ipcp := (ipcp s) <| restart := timer_stop (restart (ipcp s)) |> |> in
    s <| lnk := report (Closed e) (lnk s) |>.

Definition send (protocol : Z) (payload : bytes) (s : ServerSession) : ServerSession :=
  let '(ok, l) := transmit (encodeFrame protocol payload) (lnk s) in
  let s := s <| lnk := l |> in
  if ok then s else failLocked ErrSend s.

Definition nextID (s : ServerSession) : Z * ServerSession :=
  let s := s <| reqID := wrap 8 (reqID s + 1) |> in (reqID s, s).

(** ** LCP *)

Definition resendLCPConfigReq (s : ServerSession) : ServerSession :=
  let s := send ProtocolLCP (configReq (lcp s)) s in
  s <| lcp := (lcp s) <| restart := timer_arm (restart (lcp s)) |> |>.

Definition lcp_options (s : ServerSession) : list option_ :=
  (if negb (NoAuth (cfg s)) then [mkOption optAuthProto authMSCHAPv2] else []) ++
  (if negb (lcpNoMagic s) then [mkOption optMagic (be_enc 4 (magic s))] else []).

Definition sendLCPConfigReq (s : ServerSession) : ServerSession :=
  let opts := lcp_options s in
  let '(id, s) := nextID s in
  let s := s <| lcp := (lcp s) <| reqid := id |> <| configReq := cp_marshal (mkCPPacket codeConfigureRequest id (marshalOptions opts)) |> |> in
  resendLCPConfigReq s.

Definition Start (s : ServerSession) : ServerSession := sendLCPConfigReq s.

Definition lcp_fire (s : ServerSession) : ServerSession :=
  if bool_decide (ph s = phaseClosed) then s
  else
    let '(f, r) := timer_fire (restart (lcp s)) in
    let s := s <| lcp := (lcp s) <| restart := r |> |> in
    match f with Idle => s | Expired => failLocked ErrNoLCPReply s | Resend => resendLCPConfigReq s end.

Definition sendEchoReply (req : cpPacket) (s : ServerSession) : ServerSession :=
  let mg := be_enc 4 (magic s) in
  let body := if (4 <=? length (cpBody req))%nat then mg ++ drop 4 (cpBody req) else mg in
  send ProtocolLCP (cp_marshal (mkCPPacket codeEchoReply (cpID req) body)) s.

(** ** IPCP requests *)

Definition resendIPCPConfigReq (s : ServerSession) : ServerSession :=
  let s := send ProtocolIPCP (configReq (ipcp s)) s in
  s <| ipcp := (ipcp s) <| restart := timer_arm (restart (ipcp s)) |> |>.

Definition sendIPCPConfigReq (s : ServerSession) : ServerSession :=
  let opts := [mkOption optIPAddress (To4 (ServerIP (cfg s)))] in
  let '(id, s) := nextID s in
  let s := s <| ipcp := (ipcp s) <| reqid := id |> <| configReq := cp_marshal (mkCPPacket codeConfigureRequest id (marshalOptions opts)) |> |> in
  resendIPCPConfigReq s.

Definition ipcp_fire (s : ServerSession) : ServerSession :=
  if bool_decide (ph s = phaseClosed) then s
  else
    let '(f, r) := timer_fire (restart (ipcp s)) in
    let s := s <| ipcp := (ipcp s) <| restart := r |> |> in
    match f with Idle => s | Expired => failLocked ErrNoIPCPReply s | Resend => resendIPCPConfigReq s end.

(** ** Authentication *)

Definition sendChallenge (rnd : option bytes) (s : ServerSession) : ServerSession :=
  match rnd with
  | None => failLocked ErrRandom s
  | Some ch =>
      let s := s <| authChallenge := ch |> in
      let '(id, s) := nextID s in
      send ProtocolCHAP (cp_marshal (mkCPPacket chapChallenge id (buildChallenge (authChallenge s) (str "veepin")))) s
  end.

Definition maybeLCPUp (rnd : option bytes) (s : ServerSession) : ServerSession :=
  if negb (bool_decide (ph s = phaseLCP)) || negb (localOpen (lcp s)) || negb (remoteOpen (lcp s)) then s
  else if NoAuth (cfg s) then sendIPCPConfigReq (s <| ph := phaseIPCP |>)
  else sendChallenge rnd (s <| ph := phaseAuth |>).

Definition lcp_rejected (opts : list option_) : list option_ :=
  List.filter (fun o => negb ((optType o =? optMRU) || (optType o =? optMagic) || (optType o =? optQuality) || (optType o =? optPFC) || (optType o =? optACFC))) opts.

Definition handleLCPConfigReq (pkt : cpPacket) (rnd : option bytes) (s : ServerSession) : ServerSession :=
  match parseOptions (cpBody pkt) with
  | None => s
  | Some opts =>
      let rejected := lcp_rejected opts in
      if (0 <? length rejected)%nat then send ProtocolLCP (cp_marshal (mkCPPacket codeConfigureReject (cpID pkt) (marshalOptions rejected))) s
      else
        let s := send ProtocolLCP (cp_marshal (mkCPPacket codeConfigureAck (cpID pkt) (cpBody pkt))) s in
        maybeLCPUp rnd (s <| lcp := (lcp s) <| remoteOpen := true |> |>)
  end.

Definition handleLCP (payload : bytes) (rnd : option bytes) (s : ServerSession) : ServerSession :=
  match parseCP payload with
  | None => s
  | Some pkt =>
      let s := s <| lcp := (lcp s) <| restart := timer_alive (restart (lcp s)) |> |> in
      if cpCode pkt =? codeConfigureRequest then handleLCPConfigReq pkt rnd s
      else if cpCode pkt =? codeConfigureAck then
        if cpID pkt =? reqid (lcp s)
        then maybeLCPUp rnd (s <| lcp := (lcp s) <| restart := timer_stop (restart (lcp s)) |> <| localOpen := true |> |>)
        else s
      else if (cpCode pkt =? codeConfigureNak) || (cpCode pkt =? codeConfigureReject) then
        if NoAuth (cfg s) then sendLCPConfigReq (s <| lcpNoMagic := true |>) else failLocked ErrRejectedAuth s
      else if cpCode pkt =? codeTerminateRequest then failLocked ErrPeerClosed (send ProtocolLCP (cp_marshal (mkCPPacket codeTerminateAck (cpID pkt) [])) s)
      else if cpCode pkt =? codeEchoRequest then sendEchoReply pkt s
      else s
  end.

Section Auth.
Context {D : Digests} {B : Des} {M : Md4}.

(** The credentials after a response that verified. *)
Definition accept_response (id : Z) (user pass peerCh nt : bytes) (s : ServerSession) : ServerSession :=
  let s := s <| username := user |> <| password := pass |> <| ntResponse := nt |> in
  let s := send ProtocolCHAP (cp_marshal (mkCPPacket chapSuccess id (buildSuccess (authChallenge s) peerCh user pass nt))) s in
  let s := s <| lnk := report (Authenticated user pass nt) (lnk s) |> in
  sendIPCPConfigReq (s <| ph := phaseIPCP |>).

Definition handleCHAP (payload : bytes) (s : ServerSession) : option ServerSession :=
  match parseCP payload with
  | None => Some s
  | Some pkt =>
      if negb (cpCode pkt =? chapResponse) then Some s
      else
        match parseResponse (cpBody pkt) with
        | None => Some (failLocked ErrMalformed s)
        | Some (peerCh, nt, user) =>
            auth ← Auth (cfg s);
            let refuse := failLocked ErrAuth (send ProtocolCHAP (cp_marshal (mkCPPacket chapFailure (cpID pkt) buildFailure)) s) in
            match auth user with
            | None => Some refuse
            | Some pass =>
                if negb (verifyResponse (authChallenge s) peerCh user pass nt) then Some refuse
                else Some (accept_response (cpID pkt) user pass peerCh nt s)
            end
        end
  end.
End Auth.

(** ** IPCP *)

Definition ipEq (value ip : bytes) : bool :=
  (length value =? 4)%nat && negb (bool_decide (To4 ip = [])) && bool_decide (value = To4 ip).

(** Empty when there is none. *)
Definition dnsAt (i : nat) (s : ServerSession) : bytes := default [] (DNS (cfg s) !! i).

(** The option to suggest for one whose value is not what the server assigns. *)
Definition ipcp_nak (s : ServerSession) (o : option_) : list option_ :=
  let dns i t := if negb (bool_decide (dnsAt i s = [])) && negb (ipEq (optValue o) (dnsAt i s)) then [mkOption t (To4 (dnsAt i s))] else [] in
  if optType o =? optIPAddress then if negb (ipEq (optValue o) (ClientIP (cfg s))) then [mkOption optIPAddress (To4 (ClientIP (cfg s)))] else []
  else if optType o =? optPrimaryDNS then dns 0%nat optPrimaryDNS
  else if optType o =? optSecondaryDNS then dns 1%nat optSecondaryDNS
  else [].

Definition maybeIPCPUp (s : ServerSession) : ServerSession :=
  if negb (bool_decide (ph s = phaseIPCP)) || negb (localOpen (ipcp s)) || negb (remoteOpen (ipcp s)) then s
  else let s := s <| ph := phaseUp |> in s <| lnk := report (NetworkUp None) (lnk s) |>.

Definition handleIPCPConfigReq (pkt : cpPacket) (s : ServerSession) : ServerSession :=
  match parseOptions (cpBody pkt) with
  | None => s
  | Some opts =>
      let nak := concat (ipcp_nak s <$> opts) in
      if (0 <? length nak)%nat then send ProtocolIPCP (cp_marshal (mkCPPacket codeConfigureNak (cpID pkt) (marshalOptions nak))) s
      else
        let s := send ProtocolIPCP (cp_marshal (mkCPPacket codeConfigureAck (cpID pkt) (cpBody pkt))) s in
        maybeIPCPUp (s <| ipcp := (ipcp s) <| remoteOpen := true |> |>)
  end.

Definition handleIPCP (payload : bytes) (s : ServerSession) : ServerSession :=
  match parseCP payload with
  | None => s
  | Some pkt =>
      let s := s <| ipcp := (ipcp s) <| restart := timer_alive (restart (ipcp s)) |> |> in
      if cpCode pkt =? codeConfigureRequest then handleIPCPConfigReq pkt s
      else if cpCode pkt =? codeConfigureAck then
        if cpID pkt =? reqid (ipcp s)
        then maybeIPCPUp (s <| ipcp := (ipcp s) <| restart := timer_stop (restart (ipcp s)) |> <| localOpen := true |> |>)
        else s
      else if (cpCode pkt =? codeConfigureNak) || (cpCode pkt =? codeConfigureReject) then sendIPCPConfigReq s
      else s
  end.

Section Receive.
Context {D : Digests} {B : Des} {M : Md4}.

Definition Receive (frame : bytes) (rnd : option bytes) (s : ServerSession) : option ServerSession :=
  match decodeFrame frame with
  | None => Some s
  | Some (protocol, payload) =>
      if bool_decide (ph s = phaseClosed) then Some s
      else if protocol =? ProtocolLCP then Some (handleLCP payload rnd s)
      else if protocol =? ProtocolCHAP then handleCHAP payload s
      else if protocol =? ProtocolIPCP then Some (handleIPCP payload s)
      else Some s
  end.
End Receive.

(** ** Steps and runs *)

Inductive input := InFrame (frame : bytes) (rnd : option bytes) | FireLCP | FireIPCP.

Section Runs.
Context {D : Digests} {B : Des} {M : Md4}.

Definition step (i : input) (s : ServerSession) : option ServerSession :=
  match i with
  | InFrame frame rnd => Receive frame rnd s
  | FireLCP => Some (lcp_fire s)
  | FireIPCP => Some (ipcp_fire s)
  end.

Fixpoint run (ins : list input) (s : ServerSession) : option ServerSession :=
  match ins with [] => Some s | i :: ins => s ← step i s; run ins s end.

(** ** Who gets on the network *)

(** A challenge in force: the one drawn last, or the zero value before the first draw. *)
Definition in_force (ins : list input) (ch : bytes) : Prop := ch = replicate 16 0 \/ exists frame, InFrame frame (Some ch) ∈ ins.

(** The frame is a CHAP response with these values. *)
Definition chap_response (frame peerCh nt user : bytes) : Prop :=
  exists payload pkt, decodeFrame frame = Some (ProtocolCHAP, payload) /\ parseCP payload = Some pkt /\ cpCode pkt = chapResponse /\ parseResponse (cpBody pkt) = Some (peerCh, nt, user).

(** One of the frames proved the password of [user] against a challenge in force. *)
Definition proven (c : ServerConfig) (ins : list input) (user pass nt : bytes) : Prop :=
  exists auth frame rnd peerCh ch, Auth c = Some auth /\ auth user = Some pass /\ InFrame frame rnd ∈ ins /\ chap_response frame peerCh nt user /\
    in_force ins ch /\ nt = GenerateNTResponse ch peerCh user pass.

Definition has_auth (es : list event) : Prop := exists u p nt, Authenticated u p nt ∈ es.

Record server_inv (c : ServerConfig) (ins : list input) (s : ServerSession) : Prop := {
  si_cfg : cfg s = c;
  si_phase : ph s = phaseIPCP \/ ph s = phaseUp -> has_auth (events (lnk s));
  si_up : forall x, NetworkUp x ∈ events (lnk s) -> has_auth (events (lnk s));
  si_auth : forall u p nt, Authenticated u p nt ∈ events (lnk s) -> proven c ins u p nt;
  si_challenge : in_force ins (authChallenge s) }.

(** What leaves authentication alone. *)
Record calm (s s' : ServerSession) : Prop := {
  ca_cfg : cfg s' = cfg s; ca_challenge : authChallenge s' = authChallenge s;
  ca_events : exists es, events (lnk s') = events (lnk s) ++ es /\ Forall (fun e => exists r, e = Closed r) es;
  ca_phase : ph s' = ph s \/ ph s' = phaseClosed }.

#[local] Instance calm_preorder : PreOrder calm.
Proof.
  split.
  - intros s. split; [done|done|exists []; by rewrite app_nil_r|by left].
  - intros s1 s2 s3 [A1 A2 (es1 & A3 & A4) A5] [B1 B2 (es2 & B3 & B4) B5]. split; [congruence|congruence| |].
    + exists (es1 ++ es2). rewrite B3, A3, app_assoc. split; [done|]. by apply Forall_app.
    + destruct A5, B5; [left|right..]; congruence.
Qed.

Lemma failLocked_calm e s : calm s (failLocked e s).
Proof.
  unfold failLocked. case_bool_decide; [reflexivity|]. split; [done|done| |by right]. exists [Closed e]. split; [done|]. constructor; [by exists e|constructor].
Qed.

Lemma send_calm p b s : calm s (send p b s).
Proof.
  unfold send, transmit. destruct (accepts _ _).
  - split; [done|done|exists []; by rewrite app_nil_r|by left].
  - transitivity (s <| lnk := (lnk s) <| attempts := S (attempts (lnk s)) |> |>); [|apply failLocked_calm]. split; [done|done|exists []; by rewrite app_nil_r|by left].
Qed.

(** An update of the negotiation fields. *)
Ltac calm_update := split; [done|done|exists []; by rewrite app_nil_r|by left].

Lemma resendLCP_calm s : calm s (resendLCPConfigReq s).
Proof. unfold resendLCPConfigReq. transitivity (send ProtocolLCP (configReq (lcp s)) s); [apply send_calm|calm_update]. Qed.

Lemma resendIPCP_calm s : calm s (resendIPCPConfigReq s).
Proof. unfold resendIPCPConfigReq. transitivity (send ProtocolIPCP (configReq (ipcp s)) s); [apply send_calm|calm_update]. Qed.

Lemma sendLCP_calm s : calm s (sendLCPConfigReq s).
Proof. unfold sendLCPConfigReq, nextID. etrans; [|apply resendLCP_calm]. calm_update. Qed.

Lemma sendIPCP_calm s : calm s (sendIPCPConfigReq s).
Proof. unfold sendIPCPConfigReq, nextID. etrans; [|apply resendIPCP_calm]. calm_update. Qed.

Lemma lcp_fire_calm s : calm s (lcp_fire s).
Proof.
  unfold lcp_fire. case_bool_decide; [reflexivity|]. destruct (timer_fire _) as [f r]. destruct f; (etrans; [|first [apply failLocked_calm|apply resendLCP_calm|reflexivity]]); calm_update.
Qed.

Lemma ipcp_fire_calm s : calm s (ipcp_fire s).
Proof.
  unfold ipcp_fire. case_bool_decide; [reflexivity|]. destruct (timer_fire _) as [f r]. destruct f; (etrans; [|first [apply failLocked_calm|apply resendIPCP_calm|reflexivity]]); calm_update.
Qed.

Lemma inv_calm c ins s s' : server_inv c ins s -> calm s s' -> server_inv c ins s'.
Proof.
  intros [H1 H2 H3 H4 H5] [C1 C2 (es & C3 & C4) C5]. assert (forall e, e ∈ es -> exists r, e = Closed r) as Hes by (by rewrite Forall_forall in C4).
  assert (has_auth (events (lnk s)) -> has_auth (events (lnk s'))) as Hmono.
  { intros (u & p & nt & H). exists u, p, nt. rewrite C3. apply elem_of_app. by left. }
  split; [congruence| | | |by rewrite C2].
  - intros H. apply Hmono, H2. destruct C5 as [<-|E]; [done|]. destruct H; congruence.
  - intros x. rewrite C3 at 1. intros [H|H]%elem_of_app; [by eapply Hmono, H3|]. by destruct (Hes _ H).
  - intros u p nt. rewrite C3. intros [H|H]%elem_of_app; [by apply H4|]. by destruct (Hes _ H).
Qed.

Lemma inv_more c ins i s : server_inv c ins s -> server_inv c (ins ++ [i]) s.
Proof.
  assert (forall ch, in_force ins ch -> in_force (ins ++ [i]) ch) as Hf.
  { intros ch [->|[f H]]; [by left|right; exists f; apply elem_of_app; by left]. }
  intros [H1 H2 H3 H4 H5]. split; try done; [|by apply Hf]. intros u p nt H. destruct (H4 u p nt H) as (auth & f & rnd & pc & ch & A1 & A2 & A3 & A4 & A5 & A6).
  exists auth, f, rnd, pc, ch. split_and!; try done; [apply elem_of_app; by left|by apply Hf].
Qed.

(** Back to an earlier phase. *)
Lemma inv_phase c ins s q : server_inv c ins s -> q <> phaseIPCP -> q <> phaseUp -> server_inv c ins (s <| ph := q |>).
Proof. intros [H1 H2 H3 H4 H5] Hq1 Hq2. split; try done. intros [E|E]; done. Qed.

Lemma maybeLCPUp_inv c ins rnd s :
  NoAuth c = false -> (forall ch, rnd = Some ch -> in_force ins ch) -> server_inv c ins s -> server_inv c ins (maybeLCPUp rnd s).
Proof.
  intros Hna Hr Hi. unfold maybeLCPUp. destruct (_ || _); [done|]. rewrite (si_cfg _ _ _ Hi), Hna. unfold sendChallenge.
  pose proof (inv_phase c ins s phaseAuth Hi ltac:(done) ltac:(done)) as Hp. destruct rnd as [ch|]; [|eapply inv_calm; [exact Hp|apply failLocked_calm]].
  unfold nextID. eapply inv_calm; [|apply send_calm]. destruct Hp as [H1 H2 H3 H4 H5]. split; try done. by apply Hr.
Qed.

Lemma handleLCP_inv c ins payload rnd s :
  NoAuth c = false -> (forall ch, rnd = Some ch -> in_force ins ch) -> server_inv c ins s -> server_inv c ins (handleLCP payload rnd s).
Proof.
  intros Hna Hr Hi. unfold handleLCP. destruct (parseCP payload) as [pkt|]; [|done].
  assert (server_inv c ins (s <| lcp := (lcp s) <| restart := timer_alive (restart (lcp s)) |> |>)) as Hi2 by (eapply inv_calm; [exact Hi|calm_update]).
  generalize dependent (s <| lcp := (lcp s) <| restart := timer_alive (restart (lcp s)) |> |>). clear s Hi. intros s Hi. cbv zeta.
  repeat case_match; try done.
  - unfold handleLCPConfigReq. case_match; [|done]. case_match; [eapply inv_calm; [exact Hi|apply send_calm]|]. cbv zeta.
    apply maybeLCPUp_inv; [done|done|]. eapply inv_calm; [exact Hi|]. etrans; [apply send_calm|]. calm_update.
  - apply maybeLCPUp_inv; [done|done|]. eapply inv_calm; [exact Hi|]. calm_update.
  - eapply inv_calm; [exact Hi|]. etrans; [|apply sendLCP_calm]. calm_update.
  - eapply inv_calm; [exact Hi|apply failLocked_calm].
  - eapply inv_calm; [exact Hi|]. etrans; [apply send_calm|apply failLocked_calm].
  - eapply inv_calm; [exact Hi|apply send_calm].
Qed.

Lemma maybeIPCPUp_inv c ins s : server_inv c ins s -> server_inv c ins (maybeIPCPUp s).
Proof.
  intros Hi. unfold maybeIPCPUp. destruct (_ || _) eqn:E; [done|]. apply orb_false_iff in E as [E _]. apply orb_false_iff in E as [E _].
  rewrite negb_false_iff, bool_decide_eq_true in E. destruct Hi as [H1 H2 H3 H4 H5]. destruct (H2 (or_introl E)) as (u & p & nt & Ha).
  assert (forall e, e ∈ events (lnk s) -> e ∈ events (report (NetworkUp None) (lnk s))) as Hin by (intros e He; apply elem_of_app; by left).
  split; try done.
  - intros _. exists u, p, nt. by apply Hin.
  - intros x _. exists u, p, nt. by apply Hin.
  - intros u' p' nt' [H|H]%elem_of_app; [by apply H4|]. by apply list_elem_of_singleton in H.
Qed.

Lemma handleIPCP_inv c ins payload s : server_inv c ins s -> server_inv c ins (handleIPCP payload s).
Proof.
  intros Hi. unfold handleIPCP. destruct (parseCP payload) as [pkt|]; [|done].
  assert (server_inv c ins (s <| ipcp := (ipcp s) <| restart := timer_alive (restart (ipcp s)) |> |>)) as Hi2 by (eapply inv_calm; [exact Hi|calm_update]).
  generalize dependent (s <| ipcp := (ipcp s) <| restart := timer_alive (restart (ipcp s)) |> |>). clear s Hi. intros s Hi. cbv zeta.
  repeat case_match; try done.
  - unfold handleIPCPConfigReq. case_match; [|done]. case_match; [eapply inv_calm; [exact Hi|apply send_calm]|]. cbv zeta.
    apply maybeIPCPUp_inv. eapply inv_calm; [exact Hi|]. etrans; [apply send_calm|]. calm_update.
  - apply maybeIPCPUp_inv. eapply inv_calm; [exact Hi|]. calm_update.
  - eapply inv_calm; [exact Hi|apply sendIPCP_calm].
Qed.

Lemma accept_response_inv c ins id user pass peerCh nt s :
  server_inv c ins s -> proven c ins user pass nt -> server_inv c ins (accept_response id user pass peerCh nt s).
Proof.
  intros Hi Hp. unfold accept_response. cbv zeta. eapply inv_calm; [|apply sendIPCP_calm].
  set (s1 := s <| username := user |> <| password := pass |> <| ntResponse := nt |>).
  assert (server_inv c ins (send ProtocolCHAP (cp_marshal (mkCPPacket chapSuccess id (buildSuccess (authChallenge s1) peerCh user pass nt))) s1)) as H.
  { eapply inv_calm; [|apply send_calm]. eapply inv_calm; [exact Hi|]. calm_update. }
  generalize dependent (send ProtocolCHAP (cp_marshal (mkCPPacket chapSuccess id (buildSuccess (authChallenge s1) peerCh user pass nt))) s1). intros s2 [H1 H2 H3 H4 H5].
  assert (has_auth (events (report (Authenticated user pass nt) (lnk s2)))) as Ha.
  { exists user, pass, nt. apply elem_of_app. right. by apply list_elem_of_singleton. }
  split; try done. intros u p n [H|H]%elem_of_app; [by apply H4|]. apply list_elem_of_singleton in H. by simplify_eq.
Qed.

Lemma handleCHAP_inv c ins frame rnd payload s s' :
  decodeFrame frame = Some (ProtocolCHAP, payload) -> InFrame frame rnd ∈ ins -> server_inv c ins s -> handleCHAP payload s = Some s' -> server_inv c ins s'.
Proof.
  intros Hf Hin Hi. unfold handleCHAP. destruct (parseCP payload) as [pkt|] eqn:Ep; [|by intros [= <-]].
  destruct (Z.eqb_spec (cpCode pkt) chapResponse) as [Hc|]; cbn [negb]; [|by intros [= <-]].
  destruct (parseResponse (cpBody pkt)) as [[[peerCh nt] user]|] eqn:Er; [|intros [= <-]; eapply inv_calm; [exact Hi|apply failLocked_calm]].
  rewrite (si_cfg _ _ _ Hi). destruct (Auth c) as [auth|] eqn:Ea; [|done]. cbn [mbind option_bind].
  assert (calm s (failLocked ErrAuth (send ProtocolCHAP (cp_marshal (mkCPPacket chapFailure (cpID pkt) buildFailure)) s))) as Href.
  { etrans; [apply send_calm|apply failLocked_calm]. }
  destruct (auth user) as [pass|] eqn:Eu; [|intros [= <-]; by eapply inv_calm]. unfold verifyResponse. case_bool_decide as Hv; cbn [negb]; [|intros [= <-]; by eapply inv_calm].
  intros [= <-]. apply accept_response_inv; [done|]. exists auth, frame, rnd, peerCh, (authChallenge s). split_and!; try done; [by exists payload, pkt|apply (si_challenge _ _ _ Hi)].
Qed.

Lemma step_inv c ins i s s' : NoAuth c = false -> server_inv c ins s -> step i s = Some s' -> server_inv c (ins ++ [i]) s'.
Proof.
  intros Hna Hi. apply (inv_more c ins i) in Hi. assert (i ∈ ins ++ [i]) as Hin by (apply elem_of_app; right; by apply list_elem_of_singleton).
  destruct i as [frame rnd| |]; cbn [step].
  - assert (forall ch, rnd = Some ch -> in_force (ins ++ [InFrame frame rnd]) ch) as Hr by (intros ch ->; right; by exists frame).
    unfold Receive. destruct (decodeFrame frame) as [[protocol payload]|] eqn:Ed; [|by intros [= <-]]. case_bool_decide; [by intros [= <-]|].
    destruct (_ =? _); [intros [= <-]; by apply handleLCP_inv|]. destruct (Z.eqb_spec protocol ProtocolCHAP) as [->|]; [by eapply handleCHAP_inv|].
    destruct (_ =? _); intros [= <-]; [by apply handleIPCP_inv|done].
  - intros [= <-]. eapply inv_calm; [exact Hi|apply lcp_fire_calm].
  - intros [= <-]. eapply inv_calm; [exact Hi|apply ipcp_fire_calm].
Qed.

Lemma run_inv c ins0 ins s s' : NoAuth c = false -> server_inv c ins0 s -> run ins s = Some s' -> server_inv c (ins0 ++ ins) s'.
Proof.
  intros Hna. revert ins0 s. induction ins as [|i ins IH]; intros ins0 s Hi; cbn [run]; [intros [= <-]; by rewrite app_nil_r|].
  destruct (step i s) as [s1|] eqn:E; [|done]. cbn [mbind option_bind]. intros H. change (i :: ins) with ([i] ++ ins). rewrite app_assoc. eapply IH; [|exact H]. by eapply step_inv.
Qed.

Lemma start_inv c rnd l : events l = [] -> server_inv c [] (Start (NewServer c rnd l)).
Proof.
  intros Hl. eapply inv_calm; [|apply sendLCP_calm]. assert (forall e, ~ e ∈ events l) as Hn by (rewrite Hl; by intros e ?%elem_of_nil).
  split; try done; [by intros [?|?]|by intros x ?%Hn|by intros u p nt ?%Hn|by left].
Qed.

Definition sends (l : link) : Prop := forall n, accepts l n = true.

Lemma srv_send_accepted p b s : sends (lnk s) ->
  send p b s = s <| lnk := (lnk s) <| attempts := S (attempts (lnk s)) |> <| frames := frames (lnk s) ++ [encodeFrame p b] |> |>.
Proof. intros H. unfold send, transmit. by rewrite H. Qed.

Lemma start_fresh c rnd l : sends l ->
  let s := Start (NewServer c rnd l) in ph s = phaseLCP /\ cfg s = c /\ authChallenge s = replicate 16 0 /\ sends (lnk s).
Proof.
  intros Hl. cbv zeta. unfold Start, sendLCPConfigReq. set (o := marshalOptions _). clearbody o. unfold nextID, resendLCPConfigReq. cbv zeta. by rewrite srv_send_accepted by done.
Qed.


(** C37: a server without authentication can be crashed.  The carrier that sets NoAuth
    gives no credential lookup, and the handler of CHAP looks at neither NoAuth nor the
    phase: a well-formed CHAP response makes it call the nil lookup. *)
Theorem noauth_chap_panics (c : ServerConfig) (s : ServerSession) (frame peerCh nt user : bytes) (rnd : option bytes) :
  cfg s = c -> Auth c = None -> ph s <> phaseClosed -> chap_response frame peerCh nt user -> Receive frame rnd s = None.
Proof.
  intros <- Ha Hp (payload & pkt & Hf & Hc & Hcode & Hr). unfold Receive. rewrite Hf, bool_decide_eq_false_2 by done. cbn [Z.eqb Pos.eqb].
  unfold handleCHAP. rewrite Hc, Hcode. cbn [Z.eqb Pos.eqb negb]. by rewrite Hr, Ha.
Qed.

Lemma accept_response_reports id user pass peerCh nt s :
  sends (lnk s) -> Authenticated user pass nt ∈ events (lnk (accept_response id user pass peerCh nt s)).
Proof.
  intros Hl. unfold accept_response. cbv zeta. set (s1 := send _ _ _). destruct (sendIPCP_calm (s1 <| lnk := report (Authenticated user pass nt) (lnk s1) |> <| ph := phaseIPCP |>)) as [_ _ (es & E & _) _].
  rewrite E. apply elem_of_app. left. apply elem_of_app. right. by apply list_elem_of_singleton.
Qed.

(** C36: a response is accepted before there is a challenge.  The handler of CHAP does not
    look at the phase, and the challenge field holds zeros until one is drawn: right
    after [Start] a response over the all-zero challenge authenticates, so one that was
    ever computed, for any server, can be replayed. *)
Theorem zero_challenge_accepted (c : ServerConfig) (auth : bytes -> option bytes) (magicOctets : bytes) (l : link) (frame peerCh user pass : bytes) (rnd : option bytes) :
  Auth c = Some auth -> auth user = Some pass -> sends l ->
  chap_response frame peerCh (GenerateNTResponse (replicate 16 0) peerCh user pass) user ->
  exists s, Receive frame rnd (Start (NewServer c magicOctets l)) = Some s /\ Authenticated user pass (GenerateNTResponse (replicate 16 0) peerCh user pass) ∈ events (lnk s).
Proof.
  intros Ha Hu Hl (payload & pkt & Hf & Hc & Hcode & Hr). unfold Receive. rewrite Hf.
  destruct (start_fresh c magicOctets l Hl) as (F1 & F2 & F3 & F4). rewrite F1, bool_decide_eq_false_2 by done. cbn [Z.eqb Pos.eqb].
  unfold handleCHAP. rewrite Hc, Hcode. cbn [Z.eqb Pos.eqb negb]. rewrite Hr, F2, Ha. cbn [mbind option_bind]. rewrite Hu, F3. unfold verifyResponse. rewrite bool_decide_eq_true_2 by done.
  cbn [negb]. eexists. split; [reflexivity|]. by apply accept_response_reports.
Qed.
End Runs.

(** ** Witnesses *)

Definition office : ServerConfig :=
  mkServerConfig [10; 8; 0; 2] [10; 8; 0; 1] [] (Some (fun u => if bool_decide (u = str "alice") then Some (str "secret") else None)) false.
Definition open_link : link := mkLink (fun _ => true) 0 [] [].
#[local] Existing Instances toy_digests toy_des.
#[local] Existing Instance own_md4.

Definition chap_frame (ch : bytes) : bytes :=
  encodeFrame ProtocolCHAP (cp_marshal (mkCPPacket chapResponse 2 (response_body (replicate 16 9) (GenerateNTResponse ch (replicate 16 9) (str "alice") (str "secret")) (str "alice")))).

(** The client's empty request, its acknowledgement of the server's, and its response. *)
Definition alice : list input :=
  [InFrame (encodeFrame ProtocolLCP (cp_marshal (mkCPPacket codeConfigureRequest 1 []))) None;
   InFrame (encodeFrame ProtocolLCP (cp_marshal (mkCPPacket codeConfigureAck 1 []))) (Some (replicate 16 7));
   InFrame (chap_frame (replicate 16 7)) None].

Lemma chap_frame_response ch : chap_response (chap_frame ch) (replicate 16 9) (GenerateNTResponse ch (replicate 16 9) (str "alice") (str "secret")) (str "alice").
Proof.
  assert (length (GenerateNTResponse ch (replicate 16 9) (str "alice") (str "secret")) = 24%nat) as Hn by (apply (length_ntResponse (BO := toy_des_ok))).
  exists (cp_marshal (mkCPPacket chapResponse 2 (response_body (replicate 16 9) (GenerateNTResponse ch (replicate 16 9) (str "alice") (str "secret")) (str "alice")))).
  eexists. split_and!.
  - apply decode_encode; [unfold uint; lia|done].
  - rewrite <- (app_nil_r (cp_marshal _)). apply parseCP_marshal. cbn [cpBody]. unfold response_body. rewrite !length_app, Hn. cbn. lia.
  - done.
  - by apply parseResponse_build.
Qed.


(** The carrier's configuration that leaves [Auth] nil. *)
Lemma noauth_chap_panics_witness :
  Receive (chap_frame []) None (Start (NewServer (mkServerConfig [10; 8; 0; 2] [10; 8; 0; 1] [] None true) [1; 2; 3; 4] open_link)) = None.
Proof.
  eapply (noauth_chap_panics (mkServerConfig [10; 8; 0; 2] [10; 8; 0; 1] [] None true)); [reflexivity|reflexivity|by vm_compute|apply (chap_frame_response [])].
Defined.

Lemma zero_challenge_accepted_witness :
  exists s, Receive (chap_frame (replicate 16 0)) None (Start (NewServer office [1; 2; 3; 4] open_link)) = Some s /\
    Authenticated (str "alice") (str "secret") (GenerateNTResponse (replicate 16 0) (replicate 16 9) (str "alice") (str "secret")) ∈ events (lnk s).
Proof.
  apply (zero_challenge_accepted office _ [1; 2; 3; 4] open_link _ _ (str "alice") (str "secret") None eq_refl ltac:(by vm_compute) (fun _ => eq_refl) (chap_frame_response (replicate 16 0))).
Defined.
