(* ===== verification/PppLink.v ===== *)
(** * A PPP client and server on one link

    The two roles of [internal/ppp] joined by two first-in first-out channels, as over
    the TLS stream of SSTP.  A step delivers the frame at the head of either channel; the
    schedule is free.

    [ppp_bring_up]: whatever the schedule, the negotiation ends, after the same number of
    deliveries, with both ends up, both having reported the authentication, and the client
    holding the address and the resolvers the server was configured with. *)
From Stdlib Require Import ZArith Lia.
From Stdlib Require String.
Import String.StringSyntax.
From stdpp Require Import base list relations.
From S2P Require Import Prelude IkeBodies Crypto Eap Mschap Ppp PppSession PppServer.

(** ** Two deterministic ends and two channels *)

Section Net.
Context {A B M : Type} (stepA : M -> A -> option (A * list M)) (stepB : M -> B -> option (B * list M)).

Record net := mkNet { endA : A; endB : B; toA : list M; toB : list M }.

Definition deliverA (n : net) : option net :=
  match toA n with
  | [] => None
  | m :: q => '(a, out) ← stepA m (endA n); Some (mkNet a (endB n) q (toB n ++ out))
  end.

Definition deliverB (n : net) : option net :=
  match toB n with
  | [] => None
  | m :: q => '(b, out) ← stepB m (endB n); Some (mkNet (endA n) b (toA n ++ out) q)
  end.

Definition net_step (x y : net) : Prop := deliverA x = Some y \/ deliverB x = Some y.

(** The two deliveries do not interfere. *)
Lemma net_diamond x y z : net_step x y -> net_step x z -> y = z \/ exists w, net_step y w /\ net_step z w.
Proof.
  assert (forall y z, deliverA x = Some y -> deliverB x = Some z -> exists w, deliverB y = Some w /\ deliverA z = Some w) as H.
  { clear y z. unfold deliverA, deliverB. destruct x as [a b qa qb]. cbn [endA endB toA toB]. destruct qa as [|ma qa], qb as [|mb qb]; try done. intros y z.
    destruct (stepA ma a) as [[a' oa]|] eqn:Ea; [|done]. destruct (stepB mb b) as [[b' ob]|] eqn:Eb; [|done]. cbn. intros [= <-] [= <-]. cbn. rewrite Ea, Eb. by eexists. }
  intros [Hy|Hy] [Hz|Hz]; [left; congruence| | |left; congruence]; right.
  - destruct (H y z Hy Hz) as (w & A1 & A2). exists w. split; [by right|by left].
  - destruct (H z y Hz Hy) as (w & A1 & A2). exists w. split; [by left|by right].
Qed.

Definition quiet (x : net) : Prop := toA x = [] /\ toB x = [].

Lemma quiet_nf x y : quiet x -> ~ net_step x y.
Proof. intros [Ha Hb] [H|H]; [unfold deliverA in H; by rewrite Ha in H|unfold deliverB in H; by rewrite Hb in H]. Qed.

(** With one run to a quiet state, a step from its start is the first of a run of the same
    length to the same state. *)
Lemma one_step_joins n x y z : nsteps net_step n x z -> quiet z -> net_step x y -> exists m, n = S m /\ nsteps net_step m y z.
Proof.
  revert x y. induction n as [|n IH]; intros x y Hn Hz Hy.
  - inversion Hn; subst. by apply quiet_nf in Hy.
  - inversion Hn as [|? ? x1 ? H1 H2]; subst. exists n. split; [done|]. destruct (net_diamond x x1 y H1 Hy) as [<-|(w & W1 & W2)]; [done|].
    destruct (IH x1 w H2 Hz W1) as (m & -> & Hm). by econstructor.
Qed.

Lemma every_run_joins n k x y z : nsteps net_step n x z -> quiet z -> nsteps net_step k x y -> (k <= n)%nat /\ nsteps net_step (n - k) y z.
Proof.
  revert n x. induction k as [|k IH]; intros n x Hn Hz Hk; inversion Hk as [|? ? x1 ? H1 H2]; subst; [by rewrite Nat.sub_0_r; split; [lia|]|].
  destruct (one_step_joins n x x1 z Hn Hz H1) as (m & -> & Hm). destruct (IH m x1 Hm Hz H2). split; [lia|done].
Qed.

Lemma deliverA_eq m a b q qb a' out : stepA m a = Some (a', out) -> deliverA (mkNet a b (m :: q) qb) = Some (mkNet a' b q (qb ++ out)).
Proof. intros H. unfold deliverA. cbn [toA endA]. by rewrite H. Qed.

Lemma deliverB_eq m a b q qa b' out : stepB m b = Some (b', out) -> deliverB (mkNet a b qa (m :: q)) = Some (mkNet a b' (qa ++ out) q).
Proof. intros H. unfold deliverB. cbn [toB endB]. by rewrite H. Qed.
End Net.
Arguments mkNet {_ _ _} _ _ _ _.
Arguments net : clear implicits.

(** ** The link *)

Section Link.
Context {D : Digests} {B : Des} {M : Md4}.

(** What an end sent while it handled a frame. *)
Definition sent (l l' : link) : list bytes := drop (length (frames l)) (frames l').

Definition client_step (rnd : option bytes) (frame : bytes) (s : Session) : option (Session * list bytes) :=
  let s' := PppSession.Receive frame rnd s in Some (s', sent (PppSession.lnk s) (PppSession.lnk s')).

Definition server_step (rnd : option bytes) (frame : bytes) (s : ServerSession) : option (ServerSession * list bytes) :=
  s' ← PppServer.Receive frame rnd s; Some (s', sent (PppServer.lnk s) (PppServer.lnk s')).

Definition fresh_link : link := mkLink (fun _ => true) 0 [] [].

Definition bring_up (c : ServerConfig) (user pass cmagic smagic : bytes) : net Session ServerSession bytes :=
  let s := PppSession.Start (PppSession.New user pass cmagic fresh_link) in
  let t := PppServer.Start (NewServer c smagic fresh_link) in
  mkNet s t (frames (PppServer.lnk t)) (frames (PppSession.lnk s)).

(** ** Reading what the other end wrote *)

Definition packet_frame (p : Z) (pkt : cpPacket) : bytes := encodeFrame p (cp_marshal pkt).

Lemma parse_packet pkt : Z.of_nat (4 + length (cpBody pkt)) < 2 ^ 16 -> parseCP (cp_marshal pkt) = Some pkt.
Proof. intros. rewrite <- (app_nil_r (cp_marshal pkt)). by apply parseCP_marshal. Qed.

Context {DO : DigestsOk D} {BO : DesOk B}.

Lemma length_buildSuccess ac pc user pass nt : length (buildSuccess ac pc user pass nt) = 42%nat.
Proof.
  unfold buildSuccess, AuthenticatorResponse, hexEncode, upperHex. rewrite length_app. set (h := sha1 _). assert (length h = 20%nat) as Hh by apply length_digest. clearbody h.
  do 20 (destruct h as [|? h]; [done|]). by destruct h.
Qed.

Ltac norm := lazy -[encodeFrame decodeFrame cp_marshal parseCP marshalOptions parseOptions be_enc be_dec buildChallenge parseChallenge parseResponse buildResponse response_body
  GenerateNTResponse verifySuccess verifyResponse buildSuccess ipcp_nak learned_dns str deliverA deliverB client_step server_step
  PppSession.handleLCP PppSession.handleCHAP PppSession.handleIPCP PppSession.handleLCPConfigReq
  PppServer.handleLCP PppServer.handleCHAP PppServer.handleIPCP PppServer.handleLCPConfigReq PppServer.handleIPCPConfigReq].
Ltac fits := cbn [cpBody]; unfold response_body, buildChallenge; rewrite ?marshalOptions_cons; change (marshalOptions []) with (@nil Z); cbn [optValue optType];
  rewrite ?length_app, ?length_be_enc, ?length_buildSuccess, ?length_ntResponse, ?length_replicate; try change (length (str _)) with 6%nat; cbn [length]; lia.
Ltac option_sizes := repeat constructor; unfold option_fits; cbn [optValue]; rewrite ?length_be_enc; cbn [length]; lia.
Ltac read_options := cbn [cpBody]; rewrite parseOptions_marshal by option_sizes; norm.
Ltac step_client := eapply nsteps_l; [left; eapply deliverA_eq|norm].
Ltac step_server := eapply nsteps_l; [right; eapply deliverB_eq|norm].
Ltac exec_client := unfold client_step, PppSession.Receive; rewrite decode_encode by (unfold uint; first [lia|done]); norm;
  unfold PppSession.handleLCP, PppSession.handleCHAP, PppSession.handleIPCP; rewrite parse_packet by fits; norm; try unfold PppSession.handleLCPConfigReq.
Ltac exec_ipcp := unfold client_step, PppSession.Receive; rewrite decode_encode by (unfold uint; first [lia|done]); norm;
  unfold PppSession.handleIPCP; rewrite parse_packet by fits; unfold PppSession.adoptIPCPValues; read_options.
Ltac exec_server := unfold server_step, PppServer.Receive; rewrite decode_encode by (unfold uint; first [lia|done]); norm; 
  unfold PppServer.handleLCP, PppServer.handleCHAP, PppServer.handleIPCP; rewrite parse_packet by fits; norm; try unfold PppServer.handleLCPConfigReq; try unfold PppServer.handleIPCPConfigReq.

(** ** What the server assigns *)

Abbreviation unset := [0; 0; 0; 0].

Definition assignable (ip : bytes) : Prop := length ip = 4%nat /\ ip <> unset.

(** The resolvers in the server's Nak. *)
Definition dns_options (dns : list bytes) : list option_ :=
  zip_with mkOption [optPrimaryDNS; optSecondaryDNS] dns.

Lemma ipEq_assignable value ip : assignable ip -> length value = 4%nat -> ipEq value ip = bool_decide (value = ip).
Proof.
  intros [Hl _] Hv. unfold ipEq, To4. rewrite Hl, Hv. cbn [Nat.eqb]. rewrite bool_decide_eq_false_2; [done|]. by intros ->.
Qed.

Lemma nak_address s ip value : ClientIP (PppServer.cfg s) = ip -> assignable ip -> length value = 4%nat ->
  ipcp_nak s (mkOption optIPAddress value) = if bool_decide (value = ip) then [] else [mkOption optIPAddress ip].
Proof.
  intros <- Ha Hv. unfold ipcp_nak. cbn [optType optValue Z.eqb Pos.eqb]. rewrite ipEq_assignable by done. unfold To4. rewrite (proj1 Ha). cbn [Nat.eqb]. by case_bool_decide.
Qed.

Lemma nak_resolver s i t value : (i, t) ∈ [(0%nat, optPrimaryDNS); (1%nat, optSecondaryDNS)] -> Forall assignable (DNS (PppServer.cfg s)) -> length value = 4%nat ->
  ipcp_nak s (mkOption t value) = match DNS (PppServer.cfg s) !! i with Some d => if bool_decide (value = d) then [] else [mkOption t d] | None => [] end.
Proof.
  intros Hi Hd Hv. assert (ipcp_nak s (mkOption t value) = if negb (bool_decide (dnsAt i s = [])) && negb (ipEq value (dnsAt i s)) then [mkOption t (To4 (dnsAt i s))] else []) as ->.
  { apply elem_of_cons in Hi as [[= -> ->]|[[= -> ->]|Hi%elem_of_nil]%elem_of_cons]; done. }
  unfold dnsAt. destruct (DNS _ !! i) as [d|] eqn:E; [|done]. change (default [] (Some d)) with d. rewrite Forall_lookup in Hd. specialize (Hd i d E).
  rewrite ipEq_assignable by done. destruct Hd as [Hl _]. rewrite bool_decide_eq_false_2 by (by intros ->). unfold To4. rewrite Hl. cbn [Nat.eqb negb andb]. by case_bool_decide.
Qed.

(** The first request asks for nothing in particular. *)
Lemma first_nak s : assignable (ClientIP (PppServer.cfg s)) -> Forall assignable (DNS (PppServer.cfg s)) ->
  concat (ipcp_nak s <$> [mkOption optIPAddress unset; mkOption optPrimaryDNS unset; mkOption optSecondaryDNS unset]) =
  mkOption optIPAddress (ClientIP (PppServer.cfg s)) :: dns_options (DNS (PppServer.cfg s)).
Proof.
  intros Hc Hd. cbn [fmap list_fmap concat]. rewrite (nak_address s _ unset eq_refl Hc eq_refl), (nak_resolver s 0 _ unset), (nak_resolver s 1 _ unset) by (done || set_solver).
  rewrite bool_decide_eq_false_2 by (intros E; by destruct Hc). destruct (DNS _) as [|d1 [|d2 dns]]; cbn; [done|..]; inversion Hd as [|? ? [_ H1] Hd']; subst.
  - by rewrite bool_decide_eq_false_2.
  - inversion Hd' as [|? ? [_ H2] _]; subst. by rewrite !bool_decide_eq_false_2.
Qed.

(** The second asks for what it was told. *)
Lemma second_nak s : assignable (ClientIP (PppServer.cfg s)) -> Forall assignable (DNS (PppServer.cfg s)) ->
  concat (ipcp_nak s <$> [mkOption optIPAddress (ClientIP (PppServer.cfg s)); mkOption optPrimaryDNS (default unset (DNS (PppServer.cfg s) !! 0%nat));
                          mkOption optSecondaryDNS (default unset (DNS (PppServer.cfg s) !! 1%nat))]) = [].
Proof.
  intros Hc Hd. assert (forall i, length (default unset (DNS (PppServer.cfg s) !! i)) = 4%nat) as Hl.
  { intros i. destruct (_ !! i) as [d|] eqn:E; [|done]. rewrite Forall_lookup in Hd. by destruct (Hd i d E). }
  cbn [fmap list_fmap concat]. rewrite (nak_address s _ _ eq_refl Hc (proj1 Hc)), (nak_resolver s 0 _ _), (nak_resolver s 1 _ _) by (done || set_solver).
  rewrite bool_decide_eq_true_2 by done. destruct (_ !! 0%nat), (_ !! 1%nat); by rewrite ?bool_decide_eq_true_2 by done.
Qed.

Lemma learned_assignable d : assignable d -> learned_dns (Some d) = [d].
Proof. intros [_ H]. unfold learned_dns. by rewrite bool_decide_eq_false_2. Qed.

(** ** The run *)

Lemma assignable_octets ip : assignable ip -> exists a b c d, ip = [a; b; c; d].
Proof. intros [H _]. destruct ip as [|a [|b [|c [|d [|]]]]]; try done. by exists a, b, c, d. Qed.

Record office_ok (c : ServerConfig) (auth : bytes -> option bytes) : Prop := {
  ok_client : assignable (ClientIP c); ok_server : length (ServerIP c) = 4%nat; ok_dns : Forall assignable (DNS c); ok_auth : Auth c = Some auth; ok_asks : NoAuth c = false }.

Record online (c : ServerConfig) (user pass nt : bytes) (x : net Session ServerSession bytes) : Prop := {
  on_client : PppSession.ph (endA x) = phaseUp; on_server : PppServer.ph (endB x) = phaseUp;
  on_client_events : events (PppSession.lnk (endA x)) = [Authenticated user pass nt; NetworkUp (Some (mkIPConfig (ClientIP c) (ServerIP c) (take 2 (DNS c))))];
  on_server_events : events (PppServer.lnk (endB x)) = [Authenticated user pass nt; NetworkUp None] }.

(** The thirteen deliveries: LCP, the challenge and its answer, and IPCP with one Nak. *)
Ltac negotiate Ha :=
  step_server; [exec_server; read_options; reflexivity|];
  step_client; [exec_client; read_options; reflexivity|];
  step_client; [exec_client; reflexivity|];
  step_server; [exec_server; reflexivity|];
  step_client; [exec_client; rewrite parseChallenge_build by done; norm; rewrite buildResponse_eq by done; norm; reflexivity|];
  step_server; [exec_server; cbn [cpBody]; rewrite parseResponse_build by (done || apply length_ntResponse); norm; rewrite Ha; norm;
                unfold verifyResponse; rewrite bool_decide_eq_true_2 by done; norm; reflexivity|];
  step_client; [exec_client; rewrite verifySuccess_build; norm; reflexivity|];
  step_client; [exec_ipcp; reflexivity|];
  step_server; [exec_server; cbn [cpBody]; rewrite parseOptions_marshal by option_sizes; cbv beta iota; rewrite first_nak by done; norm; reflexivity|];
  step_server; [exec_server; reflexivity|];
  step_client; [exec_ipcp; reflexivity|];
  step_server; [exec_server; cbn [cpBody]; rewrite parseOptions_marshal by option_sizes; cbv beta iota;
                match goal with |- context [concat (ipcp_nak ?s <$> ?o)] => replace (concat (ipcp_nak s <$> o)) with (@nil option_) by (symmetry; by apply (second_nak s)) end; norm; reflexivity|];
  step_client; [exec_client; reflexivity|];
  apply nsteps_O.

Lemma negotiates c user pass cmagic smagic ch pc auth :
  office_ok c auth -> auth user = Some pass -> length ch = 16%nat -> length pc = 16%nat -> Z.of_nat (length user) < 65000 ->
  exists z, nsteps (net_step (client_step (Some pc)) (server_step (Some ch))) 13 (bring_up c user pass cmagic smagic) z /\ quiet z /\ online c user pass (GenerateNTResponse ch pc user pass) z.
Proof.
  intros [Hc Hs Hd Hau Hno] Ha Hch Hpc Hu. destruct c as [cip sip dns au no]. cbn in Hc, Hs, Hd, Hau, Hno. subst au no.
  destruct (assignable_octets cip Hc) as (c1 & c2 & c3 & c4 & ->). destruct sip as [|s1 [|s2 [|s3 [|s4 [|]]]]]; try done.
  pose proof Hd as Hd'. destruct dns as [|d1 [|d2 dns]];
    [|apply Forall_cons in Hd as [Hd1 _]; destruct (assignable_octets d1 Hd1) as (? & ? & ? & ? & ->)
     |apply Forall_cons in Hd as [Hd1 [Hd2 _]%Forall_cons]; destruct (assignable_octets d1 Hd1) as (? & ? & ? & ? & ->), (assignable_octets d2 Hd2) as (? & ? & ? & ? & ->)].
  all: unfold bring_up; norm; eexists; split; [negotiate Ha|split; [done|split; [done|done| |done]]].
  all: cbn [endA PppSession.lnk events]; rewrite ?learned_assignable by done; done.
Qed.

(** C4: PPP comes up, whatever the schedule.  For a server that assigns proper addresses
    and a client whose password it knows, over two reliable ordered channels: however
    deliveries to the two ends interleave, at most thirteen are possible, every run
    extends to one of thirteen, and the state it then reaches is the same one.  In it
    nothing is left to deliver, both ends are up and each has reported the
    authentication and the network once, in that order; the client has the address
    the server assigns, the server's own address as its peer and the first two resolvers. *)
Theorem ppp_bring_up (c : ServerConfig) (auth : bytes -> option bytes) (user pass cmagic smagic ch pc : bytes) :
  office_ok c auth -> auth user = Some pass -> length ch = 16%nat -> length pc = 16%nat -> Z.of_nat (length user) < 65000 ->
  let step := net_step (client_step (Some pc)) (server_step (Some ch)) in
  exists z, quiet z /\ online c user pass (GenerateNTResponse ch pc user pass) z /\
    forall k y, nsteps step k (bring_up c user pass cmagic smagic) y -> (k <= 13)%nat /\ nsteps step (13 - k) y z.
Proof.
  intros Hc Ha Hch Hpc Hu. cbv zeta. destruct (negotiates c user pass cmagic smagic ch pc auth Hc Ha Hch Hpc Hu) as (z & Hr & Hq & Ho).
  exists z. split_and!; [done|done|]. intros k y Hk. by eapply every_run_joins.
Qed.
End Link.

Lemma ppp_bring_up_witness :
  exists z : net Session ServerSession bytes, PppSession.ph (endA z) = phaseUp /\ PppServer.ph (endB z) = phaseUp.
Proof.
  destruct (ppp_bring_up (D := toy_digests) (B := toy_des) (M := own_md4) (DO := toy_digests_ok) (BO := toy_des_ok)
    (mkServerConfig [10; 8; 0; 2] [10; 8; 0; 1] [[9; 9; 9; 9]; [1; 1; 1; 1]] (Some (fun _ => Some (str "secret"))) false) (fun _ => Some (str "secret"))
    (str "alice") (str "secret") [1; 2; 3; 4] [5; 6; 7; 8] (replicate 16 1) (replicate 16 2)) as (z & _ & [H1 H2 _ _] & _);
    [split; [by split|done|by repeat constructor|done|done]|done|done|done|done|]. by exists z.
Defined.
